(* ===== verification/_CoqProject ===== *)
-Q . S2P
Prelude.v
GoStrings.v
GoNet.v
Contracts.v
Float64.v
Flow.v
Trees.v
EbpfMap.v
MapManager.v
Feedback.v
Daemon.v
Monitor.v
XdpInspector.v
Cli.v
Packet.v
Firewall.v
EndToEnd.v
ClosedLoop.v
Liveness.v
Conformance.v
Interference.v
FineGrained.v
Loader.v
