(* ===== verification/Prelude.v ===== *)
(** * AIDA: a verification library

    AIDA filters packets in the kernel (an XDP program in Rust, under
    [src/kernel-space/] with the types of [src/common/]) and is steered by a
    control plane in Go, under [src/user-space/]. This library models both,
    function by function: the nine source files of the control plane, the
    kernel program, the loader, and what they do together, with other processes
    at work on the same maps.

    ** The program

    The kernel program parses each frame, drops the malformed ones, scans and
    land attacks, blocked sources, gated ports and sources over their rate,
    and writes a 24-byte record for each packet it logs into a ring buffer. It
    consults the pinned maps: the reputation trie (blocked prefixes), the port
    gate, the rate limits and a configuration array (log level, dry run). The
    control plane
    - decodes the records ([pkg/types/contracts.go]);
    - in [daemon], aggregates them into 100 ms windows ([pkg/aggregator/flow.go]),
      scores each flow of a window with three decision trees
      ([pkg/inference/trees.go]) and blocks the sources of malicious flows for
      300 s ([pkg/engine/feedback.go]), four goroutines joined by two bounded
      channels ([pkg/engine/daemon.go]);
    - in [monitor], prints them above a severity ([pkg/engine/monitor.go]);
    - in [block], [port] and [status], changes the maps
      ([pkg/engine/map_manager.go]) or shows the network interfaces
      ([pkg/engine/xdp_inspector.go]); [cmd/main.go] is the command line.

    ** The files

    - [Prelude] (this file): machine integers, errors and printed lines, byte
      strings, Go maps, tactics, lemmas on lists, maps and sums.
    - [GoStrings], [GoNet], [Float64]: what the program uses of Go's standard
      library: [strings] and scanning; [net] addresses and prefixes with their
      parsers and printers; [float64] arithmetic on the kernel's binary64
      floats, with the order theory its bounds need.
    - [Contracts]: [contracts.go]. [FlowPacketMeta] and [UnmarshalBinary],
      severities, reasons, actions, [NewLpmKey].
    - [Flow]: [flow.go]. [observe], [port_observe], [Ingest] (its two critical
      sections are [ingest_flow] and [ingest_port]), [flush] (its phases are
      [flush_window], [flush_ports], [flush_shards]), [Run].
    - [Trees]: [trees.go]. [ToFeatureVector], the trees, [Classify].
    - [EbpfMap]: the interface to the [ebpf] package, which is not part of the
      repository: the class [Ebpf] of its operations, the class [EbpfLaws] of
      its documented behaviour, and a simulated kernel that satisfies it.
    - [MapManager]: [map_manager.go], every operation as a function of the
      kernel's state. [None] is the panic of a nil handle.
    - [Feedback]: [feedback.go]. [DiscoverSafeNetworks], [handle],
      [runJanitor] and the loop [fc_Run].
    - [Daemon]: [daemon.go]. The goroutines as one step relation each
      ([main_step], [agg_step], [inf_step], [fc_step], [sig_step]) on a shared
      state; [daemon_step] interleaves them; [RunDaemon] is the function
      around them.
    - [Monitor]: [monitor.go], the read loop and the signal goroutine run against a
      list of events.
    - [XdpInspector]: [xdp_inspector.go].
    - [Cli]: [main.go], the commands over all of the above, with [Sscanf] and
      [tabwriter] as they are used.
    - [Packet]: the kernel program's [cursor.rs] and [parsers/], and the
      well-formed frames they take apart.
    - [Firewall]: the kernel program: [main.rs], [filters/] and the types of
      [common/], from the bytes of a frame and the time to the verdict and the
      new state ([ai_ida_firewall]; its policy is [check_policy], its single
      exit [emit_and_return]). The kernel's helpers are the class [BpfHelpers],
      their documented behaviour [BpfHelperLaws].
    - [EndToEnd]: a command of the control plane, then a packet: the entries
      that [BlockIP] and [BlockPort] write are those [check_policy] reads, and
      the records that [emit_and_return] writes are those [UnmarshalBinary]
      reads.
    - [ClosedLoop]: the daemon and the kernel program: the alert's address on
      its way from the packets to the map, the agreement of the controller's
      records with the map in every state of the daemon, a whole session of
      [RunDaemon], and a scheduler of the daemon's steps ([drain]) on which
      examples are run.
    - [Liveness]: the daemon's own runs after a tick ([own_run], with the alerts
      that the controller handles), and the stages through which a flow goes from its
      shard to the controller ([stage]).
    - [Interference]: the daemon's steps among the map operations of other
      processes ([shared]); the commands of [Cli] as sequences of these operations.
    - [FineGrained]: the controller stopped between the critical sections and the
      kernel calls of [handle] and [runJanitor] ([next_section]), the other
      goroutines and processes moving at each stop ([fine_shared]).
    - [Conformance]: the packets of [tests/traffic_matrix.py] and the cases of
      [contracts_test.go], with the answers they expect; runs whose 5-tuples have few
      packets ([paced]); the order of the firewall's filters.
    - [Loader]: [ebpf-loader/src/main.rs], the start-up and the cleanup
      ([setup], [teardown], [loader_main]), over the class [Aya] of the calls it makes,
      with their documented behaviour [AyaLaws] and a simulated system.

    ** How Go is modelled

    Unsigned integers are [Z] with wrap-around written out ([wrap], [+{64}]). A
    pair of a value and an error is a [result], or a pair where the value
    is used in both cases. A mutable object that no two goroutines share is passed
    and returned; the shared ones are fields of the [daemon] record. [for range]
    over a map visits it in an order given by [MapRange], any function that
    lists the entries, and the theorems hold for all of them. Times are
    nanoseconds and every reading of the clock is an argument. An error
    is its format, its arguments and the error it wraps.

    In [Daemon] a step is one critical section, channel operation or kernel
    call; this is the granularity at which the mutexes let goroutines see each
    other, except that a call of [handle] or [runJanitor] is one step.
    [FineGrained] takes these calls apart in the same way: no other goroutine can tell the
    difference ([sections_atomic]), but other processes can, and what holds among
    them is proved there. A step marked [Env] needs the environment (a record, a tick, a signal), one
    marked [Self] is the program's own.

    ** How the kernel program is modelled

    The target is the little-endian [bpfel]: a field that is loaded as it is
    is the little-endian number of its bytes. A frame is the list of its bytes,
    and a read past its end fails as the verifier requires. The state is what
    one CPU sees: the pinned maps under the names and with the marshalled keys
    the control plane uses, its own part of the per-CPU rate table, the log
    bucket and the ring buffer. The eviction of the rate table, the lookup of
    the trie and the full ring buffer belong to the kernel, so that
    [BpfHelpers] leaves them open.

    ** What the theorems show

    - The daemon: it never panics, its buffers are bounded and it shuts down (a measure
      that every step of its own decreases), whatever other processes do to the maps at any
      point ([fine_daemon_sound]; [daemon_never_panics] and [daemon_shuts_down]
      alone), no interleaving of ingestion and
      flushing loses or repeats a packet ([telemetry_conserved]), its own
      infrastructure is never blocked but on an operator's request
      ([safe_blocked_only_by_command]; [daemon_never_blocks_safe] alone), and the log
      level is restored on every return ([RunDaemon_restores_level]).
    - The feedback loop: every branch of [handle], the sweep, the lifetime of a
      block, that no block is lost track of while the kernel accepts the writes,
      and the case where one is ([failed_reblock_forgets]).
    - The aggregator: it refines an abstract window, the list of accepted packets
      ([Ingest_refines_window], [flush_reports_window]); a flow counts exactly
      its conversation; the shards and trackers are bounded; the streaming
      variance is exact on periodic traffic.
    - Inference: what a verdict needs, its label, floods that are caught from
      their packets, and the ones that are not because of the order of the two
      addresses.
    - Maps, codec and command line: no handle leaks on any path, round trips of
      the record, of levels and of map entries, totality of the parsers, the
      lines the monitor prints, the truth of what the commands say.
    - The closed loop: a flood seen by the firewall ends with its source dropped
      by the firewall ([flood_stopped]), and once its window has ended the goroutines
      get there by themselves, in any order, in a bounded number of steps
      ([flood_answered]); what the controller tracks is dropped, in every state of
      the daemon, stopped anywhere, among the commands of other processes
      ([tracked_stopped_at_every_section]; [tracked_sources_stopped] alone); a session
      leaves the maps as they were but for its blocks, and has no goroutine running but the
      signal handler at its last step ([RunDaemon_session]).
    - The processes that share the maps: each command is one of the operations the
      daemon is proved sound against ([commands_operations]); a monitor
      that ends blinds a running daemon ([monitor_blinds_daemon]); the daemon takes an
      operator's block over when an alert names its address, and lifts it ([operator_block_lifted]).
    - The loader: what each of its paths leaves pinned and attached
      ([loader_outcome]), and what two of them do to each other
      ([second_loader_takes_over]).
    - The tests: the firewall's verdict on each packet of the traffic matrix, and exactly when it
      is the expected one ([traffic_matrix_kernel_layer]); traffic with fewer than 20 packets per 5-tuple is never
      blocked ([sparse_traffic_never_blocked]), as the matrix expects of its
      probes and scrapes, and against what it expects of its attacker
      ([traffic_matrix_daemon_layer]).
    - The kernel program and the control plane together: after a successful
      [BlockIP] of an address every unfragmented packet from it is dropped
      ([blocked_source_dropped]), after [BlockPort] every connection request to
      the port ([blocked_port_dropped]); the record of a packet, read back by the
      control plane, has its addresses, ports, flags and verdict
      ([record_read_back]); on any frame the record decodes, each field in its
      type ([any_record_decodes]), and never contradicts the verdict
      ([firewall_truthful]); a frame meets the limiter at most once, and what a filter objects to
      spends no token ([filters_before_limiter]); no source gets more than its burst and its rate
      ([rate_limit_bound]).

    ** Bounds and fuel

    [v6_loop] runs with fuel 8, one unit per group of an IPv6 address, and each
    turn of Go's loop writes one group or two, so that it never runs out on an
    address the parser accepts; [v6_groups], [zero_run] and [lead_ones] have
    the 8 groups or the 8 bits they scan as fuel. Everything else is structurally
    recursive. Theorems about 64-bit counters assume fewer than 2^64 packets
    in a window, and those about port trackers fewer than 2^32. The runs of
    [Liveness] are bounded by [measure]; its flood fits in the output channel of
    4096 vectors, which drops what does not ([emit]).

    ** Not modelled

    - Of the kernel program: its IPv6 parser is
      modelled but, as in the code, not called. The other CPUs: the rate table is per
      CPU, so that a source has a bucket on each ([rate_limit_bound] is about
      one), and the log bucket is one array entry that all CPUs write without a lock.
      Of the loader: the parsing of its options,
      its log lines, and the text that the Rust runtime prints of an error that [main] returns. The maps that the control plane opens are named by their
      paths: that a path still leads to the firewall's own map is what [Loader]
      is about, and a premise elsewhere.
    - A second daemon beside the first: it is none of the operations [map_op] of the other
      processes but [OpForeign], which the theorems about tracked and safe addresses
      exclude.
    - Third-party packages: [ebpf] is the parameter above; the ring-buffer
      reader's and netlink's answers are inputs; cobra only picks the command.
    - Test equipment (the generator and the sniffer around the packets that
      [Conformance] takes from the traffic matrix), shell scripts and packaging.
    - [math.Exp], [Exp2] and [Log2] are the parameter [GoMath], with the laws
      [GoMathLaws]. Go may fuse a multiplication and an addition on some
      platforms; the model rounds each operation, as Go does on amd64.
    - The logging lines of the goroutines, apart from those of [Monitor] and
      the reports of [Feedback]; the final newline of a printed line; the hooks
      of the controller, which the program never sets, are the reports' names.
    - A route is taken to be the default one when its destination is nil, as in
      the code; whether netlink reports it so depends on its version.
    - Text handled by [strings] is taken to be ASCII, and the cells of the status
      table valid UTF-8. *)

From stdpp Require Export base list gmap strings sorting.
From stdpp Require Export pretty.
From Stdlib Require Export ZArith Lia.
From Stdlib Require Ascii.
#[global] Open Scope Z_scope.

(** ** Machine integers

    A [w]-bit unsigned integer is a [Z] in [0, 2^w).  Go arithmetic on
    unsigned types wraps, which [wrap] writes out. *)

Definition wrap (w x : Z) : Z := x mod 2 ^ w.
Definition in_u (w x : Z) : Prop := 0 <= x < 2 ^ w.

Declare Scope go_scope.
Delimit Scope go_scope with go.
Notation "x '+{' w '}' y" := (wrap w (x + y)) (at level 50, w at level 0, left associativity) : go_scope.
Notation "x '-{' w '}' y" := (wrap w (x - y)) (at level 50, w at level 0, left associativity) : go_scope.
Notation "x '*{' w '}' y" := (wrap w (x * y)) (at level 40, w at level 0, left associativity) : go_scope.
#[global] Open Scope go_scope.

(** ** Errors

    A Go error value made by [fmt.Errorf]: the format string, the arguments
    it was given, and ([ErrorfW]) the error it wraps with [%w]; [Sentinel] is an
    exported error value such as [ebpf.ErrKeyNotExist]. *)

Inductive fmt_arg :=
  | ArgS (s : string)
  | ArgD (n : Z).

Inductive error :=
  | Sentinel (name : string)
  | Errorf (format : string) (args : list fmt_arg)
  | ErrorfW (format : string) (args : list fmt_arg) (wrapped : error).

#[global] Instance fmt_arg_eq_dec : EqDecision fmt_arg.
Proof. solve_decision. Defined.

#[global] Instance error_eq_dec : EqDecision error.
Proof. solve_decision. Defined.

(** [errors.Is err target] for a sentinel target: some error of the [%w]
    chain is the sentinel. *)
Fixpoint errors_Is (e : error) (target : string) : bool :=
  match e with
  | Sentinel n => bool_decide (n = target)
  | Errorf _ _ => false
  | ErrorfW _ _ e' => errors_Is e' target
  end.

(** [result A]: a Go pair [(A, error)] whose value is not used when the error
    is not nil. *)
Inductive result (A : Type) :=
  | Ok (a : A)
  | Err (e : error).
Arguments Ok {A} a.
Arguments Err {A} e.

Definition result_bind {A B} (c : result A) (k : A -> result B) : result B :=
  match c with Ok a => k a | Err e => Err e end.
Notation "'let?' x ':=' c 'in' k" := (result_bind c (fun x => k))
  (at level 10, x pattern, c at level 100, k at level 200) : go_scope.

Definition is_Ok {A} (r : result A) : bool :=
  match r with Ok _ => true | Err _ => false end.

(** What the program prints: a telemetry frame's line, [fmt.Println] or
    [fmt.Printf] to the standard output, [fmt.Fprintf] to the standard error.
    A format's last argument may be an error. *)
Inductive printed :=
  | Frame (line : string)
  | Println (s : string)
  | Printf (format : string) (args : list fmt_arg) (err : option error)
  | Eprintf (format : string) (args : list fmt_arg) (err : option error).

(** ["\n"], where a format has one before its end. *)
Definition newline : string := String (Ascii.ascii_of_nat 10) EmptyString.

(** ** Byte strings

    [binary.LittleEndian] and [binary.BigEndian]: a word of [n] bytes as the
    list of its bytes. *)

Fixpoint le_combine (l : list Z) : Z :=
  match l with
  | [] => 0
  | b :: t => b + 256 * le_combine t
  end.

Fixpoint le_split (n : nat) (x : Z) : list Z :=
  match n with
  | O => []
  | S n' => x mod 256 :: le_split n' (x / 256)
  end.

Definition be_combine (l : list Z) : Z := le_combine (rev l).
Definition be_split (n : nat) (x : Z) : list Z := rev (le_split n x).

Definition is_byte (b : Z) : Prop := 0 <= b < 256.
Definition is_bytes (l : list Z) : Prop := Forall is_byte l.

(** A Go slice expression [data[lo:hi]]. *)
Definition slice (data : list Z) (lo hi : nat) : list Z := take (hi - lo) (drop lo data).

(** ** Go maps

    [for k, v := range m] visits the entries of a map once each, in an order
    the language does not fix: a model of it is any function that lists the
    entries of a map, and the theorems hold for all of them. *)
Class MapRange := {
  range_map : forall {K A : Type} `{Countable K}, gmap K A -> list (K * A);
  range_map_perm : forall {K A : Type} `{Countable K} (m : gmap K A), range_map m ≡ₚ map_to_list m
}.

(** One such order, to evaluate examples with. *)
Definition list_order : MapRange :=
  {| range_map K A _ _ m := map_to_list m; range_map_perm K A _ _ m := reflexivity _ |}.

(** ** Decimal printing ([%d] of an unsigned value) *)
Definition itoa (n : Z) : string := pretty (Z.to_N n).

(** ** Tactics *)
Ltac invert H := inversion H; subst; clear H.
Ltac bool_hyps :=
  repeat match goal with
  | H : (_ && _)%bool = true |- _ => apply andb_true_iff in H as [? ?]
  | H : (_ || _)%bool = false |- _ => apply orb_false_iff in H as [? ?]
  | H : negb _ = true |- _ => apply negb_true_iff in H
  | H : negb _ = false |- _ => apply negb_false_iff in H
  | H : bool_decide _ = true |- _ => apply bool_decide_eq_true in H
  | H : bool_decide _ = false |- _ => apply bool_decide_eq_false in H
  end.
(** [lia] with quotients and remainders. *)
Ltac div_lia := Z.div_mod_to_equations; lia.
Ltac case_Z :=
  match goal with
  | |- context [Z.eqb ?a ?b] => destruct (Z.eqb_spec a b)
  | |- context [Z.leb ?a ?b] => destruct (Z.leb_spec a b)
  | |- context [Z.ltb ?a ?b] => destruct (Z.ltb_spec a b)
  end.

(** A list literal of bytes, each a byte by hypothesis. *)
Ltac bytes_t := repeat (apply Forall_cons; split; [assumption|]); apply Forall_nil_2.

(** ** Lemmas *)

Lemma pow2_pos w : 0 < 2 ^ w \/ w < 0.
Proof. destruct (Z.lt_ge_cases w 0); [by right|left; by apply Z.pow_pos_nonneg]. Qed.

Lemma wrap_small w x : in_u w x -> wrap w x = x.
Proof. apply Z.mod_small. Qed.

Lemma wrap_in_u w x : 0 <= w -> in_u w (wrap w x).
Proof. intros ?. apply Z.mod_pos_bound. by apply Z.pow_pos_nonneg. Qed.

Lemma wrap_add_l w x y : wrap w (wrap w x + y) = wrap w (x + y).
Proof. apply Zplus_mod_idemp_l. Qed.

Lemma wrap_add_r w x y : wrap w (x + wrap w y) = wrap w (x + y).
Proof. apply Zplus_mod_idemp_r. Qed.

Lemma length_le_split n x : length (le_split n x) = n.
Proof. revert x. induction n; intros; simpl; auto. Qed.

Lemma length_be_split n x : length (be_split n x) = n.
Proof. unfold be_split. by rewrite length_rev, length_le_split. Qed.

Lemma le_split_bytes n x : is_bytes (le_split n x).
Proof.
  revert x. induction n; intros x; simpl; constructor; [|apply IHn].
  apply Z.mod_pos_bound. lia.
Qed.

Lemma be_split_bytes n x : is_bytes (be_split n x).
Proof. unfold is_bytes, be_split. apply Forall_rev, le_split_bytes. Qed.

Lemma le_combine_split n x : le_combine (le_split n x) = x mod 2 ^ (8 * Z.of_nat n).
Proof.
  revert x. induction n as [|n IH]; intros x; simpl le_split; simpl le_combine.
  { by rewrite Z.mod_1_r. }
  rewrite IH. replace (8 * Z.of_nat (S n)) with (8 + 8 * Z.of_nat n) by lia.
  rewrite Z.pow_add_r by lia. change (2 ^ 8) with 256.
  rewrite Z.rem_mul_r by lia. lia.
Qed.

Lemma le_split_combine l : is_bytes l -> le_split (length l) (le_combine l) = l.
Proof.
  induction 1 as [|b l Hb Hl IH]; simpl; [done|].
  red in Hb. rewrite (Z.mul_comm 256), Z.mod_add, Z.mod_small by lia.
  rewrite Z.div_add, Z.div_small by lia. by rewrite Z.add_0_l, IH.
Qed.

Lemma le_combine_bound l : is_bytes l -> in_u (8 * Z.of_nat (length l)) (le_combine l).
Proof.
  induction 1 as [|b l Hb Hl IH]; simpl length; simpl le_combine; unfold in_u in *; [lia|].
  red in Hb. replace (8 * Z.of_nat (S (length l))) with (8 + 8 * Z.of_nat (length l)) by lia.
  rewrite Z.pow_add_r by lia. change (2 ^ 8) with 256. lia.
Qed.

Lemma be_combine_split n x : be_combine (be_split n x) = x mod 2 ^ (8 * Z.of_nat n).
Proof. unfold be_combine, be_split. rewrite rev_involutive. apply le_combine_split. Qed.

Lemma be_split_combine l : is_bytes l -> be_split (length l) (be_combine l) = l.
Proof.
  intros Hl. unfold be_combine, be_split. rewrite <- (length_rev l), le_split_combine.
  - apply rev_involutive.
  - by apply Forall_rev.
Qed.

(** The same, for a list whose length is given by an equation. *)
Lemma le_split_combine_len n l : length l = n -> is_bytes l -> le_split n (le_combine l) = l.
Proof. intros <-. apply le_split_combine. Qed.

Lemma be_split_combine_len n l : length l = n -> is_bytes l -> be_split n (be_combine l) = l.
Proof. intros <-. apply be_split_combine. Qed.

Lemma be_combine_bound l : is_bytes l -> in_u (8 * Z.of_nat (length l)) (be_combine l).
Proof. intros H. unfold be_combine. rewrite <- (length_rev l). by apply le_combine_bound, Forall_rev. Qed.

Lemma slice_app_l l1 l2 n : length l1 = n -> slice (l1 ++ l2) 0 n = l1.
Proof. intros <-. unfold slice. by rewrite Nat.sub_0_r, drop_0, take_app_length. Qed.

Lemma slice_app_r l1 l2 lo hi :
  (length l1 <= lo)%nat ->
  slice (l1 ++ l2) lo hi = slice l2 (lo - length l1) (hi - length l1).
Proof.
  intros H. unfold slice. rewrite drop_app_ge by done. f_equal. lia.
Qed.

Lemma slice_bytes l lo hi : is_bytes l -> is_bytes (slice l lo hi).
Proof. intros. by apply Forall_take, Forall_drop. Qed.

Lemma length_slice l lo hi : (lo <= hi <= length l)%nat -> length (slice l lo hi) = (hi - lo)%nat.
Proof. intros. unfold slice. rewrite length_take, length_drop. lia. Qed.

Lemma length_omap_Some {A B} (f : A -> option B) l :
  (forall x, x ∈ l -> is_Some (f x)) -> length (omap f l) = length l.
Proof.
  induction l as [|x l IH]; intros Hall; simpl; [done|].
  destruct (Hall x) as [y ->]; [apply list_elem_of_here|]. simpl. f_equal. apply IH.
  intros z Hz. apply Hall. by apply list_elem_of_further.
Qed.

(** The sum of a quantity over the entries of a map. *)
Definition sumZ (l : list Z) : Z := foldr Z.add 0 l.
Definition msum {K A} `{Countable K} (f : A -> Z) (m : gmap K A) : Z := sumZ (map (fun kv => f (snd kv)) (map_to_list m)).

Lemma sumZ_perm l l' : l ≡ₚ l' -> sumZ l = sumZ l'.
Proof. unfold sumZ. induction 1; simpl; lia. Qed.

Lemma sumZ_app l l' : sumZ (l ++ l') = sumZ l + sumZ l'.
Proof. unfold sumZ. induction l; simpl; lia. Qed.

Lemma sumZ_nonneg l : Forall (fun x => 0 <= x) l -> 0 <= sumZ l.
Proof. unfold sumZ. induction 1; simpl; lia. Qed.

Section msum.
Context {K A : Type} `{Countable K} (f : A -> Z).
Implicit Types m : gmap K A.

Lemma msum_delete m k v : m !! k = Some v -> msum f m = f v + msum f (delete k m).
Proof.
  intros Hk. unfold msum. by rewrite <- (sumZ_perm _ _ (Permutation_map _ (map_to_list_delete m k v Hk))).
Qed.

Lemma msum_insert m k v :
  msum f (<[k := v]> m) = msum f m - match m !! k with Some v0 => f v0 | None => 0 end + f v.
Proof.
  rewrite (msum_delete (<[k := v]> m) k v) by apply lookup_insert_eq. rewrite delete_insert_eq.
  destruct (m !! k) as [v0|] eqn:E; [rewrite (msum_delete m k v0 E)|rewrite delete_id by done]; lia.
Qed.

Lemma msum_nonneg m : (forall k v, m !! k = Some v -> 0 <= f v) -> 0 <= msum f m.
Proof.
  intros Hm. apply sumZ_nonneg, Forall_forall. intros x Hx.
  apply list_elem_of_fmap in Hx as ([k v] & -> & Hin). apply elem_of_map_to_list in Hin. by apply (Hm k).
Qed.

Lemma msum_range `{MapRange} m : sumZ (map (fun kv => f (snd kv)) (range_map m)) = msum f m.
Proof. apply sumZ_perm, Permutation_map, range_map_perm. Qed.

Lemma msum_empty : msum f (∅ : gmap K A) = 0.
Proof. unfold msum. by rewrite map_to_list_empty. Qed.
End msum.

(** A boolean property of a byte, checked on the 256 bytes. *)
Definition all_bytes : list Z := map Z.of_nat (seq 0 256).
Lemma forall_byte (P : Z -> bool) : forallb P all_bytes = true -> forall b, in_u 8 b -> P b = true.
Proof.
  intros H b Hb. rewrite forallb_forall in H. apply H, in_map_iff.
  exists (Z.to_nat b). unfold in_u in Hb. split; [lia|]. apply in_seq. lia.
Qed.

(** The same for decidable propositions of one byte, and of two. *)
Lemma forall_byte_dec (P : Z -> Prop) `{forall b, Decision (P b)} :
  forallb (fun b => bool_decide (P b)) all_bytes = true -> forall b, in_u 8 b -> P b.
Proof. intros Hall b Hb. by apply (bool_decide_eq_true (P b)), (forall_byte _ Hall). Qed.

Lemma forall_byte2_dec (P : Z -> Z -> Prop) `{forall a b, Decision (P a b)} :
  forallb (fun a => forallb (fun b => bool_decide (P a b)) all_bytes) all_bytes = true ->
  forall a b, in_u 8 a -> in_u 8 b -> P a b.
Proof.
  intros Hall a b Ha Hb. apply (forall_byte_dec (P a)); [|done].
  exact (forall_byte (fun a => forallb (fun b => bool_decide (P a b)) all_bytes) Hall a Ha).
Qed.

(** Decide a goal about one byte, or two, by evaluating it on all of them. *)
Ltac by_bytes :=
  lazymatch goal with
  | |- forall a b, in_u 8 a -> in_u 8 b -> @?P a b => apply (forall_byte2_dec P)
  | |- forall b, in_u 8 b -> @?P b => apply (forall_byte_dec P)
  end; vm_compute; reflexivity.

(** The byte-level facts components use without naming them. *)
Create HintDb aida.
Create Rewrite HintDb aida_words.
#[export] Hint Resolve wrap_in_u le_split_bytes be_split_bytes slice_bytes : aida.
#[export] Hint Rewrite length_le_split length_be_split le_combine_split be_combine_split : aida_words.
