(* ===== verification/GoStrings.v ===== *)
(** * The Go string operations the program calls

    Go's [strings] and [fmt] operations on byte strings: [ToLower],
    [TrimSpace], [Fields], [Join], [IndexByte] and padding, and the scanning
    of decimal digits.  A Go string is a [string] of bytes; the white space
    and case rules are those of the ASCII bytes, which is what the arguments
    of these calls are made of (flag values, resolv.conf, dotted quads). *)

From S2P Require Import Prelude.
From Stdlib Require Import Ascii.

Definition byte_of (c : ascii) : Z := Z.of_N (N_of_ascii c).

Definition is_digit (c : ascii) : bool := (48 <=? byte_of c) && (byte_of c <=? 57).
Definition digit_val (c : ascii) : Z := byte_of c - 48.

(** Tab, newline, vertical tab, form feed, carriage return, space. *)
Definition is_space (c : ascii) : bool :=
  ((9 <=? byte_of c) && (byte_of c <=? 13)) || (byte_of c =? 32).

Definition lower_byte (c : ascii) : ascii :=
  if (65 <=? byte_of c) && (byte_of c <=? 90)
  then ascii_of_N (Z.to_N (byte_of c + 32)) else c.

Fixpoint ToLower (s : string) : string :=
  match s with
  | EmptyString => EmptyString
  | String c s' => String (lower_byte c) (ToLower s')
  end.

Fixpoint TrimLeft (s : string) : string :=
  match s with
  | EmptyString => EmptyString
  | String c s' => if is_space c then TrimLeft s' else s
  end.

Fixpoint all_space (s : string) : bool :=
  match s with
  | EmptyString => true
  | String c s' => is_space c && all_space s'
  end.

Fixpoint TrimRight (s : string) : string :=
  match s with
  | EmptyString => EmptyString
  | String c s' => if all_space s then EmptyString else String c (TrimRight s')
  end.

Definition TrimSpace (s : string) : string := TrimRight (TrimLeft s).

Fixpoint Join (sep : string) (l : list string) : string :=
  match l with
  | [] => ""
  | [s] => s
  | s :: l' => s +:+ sep +:+ Join sep l'
  end.

(** [strings.Fields]: the maximal runs of non-space bytes. *)
Fixpoint fields_go (cur : string) (s : string) : list string :=
  match s with
  | EmptyString => if decide (cur = "") then [] else [String.rev cur]
  | String c s' =>
      if is_space c
      then (if decide (cur = "") then [] else [String.rev cur]) ++ fields_go "" s'
      else fields_go (String c cur) s'
  end.
Definition Fields (s : string) : list string := fields_go "" s.

(** [s[:i], s[i+1:]] around the first byte [c] of [s], if there is one. *)
Fixpoint split_at (c : ascii) (s : string) : option (string * string) :=
  match s with
  | EmptyString => None
  | String d s' =>
      if Ascii.eqb c d then Some (EmptyString, s')
      else match split_at c s' with
           | Some (a, b) => Some (String d a, b)
           | None => None
           end
  end.

(** The lines of a text, without their terminators: [bufio.ScanLines] also
    removes a carriage return at the end of a line, and a text that ends in a
    newline has no empty last line. *)
Fixpoint drop_cr (s : string) : string :=
  match s with
  | EmptyString => EmptyString
  | String c EmptyString => if byte_of c =? 13 then EmptyString else s
  | String c s' => String c (drop_cr s')
  end.

Fixpoint lines_go (cur : string) (s : string) : list string :=
  match s with
  | EmptyString => if decide (cur = "") then [] else [String.rev cur]
  | String c s' =>
      if byte_of c =? 10 then String.rev cur :: lines_go "" s'
      else lines_go (String c cur) s'
  end.
Definition raw_lines (s : string) : list string := lines_go "" s.

(** [bufio.Scanner] stops at the first line that does not fit in its
    64 KiB buffer. *)
Definition maxScanTokenSize : Z := 65536.
Fixpoint scan_lines (l : list string) : list string :=
  match l with
  | [] => []
  | s :: l' => if maxScanTokenSize <=? Z.of_nat (String.length s) then []
               else drop_cr s :: scan_lines l'
  end.
Definition ScanLines (s : string) : list string := scan_lines (raw_lines s).

(** [fmt]'s [%-Ns]: pad with spaces on the right to [n] columns. *)
Fixpoint spaces (n : nat) : string :=
  match n with O => "" | S n' => String " " (spaces n') end.
Definition pad_right (n : nat) (s : string) : string :=
  s +:+ spaces (n - String.length s).

(** ** Lemmas *)

Lemma string_app_cons c (a b : string) : String c a +:+ b = String c (a +:+ b).
Proof. reflexivity. Qed.

Lemma string_app_nil_l (b : string) : "" +:+ b = b.
Proof. reflexivity. Qed.

Lemma string_app_nil_r (s : string) : s +:+ "" = s.
Proof. induction s as [|c s IH]; [done|]. by rewrite string_app_cons, IH. Qed.

Lemma string_app_assoc (a b c : string) : (a +:+ b) +:+ c = a +:+ b +:+ c.
Proof. induction a as [|x a IH]; [done|]. by rewrite !string_app_cons, IH. Qed.

Lemma string_length_app (a b : string) :
  String.length (a +:+ b) = (String.length a + String.length b)%nat.
Proof. induction a as [|x a IH]; [done|]. rewrite string_app_cons. simpl. by rewrite IH. Qed.

Lemma ToLower_app a b : ToLower (a +:+ b) = ToLower a +:+ ToLower b.
Proof. induction a as [|x a IH]; [done|]. rewrite string_app_cons. simpl. by rewrite IH, string_app_cons. Qed.

Lemma byte_of_bounds c : 0 <= byte_of c < 256.
Proof. unfold byte_of. pose proof (N_ascii_bounded c). lia. Qed.

Lemma lower_byte_idemp c : lower_byte (lower_byte c) = lower_byte c.
Proof. destruct c as [[] [] [] [] [] [] [] []]; vm_compute; reflexivity. Qed.

Lemma ToLower_idemp s : ToLower (ToLower s) = ToLower s.
Proof. induction s; simpl; [done|]. by rewrite lower_byte_idemp, IHs. Qed.

Lemma lower_byte_space c : is_space (lower_byte c) = is_space c.
Proof. destruct c as [[] [] [] [] [] [] [] []]; vm_compute; reflexivity. Qed.

Lemma all_space_ToLower s : all_space (ToLower s) = all_space s.
Proof. induction s; simpl; [done|]. by rewrite lower_byte_space, IHs. Qed.

Lemma TrimSpace_ToLower s : TrimSpace (ToLower s) = ToLower (TrimSpace s).
Proof.
  unfold TrimSpace. assert (Hl : TrimLeft (ToLower s) = ToLower (TrimLeft s)).
  { induction s as [|c s IH]; simpl; [done|]. rewrite lower_byte_space. by destruct (is_space c). }
  rewrite Hl. generalize (TrimLeft s). clear. intros s.
  induction s as [|c s IH]; simpl; [done|].
  rewrite lower_byte_space, all_space_ToLower, IH. by destruct (_ && _).
Qed.

Lemma split_at_Some c s a b : split_at c s = Some (a, b) -> s = a +:+ String c b.
Proof.
  revert a b. induction s as [|d s IH]; simpl; intros a b H; [done|].
  destruct (Ascii.eqb_spec c d) as [->|]; [by simplify_eq|].
  destruct (split_at c s) as [[a' b']|]; [|done]. simplify_eq. by rewrite string_app_cons, <- (IH a' b).
Qed.

Fixpoint has_byte (c : ascii) (s : string) : bool :=
  match s with
  | EmptyString => false
  | String d s' => Ascii.eqb c d || has_byte c s'
  end.

Lemma split_at_app c a b : has_byte c a = false -> split_at c (a +:+ String c b) = Some (a, b).
Proof.
  induction a as [|d a IH]; simpl; intros H.
  - change (split_at c (String c b) = Some ("", b)). simpl. by rewrite Ascii.eqb_refl.
  - change (split_at c (String d (a +:+ String c b)) = Some (String d a, b)). simpl. apply orb_false_iff in H as [-> H]. by rewrite IH.
Qed.

Lemma split_at_None c s : has_byte c s = false -> split_at c s = None.
Proof.
  induction s as [|d s IH]; simpl; intros H; [done|].
  apply orb_false_iff in H as [-> H]. by rewrite IH.
Qed.

Lemma has_byte_app c a b : has_byte c (a +:+ b) = has_byte c a || has_byte c b.
Proof. induction a as [|x a IH]; [done|]. rewrite string_app_cons. simpl. by rewrite IH, orb_assoc. Qed.

Lemma pad_right_length n s : (n <= String.length (pad_right n s))%nat.
Proof.
  unfold pad_right. rewrite string_length_app.
  assert (Hs : forall k, String.length (spaces k) = k) by (induction k; simpl; auto).
  rewrite Hs. lia.
Qed.

(** ** Printed numbers

    [itoa] and the scanning of digits, by induction on the number of digits. *)

Definition starts_digit (s : string) : bool := match s with String c _ => is_digit c | EmptyString => false end.

Lemma pretty_char (d : N) :
  (d < 10)%N -> is_digit (pretty_N_char d) = true /\ digit_val (pretty_N_char d) = Z.of_N d.
Proof.
  intros Hd. assert (d = 0 \/ d = 1 \/ d = 2 \/ d = 3 \/ d = 4 \/ d = 5 \/ d = 6 \/ d = 7 \/ d = 8 \/ d = 9)%N as Hcase by lia.
  repeat destruct Hcase as [-> | Hcase]; [..|subst]; vm_compute; done.
Qed.

Lemma pretty_go_ind (P : N -> string -> Prop) :
  (forall s, P 0%N s) ->
  (forall x s, (0 < x)%N -> P (x / 10)%N (String (pretty_N_char (x mod 10)) s) -> P x s) ->
  forall x s, P x s.
Proof.
  intros H0 Hs x. induction (N.lt_wf_0 x) as [x _ IH]. intros s.
  destruct (N.eq_dec x 0) as [->|Hx]; [apply H0|]. apply Hs; [lia|]. apply IH. apply N.div_lt; lia.
Qed.

Lemma pretty_go_app x s t : pretty_N_go x s +:+ t = pretty_N_go x (s +:+ t).
Proof.
  revert x s. refine (pretty_go_ind _ _ _).
  - intros s. by rewrite !pretty_N_go_0.
  - intros x s Hx IH. by rewrite !(pretty_N_go_step x) by done.
Qed.

Lemma pretty_go_starts x s : (0 < x)%N \/ starts_digit s = true -> starts_digit (pretty_N_go x s) = true.
Proof.
  revert x s. refine (pretty_go_ind _ _ _).
  - intros s [Hx|Hs]; [lia|]. by rewrite pretty_N_go_0.
  - intros x s Hx IH _. rewrite pretty_N_go_step by done. apply IH. right. simpl.
    by apply pretty_char, N.mod_lt.
Qed.

Lemma itoa_go n : 0 < n -> itoa n = pretty_N_go (Z.to_N n) "".
Proof.
  intros Hn. unfold itoa, pretty, pretty_N. destruct (decide (Z.to_N n = 0%N)); [lia|done].
Qed.

Lemma itoa_starts_digit n t : 0 <= n -> starts_digit (itoa n +:+ t) = true.
Proof.
  intros Hn. destruct (decide (n = 0)) as [->|Hne]; [done|].
  rewrite itoa_go, pretty_go_app by lia. apply pretty_go_starts. left. lia.
Qed.
