(* ===== verification/GoNet.v ===== *)
(** * Go's [net] addresses

    The part of the standard library's [net] (and the [net/netip] parsers
    under it) the program relies on: [ParseIP], [ParseCIDR], [IP.To4],
    [IP.String], [IPMask.Size] and [IPNet.Contains].  An [IP] is the slice of
    its bytes: 4 or 16 of them, and none for Go's nil. *)

From S2P Require Import Prelude GoStrings.
From Stdlib Require Import Ascii.

Abbreviation IP := (list Z) (only parsing).
Abbreviation IPMask := (list Z) (only parsing).

Record IPNet := mkIPNet { ipn_IP : IP; ipn_Mask : IPMask }.

#[global] Instance IPNet_eq_dec : EqDecision IPNet.
Proof. solve_decision. Defined.

Definition v4InV6Prefix : list Z := [0;0;0;0;0;0;0;0;0;0;255;255].

Definition IPv4 (a b c d : Z) : IP := v4InV6Prefix ++ [a; b; c; d].

(** [IP.To4]; the empty list is nil. *)
Definition To4 (ip : IP) : IP :=
  if decide (length ip = 4%nat) then ip
  else if decide (length ip = 16%nat /\ take 12 ip = v4InV6Prefix) then drop 12 ip
  else [].

(** ** Parsing *)

Inductive Addr :=
  | Addr4 (b : list Z)
  | Addr6 (b : list Z) (zone : string).

(** The loop state of netip's [parseIPv4]: the bytes stored so far, the value
    and the number of digits of the current one, and whether the previous
    byte is a dot or there is none. *)
Record p4 := mkP4 { p4_fields : list Z; p4_val : Z; p4_digLen : Z; p4_nodigit : bool }.

Definition p4_digit (st : p4) (c : ascii) : option p4 :=
  if (p4_digLen st =? 1) && (p4_val st =? 0) then None
  else
    let v := p4_val st * 10 + digit_val c in
    if 255 <? v then None
    else Some (mkP4 (p4_fields st) v (p4_digLen st + 1) false).

Fixpoint parseIPv4_loop (st : p4) (s : string) : option (list Z) :=
  match s with
  | EmptyString =>
      if (length (p4_fields st) <? 3)%nat then None
      else Some (p4_fields st ++ [p4_val st])
  | String c s' =>
      if is_digit c then
        match p4_digit st c with
        | Some st' => parseIPv4_loop st' s'
        | None => None
        end
      else if byte_of c =? 46 then
        if p4_nodigit st || bool_decide (s' = "") then None
        else if (length (p4_fields st) =? 3)%nat then None
        else parseIPv4_loop (mkP4 (p4_fields st ++ [p4_val st]) 0 0 true) s'
      else None
  end.

Definition p4_init : p4 := mkP4 [] 0 0 true.
Definition parseIPv4 (s : string) : option (list Z) := parseIPv4_loop p4_init s.

Definition hex_val (c : ascii) : option Z :=
  let b := byte_of c in
  if (48 <=? b) && (b <=? 57) then Some (b - 48)
  else if (97 <=? b) && (b <=? 102) then Some (b - 87)
  else if (65 <=? b) && (b <=? 70) then Some (b - 55)
  else None.

(** One group of hex digits: its length, its value and the rest. *)
Fixpoint hex_group (off : nat) (acc : Z) (s : string) : option (nat * Z * string) :=
  match s with
  | EmptyString => Some (off, acc, s)
  | String c s' =>
      match hex_val c with
      | None => Some (off, acc, s)
      | Some d =>
          let acc' := acc * 16 + d in
          if (3 <? off)%nat then None
          else if 65535 <? acc' then None
          else hex_group (S off) acc' s'
      end
  end.

Definition head_is (b : Z) (s : string) : bool :=
  match s with String c _ => byte_of c =? b | EmptyString => false end.
Definition tail (s : string) : string :=
  match s with String _ s' => s' | EmptyString => EmptyString end.

(** After the loop: the whole text is used, and the ellipsis is expanded. *)
Definition v6_finish (acc : list Z) (ell : option nat) (s : string) : option (list Z) :=
  if bool_decide (s <> "") then None
  else if (length acc <? 16)%nat then
    match ell with
    | None => None
    | Some e => Some (take e acc ++ replicate (16 - length acc) 0 ++ drop e acc)
    end
  else if bool_decide (ell <> None) then None else Some acc.

(** At most eight groups are read ([i] goes from 0 to 16 by 2). *)
Fixpoint v6_loop (fuel : nat) (acc : list Z) (ell : option nat) (s : string) : option (list Z) :=
  match fuel with
  | O => v6_finish acc ell s
  | S fuel' =>
      match hex_group 0 0 s with
      | None => None
      | Some (off, v, rest) =>
          if (off =? 0)%nat then None
          else if head_is 46 rest then
            if bool_decide (ell = None) && negb (length acc =? 12)%nat then None
            else if (16 <? length acc + 4)%nat then None
            else match parseIPv4 s with
                 | None => None
                 | Some b => v6_finish (acc ++ b) ell ""
                 end
          else
            let acc' := acc ++ [Z.shiftr v 8; v mod 256] in
            if bool_decide (rest = "") then v6_finish acc' ell rest
            else if negb (head_is 58 rest) then None
            else if bool_decide (tail rest = "") then None
            else
              let s1 := tail rest in
              if head_is 58 s1 then
                if bool_decide (ell <> None) then None
                else
                  let s2 := tail s1 in
                  if bool_decide (s2 = "") then v6_finish acc' (Some (length acc')) s2
                  else v6_loop fuel' acc' (Some (length acc')) s2
              else v6_loop fuel' acc' ell s1
      end
  end.

Definition parseIPv6 (text : string) : option Addr :=
  let zs := match split_at "%" text with
            | Some (s, z) => if bool_decide (z = "") then None else Some (s, z)
            | None => Some (text, "")
            end in
  match zs with
  | None => None
  | Some (s, zone) =>
      let lead := head_is 58 s && head_is 58 (tail s) in
      if lead && bool_decide (tail (tail s) = "") then Some (Addr6 (replicate 16 0) zone)
      else
        let r := if lead then v6_loop 8 [] (Some 0%nat) (tail (tail s)) else v6_loop 8 [] None s in
        match r with Some b => Some (Addr6 b zone) | None => None end
  end.

(** netip's [ParseAddr]: the first of [.], [:], [%] chooses the family. *)
Fixpoint parseAddr_go (whole s : string) : option Addr :=
  match s with
  | EmptyString => None
  | String c s' =>
      if byte_of c =? 46 then option_map Addr4 (parseIPv4 whole)
      else if byte_of c =? 58 then parseIPv6 whole
      else if byte_of c =? 37 then None
      else parseAddr_go whole s'
  end.
Definition ParseAddr (s : string) : option Addr := parseAddr_go s s.

Definition As16 (a : Addr) : list Z :=
  match a with Addr4 b => v4InV6Prefix ++ b | Addr6 b _ => b end.
Definition Zone (a : Addr) : string :=
  match a with Addr4 _ => "" | Addr6 _ z => z end.
Definition BitLen (a : Addr) : Z :=
  match a with Addr4 _ => 32 | Addr6 _ _ => 128 end.

(** [net.ParseIP]: the 16-byte form, nil when the text is not an address or
    has a zone. *)
Definition ParseIP (s : string) : IP :=
  match ParseAddr s with
  | Some a => if bool_decide (Zone a = "") then As16 a else []
  | None => []
  end.

(** [dtoi]: decimal digits up to [big]; the value and the number of bytes
    read. *)
Definition big : Z := 16777215.
Fixpoint dtoi_go (n : Z) (i : nat) (s : string) : Z * nat * bool :=
  match s with
  | String c s' =>
      if is_digit c then
        let n' := n * 10 + digit_val c in
        if big <=? n' then (big, i, false) else dtoi_go n' (S i) s'
      else (n, i, (0 <? i)%nat)
  | EmptyString => (n, i, (0 <? i)%nat)
  end.
Definition dtoi (s : string) : Z * nat * bool := dtoi_go 0 0 s.

(** [net.CIDRMask], by bytes. *)
Fixpoint mask_bytes (len : nat) (ones : Z) : IPMask :=
  match len with
  | O => []
  | S len' =>
      if 8 <=? ones then 255 :: mask_bytes len' (ones - 8)
      else (255 - Z.shiftr 255 ones) :: mask_bytes len' 0
  end.
Definition CIDRMask (ones bits : Z) : IPMask :=
  if negb ((bits =? 32) || (bits =? 128)) || (ones <? 0) || (bits <? ones) then []
  else mask_bytes (Z.to_nat (bits / 8)) ones.

Definition and_bytes (a b : list Z) : list Z := zip_with Z.land a b.

(** [IP.Mask]; the mask and the address here have their family's length. *)
Definition IP_Mask (ip : IP) (mask : IPMask) : IP :=
  let mask := if decide (length mask = 16%nat /\ length ip = 4%nat /\ take 12 mask = replicate 12 255)
              then drop 12 mask else mask in
  let ip := if decide (length mask = 4%nat /\ length ip = 16%nat /\ take 12 ip = v4InV6Prefix)
            then drop 12 ip else ip in
  if decide (length ip = length mask) then and_bytes ip mask else [].

Definition ParseCIDR (s : string) : option (IP * IPNet) :=
  match split_at "/" s with
  | None => None
  | Some (addr, mask) =>
      match ParseAddr addr with
      | None => None
      | Some a =>
          if bool_decide (Zone a <> "") then None
          else
            let '(n, i, ok) := dtoi mask in
            if negb ok || negb (i =? String.length mask)%nat || (n <? 0) || (BitLen a <? n) then None
            else
              let m := CIDRMask n (BitLen a) in
              Some (As16 a, mkIPNet (IP_Mask (As16 a) m) m)
      end
  end.

(** ** Masks and membership *)

(** The leading ones of a byte, and what is left after shifting them out. *)
Fixpoint lead_ones (fuel : nat) (v n : Z) : Z * Z :=
  match fuel with
  | O => (n, v)
  | S f => if Z.land v 128 =? 0 then (n, v) else lead_ones f ((2 * v) mod 256) (n + 1)
  end.

Fixpoint simpleMaskLength_go (m : IPMask) (n : Z) : Z :=
  match m with
  | [] => n
  | v :: m' =>
      if v =? 255 then simpleMaskLength_go m' (n + 8)
      else
        let '(n', rest) := lead_ones 8 v n in
        if negb (rest =? 0) then -1
        else if forallb (fun b => b =? 0) m' then n' else -1
  end.

(** [IPMask.Size]: (ones, bits). *)
Definition Size (m : IPMask) : Z * Z :=
  let ones := simpleMaskLength_go m 0 in
  if ones =? -1 then (0, 0) else (ones, 8 * Z.of_nat (length m)).

Definition networkNumberAndMask (n : IPNet) : option (IP * IPMask) :=
  let ip := if bool_decide (To4 (ipn_IP n) = []) then ipn_IP n else To4 (ipn_IP n) in
  if bool_decide (To4 (ipn_IP n) = []) && negb (length ip =? 16)%nat then None
  else
    let m := ipn_Mask n in
    if (length m =? 4)%nat then (if (length ip =? 4)%nat then Some (ip, m) else None)
    else if (length m =? 16)%nat then
      Some (ip, if (length ip =? 4)%nat then drop 12 m else m)
    else None.

Definition Contains (n : IPNet) (ip : IP) : bool :=
  let x := if bool_decide (To4 ip = []) then ip else To4 ip in
  match networkNumberAndMask n with
  | None => bool_decide (x = [])
  | Some (nn, m) =>
      (length x =? length nn)%nat && bool_decide (and_bytes nn m = and_bytes x m)
  end.

(** [IP.IsLoopback]. *)
Definition IsLoopback (ip : IP) : bool :=
  match To4 ip with
  | b :: _ => b =? 127
  | [] => bool_decide (ip = replicate 15 0 ++ [1])
  end.

(** ** Printing *)

Definition dotted (b : list Z) : string := Join "." (map itoa b).

Definition hex_digit (d : Z) : string :=
  String (ascii_of_N (Z.to_N (if d <? 10 then 48 + d else 87 + d))) "".
Definition hex_byte (b : Z) : string := hex_digit (Z.shiftr b 4) +:+ hex_digit (b mod 16).
(** netip's [appendHex]: a 16-bit group without leading zeros. *)
Definition append_hex (x : Z) : string :=
  (if 4096 <=? x then hex_digit (Z.shiftr x 12) else "") +:+
  (if 256 <=? x then hex_digit (Z.shiftr x 8 mod 16) else "") +:+
  (if 16 <=? x then hex_digit (Z.shiftr x 4 mod 16) else "") +:+
  hex_digit (x mod 16).

Definition v6u16 (ip : list Z) (i : nat) : Z :=
  256 * nth (2 * i) ip 0 + nth (2 * i + 1) ip 0.

Fixpoint zero_run (fuel : nat) (ip : list Z) (j : nat) : nat :=
  match fuel with
  | O => j
  | S f => if (j <? 8)%nat && (v6u16 ip j =? 0) then zero_run f ip (S j) else j
  end.

(** The first longest run of at least two zero groups. *)
Definition longest_run (ip : list Z) : nat * nat :=
  fold_left (fun '(zs, ze) i =>
    let j := zero_run 8 ip i in
    let l := (j - i)%nat in
    if (2 <=? l)%nat && (ze - zs <? l)%nat then (i, j) else (zs, ze))
    (seq 0 8) (255%nat, 255%nat).

Fixpoint v6_groups (fuel : nat) (ip : list Z) (zs ze i : nat) : string :=
  match fuel with
  | O => ""
  | S f =>
      if (8 <=? i)%nat then ""
      else if (i =? zs)%nat then
        "::" +:+ (if (8 <=? ze)%nat then ""
                  else append_hex (v6u16 ip ze) +:+ v6_groups f ip zs ze (S ze))
      else (if (0 <? i)%nat then ":" else "") +:+ append_hex (v6u16 ip i) +:+ v6_groups f ip zs ze (S i)
  end.

Definition v6_string (ip : list Z) : string :=
  let '(zs, ze) := longest_run ip in v6_groups 8 ip zs ze 0.

(** [IP.String]. *)
Definition IP_String (ip : IP) : string :=
  if decide (ip = []) then "<nil>"
  else if decide (length ip <> 4%nat /\ length ip <> 16%nat) then "?" +:+ Join "" (map hex_byte ip)
  else if decide (To4 ip = []) then v6_string ip
  else dotted (To4 ip).

(** ** Lemmas *)

Lemma To4_IPv4 a b c d : To4 (IPv4 a b c d) = [a; b; c; d].
Proof. reflexivity. Qed.

Lemma IP_String_IPv4 a b c d : IP_String (IPv4 a b c d) = dotted [a; b; c; d].
Proof. reflexivity. Qed.

(** Reading a run of digits, as a fold over the bytes. *)
Fixpoint p4_digits (st : p4) (s : string) : option p4 :=
  match s with
  | EmptyString => Some st
  | String c s' =>
      if is_digit c then match p4_digit st c with Some st' => p4_digits st' s' | None => None end
      else None
  end.

Lemma parseIPv4_loop_digits st ds st' rest :
  p4_digits st ds = Some st' ->
  parseIPv4_loop st (ds +:+ rest) = parseIPv4_loop st' rest.
Proof.
  revert st. induction ds as [|c ds IH]; simpl; intros st H; [by simplify_eq|].
  destruct (is_digit c); [|done].
  destruct (p4_digit st c); [|done]. by apply IH.
Qed.

(** Every byte, printed and read back, leaves its value in the loop state;
    checked for the 256 bytes. *)
Definition octet_reads (a : Z) : bool :=
  match p4_digits p4_init (itoa a) with
  | Some st => (p4_val st =? a) && negb (p4_nodigit st) && bool_decide (p4_fields st = [])
               && negb (has_byte "." (itoa a)) && negb (has_byte "/" (itoa a))
               && negb (has_byte ":" (itoa a)) && negb (has_byte "%" (itoa a))
               && negb (bool_decide (itoa a = ""))
  | None => false
  end.

Lemma octets_read : forallb octet_reads all_bytes = true.
Proof. vm_compute. reflexivity. Qed.

Lemma octet_reads_all a : is_byte a -> octet_reads a = true.
Proof. intros Ha. by apply (forall_byte octet_reads octets_read). Qed.

Definition add_fields (fs : list Z) (st : p4) : p4 :=
  mkP4 (fs ++ p4_fields st) (p4_val st) (p4_digLen st) (p4_nodigit st).

Lemma p4_digits_fields fs st s :
  p4_digits (add_fields fs st) s = option_map (add_fields fs) (p4_digits st s).
Proof.
  revert st. induction s as [|c s IH]; intros st; simpl; [done|].
  destruct (is_digit c); [|done].
  unfold p4_digit. simpl. destruct (_ && _); [done|]. destruct (255 <? _); [done|].
  rewrite <- IH. reflexivity.
Qed.

Lemma octet_digits fs a :
  is_byte a -> exists n, p4_digits (mkP4 fs 0 0 true) (itoa a) = Some (mkP4 fs a n false).
Proof.
  intros Ha. apply octet_reads_all in Ha. unfold octet_reads in Ha.
  destruct (p4_digits p4_init (itoa a)) as [[f v n nd]|] eqn:E; [|done]. simpl in Ha.
  bool_hyps. subst. exists n.
  replace (mkP4 fs 0 0 true) with (add_fields fs p4_init) by (unfold add_fields; simpl; by rewrite app_nil_r).
  rewrite p4_digits_fields, E. simpl. unfold add_fields. simpl. rewrite app_nil_r.
  f_equal. f_equal. lia.
Qed.

Lemma itoa_no_sep a c : is_byte a -> In c ["."; "/"; ":"; "%"]%char -> has_byte c (itoa a) = false.
Proof.
  intros Ha Hc. apply octet_reads_all in Ha. unfold octet_reads in Ha.
  destruct (p4_digits p4_init (itoa a)); [|done]. bool_hyps.
  simpl in Hc. by destruct Hc as [<-|[<-|[<-|[<-|[]]]]].
Qed.

Lemma itoa_nonempty a : is_byte a -> itoa a <> "".
Proof.
  intros Ha. apply octet_reads_all in Ha. unfold octet_reads in Ha.
  destruct (p4_digits p4_init (itoa a)); [|done]. by bool_hyps.
Qed.

Lemma octet_then_dot fs a rest :
  is_byte a -> (length fs < 3)%nat -> rest <> "" ->
  parseIPv4_loop (mkP4 fs 0 0 true) (itoa a +:+ "." +:+ rest) =
  parseIPv4_loop (mkP4 (fs ++ [a]) 0 0 true) rest.
Proof.
  intros Ha Hfs Hr. destruct (octet_digits fs a Ha) as [n Hn].
  rewrite (parseIPv4_loop_digits _ _ _ _ Hn). simpl.
  rewrite bool_decide_eq_false_2 by done.
  by destruct (Nat.eqb_spec (length fs) 3); [lia|].
Qed.

Lemma octet_last fs a :
  is_byte a -> length fs = 3%nat ->
  parseIPv4_loop (mkP4 fs 0 0 true) (itoa a) = Some (fs ++ [a]).
Proof.
  intros Ha Hfs. destruct (octet_digits fs a Ha) as [n Hn].
  rewrite <- (string_app_nil_r (itoa a)), (parseIPv4_loop_digits _ _ _ _ Hn). simpl.
  by rewrite Hfs.
Qed.

Lemma string_app_nonempty_l a b : a <> "" -> a +:+ b <> "".
Proof. destruct a; [done|]. intros _ H. discriminate H. Qed.

(** Printing four bytes as a dotted quad and parsing it gives them back. *)
Lemma parseIPv4_dotted a b c d :
  is_bytes [a; b; c; d] -> parseIPv4 (dotted [a; b; c; d]) = Some [a; b; c; d].
Proof.
  intros H. repeat (apply Forall_cons in H as [? H]).
  unfold parseIPv4, p4_init, dotted. simpl map. simpl Join.
  rewrite octet_then_dot; [|done|simpl; lia|by apply string_app_nonempty_l, itoa_nonempty].
  rewrite octet_then_dot; [|done|simpl; lia|by apply string_app_nonempty_l, itoa_nonempty].
  rewrite octet_then_dot; [|done|simpl; lia|by apply itoa_nonempty].
  rewrite octet_last; done.
Qed.

(** A text whose first separator is a dot is read as an IPv4 address. *)
Lemma parseAddr_go_digits whole ds rest :
  has_byte "." ds = false -> has_byte ":" ds = false -> has_byte "%" ds = false ->
  parseAddr_go whole (ds +:+ "." +:+ rest) = option_map Addr4 (parseIPv4 whole).
Proof.
  induction ds as [|c ds IH]; intros H1 H2 H3; [done|].
  cbn [has_byte] in H1, H2, H3.
  apply orb_false_iff in H1 as [E1 H1], H2 as [E2 H2], H3 as [E3 H3].
  change (parseAddr_go whole (String c (ds +:+ "." +:+ rest)) = option_map Addr4 (parseIPv4 whole)).
  apply Ascii.eqb_neq in E1, E2, E3.
  assert (Hb : forall d, d <> c -> byte_of c <> byte_of d).
  { intros d Hd Hcd. apply Hd. unfold byte_of in Hcd.
    rewrite <- (ascii_N_embedding d), <- (ascii_N_embedding c). f_equal. lia. }
  pose proof (Hb _ E1). pose proof (Hb _ E2). pose proof (Hb _ E3).
  change (byte_of "." ) with 46 in *. change (byte_of ":") with 58 in *. change (byte_of "%") with 37 in *.
  simpl. repeat (case_Z; [lia|]). by apply IH.
Qed.

Lemma ParseAddr_dotted a b c d :
  is_bytes [a; b; c; d] -> ParseAddr (dotted [a; b; c; d]) = Some (Addr4 [a; b; c; d]).
Proof.
  intros H. unfold ParseAddr. unfold dotted at 2. simpl map. simpl Join.
  assert (Ha : is_byte a) by (by apply Forall_cons in H as [? ?]).
  rewrite parseAddr_go_digits; [|apply itoa_no_sep; simpl; auto..].
  by rewrite parseIPv4_dotted.
Qed.

Lemma has_byte_slash_dotted a b c d : is_bytes [a; b; c; d] -> has_byte "/" (dotted [a; b; c; d]) = false.
Proof.
  intros H. repeat (apply Forall_cons in H as [? H]). unfold dotted. simpl map. simpl Join.
  rewrite !has_byte_app, !itoa_no_sep by (simpl; auto). done.
Qed.

Lemma ParseIP_dotted a b c d : is_bytes [a; b; c; d] -> ParseIP (dotted [a; b; c; d]) = IPv4 a b c d.
Proof. intros H. unfold ParseIP. by rewrite ParseAddr_dotted. Qed.

Lemma ParseCIDR_dotted32 a b c d :
  is_bytes [a; b; c; d] ->
  exists n, ParseCIDR (dotted [a; b; c; d] +:+ "/32") = Some (IPv4 a b c d, n) /\ Size (ipn_Mask n) = (32, 32).
Proof.
  intros H. unfold ParseCIDR. change "/32" with (String "/" "32").
  rewrite split_at_app by by apply has_byte_slash_dotted.
  rewrite ParseAddr_dotted by done. simpl. eexists. split; [reflexivity|]. reflexivity.
Qed.

(** The size of a mask made by [CIDRMask] is the prefix length it was made
    from; checked for every prefix of both families. *)
Lemma Size_CIDRMask_all :
  forallb (fun n => bool_decide (Size (CIDRMask (Z.of_nat n) 32) = (Z.of_nat n, 32))) (seq 0 33)
  && forallb (fun n => bool_decide (Size (CIDRMask (Z.of_nat n) 128) = (Z.of_nat n, 128))) (seq 0 129) = true.
Proof. vm_compute. reflexivity. Qed.

Lemma Size_CIDRMask n bits :
  (bits = 32 \/ bits = 128) -> 0 <= n <= bits -> Size (CIDRMask n bits) = (n, bits).
Proof.
  intros Hb Hn. pose proof Size_CIDRMask_all as H. apply andb_true_iff in H as [H4 H6].
  rewrite forallb_forall in H4, H6.
  rewrite <- (Z2Nat.id n) by lia.
  destruct Hb as [->| ->]; [specialize (H4 (Z.to_nat n))|specialize (H6 (Z.to_nat n))].
  - assert (E : In (Z.to_nat n) (seq 0 33)) by (apply in_seq; lia).
    apply H4 in E. by apply bool_decide_eq_true in E.
  - assert (E : In (Z.to_nat n) (seq 0 129)) by (apply in_seq; lia).
    apply H6 in E. by apply bool_decide_eq_true in E.
Qed.

(** Both families of parsers give addresses of their family's length, made of
    bytes. *)
Lemma parseIPv4_loop_wf st s b :
  is_bytes (p4_fields st) -> is_byte (p4_val st) -> (length (p4_fields st) <= 3)%nat ->
  parseIPv4_loop st s = Some b -> is_bytes b /\ length b = 4%nat.
Proof.
  revert st. induction s as [|c s IH]; simpl; intros st Hf Hv Hl H.
  - destruct (Nat.ltb_spec (length (p4_fields st)) 3); [done|]. simplify_eq.
    split; [apply Forall_app_2; [done|bytes_t]|rewrite length_app; simpl; lia].
  - destruct (is_digit c) eqn:Ed.
    + unfold p4_digit in H. destruct (_ && _); [done|].
      destruct (Z.ltb_spec 255 (p4_val st * 10 + digit_val c)); [done|].
      apply IH in H; [done|done| |done]. simpl. unfold is_digit, digit_val, is_byte in *. lia.
    + destruct (byte_of c =? 46); [|done]. destruct (_ || _); [done|].
      destruct (Nat.eqb_spec (length (p4_fields st)) 3); [done|].
      apply IH in H; [done|..]; simpl.
      * apply Forall_app_2; [done|bytes_t].
      * unfold is_byte; lia.
      * rewrite length_app. simpl. lia.
Qed.

Lemma parseIPv4_wf s b : parseIPv4 s = Some b -> is_bytes b /\ length b = 4%nat.
Proof. apply parseIPv4_loop_wf; simpl; [constructor|unfold is_byte; lia|lia]. Qed.

Lemma hex_group_bound off acc s off' v rest :
  0 <= acc <= 65535 -> hex_group off acc s = Some (off', v, rest) -> 0 <= v <= 65535.
Proof.
  revert off acc. induction s as [|c s IH]; simpl; intros off acc Ha H; [by simplify_eq|].
  destruct (hex_val c) as [d|] eqn:Ed; [|by simplify_eq].
  destruct (3 <? off)%nat; [done|]. destruct (Z.ltb_spec 65535 (acc * 16 + d)); [done|].
  apply IH in H; [done|]. unfold hex_val in Ed. pose proof (byte_of_bounds c).
  repeat case_match; simplify_eq; bool_hyps; lia.
Qed.

Lemma group_bytes v : 0 <= v <= 65535 -> is_bytes [Z.shiftr v 8; v mod 256].
Proof.
  intros Hv. rewrite Z.shiftr_div_pow2 by lia. change (2 ^ 8) with 256.
  assert (is_byte (v / 256)) by (unfold is_byte; div_lia).
  assert (is_byte (v mod 256)) by (unfold is_byte; div_lia). bytes_t.
Qed.

Lemma v6_finish_wf acc ell s b :
  is_bytes acc -> (length acc <= 16)%nat -> v6_finish acc ell s = Some b ->
  is_bytes b /\ length b = 16%nat.
Proof.
  unfold v6_finish. intros Ha Hl H. destruct (bool_decide (s ≠ "")); [done|].
  destruct (Nat.ltb_spec (length acc) 16).
  - destruct ell as [e|]; [|done]. simplify_eq. split.
    + repeat apply Forall_app_2; [by apply Forall_take|apply Forall_replicate; unfold is_byte; lia|by apply Forall_drop].
    + rewrite !length_app, length_take, length_drop, length_replicate. lia.
  - destruct (bool_decide (ell ≠ None)); [done|]. simplify_eq. split; [done|lia].
Qed.

Lemma v6_loop_wf fuel acc ell s b :
  is_bytes acc -> (length acc + 2 * fuel = 16)%nat -> v6_loop fuel acc ell s = Some b ->
  is_bytes b /\ length b = 16%nat.
Proof.
  revert acc ell s. induction fuel as [|fuel IH]; intros acc ell s Ha Hl H; simpl in H.
  { eapply v6_finish_wf; [done| |done]. lia. }
  destruct (hex_group 0 0 s) as [[[off v] rest]|] eqn:Eg; [|done].
  apply hex_group_bound in Eg; [|lia]. apply group_bytes in Eg.
  assert (Ha' : is_bytes (acc ++ [Z.shiftr v 8; v mod 256])) by by apply Forall_app_2.
  assert (Hl' : length (acc ++ [Z.shiftr v 8; v mod 256]) = (length acc + 2)%nat) by (rewrite length_app; done).
  destruct (off =? 0)%nat; [done|]. destruct (head_is 46 rest).
  - destruct (_ && _); [done|]. destruct (Nat.ltb_spec 16 (length acc + 4)); [done|].
    destruct (parseIPv4 s) as [q|] eqn:Eq; [|done]. apply parseIPv4_wf in Eq as [? Hq].
    eapply v6_finish_wf; [| |exact H]; [by apply Forall_app_2|rewrite length_app; lia].
  - repeat case_match; try done; try (eapply v6_finish_wf; [exact Ha'| |exact H]; lia);
      (eapply IH; [exact Ha'| |exact H]; lia).
Qed.

Lemma v4InV6Prefix_bytes : is_bytes v4InV6Prefix.
Proof.
  assert (is_byte 0) by (unfold is_byte; lia). assert (is_byte 255) by (unfold is_byte; lia).
  unfold v4InV6Prefix. bytes_t.
Qed.

(** A text without a colon is no IPv6 address: what it parses to has 32 bits. *)
Lemma ParseAddr_no_colon s a : has_byte ":" s = false -> ParseAddr s = Some a -> BitLen a = 32.
Proof.
  unfold ParseAddr. generalize s at 2 as whole. induction s as [|c s IH]; intros whole Hc H; [done|].
  cbn [has_byte parseAddr_go] in Hc, H. apply orb_false_iff in Hc as [Hc Hs]. apply Ascii.eqb_neq in Hc.
  destruct (byte_of c =? 46); [by destruct (parseIPv4 whole); simplify_eq/=|].
  destruct (Z.eqb_spec (byte_of c) 58) as [E|_]; [|by destruct (byte_of c =? 37); [|apply (IH whole)]].
  destruct Hc. change 58 with (byte_of ":") in E. unfold byte_of in E.
  rewrite <- (ascii_N_embedding c), <- (ascii_N_embedding ":"). f_equal. lia.
Qed.

Lemma ParseAddr_wf s a :
  ParseAddr s = Some a -> is_bytes (As16 a) /\ length (As16 a) = 16%nat.
Proof.
  unfold ParseAddr. generalize s at 1 as whole. induction s as [|c s IH]; intros whole H; [done|].
  simpl in H. destruct (byte_of c =? 46).
  { destruct (parseIPv4 whole) as [b|] eqn:E; simpl in H; simplify_eq. apply parseIPv4_wf in E as [Hb Hl].
    split; [|simpl; lia]. by apply Forall_app_2; [apply v4InV6Prefix_bytes|]. }
  destruct (byte_of c =? 58); [|by destruct (byte_of c =? 37); [|apply (IH whole)]].
  unfold parseIPv6 in H.
  repeat case_match; simplify_eq; simpl;
    try (eapply v6_loop_wf; [apply Forall_nil_2| |eassumption]; reflexivity);
    (split; [apply (Forall_replicate is_byte 16 0); unfold is_byte; lia|done]).
Qed.

Lemma To4_wf ip : is_bytes ip -> To4 ip = [] \/ (is_bytes (To4 ip) /\ length (To4 ip) = 4%nat).
Proof.
  intros H. unfold To4. case_decide as H4; [by right|]. case_decide as H16; [|by left].
  right. split; [by apply Forall_drop|]. rewrite length_drop. lia.
Qed.

Lemma ParseIP_wf s : ParseIP s = [] \/ (is_bytes (ParseIP s) /\ length (ParseIP s) = 16%nat).
Proof.
  unfold ParseIP. destruct (ParseAddr s) as [a|] eqn:E; [|by left].
  apply ParseAddr_wf in E. case_bool_decide; [by right|by left].
Qed.

Lemma ParseCIDR_wf s ip n :
  ParseCIDR s = Some (ip, n) ->
  is_bytes ip /\ exists ones bits, Size (ipn_Mask n) = (ones, bits) /\ 0 <= ones <= bits /\ (bits = 32 \/ bits = 128) /\
    (has_byte ":" s = false -> bits = 32).
Proof.
  unfold ParseCIDR. intros H. destruct (split_at "/" s) as [[addr mask]|] eqn:Es; [|done].
  destruct (ParseAddr addr) as [a|] eqn:Ea; [|done]. pose proof Ea as [Hb _]%ParseAddr_wf.
  case_bool_decide; [done|]. destruct (dtoi mask) as [[k i] ok].
  destruct (negb ok || negb (i =? String.length mask)%nat || (k <? 0) || (BitLen a <? k)) eqn:E; [done|].
  bool_hyps. simplify_eq. split; [done|]. exists k, (BitLen a). simpl.
  assert (Hbits : BitLen a = 32 \/ BitLen a = 128) by (destruct a; simpl; auto).
  rewrite Size_CIDRMask by (done || lia). split_and!; [done|lia|lia|done|].
  intros Hc. apply split_at_Some in Es as ->. rewrite has_byte_app in Hc. apply orb_false_iff in Hc as [Hc _].
  by eapply ParseAddr_no_colon.
Qed.

(** The decimal text of a prefix length is read back whole. *)
Lemma dtoi_prefix n : 0 <= n <= 32 -> dtoi (itoa n) = (n, String.length (itoa n), true).
Proof.
  intros Hn. assert (Hall : forallb (fun i => bool_decide (dtoi (itoa (Z.of_nat i)) = (Z.of_nat i, String.length (itoa (Z.of_nat i)), true)))
    (seq 0 33) = true) by (vm_compute; reflexivity).
  rewrite forallb_forall in Hall. specialize (Hall (Z.to_nat n)). rewrite Z2Nat.id in Hall by lia.
  apply bool_decide_eq_true in Hall; [done|]. apply in_seq. lia.
Qed.

Lemma ParseCIDR_dotted a b c d n :
  is_bytes [a; b; c; d] -> 0 <= n <= 32 ->
  exists net, ParseCIDR (dotted [a; b; c; d] +:+ "/" +:+ itoa n) = Some (IPv4 a b c d, net) /\ Size (ipn_Mask net) = (n, 32).
Proof.
  intros H Hn. unfold ParseCIDR. change ("/" +:+ itoa n) with (String "/" (itoa n)).
  rewrite split_at_app by by apply has_byte_slash_dotted.
  rewrite ParseAddr_dotted by done. simpl Zone. simpl BitLen. rewrite dtoi_prefix, Nat.eqb_refl by done.
  rewrite (proj2 (Z.ltb_ge n 0)), (proj2 (Z.ltb_ge 32 n)) by lia. simpl.
  eexists. split; [reflexivity|]. simpl. apply Size_CIDRMask; lia.
Qed.

(** Without a slash the text is no prefix. *)
Lemma ParseCIDR_no_slash s : has_byte "/" s = false -> ParseCIDR s = None.
Proof. intros H. unfold ParseCIDR. by rewrite split_at_None. Qed.
