(* ===== verification/Contracts.v ===== *)
(** * The shared data contracts ([pkg/types/contracts.go])

    Log severities, drop reasons, XDP actions, the 24-byte telemetry record
    with its decoder, and the LPM trie key of an IPv4 prefix.  The enumerated
    types of the code are named bytes, so any byte is a value of them. *)

From S2P Require Import Prelude GoStrings GoNet.
From Stdlib Require Import Ascii.

(** ** [LogSeverity] *)

Abbreviation LogSeverity := Z (only parsing).
Definition LogLevelOff : LogSeverity := 0.
Definition LogLevelDebug : LogSeverity := 1.
Definition LogLevelInfo : LogSeverity := 2.
Definition LogLevelWarn : LogSeverity := 3.
Definition LogLevelError : LogSeverity := 4.

Definition unknown_level (level : string) : error :=
  Errorf "unknown log level %q (valid options: debug, info, warn, error)" [ArgS level].

(** The value and the error are both returned: the value is used by callers
    only when the error is nil. *)
Definition ParseLogLevel (level : string) : LogSeverity * option error :=
  let s := ToLower (TrimSpace level) in
  if bool_decide (s = "debug") then (LogLevelDebug, None)
  else if bool_decide (s = "info") then (LogLevelInfo, None)
  else if bool_decide (s = "warn") || bool_decide (s = "warning") then (LogLevelWarn, None)
  else if bool_decide (s = "error") then (LogLevelError, None)
  else if bool_decide (s = "off") || bool_decide (s = "none") || bool_decide (s = "disabled")
  then (LogLevelOff, None)
  else (LogLevelOff, Some (unknown_level level)).

Definition LogSeverity_String (s : LogSeverity) : string :=
  if s =? LogLevelDebug then "DEBUG"
  else if s =? LogLevelInfo then "INFO"
  else if s =? LogLevelWarn then "WARN"
  else if s =? LogLevelError then "ERROR"
  else "OFF".

(** The escape byte 033 (octal) of the terminal colour codes. *)
Definition ESC : string := String "027" EmptyString.

Definition ColoredPrefix (s : LogSeverity) : string :=
  if s =? LogLevelDebug then ESC +:+ "[36m[DEBUG]" +:+ ESC +:+ "[0m"
  else if s =? LogLevelInfo then ESC +:+ "[32m[INFO]" +:+ ESC +:+ "[0m "
  else if s =? LogLevelWarn then ESC +:+ "[33m[WARN]" +:+ ESC +:+ "[0m "
  else if s =? LogLevelError then ESC +:+ "[31m[ERROR]" +:+ ESC +:+ "[0m"
  else "[OFF]  ".

(** ** [DropReason] *)

Abbreviation DropReason := Z (only parsing).
Definition DropReasonNone : DropReason := 0.
Definition DropReasonEthParseFailed : DropReason := 1.
Definition DropReasonIpv4ParseFailed : DropReason := 2.
Definition DropReasonTcpParseFailed : DropReason := 3.
Definition DropReasonUdpParseFailed : DropReason := 4.
Definition DropReasonArpParseFailed : DropReason := 5.
Definition DropReasonMalformedPacket : DropReason := 6.
Definition DropReasonRfcLandAttack : DropReason := 10.
Definition DropReasonRfcNullScan : DropReason := 11.
Definition DropReasonRfcSynFin : DropReason := 12.
Definition DropReasonRfcXmasScan : DropReason := 13.
Definition DropReasonBlacklistHit : DropReason := 14.
Definition DropReasonPortBlocked : DropReason := 20.
Definition DropReasonRateLimited : DropReason := 21.

Definition Severity (r : DropReason) : LogSeverity :=
  if (1 <=? r) && (r <=? 9) then LogLevelError
  else if (10 <=? r) && (r <=? 19) then LogLevelWarn
  else if (20 <=? r) && (r <=? 29) then LogLevelInfo
  else LogLevelDebug.

Definition DropReason_String (r : DropReason) : string :=
  if r =? DropReasonNone then "PASS_CLEAN"
  else if r =? DropReasonEthParseFailed then "ERR_ETH_PARSE_FAILED"
  else if r =? DropReasonIpv4ParseFailed then "ERR_IPV4_PARSE_FAILED"
  else if r =? DropReasonTcpParseFailed then "ERR_TCP_PARSE_FAILED"
  else if r =? DropReasonUdpParseFailed then "ERR_UDP_PARSE_FAILED"
  else if r =? DropReasonArpParseFailed then "ERR_ARP_PARSE_FAILED"
  else if r =? DropReasonMalformedPacket then "ERR_MALFORMED_PACKET"
  else if r =? DropReasonRfcLandAttack then "WARN_RFC_LAND_ATTACK"
  else if r =? DropReasonRfcNullScan then "WARN_RFC_NULL_SCAN"
  else if r =? DropReasonRfcSynFin then "WARN_RFC_SYN_FIN_CONFLICT"
  else if r =? DropReasonRfcXmasScan then "WARN_RFC_XMAS_SCAN"
  else if r =? DropReasonBlacklistHit then "WARN_LPM_BLACKLIST_HIT"
  else if r =? DropReasonPortBlocked then "INFO_PORT_GATE_BLOCKED"
  else if r =? DropReasonRateLimited then "INFO_RATE_LIMIT_EXCEEDED"
  else "UNKNOWN_REASON_" +:+ itoa r.

(** ** [Action] *)

Abbreviation Action := Z (only parsing).
Definition ActionDrop : Action := 1.
Definition ActionPass : Action := 2.
Definition ActionTx : Action := 3.
Definition ActionRedirect : Action := 4.
Definition ActionWouldDrop : Action := 5.

Definition Action_String (a : Action) : string :=
  if a =? ActionDrop then "DROP"
  else if a =? ActionPass then "PASS"
  else if a =? ActionTx then "TX"
  else if a =? ActionRedirect then "REDIRECT"
  else if a =? ActionWouldDrop then "WOULD_DROP"
  else "ACTION_" +:+ itoa a.

Definition ColoredBadge (a : Action) : string :=
  if a =? ActionDrop then ESC +:+ "[41;97m DROP " +:+ ESC +:+ "[0m"
  else if a =? ActionPass then ESC +:+ "[42;97m PASS " +:+ ESC +:+ "[0m"
  else if a =? ActionTx then ESC +:+ "[44;97m  TX  " +:+ ESC +:+ "[0m"
  else if a =? ActionRedirect then ESC +:+ "[45;97m RDRT " +:+ ESC +:+ "[0m"
  else if a =? ActionWouldDrop then ESC +:+ "[43;30m WDRP " +:+ ESC +:+ "[0m"
  else "[" +:+ Action_String a +:+ "]".

(** ** [FlowPacketMeta] *)

Record FlowPacketMeta := mkMeta {
  SrcIP : Z;        (* uint32 *)
  DstIP : Z;        (* uint32 *)
  SrcPort : Z;      (* uint16 *)
  DstPort : Z;      (* uint16 *)
  Protocol : Z;     (* uint8 *)
  TCPFlags : Z;     (* uint8 *)
  meta_Action : Z;      (* uint8 *)
  meta_DropReason : Z;  (* uint8 *)
  TimestampNS : Z   (* uint64 *)
}.

#[global] Instance FlowPacketMeta_eq_dec : EqDecision FlowPacketMeta.
Proof. solve_decision. Defined.

Definition zero_meta : FlowPacketMeta := mkMeta 0 0 0 0 0 0 0 0 0.

(** The widths of the fields. *)
Definition meta_ok (m : FlowPacketMeta) : Prop :=
  in_u 32 (SrcIP m) /\ in_u 32 (DstIP m) /\ in_u 16 (SrcPort m) /\ in_u 16 (DstPort m) /\
  in_u 8 (Protocol m) /\ in_u 8 (TCPFlags m) /\ in_u 8 (meta_Action m) /\
  in_u 8 (meta_DropReason m) /\ in_u 64 (TimestampNS m).

Definition short_payload (n : nat) : error :=
  Errorf "invalid telemetry payload size: expected 24 bytes, got %d" [ArgD (Z.of_nat n)].

(** The receiver after the call, and the error: a short payload leaves the
    receiver as it was. *)
Definition UnmarshalBinary (m : FlowPacketMeta) (data : list Z) : FlowPacketMeta * option error :=
  if (length data <? 24)%nat then (m, Some (short_payload (length data)))
  else
    (mkMeta (be_combine (slice data 0 4)) (be_combine (slice data 4 8))
            (le_combine (slice data 8 10)) (le_combine (slice data 10 12))
            (nth 12 data 0) (nth 13 data 0) (nth 14 data 0) (nth 15 data 0)
            (le_combine (slice data 16 24)),
     None).

Definition ip_of_u32 (v : Z) : IP :=
  IPv4 (wrap 8 (Z.shiftr v 24)) (wrap 8 (Z.shiftr v 16)) (wrap 8 (Z.shiftr v 8)) (wrap 8 v).
Definition SrcIPNet (m : FlowPacketMeta) : IP := ip_of_u32 (SrcIP m).
Definition DstIPNet (m : FlowPacketMeta) : IP := ip_of_u32 (DstIP m).

Definition ProtocolName (m : FlowPacketMeta) : string :=
  if Protocol m =? 1 then "ICMP"
  else if Protocol m =? 6 then "TCP"
  else if Protocol m =? 17 then "UDP"
  else if Protocol m =? 58 then "ICMPv6"
  else "IP_" +:+ itoa (Protocol m).

Definition flag_name (flags bit : Z) (name : string) : list string :=
  if negb (Z.land flags bit =? 0) then [name] else [].

Definition TCPFlagsString (m : FlowPacketMeta) : string :=
  if negb (Protocol m =? 6) then "-"
  else
    let f := TCPFlags m in
    let flags := flag_name f 1 "FIN" ++ flag_name f 2 "SYN" ++ flag_name f 4 "RST"
              ++ flag_name f 8 "PSH" ++ flag_name f 16 "ACK" ++ flag_name f 32 "URG" in
    if (length flags =? 0)%nat then "NONE" else Join "|" flags.

(** ** LPM trie keys *)

Record LpmIpv4Key := mkLpmKey { PrefixLen : Z; KeyAddr : list Z }.

#[global] Instance LpmIpv4Key_eq_dec : EqDecision LpmIpv4Key.
Proof. solve_decision. Defined.

Record RateLimitState := mkRateLimitState { LastUpdateNS : Z; Tokens : Z }.

Definition NewLpmKey (cidrStr : string) : result LpmIpv4Key :=
  match ParseCIDR cidrStr with
  | None =>
      let parsedIP := To4 (ParseIP cidrStr) in
      if bool_decide (parsedIP = []) then Err (Errorf "invalid IPv4 address: %s" [ArgS cidrStr])
      else Ok (mkLpmKey 32 parsedIP)
  | Some (ip, ipNet) =>
      let ipv4 := To4 ip in
      if bool_decide (ipv4 = []) then Err (Errorf "only IPv4 is supported in Phase 2" [])
      else
        let '(ones, _) := Size (ipn_Mask ipNet) in
        Ok (mkLpmKey (wrap 32 ones) ipv4)
  end.

(** [FormattedTime] prints the wall clock, not the record's timestamp: the
    argument is the local time of day in nanoseconds. *)
Definition pad2 (n : Z) : string := if n <? 10 then "0" +:+ itoa n else itoa n.
Fixpoint zeros (n : nat) : string := match n with O => "" | S n' => "0" +:+ zeros n' end.
Definition pad_left0 (n : nat) (s : string) : string := zeros (n - String.length s) +:+ s.
Definition FormattedTime (day_ns : Z) : string :=
  let sec := day_ns / 1000000000 in
  pad2 (sec / 3600) +:+ ":" +:+ pad2 (sec / 60 mod 60) +:+ ":" +:+ pad2 (sec mod 60) +:+ "."
  +:+ pad_left0 6 (itoa (day_ns / 1000 mod 1000000)).

(** ** Specification of the wire format

    The layout table in the comment of [FlowPacketMeta]: the two addresses as
    they are on the wire (most significant byte first), the ports and the
    timestamp least significant byte first, one byte for each other field. *)
Definition wire_bytes (m : FlowPacketMeta) : list Z :=
  be_split 4 (SrcIP m) ++ be_split 4 (DstIP m) ++ le_split 2 (SrcPort m) ++ le_split 2 (DstPort m)
  ++ [Protocol m; TCPFlags m; meta_Action m; meta_DropReason m] ++ le_split 8 (TimestampNS m).

(** ** Lemmas *)

Lemma wire_bytes_length m : length (wire_bytes m) = 24%nat.
Proof. unfold wire_bytes. rewrite !length_app, !length_be_split, !length_le_split. reflexivity. Qed.

Lemma meta_eta m :
  mkMeta (SrcIP m) (DstIP m) (SrcPort m) (DstPort m) (Protocol m) (TCPFlags m) (meta_Action m)
    (meta_DropReason m) (TimestampNS m) = m.
Proof. by destruct m. Qed.

(** A list of at least [n] elements starts with [n] elements. *)
Lemma list_split_at {A} (l : list A) n : (n <= length l)%nat -> exists l1 l2, l = l1 ++ l2 /\ length l1 = n.
Proof. intros H. exists (take n l), (drop n l). split; [by rewrite take_drop|]. rewrite length_take. lia. Qed.

Ltac destruct_list l n :=
  lazymatch n with
  | O => destruct l; [|discriminate]
  | S ?n' => let b := fresh "b" in destruct l as [|b l]; [discriminate|]; destruct_list l n'
  end.

(** Decoding and re-encoding the 24 bytes, on the bytes themselves. *)
Lemma decode_24 (l1 tail : list Z) m0 :
  length l1 = 24%nat -> is_bytes l1 ->
  exists m, UnmarshalBinary m0 (l1 ++ tail) = (m, None) /\ meta_ok m /\ wire_bytes m = l1.
Proof.
  intros Hl Hb. destruct_list l1 24%nat. clear Hl.
  unfold is_bytes in Hb. repeat (apply Forall_cons in Hb as [? Hb]).
  eexists. split; [reflexivity|]. unfold meta_ok, wire_bytes. cbn [SrcIP DstIP SrcPort DstPort
    Protocol TCPFlags meta_Action meta_DropReason TimestampNS nth app].
  unfold slice. cbn [app Nat.sub drop take]. rewrite ?take_0.
  split.
  - repeat split_and; first
      [ apply (be_combine_bound [_; _; _; _]); bytes_t | apply (le_combine_bound [_; _]); bytes_t
      | apply (le_combine_bound [_; _; _; _; _; _; _; _]); bytes_t | assumption ].
  - rewrite !be_split_combine_len, !le_split_combine_len by (reflexivity || bytes_t).
    reflexivity.
Qed.

Lemma wire_bytes_are_bytes m : meta_ok m -> is_bytes (wire_bytes m).
Proof.
  intros (_ & _ & _ & _ & ? & ? & ? & ? & _). unfold wire_bytes, is_bytes.
  rewrite !Forall_app. repeat split_and; first [apply be_split_bytes | apply le_split_bytes | bytes_t].
Qed.

Lemma meta_ok_wire_inj m1 m2 : meta_ok m1 -> meta_ok m2 -> wire_bytes m1 = wire_bytes m2 -> m1 = m2.
Proof.
  intros H1 H2 H. unfold wire_bytes in H.
  assert (Hbe : forall n x y, in_u (8 * Z.of_nat n) x -> in_u (8 * Z.of_nat n) y -> be_split n x = be_split n y -> x = y).
  { intros n x y Hx Hy E. apply (f_equal be_combine) in E. rewrite !be_combine_split in E.
    by rewrite !Z.mod_small in E by done. }
  assert (Hle : forall n x y, in_u (8 * Z.of_nat n) x -> in_u (8 * Z.of_nat n) y -> le_split n x = le_split n y -> x = y).
  { intros n x y Hx Hy E. apply (f_equal le_combine) in E. rewrite !le_combine_split in E.
    by rewrite !Z.mod_small in E by done. }
  destruct H1 as (?&?&?&?&?&?&?&?&?), H2 as (?&?&?&?&?&?&?&?&?).
  apply app_inj_1 in H as [E1 H]; [|by rewrite !length_be_split].
  apply app_inj_1 in H as [E2 H]; [|by rewrite !length_be_split].
  apply app_inj_1 in H as [E3 H]; [|by rewrite !length_le_split].
  apply app_inj_1 in H as [E4 H]; [|by rewrite !length_le_split].
  apply app_inj_1 in H as [E5 E6]; [|done].
  apply (Hbe 4%nat) in E1, E2; [|done..]. apply (Hle 2%nat) in E3, E4; [|done..].
  apply (Hle 8%nat) in E6; [|done..]. injection E5 as ? ? ? ?.
  destruct m1, m2; simpl in *; by subst.
Qed.

(** Decoding reads the first 24 bytes only. *)
Lemma UnmarshalBinary_long m0 data :
  (24 <= length data)%nat -> is_bytes data ->
  exists m, UnmarshalBinary m0 data = (m, None) /\ meta_ok m /\ wire_bytes m = take 24 data.
Proof.
  intros Hl Hb. destruct (list_split_at data 24 Hl) as (l1 & l2 & -> & Hl1).
  rewrite take_app_length' by done. apply decode_24; [done|]. by apply Forall_app in Hb as [? _].
Qed.

Lemma NewLpmKey_wf s k :
  NewLpmKey s = Ok k ->
  is_bytes (KeyAddr k) /\ length (KeyAddr k) = 4%nat /\ 0 <= PrefixLen k <= 128 /\
  (has_byte ":"%char s = false -> PrefixLen k <= 32).
Proof.
  unfold NewLpmKey. intros H. destruct (ParseCIDR s) as [[ip n]|] eqn:E.
  - apply ParseCIDR_wf in E as (Hb & ones & bits & Hs & Ho & Hbits & Hc). rewrite Hs in H.
    destruct (To4_wf ip Hb) as [E4|[H4 L4]]; case_bool_decide; simplify_eq; [done..|].
    simpl. rewrite wrap_small by (unfold in_u; lia). split_and!; [done..|lia|lia|]. intros Hc'%Hc. lia.
  - case_bool_decide as E4; simplify_eq. simpl.
    destruct (ParseIP_wf s) as [Ep|[Hb _]]; [by rewrite Ep in E4|].
    destruct (To4_wf _ Hb) as [?|[? ?]]; [done|]. split_and!; [done..|lia|lia|lia].
Qed.

Lemma NewLpmKey_dotted a b c d :
  is_bytes [a; b; c; d] -> NewLpmKey (dotted [a; b; c; d]) = Ok (mkLpmKey 32 [a; b; c; d]).
Proof.
  intros H. unfold NewLpmKey. rewrite ParseCIDR_no_slash by by apply has_byte_slash_dotted.
  by rewrite ParseIP_dotted, To4_IPv4.
Qed.

Lemma NewLpmKey_dotted_prefix a b c d n :
  is_bytes [a; b; c; d] -> 0 <= n <= 32 ->
  NewLpmKey (dotted [a; b; c; d] +:+ "/" +:+ itoa n) = Ok (mkLpmKey n [a; b; c; d]).
Proof.
  intros H Hn. unfold NewLpmKey. destruct (ParseCIDR_dotted a b c d n H Hn) as (m & -> & ->).
  rewrite To4_IPv4. simpl. by rewrite wrap_small by (unfold in_u; lia).
Qed.

(** What the feedback loop asks for: a dotted quad with "/32". *)
Lemma NewLpmKey_dotted32 a b c d :
  is_bytes [a; b; c; d] ->
  NewLpmKey (dotted [a; b; c; d] +:+ "/32") = Ok (mkLpmKey 32 [a; b; c; d]).
Proof.
  intros H. unfold NewLpmKey. destruct (ParseCIDR_dotted32 a b c d H) as (n & -> & ->).
  by rewrite To4_IPv4.
Qed.

Lemma ip_of_u32_bytes v : is_bytes [wrap 8 (Z.shiftr v 24); wrap 8 (Z.shiftr v 16); wrap 8 (Z.shiftr v 8); wrap 8 v].
Proof.
  assert (forall x, is_byte (wrap 8 x)) by (intros; apply wrap_in_u; lia).
  repeat (apply Forall_cons; split; [done|]). apply Forall_nil_2.
Qed.

Lemma be_split4_shifts v :
  be_split 4 v = [wrap 8 (Z.shiftr v 24); wrap 8 (Z.shiftr v 16); wrap 8 (Z.shiftr v 8); wrap 8 v].
Proof.
  unfold be_split, wrap. cbn [le_split rev app]. rewrite !Z.shiftr_div_pow2 by lia.
  rewrite !Z.div_div by lia. reflexivity.
Qed.

Lemma TCPFlagsString_flags m :
  Protocol m = 6 -> TCPFlagsString m = TCPFlagsString (mkMeta 0 0 0 0 6 (TCPFlags m) 0 0 0).
Proof. intros H. unfold TCPFlagsString. by rewrite H. Qed.

(** Decoding what was laid out. *)
Lemma UnmarshalBinary_wire m m0 rest : meta_ok m -> UnmarshalBinary m0 (wire_bytes m ++ rest) = (m, None).
Proof.
  intros Hok. destruct (decode_24 (wire_bytes m) rest m0) as (m' & E & Hok' & Hw);
    [apply wire_bytes_length|by apply wire_bytes_are_bytes|].
  rewrite E. f_equal. by apply meta_ok_wire_inj.
Qed.

(** ** Properties *)

(** C30: Decoding a telemetry frame laid out as the shared 24-byte format
    gives back the record that was laid out, whatever bytes follow it and
    whatever the receiver held. *)
Theorem unmarshal_wire_roundtrip (m m0 : FlowPacketMeta) (rest : list Z) (Hok : meta_ok m) :
  UnmarshalBinary m0 (wire_bytes m ++ rest) = (m, None).
Proof. by apply UnmarshalBinary_wire. Qed.

Lemma unmarshal_wire_roundtrip_witness :
  let m := mkMeta 3232235876 167772161 443 80 6 18 1 14 1234567890 in
  meta_ok m /\ UnmarshalBinary zero_meta (wire_bytes m ++ [7]) = (m, None).
Proof.
  assert (H : meta_ok (mkMeta 3232235876 167772161 443 80 6 18 1 14 1234567890))
    by (unfold meta_ok, in_u; simpl; lia).
  split; [exact H|]. exact (unmarshal_wire_roundtrip _ zero_meta [7] H).
Defined.

(** [UnmarshalBinary] is total: a payload of fewer than 24 bytes is an
    error and leaves the receiver untouched, and any longer payload of bytes
    decodes to a record within its field widths whose wire format is the
    first 24 bytes, so no frame is misread. *)
Theorem unmarshal_total (m0 : FlowPacketMeta) (data : list Z) (Hb : is_bytes data) :
  ((length data < 24)%nat /\ UnmarshalBinary m0 data = (m0, Some (short_payload (length data)))) \/
  ((24 <= length data)%nat /\
   exists m, UnmarshalBinary m0 data = (m, None) /\ meta_ok m /\ wire_bytes m = take 24 data).
Proof.
  destruct (Nat.lt_ge_cases (length data) 24) as [Hl|Hl].
  - left. split; [done|]. unfold UnmarshalBinary. by destruct (Nat.ltb_spec (length data) 24); [|lia].
  - right. split; [done|]. by apply UnmarshalBinary_long.
Qed.

Lemma unmarshal_total_witness :
  is_bytes [1; 2] /\ UnmarshalBinary zero_meta [1; 2] = (zero_meta, Some (short_payload 2)).
Proof.
  assert (H : is_bytes [1; 2]) by (repeat (apply Forall_cons; split; [unfold is_byte; lia|]); apply Forall_nil_2).
  split; [exact H|]. destruct (unmarshal_total zero_meta [1; 2] H) as [[_ E]|[Hl _]]; [exact E|].
  simpl in Hl. lia.
Defined.

(** Log levels print and parse back: the text of any severity byte,
    in either case and with spaces around it, parses without error to the
    severity, and bytes that name no level print and parse as OFF. *)
Theorem loglevel_roundtrip (s : LogSeverity) (Hs : in_u 8 s) :
  ParseLogLevel (LogSeverity_String s) = (if s <=? 4 then s else LogLevelOff, None) /\
  ParseLogLevel (" " +:+ ToLower (LogSeverity_String s) +:+ " ") = ParseLogLevel (LogSeverity_String s).
Proof.
  revert s Hs. by_bytes.
Qed.

Lemma loglevel_roundtrip_witness : in_u 8 3 /\ ParseLogLevel (LogSeverity_String 3) = (LogLevelWarn, None).
Proof.
  assert (H : in_u 8 3) by (unfold in_u; lia). split; [exact H|]. exact (proj1 (loglevel_roundtrip 3 H)).
Defined.

(** The names printed for drop reasons identify the reason: two
    different reason bytes never print the same text, and the prefix of a
    known reason's text is its severity band. *)
Lemma drop_reason_names (r1 r2 : DropReason) (H1 : in_u 8 r1) (H2 : in_u 8 r2)
    (E : DropReason_String r1 = DropReason_String r2) : r1 = r2.
Proof.
  revert E. revert r1 r2 H1 H2. by_bytes.
Qed.

Lemma drop_reason_names_witness : in_u 8 14 /\ DropReason_String 14 = "WARN_LPM_BLACKLIST_HIT" /\ (14 = 14).
Proof.
  assert (H : in_u 8 14) by (unfold in_u; lia). split; [exact H|]. split; [reflexivity|].
  exact (drop_reason_names 14 14 H H eq_refl).
Defined.

(** The flag column of a TCP record is a faithful picture of the six
    control bits: two TCP records print the same flags exactly when their
    flag bytes agree on FIN, SYN, RST, PSH, ACK and URG. *)
Theorem tcp_flags_string_faithful (m1 m2 : FlowPacketMeta)
    (P1 : Protocol m1 = 6) (P2 : Protocol m2 = 6) (H1 : in_u 8 (TCPFlags m1)) (H2 : in_u 8 (TCPFlags m2)) :
  TCPFlagsString m1 = TCPFlagsString m2 <-> Z.land (TCPFlags m1) 63 = Z.land (TCPFlags m2) 63.
Proof.
  rewrite (TCPFlagsString_flags m1), (TCPFlagsString_flags m2) by done. revert H1 H2. generalize (TCPFlags m1) (TCPFlags m2). by_bytes.
Qed.

Lemma tcp_flags_string_faithful_witness :
  TCPFlagsString (mkMeta 0 0 0 0 6 18 0 0 0) = TCPFlagsString (mkMeta 1 2 3 4 6 210 5 6 7).
Proof.
  refine (proj2 (tcp_flags_string_faithful (mkMeta 0 0 0 0 6 18 0 0 0) (mkMeta 1 2 3 4 6 210 5 6 7)
    eq_refl eq_refl _ _) _); [unfold in_u; simpl; lia..|reflexivity].
Defined.

(** C31: Whatever text it is given, [NewLpmKey] either fails or gives a key
    whose address is four bytes; the key is one of a 32-bit trie, with prefix length
    0 to 32, for every text without a colon, so for everything but an IPv6 form.
    (For that form, which the code means to refuse, the length goes up to 128, and
    a key above 32 does come out.) The two texts of an IPv4 key are read exactly: a
    dotted quad with any length from 0 to 32 gives its four bytes and that length,
    and a dotted quad alone gives the length 32. *)
Theorem new_lpm_key_spec (s : string) (a b c d n : Z) :
  match NewLpmKey s with
  | Ok k => is_bytes (KeyAddr k) /\ length (KeyAddr k) = 4%nat /\ 0 <= PrefixLen k <= 128 /\
            (has_byte ":"%char s = false -> PrefixLen k <= 32)
  | Err _ => True
  end /\
  (exists s' k, NewLpmKey s' = Ok k /\ 32 < PrefixLen k) /\
  (is_bytes [a; b; c; d] ->
    NewLpmKey (dotted [a; b; c; d]) = Ok (mkLpmKey 32 [a; b; c; d]) /\
    (0 <= n <= 32 -> NewLpmKey (dotted [a; b; c; d] +:+ "/" +:+ itoa n) = Ok (mkLpmKey n [a; b; c; d]))).
Proof.
  split_and!.
  - destruct (NewLpmKey s) eqn:E; [|done]. by apply NewLpmKey_wf in E.
  - exists "::ffff:10.0.0.1/120", (mkLpmKey 120 [10; 0; 0; 1]). by split; [vm_compute|].
  - intros H. split; [by apply NewLpmKey_dotted|]. intros Hn. by apply NewLpmKey_dotted_prefix.
Qed.

Lemma new_lpm_key_spec_witness : NewLpmKey "192.168.1.0/24" = Ok (mkLpmKey 24 [192; 168; 1; 0]).
Proof.
  destruct (new_lpm_key_spec "192.168.1.0/24" 192 168 1 0 24) as (_ & _ & Hd).
  destruct Hd as [_ Hp]; [repeat constructor; discriminate|]. apply Hp. lia.
Defined.

(** A prefix written in IPv4-mapped IPv6 form is accepted, and its length is
    that of the 128-bit form: the key is not a prefix of a 32-bit trie. *)
Lemma mapped_cidr_key : NewLpmKey "::ffff:10.0.0.1/120" = Ok (mkLpmKey 120 [10; 0; 0; 1]).
Proof. vm_compute. reflexivity. Qed.
