(* ===== verification/Float64.v ===== *)
(** * float64

    Go's [float64] is the kernel's primitive binary64 float, whose operations
    round to nearest even.  This file adds the conversions and the [math]
    functions the program uses, and the order theory its proofs need: the
    rounded result of an operation stays on the same side of any float as the
    exact real result. *)

From S2P Require Import Prelude.
From Stdlib Require Export PrimFloat.
From Stdlib Require Import SpecFloat FloatOps FloatAxioms Reals Lra.

Abbreviation float64 := PrimFloat.float (only parsing).

(** ** Conversions and [math] functions *)

(** [float64(n)] of an integer: rounded to nearest even. *)
Definition of_int (n : Z) : float64 := SF2Prim (binary_normalize prec emax n 0 false).

(** The truncation of a finite float toward zero. *)
Definition SFtrunc (x : spec_float) : option Z :=
  match x with
  | S754_zero _ => Some 0
  | S754_finite s m e =>
      let v := if 0 <=? e then Zpos m * 2 ^ e else Zpos m / 2 ^ (- e) in
      Some (if s then - v else v)
  | _ => None
  end.

(** [int64(x)]: truncation; out of range (and for NaN) the result is the
    implementation's, which is the least integer on the platforms the program
    targets. *)
Definition min_int64 : Z := - 2 ^ 63.
Definition to_int64 (x : float64) : Z :=
  match SFtrunc (Prim2SF x) with
  | Some v => if (- 2 ^ 63 <=? v) && (v <? 2 ^ 63) then v else min_int64
  | None => min_int64
  end.

(** [math.Min], with its special cases. *)
Definition math_Min (x y : float64) : float64 :=
  if is_infinity x && get_sign x || is_infinity y && get_sign y then neg_infinity
  else if is_nan x || is_nan y then nan
  else if is_zero x && (x =? y)%float then (if get_sign x then x else y)
  else if (x <? y)%float then x else y.

(** [math.Sqrt] is correctly rounded. *)
Definition math_Sqrt (x : float64) : float64 := PrimFloat.sqrt x.

(** The transcendental functions are arguments of the model: their results
    are not specified to the last bit. *)
Class GoMath := {
  math_Exp : float64 -> float64;
  math_Exp2 : float64 -> float64;
  math_Log2 : float64 -> float64
}.

(** What the program relies on, as documented: [Exp] of NaN is NaN, and [Exp]
    is e^x, so it is at least one on non-negative arguments, and between zero
    and 0.15 from -2 down (e^-2 is about 0.135). *)
Class GoMathLaws `{GoMath} := {
  exp_nan : forall x, is_nan x = true -> is_nan (math_Exp x) = true;
  exp_ge_one : forall x, (0 <=? x)%float = true -> (1 <=? math_Exp x)%float = true;
  exp_small : forall x, (x <=? -2)%float = true ->
    (0 <=? math_Exp x)%float = true /\ (math_Exp x <=? 15 / 100)%float = true
}.

(** ** Powers of two in the reals *)

Definition bp (e : Z) : R := powerRZ 2 e.
#[global] Arguments bp : simpl never.

Local Open Scope R_scope.

Lemma bp_pos e : 0 < bp e.
Proof. apply powerRZ_lt. lra. Qed.

Lemma bp_add a b : bp (a + b) = bp a * bp b.
Proof. apply powerRZ_add. lra. Qed.

Lemma bp_Z n : (0 <= n)%Z -> bp n = IZR (2 ^ n).
Proof.
  intros Hn. unfold bp. destruct n as [|p|p]; [done| |lia]. cbn [powerRZ].
  rewrite <- (positive_nat_Z p). rewrite <- pow_IZR. done.
Qed.

Lemma bp_le a b : (a <= b)%Z -> bp a <= bp b.
Proof.
  intros H. replace b with (a + (b - a))%Z by lia. rewrite bp_add, (bp_Z (b - a)) by lia.
  assert (1 <= IZR (2 ^ (b - a))).
  { apply IZR_le. pose proof (Z.pow_pos_nonneg 2 (b - a)). lia. }
  pose proof (bp_pos a). nra.
Qed.

Lemma bp_align E e m : (E <= e)%Z -> IZR m * bp e = IZR (m * 2 ^ (e - E)) * bp E.
Proof.
  intros H. rewrite mult_IZR, <- bp_Z by lia. replace e with ((e - E) + E)%Z at 1 by lia.
  rewrite bp_add. ring.
Qed.

Lemma bp_scale_le a b E : IZR a * bp E <= IZR b * bp E <-> (a <= b)%Z.
Proof.
  pose proof (bp_pos E). split; intros Hab.
  - apply le_IZR. nra.
  - apply IZR_le in Hab. nra.
Qed.

Lemma bp_scale_lt a b E : IZR a * bp E < IZR b * bp E <-> (a < b)%Z.
Proof.
  pose proof (bp_pos E). split; intros Hab.
  - apply lt_IZR. nra.
  - apply IZR_lt in Hab. nra.
Qed.

Lemma digits2_bounds p : (2 ^ (Zpos (digits2_pos p) - 1) <= Zpos p < 2 ^ Zpos (digits2_pos p))%Z.
Proof.
  assert (Hstep : forall q, (2 ^ (Zpos (Pos.succ q) - 1) = 2 ^ Zpos q /\ 2 ^ Zpos (Pos.succ q) = 2 * 2 ^ Zpos q
    /\ 2 * 2 ^ (Zpos q - 1) = 2 ^ Zpos q)%Z).
  { intros q. rewrite Pos2Z.inj_succ, Z.pow_succ_r by lia. split; [f_equal; lia|]. split; [done|].
    rewrite <- Z.pow_succ_r by lia. f_equal. lia. }
  induction p as [p IH|p IH|]; cbn [digits2_pos]; [| |simpl; lia];
    destruct (Hstep (digits2_pos p)) as (-> & -> & Hp); lia.
Qed.

(** ** The real value of a float *)

Definition SFR (x : spec_float) : R :=
  match x with
  | S754_finite s m e => (if s then -1 else 1) * (IZR (Zpos m) * bp e)
  | _ => 0
  end.

Definition FR (x : float) : R := SFR (Prim2SF x).

Definition SFfinite (x : spec_float) : bool :=
  match x with S754_finite _ _ _ | S754_zero _ => true | _ => false end.

Definition finite (x : float) : bool := SFfinite (Prim2SF x).

Lemma fexp_eq x : fexp prec emax x = Z.max (x - 53) (-1074).
Proof. reflexivity. Qed.

(** Canonical significands are below 2^53, and at least 2^52 above the least
    exponent. *)
Lemma valid_finite s m e :
  valid_binary (S754_finite s m e) = true ->
  (Zpos m < 2 ^ 53 /\ -1074 <= e <= 971 /\ (-1074 < e -> 2 ^ 52 <= Zpos m))%Z.
Proof.
  intros H. apply andb_true_iff in H as [H1 H2]. unfold canonical_mantissa in H1.
  rewrite fexp_eq in H1. apply Z.eqb_eq in H1. apply Z.leb_le in H2. unfold emax, prec in H2.
  pose proof (digits2_bounds m) as [Hlo Hhi]. set (d := Zpos (digits2_pos m)) in *.
  assert (Hd : (d <= 53)%Z) by lia.
  split; [|split; [lia|]].
  - eapply Z.lt_le_trans; [exact Hhi|]. apply Z.pow_le_mono_r; lia.
  - intros He. assert (d = 53)%Z by lia. etransitivity; [|exact Hlo]. apply Z.pow_le_mono_r; lia.
Qed.

Lemma finite_lt_bp s m e :
  valid_binary (S754_finite s m e) = true -> IZR (Zpos m) * bp e < bp 1024.
Proof.
  intros H. apply valid_finite in H as (Hm & He & _).
  apply Rlt_le_trans with (IZR (2 ^ 53) * bp e); [by apply bp_scale_lt|].
  rewrite <- bp_Z, <- bp_add by lia. apply bp_le. lia.
Qed.

Lemma canonical_valid s m e :
  (Zpos m < 2 ^ 53)%Z -> (-1074 <= e <= 971)%Z -> (-1074 < e -> 2 ^ 52 <= Zpos m)%Z ->
  valid_binary (S754_finite s m e) = true.
Proof.
  intros Hm He Hn. apply andb_true_iff. unfold canonical_mantissa. rewrite fexp_eq.
  pose proof (digits2_bounds m) as [Hlo Hhi]. set (d := Zpos (digits2_pos m)) in *.
  assert (Hd : (d <= 53)%Z).
  { apply Z.nlt_ge. intros Hd. assert (2 ^ 53 <= 2 ^ (d - 1))%Z by (apply Z.pow_le_mono_r; lia). lia. }
  split; [|apply Z.leb_le; unfold emax, prec; lia]. apply Z.eqb_eq.
  destruct (Z.eq_dec e (-1074)) as [->|]; [lia|].
  assert (d = 53)%Z; [|lia]. apply Z.le_antisymm; [done|]. apply Z.nlt_ge. intros Hd'.
  assert (2 ^ d <= 2 ^ 52)%Z by (apply Z.pow_le_mono_r; lia). lia.
Qed.

(** ** The order of floats is the order of their values *)

Lemma SFR_pos m e : 0 < IZR (Zpos m) * bp e.
Proof. apply Rmult_lt_0_compat; [by apply IZR_lt|apply bp_pos]. Qed.

(** Two positive finite floats: compared by exponent, then significand. *)
Lemma pos_order m1 e1 m2 e2 :
  valid_binary (S754_finite false m1 e1) = true -> valid_binary (S754_finite false m2 e2) = true ->
  (SFcompare (S754_finite false m1 e1) (S754_finite false m2 e2) = Some Lt ->
     IZR (Zpos m1) * bp e1 < IZR (Zpos m2) * bp e2) /\
  (SFcompare (S754_finite false m1 e1) (S754_finite false m2 e2) = Some Eq ->
     IZR (Zpos m1) * bp e1 = IZR (Zpos m2) * bp e2).
Proof.
  intros H1%valid_finite H2%valid_finite. simpl.
  destruct (Z.compare_spec e1 e2) as [->|He|He].
  - change (Pos.compare_cont Eq m1 m2) with (Pos.compare m1 m2).
    destruct (Pos.compare_spec m1 m2) as [->|Hm|Hm]; (split; intros E; simplify_eq); [done|].
    apply bp_scale_lt. lia.
  - split; intros E; simplify_eq. rewrite (bp_align e1 e2) by lia. apply bp_scale_lt.
    assert (2 <= 2 ^ (e2 - e1))%Z by (apply (Z.pow_le_mono_r 2 1); lia). nia.
  - split; intros E; simplify_eq.
Qed.

(** [<=] and [<] between non-NaN finite floats, by their values. *)
Lemma SFcompare_opp x y : SFcompare (SFopp x) (SFopp y) = SFcompare y x.
Proof.
  destruct x as [[]|[]| |[] m1 e1], y as [[]|[]| |[] m2 e2]; simpl; try done;
    rewrite (Z.compare_antisym e2 e1); destruct (e2 ?= e1)%Z; try done; simpl;
    change (Pos.compare_cont Eq m1 m2) with (Pos.compare m1 m2);
    change (Pos.compare_cont Eq m2 m1) with (Pos.compare m2 m1);
    rewrite (Pos.compare_antisym m2 m1); by destruct (m2 ?= m1)%positive.
Qed.

(** The three outcomes of a comparison, with what they say of the values. *)
Definition cmp_FR (x y : spec_float) : Prop :=
  (SFcompare x y = Some Lt /\ SFR x < SFR y) \/ (SFcompare x y = Some Eq /\ SFR x = SFR y) \/
  (SFcompare x y = Some Gt /\ SFR y < SFR x).

Lemma cmp_FR_opp x y : cmp_FR y x -> cmp_FR (SFopp x) (SFopp y).
Proof.
  assert (H : forall z, SFR (SFopp z) = - SFR z) by (intros [| | |[]]; simpl; lra).
  unfold cmp_FR. rewrite SFcompare_opp, !H. intros [[-> ?]|[[-> ?]|[-> ?]]];
    [left|right; left|right; right]; split; (done || lra).
Qed.

Lemma cmp_FR_pos m1 e1 m2 e2 :
  valid_binary (S754_finite false m1 e1) = true -> valid_binary (S754_finite false m2 e2) = true ->
  cmp_FR (S754_finite false m1 e1) (S754_finite false m2 e2).
Proof.
  intros H1 H2. destruct (pos_order m1 e1 m2 e2 H1 H2) as [Hlt Heq].
  destruct (pos_order m2 e2 m1 e1 H2 H1) as [Hgt _].
  unfold cmp_FR. set (x := S754_finite false m1 e1) in *. set (y := S754_finite false m2 e2) in *.
  assert (Hanti : SFcompare y x = option_map CompOpp (SFcompare x y)).
  { simpl. rewrite (Z.compare_antisym e1 e2). destruct (e1 ?= e2)%Z; try done. simpl.
    change (Some (Pos.compare m2 m1) = Some (CompOpp (Pos.compare m1 m2))).
    by rewrite Pos.compare_antisym. }
  assert (Hx : SFR x = IZR (Zpos m1) * bp e1) by (unfold x, SFR; ring).
  assert (Hy : SFR y = IZR (Zpos m2) * bp e2) by (unfold y, SFR; ring).
  rewrite Hx, Hy.
  destruct (SFcompare x y) as [[]|] eqn:E; [right; left|left|right; right|]; (split; [done|]) || idtac; auto.
  simpl in E. by destruct (e1 ?= e2)%Z.
Qed.

Lemma SFcompare_FR x y :
  valid_binary x = true -> valid_binary y = true -> SFfinite x = true -> SFfinite y = true ->
  cmp_FR x y.
Proof.
  intros Vx Vy Fx Fy.
  destruct x as [sx|sx| |[] m1 e1], y as [sy|sy| |[] m2 e2]; try discriminate;
    try (by apply cmp_FR_pos); try (by apply (cmp_FR_opp (S754_finite false m1 e1) (S754_finite false m2 e2)), cmp_FR_pos).
  all: try (pose proof (SFR_pos m1 e1)); try (pose proof (SFR_pos m2 e2)).
  all: try (right; left; split; [done|reflexivity]).
  all: try (right; right; split; [done|simpl; lra]).
  all: left; split; [done|simpl; lra].
Qed.

Lemma SFleb_FR x y :
  valid_binary x = true -> valid_binary y = true -> SFfinite x = true -> SFfinite y = true ->
  SFleb x y = true <-> SFR x <= SFR y.
Proof.
  intros Vx Vy Fx Fy. unfold SFleb.
  destruct (SFcompare_FR x y Vx Vy Fx Fy) as [[-> ?]|[[-> ?]|[-> ?]]]; split; intros; (done || lra).
Qed.

Lemma leb_FR x y : finite x = true -> finite y = true -> (x <=? y)%float = true <-> FR x <= FR y.
Proof. intros. rewrite leb_spec. apply SFleb_FR; (done || apply Prim2SF_valid). Qed.

Lemma ltb_FR x y : finite x = true -> finite y = true -> (x <? y)%float = true <-> FR x < FR y.
Proof.
  intros. rewrite ltb_spec. unfold SFltb, FR.
  destruct (SFcompare_FR (Prim2SF x) (Prim2SF y)) as [[-> ?]|[[-> ?]|[-> ?]]];
    try (done || apply Prim2SF_valid); split; intros; (done || lra).
Qed.

(** ** Rounding

    A shift record sits at the real [x] at exponent [e]: its significand is
    the floor of [x] there, and its two bits tell whether [x] is exact. *)

Definition sits (mrs : shr_record) (e : Z) (x : R) : Prop :=
  (0 <= shr_m mrs)%Z /\
  if shr_r mrs || shr_s mrs
  then IZR (shr_m mrs) * bp e < x < IZR (shr_m mrs + 1) * bp e
  else x = IZR (shr_m mrs) * bp e.

(** A significand with a location, as the operations give them. *)
Definition sits_loc (m : Z) (l : location) (e : Z) (x : R) : Prop := sits (shr_record_of_loc m l) e x.

Lemma bp_succ e : bp (e + 1) = 2 * bp e.
Proof. rewrite bp_add. change (bp 1) with (2 * 1). ring. Qed.

Lemma shr_1_halves mrs :
  (0 <= shr_m mrs)%Z ->
  shr_m mrs = (2 * shr_m (shr_1 mrs) + (if shr_r (shr_1 mrs) then 1 else 0))%Z /\
  (0 <= shr_m (shr_1 mrs))%Z /\ shr_s (shr_1 mrs) = shr_r mrs || shr_s mrs.
Proof. destruct mrs as [[|[p|p|]|p] r s]; simpl; intros; split_and?; auto; lia. Qed.

Lemma shr_1_sits mrs e x : sits mrs e x -> sits (shr_1 mrs) (e + 1) x.
Proof.
  intros [Hm Hx]. destruct (shr_1_halves mrs Hm) as (Hh & Hm' & Hs). split; [done|].
  rewrite Hs, bp_succ. rewrite Hh in Hx. pose proof (bp_pos e) as Hb.
  set (k := shr_m (shr_1 mrs)) in *. clearbody k.
  rewrite ?plus_IZR, ?mult_IZR in *.
  destruct (shr_r (shr_1 mrs)), (shr_r mrs || shr_s mrs); simpl in *;
    rewrite ?plus_IZR, ?mult_IZR in *; nra.
Qed.

Lemma iter_shr_sits n mrs e x : sits mrs e x -> sits (SpecFloat.iter_pos shr_1 n mrs) (e + Zpos n) x.
Proof.
  revert mrs e. induction n as [n IH|n IH|]; intros mrs e H; simpl.
  - replace (e + Zpos n~1)%Z with (((e + 1) + Zpos n) + Zpos n)%Z by lia. by apply IH, IH, shr_1_sits.
  - replace (e + Zpos n~0)%Z with ((e + Zpos n) + Zpos n)%Z by lia. by apply IH, IH.
  - by apply shr_1_sits.
Qed.

Lemma shr_sits mrs e x n : sits mrs e x -> sits (fst (shr mrs e n)) (snd (shr mrs e n)) x.
Proof. destruct n; simpl; auto using iter_shr_sits. Qed.

Lemma shr_exp mrs e n : snd (shr mrs e n) = (e + Z.max n 0)%Z.
Proof. destruct n; simpl; lia. Qed.

(** Rounding a record to nearest even moves up by at most one, and not at all
    when it is exact. *)
Lemma rne_step mrs :
  let k := round_nearest_even (shr_m mrs) (loc_of_shr_record mrs) in
  k = shr_m mrs \/ (k = (shr_m mrs + 1)%Z /\ shr_r mrs || shr_s mrs = true).
Proof. destruct mrs as [m [] []]; simpl; auto. destruct (Z.even m); auto. Qed.

Lemma Zdigits2_bounds m :
  (0 <= m)%Z -> (m < 2 ^ Zdigits2 m)%Z /\ (0 < m -> 2 ^ (Zdigits2 m - 1) <= m)%Z /\ (0 <= Zdigits2 m)%Z.
Proof.
  intros Hm. destruct m as [|p|p]; simpl Zdigits2; [simpl; lia| |lia].
  pose proof (digits2_bounds p). lia.
Qed.

(** What [binary_round_aux] computes from an [x] given with enough precision:
    a significand [k] at the target exponent [E], at most one unit from the
    floor of [x], stored as a zero, a finite float or an overflow. *)
Definition stored (k E : Z) : spec_float :=
  match k with
  | Zpos p => if (E <=? 971)%Z then S754_finite false p E else S754_infinity false
  | _ => S754_zero false
  end.

Definition target (x : R) (k E : Z) : Prop :=
  (0 <= k <= 2 ^ 53)%Z /\ (-1074 <= E)%Z /\ (-1074 < E -> 2 ^ 52 <= k)%Z /\
  ((-1074 < E)%Z -> IZR (2 ^ 52) * bp E <= x) /\
  (IZR k * bp E = x \/
   exists q, (0 <= q)%Z /\ IZR q * bp E < x < IZR (q + 1) * bp E /\ (k = q \/ k = q + 1)%Z).

Lemma sits_bounds mrs e x :
  sits mrs e x -> IZR (shr_m mrs) * bp e <= x < IZR (shr_m mrs + 1) * bp e.
Proof.
  intros [Hm Hx]. destruct (_ || _); [lra|]. subst x. split; [lra|]. apply bp_scale_lt. lia.
Qed.

Lemma shr_record_of_loc_m m l : shr_m (shr_record_of_loc m l) = m.
Proof. by destruct l as [|[]]. Qed.

(** The second shift of [binary_round_aux] only renormalises a carry. *)
Lemma renormalise k E :
  (0 <= k <= 2 ^ 53)%Z -> (-1074 <= E)%Z ->
  shr_fexp prec emax k E loc_Exact =
  if (k =? 2 ^ 53)%Z then (Build_shr_record (2 ^ 52) false false, (E + 1)%Z)
  else (Build_shr_record k false false, E).
Proof.
  intros Hk HE. unfold shr_fexp. rewrite fexp_eq. destruct (Z.eqb_spec k (2 ^ 53)) as [->|Hne].
  - change (Zdigits2 (2 ^ 53)) with 54%Z. replace (Z.max (54 + E - 53) (-1074) - E)%Z with 1%Z by lia. reflexivity.
  - assert (Hd : (Zdigits2 k <= 53)%Z).
    { destruct (Z.eq_dec k 0) as [->|]; [simpl; lia|].
      destruct (Zdigits2_bounds k) as (_ & Hlo & _); [lia|]. apply Z.nlt_ge. intros Hd.
      assert (2 ^ 53 <= 2 ^ (Zdigits2 k - 1))%Z by (apply Z.pow_le_mono_r; lia). lia. }
    destruct (Z.max (Zdigits2 k + E - 53) (-1074) - E)%Z eqn:En; [done|lia|done].
Qed.

(** Where [x] lies in terms of the digits of its significand. *)
Lemma magnitude m l e x :
  (0 <= m)%Z -> sits_loc m l e x ->
  x < bp (Zdigits2 m + e) /\ ((0 < m)%Z -> bp (Zdigits2 m + e - 1) <= x).
Proof.
  intros Hm Hx. apply sits_bounds in Hx. rewrite shr_record_of_loc_m in Hx. destruct Hx as [Hlo Hhi].
  destruct (Zdigits2_bounds m Hm) as (Hd & Hd' & Hd0). split.
  - eapply Rlt_le_trans; [exact Hhi|]. rewrite bp_add, (bp_Z (Zdigits2 m)) by lia. apply bp_scale_le. lia.
  - intros Hpos. eapply Rle_trans; [|exact Hlo].
    replace (Zdigits2 m + e - 1)%Z with ((Zdigits2 m - 1) + e)%Z by lia.
    assert (1 <= Zdigits2 m)%Z by (destruct m; simpl in *; lia).
    rewrite bp_add, (bp_Z (Zdigits2 m - 1)) by lia. apply bp_scale_le. auto.
Qed.

Lemma round_aux_target m e l x :
  (0 <= m)%Z -> sits_loc m l e x -> (e <= fexp prec emax (Zdigits2 m + e))%Z ->
  exists k E, target x k E /\
    binary_round_aux prec emax false m e l = (if (k =? 2 ^ 53)%Z then stored (2 ^ 52) (E + 1) else stored k E).
Proof.
  intros Hm Hx He. unfold binary_round_aux, shr_fexp at 1.
  set (E := fexp prec emax (Zdigits2 m + e)) in *.
  pose proof (shr_sits _ _ _ (E - e) Hx) as Hs. pose proof (shr_exp (shr_record_of_loc m l) e (E - e)) as HeE.
  destruct (shr (shr_record_of_loc m l) e (E - e)) as [mrs' e']. simpl in Hs, HeE.
  replace e' with E in * by lia. clear e' HeE.
  destruct (magnitude m l e x Hm Hx) as [Hup Hlow].
  pose proof (sits_bounds _ _ _ Hs) as [Hq Hq']. destruct Hs as [Hq0 Hs].
  set (q := shr_m mrs') in *. unfold E in *. rewrite fexp_eq in *.
  set (mag := (Zdigits2 m + e)%Z) in *. set (E' := Z.max (mag - 53) (-1074)) in *.
  assert (Hq53 : (q < 2 ^ 53)%Z).
  { apply (bp_scale_lt _ _ E'). eapply Rle_lt_trans; [exact Hq|]. eapply Rlt_le_trans; [exact Hup|].
    rewrite <- bp_Z, <- bp_add by lia. apply bp_le. lia. }
  assert (Hnorm : (-1074 < E')%Z -> IZR (2 ^ 52) * bp E' <= x).
  { intros HE. assert (Hmpos : (0 < m)%Z).
    { destruct (Z.eq_dec m 0) as [->|]; [|lia]. unfold mag in *. simpl in *. lia. }
    eapply Rle_trans; [|exact (Hlow Hmpos)]. rewrite <- bp_Z, <- bp_add by lia. apply bp_le. lia. }
  assert (Hq52 : (-1074 < E')%Z -> (2 ^ 52 <= q)%Z).
  { intros HE. apply Z.lt_succ_r, (bp_scale_lt _ _ E'). eapply Rle_lt_trans; [exact (Hnorm HE)|exact Hq']. }
  destruct (rne_step mrs') as [Hk|[Hk Hin]]; cbv zeta in Hk; fold q in Hk; rewrite Hk;
    rewrite renormalise by lia.
  - exists q, E'. split.
    + split_and!; [lia..|auto|auto|]. destruct (_ || _); [right|by left]. exists q. split_and!; [done|exact (proj1 Hs)|exact (proj2 Hs)|by left].
    + destruct (q =? 2 ^ 53)%Z; [reflexivity|]. destruct q; [done|reflexivity|lia].
  - rewrite Hin in Hs. exists (q + 1)%Z, E'. split.
    + split_and!; [lia..| |auto|]; [intros HE; specialize (Hq52 HE); lia|]. right. exists q. split_and!; [done|exact (proj1 Hs)|exact (proj2 Hs)|by right].
    + destruct (q + 1 =? 2 ^ 53)%Z; [reflexivity|]. destruct (q + 1)%Z eqn:E1; [lia|reflexivity|lia].
Qed.

(** [f] is a rounding of [x]: a valid float, not NaN, on the same side as [x]
    of every finite float. *)
Definition rounds (x : R) (f : spec_float) : Prop :=
  valid_binary f = true /\ f <> S754_nan /\
  forall g, valid_binary g = true -> SFfinite g = true ->
    (x <= SFR g -> SFleb f g = true) /\ (SFR g <= x -> SFleb g f = true).

Definition canonical (k E : Z) : Prop :=
  (0 <= k < 2 ^ 53)%Z /\ (-1074 <= E)%Z /\ (-1074 < E -> 2 ^ 52 <= k)%Z.

Lemma stored_spec k E :
  canonical k E ->
  valid_binary (stored k E) = true /\
  ((SFfinite (stored k E) = true /\ SFR (stored k E) = IZR k * bp E) \/
   (stored k E = S754_infinity false /\ bp 1024 <= IZR k * bp E)).
Proof.
  intros (Hk & HE & Hn). destruct k as [|p|p]; [| |lia].
  { split; [done|]. left. split; [done|]. simpl. lra. }
  simpl. destruct (Z.leb_spec E 971) as [H|H].
  - split; [apply canonical_valid; lia|]. left. split; [done|]. simpl. lra.
  - split; [done|]. right. split; [done|]. replace 1024%Z with (52 + 972)%Z by done.
    rewrite bp_add, (bp_Z 52) by lia.
    apply Rle_trans with (IZR (2 ^ 52) * bp E).
    + apply Rmult_le_compat_l; [apply IZR_le; lia|apply bp_le; lia].
    + apply bp_scale_le. lia.
Qed.

Lemma SFR_lt_max g : valid_binary g = true -> SFfinite g = true -> SFR g < bp 1024.
Proof.
  pose proof (bp_pos 1024). destruct g as [| | |[] m e]; try done; intros Hv _; simpl; try lra;
    [pose proof (SFR_pos m e)|apply (finite_lt_bp _ m e) in Hv]; lra.
Qed.

(** Floats below the target exponent are below the significand's range. *)
Lemma finer_is_smaller s m e E :
  valid_binary (S754_finite s m e) = true -> (e < E)%Z -> IZR (Zpos m) * bp e < IZR (2 ^ 52) * bp E.
Proof.
  intros Hv He. apply valid_finite in Hv as (Hm & _ & _).
  apply Rlt_le_trans with (IZR (2 ^ 53) * bp e); [by apply bp_scale_lt|].
  rewrite (bp_align e E) by lia. apply bp_scale_le.
  assert (2 ^ 1 <= 2 ^ (E - e))%Z by (apply Z.pow_le_mono_r; lia). lia.
Qed.

Lemma target_bounds x k E g :
  target x k E -> valid_binary g = true -> SFfinite g = true ->
  (x <= SFR g -> IZR k * bp E <= SFR g) /\ (SFR g <= x -> SFR g <= IZR k * bp E).
Proof.
  intros (Hk & HE & Hk52 & Hx52 & Hx) Hv Hf. pose proof (bp_pos E) as HbE.
  assert (Hk0 : 0 <= IZR k * bp E) by (apply Rmult_le_pos; [apply IZR_le; lia|lra]).
  assert (Hx0 : 0 <= x).
  { destruct Hx as [<-|(q & Hq & [H1 _] & _)]; [done|]. apply IZR_le in Hq. nra. }
  destruct g as [sg|sg| |[] m e]; try discriminate; simpl SFR.
  - split; intros H; [|lra]. destruct Hx as [<-|(q & Hq & [H1 _] & _)]; [lra|]. apply IZR_le in Hq. nra.
  - pose proof (SFR_pos m e). split; intros; lra.
  - rewrite Rmult_1_l. destruct (Z.lt_ge_cases e E) as [He|He].
    + pose proof (finer_is_smaller _ _ _ _ Hv He) as Hsm. apply valid_finite in Hv as (_ & He' & _).
      specialize (Hk52 ltac:(lia)). specialize (Hx52 ltac:(lia)).
      split; intros H; [lra|]. apply Rlt_le. eapply Rlt_le_trans; [exact Hsm|]. by apply bp_scale_le.
    + rewrite (bp_align E e) by done. set (G := (Zpos m * 2 ^ (e - E))%Z).
      destruct Hx as [<-|(q & Hq & [H1 H2] & Hkq)]; [split; auto|].
      split; intros H.
      * assert (q < G)%Z by (apply (bp_scale_lt _ _ E); lra). apply bp_scale_le. lia.
      * assert (G < q + 1)%Z by (apply (bp_scale_lt _ _ E); lra). apply bp_scale_le. lia.
Qed.

Lemma target_rounds x k E :
  target x k E -> rounds x (if (k =? 2 ^ 53)%Z then stored (2 ^ 52) (E + 1) else stored k E).
Proof.
  intros Ht. pose proof Ht as (Hk & HE & Hk52 & _).
  set (k' := if (k =? 2 ^ 53)%Z then (2 ^ 52)%Z else k). set (E' := if (k =? 2 ^ 53)%Z then (E + 1)%Z else E).
  assert (Hval : IZR k' * bp E' = IZR k * bp E).
  { unfold k', E'. destruct (Z.eqb_spec k (2 ^ 53)) as [->|]; [|done].
    rewrite bp_succ. change (2 ^ 53)%Z with (2 * 2 ^ 52)%Z. rewrite mult_IZR. ring. }
  assert (Hc : canonical k' E').
  { unfold canonical, k', E'. destruct (Z.eqb_spec k (2 ^ 53)); lia. }
  replace (if (k =? 2 ^ 53)%Z then stored (2 ^ 52) (E + 1) else stored k E) with (stored k' E')
    by (unfold k', E'; by destruct (k =? 2 ^ 53)%Z).
  destruct (stored_spec k' E' Hc) as [Hv Hs]. rewrite Hval in Hs. split; [done|].
  split; [by destruct Hs as [[Hfin _]|[-> _]]; [intros Hnan; rewrite Hnan in Hfin|]|].
  intros g Hg Fg. destruct (target_bounds x k E g Ht Hg Fg) as [Hle Hge].
  pose proof (SFR_lt_max g Hg Fg). destruct Hs as [[Ff Hr]|[-> Hbig]].
  - rewrite !SFleb_FR, Hr by done. auto.
  - split; intros H1; [apply Hle in H1; lra|]. by destruct g as [[]| | |[] ? ?].
Qed.

(** ** The operations round *)

Lemma SFopp_involutive x : SFopp (SFopp x) = x.
Proof. destruct x as [[]|[]| |[]]; done. Qed.

Lemma SFR_opp x : SFR (SFopp x) = - SFR x.
Proof. destruct x as [| | |[]]; simpl; lra. Qed.

Lemma SFopp_valid x : valid_binary (SFopp x) = valid_binary x.
Proof. by destruct x. Qed.

Lemma SFopp_finite x : SFfinite (SFopp x) = SFfinite x.
Proof. by destruct x. Qed.

Lemma SFleb_opp x y : SFleb (SFopp x) (SFopp y) = SFleb y x.
Proof. unfold SFleb. by rewrite SFcompare_opp. Qed.

Lemma rounds_opp x f : rounds x f -> rounds (- x) (SFopp f).
Proof.
  intros (Hv & Hn & Hg). split; [by rewrite SFopp_valid|]. split; [by destruct f|].
  intros g Vg Fg. destruct (Hg (SFopp g)) as [H1 H2]; [by rewrite SFopp_valid|by rewrite SFopp_finite|].
  rewrite SFR_opp in H1, H2.
  assert (Hle : SFleb (SFopp f) g = SFleb (SFopp g) f) by (by rewrite <- SFleb_opp, SFopp_involutive).
  assert (Hge : SFleb g (SFopp f) = SFleb f (SFopp g)) by (by rewrite <- SFleb_opp, SFopp_involutive).
  rewrite Hle, Hge. split; intros H; [apply H2|apply H1]; lra.
Qed.

Lemma round_aux_sign m e l :
  binary_round_aux prec emax true m e l = SFopp (binary_round_aux prec emax false m e l).
Proof.
  unfold binary_round_aux. destruct (shr_fexp prec emax m e l) as [mrs e'].
  destruct (shr_fexp prec emax (round_nearest_even (shr_m mrs) (loc_of_shr_record mrs)) e' loc_Exact) as [mrs' e'']. destruct (shr_m mrs'); [done| |done].
  by destruct (e'' <=? emax - prec)%Z.
Qed.

Lemma round_aux_rounds (s : bool) m e l x :
  (0 <= m)%Z -> sits_loc m l e x -> (e <= fexp prec emax (Zdigits2 m + e))%Z ->
  rounds (if s then - x else x) (binary_round_aux prec emax s m e l).
Proof.
  intros Hm Hx He. destruct (round_aux_target m e l x Hm Hx He) as (k & E & Ht & Hr).
  apply target_rounds in Ht. rewrite <- Hr in Ht. destruct s; [|done].
  rewrite round_aux_sign. by apply rounds_opp.
Qed.

Lemma iter_xO m d : Zpos (Pos.iter xO m d) = (Zpos m * 2 ^ Zpos d)%Z.
Proof.
  induction d as [|d IH] using Pos.peano_ind; [simpl; lia|].
  rewrite Pos.iter_succ, Pos2Z.inj_xO, IH, Pos2Z.inj_succ, Z.pow_succ_r by lia. lia.
Qed.

Lemma digits2_iter_xO m d : Zpos (digits2_pos (Pos.iter xO m d)) = (Zpos (digits2_pos m) + Zpos d)%Z.
Proof.
  induction d as [|d IH] using Pos.peano_ind; [simpl; lia|].
  rewrite Pos.iter_succ. cbn [digits2_pos]. lia.
Qed.

(** Aligning a significand to a smaller exponent keeps its value. *)
Lemma shl_align_spec m e e' :
  let '(mz, ez) := shl_align m e e' in
  ez = Z.min e e' /\ Zpos mz = (Zpos m * 2 ^ (e - ez))%Z /\
  (Zpos (digits2_pos mz) + ez = Zpos (digits2_pos m) + e)%Z.
Proof.
  unfold shl_align. destruct (e' - e)%Z eqn:E.
  - replace (e - e)%Z with 0%Z by lia. split_and!; lia.
  - replace (e - e)%Z with 0%Z by lia. split_and!; lia.
  - rewrite iter_xO, digits2_iter_xO. replace (e - e')%Z with (Zpos p) by lia. split_and!; lia.
Qed.

Lemma sits_exact m e : (0 <= m)%Z -> sits_loc m loc_Exact e (IZR m * bp e).
Proof. split; done. Qed.

Lemma binary_round_rounds (s : bool) p e :
  rounds (if s then - (IZR (Zpos p) * bp e) else IZR (Zpos p) * bp e) (binary_round prec emax s p e).
Proof.
  unfold binary_round. pose proof (shl_align_spec p e (fexp prec emax (Zpos (digits2_pos p) + e))) as H.
  destruct (shl_align _ _ _) as [mz ez]. destruct H as (Hez & Hmz & Hd).
  apply round_aux_rounds; [lia| |].
  - assert (Hv : IZR (Zpos p) * bp e = IZR (Zpos mz) * bp ez) by (rewrite Hmz; apply bp_align; lia).
    rewrite Hv. apply sits_exact. lia.
  - simpl Zdigits2. rewrite Hd. lia.
Qed.

Lemma normalize_rounds m e s : rounds (IZR m * bp e) (binary_normalize prec emax m e s).
Proof.
  destruct m as [|p|p]; simpl binary_normalize.
  - split; [done|]. split; [done|]. intros g Vg Fg. rewrite !SFleb_FR by done. simpl SFR.
    split; intros; lra.
  - apply (binary_round_rounds false).
  - replace (IZR (Zneg p) * bp e) with (- (IZR (Zpos p) * bp e))
      by (rewrite <- Pos2Z.opp_pos, opp_IZR; ring).
    apply (binary_round_rounds true).
Qed.

(** A finite valid float is a rounding of its own value. *)
Lemma rounds_self x : valid_binary x = true -> SFfinite x = true -> rounds (SFR x) x.
Proof.
  intros Hv Hf. split; [done|]. split; [by destruct x|]. intros g Vg Fg. by rewrite !SFleb_FR.
Qed.

Lemma cond_Zopp_value s m e e' :
  (e' <= e)%Z ->
  IZR (cond_Zopp s (Zpos (fst (shl_align m e e')))) * bp e' = SFR (S754_finite s m e).
Proof.
  intros H. pose proof (shl_align_spec m e e') as Hs. destruct (shl_align m e e') as [mz ez].
  destruct Hs as (Hez & Hmz & _). simpl fst. replace ez with e' in * by lia.
  unfold SFR. rewrite (bp_align e' e) by done. rewrite <- Hmz.
  destruct s; unfold cond_Zopp; rewrite ?opp_IZR; ring.
Qed.

Lemma SFadd_rounds x y :
  valid_binary x = true -> valid_binary y = true -> SFfinite x = true -> SFfinite y = true ->
  rounds (SFR x + SFR y) (SF64add x y).
Proof.
  intros Vx Vy Fx Fy. destruct x as [sx| | |sx mx ex]; try discriminate;
    destruct y as [sy| | |sy my ey]; try discriminate.
  - replace (SFR (S754_zero sx) + SFR (S754_zero sy)) with 0 by (simpl; lra).
    assert (Hz : forall s, rounds 0 (S754_zero s)) by (intros s; by apply (rounds_self (S754_zero s))).
    destruct sx, sy; apply Hz.
  - replace (SFR (S754_zero sx) + _) with (SFR (S754_finite sy my ey)) by (simpl SFR at 2; lra).
    by apply rounds_self.
  - replace (_ + SFR (S754_zero sy)) with (SFR (S754_finite sx mx ex)) by (simpl SFR at 3; lra).
    by apply rounds_self.
  - unfold SF64add, SFadd. cbv zeta.
    rewrite <- (cond_Zopp_value sx mx ex (Z.min ex ey)), <- (cond_Zopp_value sy my ey (Z.min ex ey)) by lia.
    rewrite <- Rmult_plus_distr_r, <- plus_IZR. apply normalize_rounds.
Qed.

(** Division: the quotient of the aligned significands has the digits the
    rounding needs. *)
Lemma new_location_sits q r m2 e x :
  (0 <= r < m2)%Z -> (0 <= q)%Z -> x * IZR m2 = IZR (q * m2 + r) * bp e ->
  sits_loc q (new_location m2 r) e x.
Proof.
  intros Hr Hq Hx. assert (Hm : 0 < IZR m2) by (apply IZR_lt; lia). pose proof (bp_pos e) as Hb.
  rewrite plus_IZR, mult_IZR in Hx.
  assert (Hin : forall c, (0 < r)%Z -> sits_loc q (loc_Inexact c) e x).
  { intros c Hr0. split; [by rewrite shr_record_of_loc_m|]. rewrite shr_record_of_loc_m.
    assert (0 < IZR r < IZR m2) by (split; apply IZR_lt; lia).
    destruct c; simpl; rewrite plus_IZR; split; apply (Rmult_lt_reg_r (IZR m2)); nra. }
  unfold new_location, new_location_even, new_location_odd.
  destruct r as [|r|r]; [|destruct (Z.even m2); apply Hin; lia|lia].
  assert (x = IZR q * bp e) as -> by (apply (Rmult_eq_reg_r (IZR m2)); lra).
  destruct (Z.even m2); by apply sits_exact.
Qed.

Lemma Zdigits2_quotient m' m2 n :
  (0 < m2)%Z -> (0 <= m')%Z -> (2 ^ (n + Zdigits2 m2 - 1) <= m')%Z -> (0 <= n)%Z ->
  (n <= Zdigits2 (m' / m2))%Z.
Proof.
  intros Hm2 Hm' Hlo Hn. destruct (Zdigits2_bounds m2) as (Hd2 & _ & Hd20); [lia|].
  assert (Hq : (0 <= m' / m2)%Z) by (apply Z.div_pos; lia).
  destruct (Zdigits2_bounds _ Hq) as (Hq2 & _ & Hq0).
  apply Z.nlt_ge. intros Hlt.
  assert (Hpow : (2 ^ Zdigits2 (m' / m2) <= 2 ^ (n - 1))%Z) by (apply Z.pow_le_mono_r; lia).
  assert (Hsum : (2 ^ (n + Zdigits2 m2 - 1) = 2 ^ (n - 1) * 2 ^ Zdigits2 m2)%Z)
    by (rewrite <- Z.pow_add_r by lia; f_equal; lia).
  assert (Hle : (m' / m2 + 1 <= 2 ^ (n - 1))%Z) by lia.
  pose proof (Z.mul_succ_div_gt m' m2 Hm2). nia.
Qed.

Lemma SFdiv_core_rounds (s : bool) m1 e1 m2 e2 :
  rounds (if s then - (IZR (Zpos m1) * bp e1 / (IZR (Zpos m2) * bp e2)) else IZR (Zpos m1) * bp e1 / (IZR (Zpos m2) * bp e2))
    (let '(mz, ez, lz) := SFdiv_core_binary prec emax (Zpos m1) e1 (Zpos m2) e2 in
     binary_round_aux prec emax s mz ez lz).
Proof.
  unfold SFdiv_core_binary. cbv zeta. rewrite fexp_eq.
  set (d1 := Zdigits2 (Zpos m1)). set (d2 := Zdigits2 (Zpos m2)).
  set (e' := Z.min (Z.max (d1 + e1 - (d2 + e2) - 53) (-1074)) (e1 - e2)).
  assert (Hs : (0 <= e1 - e2 - e')%Z) by lia. set (s' := (e1 - e2 - e')%Z) in *.
  assert (Hm' : match s' with Z0 => Zpos m1 | Zpos _ => Z.shiftl (Zpos m1) s' | Zneg _ => 0%Z end
                = (Zpos m1 * 2 ^ s')%Z).
  { destruct s' as [|p|p]; [lia| |lia]. by rewrite Z.shiftl_mul_pow2 by lia. }
  rewrite Hm'. set (m' := (Zpos m1 * 2 ^ s')%Z) in *.
  pose proof (Z.pow_pos_nonneg 2 s' ltac:(lia) Hs) as Hpow.
  destruct (Z.div_eucl m' (Zpos m2)) as [q r] eqn:Eqr.
  assert (Hq : q = (m' / Zpos m2)%Z) by (unfold Z.div; by rewrite Eqr).
  pose proof (Z_div_mod m' (Zpos m2) ltac:(lia)) as Hqr. rewrite Eqr in Hqr. destruct Hqr as [Hqr Hr].
  assert (Hm0 : (0 <= m')%Z) by lia.
  assert (Hq0 : (0 <= q)%Z) by (rewrite Hq; apply Z.div_pos; lia).
  apply round_aux_rounds; [done| |].
  - apply new_location_sits; [done..|].
    replace (q * Zpos m2 + r)%Z with m' by lia. unfold m'. rewrite mult_IZR, <- bp_Z by done.
    assert (He : bp e1 = bp s' * bp e2 * bp e') by (rewrite <- !bp_add; f_equal; lia).
    rewrite He. pose proof (bp_pos e2). assert (IZR (Zpos m2) <> 0) by (apply not_0_IZR; lia).
    field. split; [lra|assumption].
  - rewrite fexp_eq. destruct (Zdigits2_bounds (Zpos m1)) as (_ & Hlo1 & _); [lia|].
    assert (d1 + s' - d2 <= Zdigits2 q)%Z; [|lia].
    destruct (Z.le_gt_cases (d1 + s' - d2) 0) as [|Hpos].
    { destruct (Zdigits2_bounds q Hq0) as (_ & _ & ?). lia. }
    rewrite Hq. apply Zdigits2_quotient; [lia..| |lia].
    replace (d1 + s' - d2 + Zdigits2 (Zpos m2) - 1)%Z with ((d1 - 1) + s')%Z by (unfold d2; lia).
    assert (1 <= d1)%Z by (unfold d1; simpl; lia).
    rewrite Z.pow_add_r by lia. unfold m', d1. nia.
Qed.

Lemma SFdiv_rounds x y :
  valid_binary x = true -> SFfinite x = true -> SFfinite y = true -> SFR y <> 0 ->
  rounds (SFR x / SFR y) (SF64div x y).
Proof.
  intros Vx Fx Fy Hy. destruct y as [| | |sy my ey]; try discriminate; [by destruct Hy|].
  pose proof (SFR_pos my ey) as Hpy.
  destruct x as [sx| | |sx mx ex]; try discriminate.
  - replace (SFR (S754_zero sx) / _) with 0 by (simpl; unfold Rdiv; ring).
    by apply (rounds_self (S754_zero (xorb sx sy))).
  - unfold SF64div, SFdiv. pose proof (SFdiv_core_rounds (xorb sx sy) mx ex my ey) as H.
    match type of H with rounds ?v _ => replace (SFR (S754_finite sx mx ex) / SFR (S754_finite sy my ey)) with v end;
      [exact H|]. unfold SFR. clear H Hy Vx Fx Fy. revert Hpy.
    generalize (IZR (Zpos my) * bp ey) (IZR (Zpos mx) * bp ex). intros b a Hb. destruct sx, sy; simpl; field; lra.
Qed.

(** ** Values of constants *)

(** The value of a finite float in units of the least positive one. *)
Definition scaled (x : spec_float) : Z :=
  match x with
  | S754_finite s m e => (if s then -1 else 1) * (Zpos m * 2 ^ (e + 1074))
  | _ => 0
  end.

Lemma SFR_scaled x : valid_binary x = true -> SFfinite x = true -> SFR x = IZR (scaled x) * bp (-1074).
Proof.
  intros Hv Hf. destruct x as [| | |s m e]; try discriminate; [simpl; lra|].
  pose proof (valid_finite _ _ _ Hv) as (_ & He & _). unfold SFR, scaled.
  rewrite (bp_align (-1074) e) by lia. replace (e - -1074)%Z with (e + 1074)%Z by lia.
  destruct s; rewrite !mult_IZR; ring.
Qed.

Lemma FR_value x n d :
  finite x = true -> (0 < d)%Z -> (scaled (Prim2SF x) * d = n * 2 ^ 1074)%Z -> FR x = IZR n / IZR d.
Proof.
  intros Hf Hd He. unfold FR. rewrite SFR_scaled by (done || apply Prim2SF_valid).
  apply (f_equal IZR) in He. rewrite !mult_IZR in He. rewrite <- (bp_Z 1074) in He by lia.
  assert (Hdd : IZR d <> 0) by (apply not_0_IZR; lia).
  assert (Hone : bp 1074 * bp (-1074) = 1) by (rewrite <- bp_add; reflexivity).
  apply (Rmult_eq_reg_r (IZR d)); [|done]. unfold Rdiv. rewrite Rmult_assoc, Rmult_assoc.
  rewrite Rinv_l, Rmult_1_r by done. rewrite (Rmult_comm _ (IZR d)), <- Rmult_assoc, He, Rmult_assoc, Hone. ring.
Qed.

(** [FR] of a constant: its numerator and denominator are given, and the
    equation is checked by computation. *)
Ltac fr_const x n d :=
  let H := fresh "FR" in
  assert (H : FR x = IZR n / IZR d) by (apply FR_value; vm_compute; reflexivity).

(** ** Order facts on floats *)

Lemma leb_left x c : (x <=? c)%float = true -> finite c = true -> x = neg_infinity \/ (finite x = true /\ FR x <= FR c).
Proof.
  intros H Fc. pose proof H as H'. rewrite leb_spec in H. destruct (finite x) eqn:Fx.
  - right. split; [done|]. by apply leb_FR.
  - left. unfold finite in *. apply Prim2SF_inj. change (Prim2SF neg_infinity) with (S754_infinity true).
    destruct (Prim2SF x) as [|[]| |]; try done. destruct (Prim2SF c) as [| | |[]]; done.
Qed.

Lemma leb_right x c : (c <=? x)%float = true -> finite c = true -> x = infinity \/ (finite x = true /\ FR c <= FR x).
Proof.
  intros H Fc. pose proof H as H'. rewrite leb_spec in H. destruct (finite x) eqn:Fx.
  - right. split; [done|]. by apply leb_FR.
  - left. unfold finite in *. apply Prim2SF_inj. change (Prim2SF infinity) with (S754_infinity false).
    destruct (Prim2SF x) as [|[]| |]; try done; destruct (Prim2SF c) as [| | |[]]; done.
Qed.

Lemma finite_valid x : finite x = true -> valid_binary (Prim2SF x) = true /\ SFfinite (Prim2SF x) = true.
Proof. intros H. split; [apply Prim2SF_valid|exact H]. Qed.

(** Sums: bounds on the summands give the bound on the rounded sum. *)
Lemma leb_add x y a b c :
  finite a = true -> finite b = true -> finite c = true ->
  (x <=? a)%float = true -> (y <=? b)%float = true -> FR a + FR b <= FR c ->
  (x + y <=? c)%float = true.
Proof.
  intros Fa Fb Fc Hx Hy Hc. rewrite leb_spec, add_spec.
  pose proof (finite_valid c Fc) as [Vc Sc].
  destruct (leb_left x a Hx Fa) as [->|[Fx Hx']], (leb_left y b Hy Fb) as [->|[Fy Hy']].
  - change (Prim2SF neg_infinity) with (S754_infinity true). simpl. by destruct (Prim2SF c) as [| | |[]].
  - change (Prim2SF neg_infinity) with (S754_infinity true). unfold finite in Fy.
    destruct (Prim2SF y); try done; simpl; by destruct (Prim2SF c) as [| | |[]].
  - change (Prim2SF neg_infinity) with (S754_infinity true). unfold finite in Fx.
    destruct (Prim2SF x); try done; simpl; by destruct (Prim2SF c) as [| | |[]].
  - destruct (SFadd_rounds (Prim2SF x) (Prim2SF y)) as (_ & _ & H); try (apply Prim2SF_valid || done).
    apply (H _ Vc Sc). unfold FR in *. lra.
Qed.

(** Rounding an integer keeps it on its side of any finite float. *)
Lemma of_int_rounds n : rounds (IZR n) (Prim2SF (of_int n)).
Proof.
  pose proof (normalize_rounds n 0 false) as H.
  replace (IZR n * bp 0) with (IZR n) in H by (change (bp 0) with 1; ring).
  unfold of_int. rewrite Prim2SF_SF2Prim; [exact H|]. by destruct H.
Qed.

Lemma of_int_leb n c : finite c = true -> IZR n <= FR c -> (of_int n <=? c)%float = true.
Proof.
  intros Fc H. rewrite leb_spec. destruct (of_int_rounds n) as (_ & _ & Hg).
  destruct (finite_valid c Fc). by apply Hg.
Qed.

Lemma of_int_geb n c : finite c = true -> FR c <= IZR n -> (c <=? of_int n)%float = true.
Proof.
  intros Fc H. rewrite leb_spec. destruct (of_int_rounds n) as (_ & _ & Hg).
  destruct (finite_valid c Fc). by apply Hg.
Qed.

Lemma ltb_geb_false x c : (c <=? x)%float = true -> (x <? c)%float = false.
Proof.
  rewrite leb_spec, ltb_spec. unfold SFleb, SFltb.
  pose proof (SFcompare_opp (SFopp (Prim2SF c)) (SFopp (Prim2SF x))) as H. rewrite !SFopp_involutive in H.
  assert (Hs : forall a b, SFcompare a b = option_map CompOpp (SFcompare b a)).
  { intros [[]|[]| |[] m1 e1] [[]|[]| |[] m2 e2]; simpl; try done;
      rewrite (Z.compare_antisym e2 e1); destruct (e2 ?= e1)%Z; try done; simpl;
      change (Pos.compare_cont Eq m1 m2) with (Pos.compare m1 m2);
      change (Pos.compare_cont Eq m2 m1) with (Pos.compare m2 m1);
      rewrite (Pos.compare_antisym m2 m1); by destruct (m2 ?= m1)%positive. }
  rewrite (Hs (Prim2SF x)). destruct (SFcompare (Prim2SF c) (Prim2SF x)) as [[]|]; done.
Qed.

Lemma leb_trans_const x a b : finite a = true -> finite b = true -> FR a <= FR b ->
  (x <=? a)%float = true -> (x <=? b)%float = true.
Proof.
  intros Fa Fb Hab H. destruct (leb_left x a H Fa) as [->|[Fx Hx]].
  - rewrite leb_spec. unfold finite in Fb. by destruct (Prim2SF b) as [| | |[]].
  - apply leb_FR; [done..|lra].
Qed.

(** ** NaN *)

Lemma SFcompare_nan x y : SFcompare x y = None <-> x = S754_nan \/ y = S754_nan.
Proof.
  destruct x as [|[]| |[] m1 e1], y as [|[]| |[] m2 e2]; simpl; split; intros H; auto; try discriminate;
    try (by destruct H); by destruct (e1 ?= e2)%Z.
Qed.

Lemma is_nan_SF x : is_nan x = true <-> Prim2SF x = S754_nan.
Proof.
  unfold is_nan. rewrite eqb_spec. unfold SFeqb.
  destruct (SFcompare (Prim2SF x) (Prim2SF x)) as [c|] eqn:E.
  - assert (Prim2SF x <> S754_nan) as Hn.
    { intros Hn. rewrite (proj2 (SFcompare_nan _ _)) in E by (by left). done. }
    split; [|done]. intros H. exfalso. assert (c = Eq) as ->; [|done].
    destruct (Prim2SF x) as [|[]| |[] m e]; simpl in E; try congruence;
      rewrite Z.compare_refl in E; change (Pos.compare_cont Eq m m) with (Pos.compare m m) in E;
      rewrite Pos.compare_refl in E; simpl in E; congruence.
  - apply SFcompare_nan in E. split; [|done]. by destruct E.
Qed.

Lemma nan_add_l x y : is_nan x = true -> is_nan (x + y) = true.
Proof. rewrite !is_nan_SF, add_spec. by intros ->. Qed.
Lemma nan_add_r x y : is_nan y = true -> is_nan (x + y) = true.
Proof. rewrite !is_nan_SF, add_spec. intros ->. by destruct (Prim2SF x). Qed.
Lemma nan_div_r x y : is_nan y = true -> is_nan (x / y) = true.
Proof. rewrite !is_nan_SF, div_spec. intros ->. by destruct (Prim2SF x). Qed.
Lemma nan_opp x : is_nan x = true -> is_nan (- x) = true.
Proof. rewrite !is_nan_SF, opp_spec. by intros ->. Qed.
Lemma nan_ltb_r x y : is_nan y = true -> (x <? y)%float = false.
Proof. rewrite is_nan_SF, ltb_spec. intros ->. unfold SFltb. by destruct (Prim2SF x). Qed.

(** At most [c], or NaN: what an upper bound on a computation gives. *)
Definition le_or_nan (x c : float64) : Prop := is_nan x = true \/ (x <=? c)%float = true.

Lemma le_or_nan_add x y a b c :
  finite a = true -> finite b = true -> finite c = true -> FR a + FR b <= FR c ->
  le_or_nan x a -> le_or_nan y b -> le_or_nan (x + y) c.
Proof.
  intros Fa Fb Fc Hc [Hx|Hx] [Hy|Hy]; [left..|right]; auto using nan_add_l, nan_add_r.
  by apply (leb_add x y a b c).
Qed.

Lemma le_or_nan_trans x a b :
  finite a = true -> finite b = true -> FR a <= FR b -> le_or_nan x a -> le_or_nan x b.
Proof. intros Fa Fb H [Hx|Hx]; [by left|right]. by apply (leb_trans_const x a b). Qed.

Lemma le_or_nan_refl c : finite c = true -> le_or_nan c c.
Proof. intros H. right. apply leb_FR; [done..|lra]. Qed.

Lemma math_Min_upper x c : finite c = true -> le_or_nan (math_Min x c) c.
Proof.
  intros Fc. unfold math_Min. destruct (_ || _).
  { right. rewrite leb_spec. change (Prim2SF neg_infinity) with (S754_infinity true).
    unfold finite in Fc. by destruct (Prim2SF c) as [| | |[]]. }
  destruct (_ || _); [by left|].
  assert (Hlt : (x <? c)%float = true -> (x <=? c)%float = true).
  { rewrite ltb_spec, leb_spec. unfold SFltb, SFleb. by destruct (SFcompare _ _) as [[]|]. }
  destruct (is_zero x && (x =? c)%float) eqn:E.
  - apply andb_true_iff in E as [_ E]. destruct (get_sign x); [right|by apply le_or_nan_refl].
    rewrite eqb_spec in E. rewrite leb_spec. unfold SFeqb, SFleb in *. by destruct (SFcompare _ _) as [[]|].
  - destruct (x <? c)%float eqn:E2; [right; auto|by apply le_or_nan_refl].
Qed.

Lemma leb_not_nan a x : (a <=? x)%float = true -> is_nan x = false /\ is_nan a = false.
Proof.
  intros H. rewrite leb_spec in H. unfold SFleb in H.
  destruct (is_nan x) eqn:E; [apply is_nan_SF in E; rewrite E in H; by destruct (Prim2SF a)|].
  destruct (is_nan a) eqn:E'; [apply is_nan_SF in E'; by rewrite E' in H|done].
Qed.

Lemma math_Min_lower x c a :
  finite a = true -> (a <=? x)%float = true -> (a <=? c)%float = true -> (a <=? math_Min x c)%float = true.
Proof.
  intros Fa Hx Hc. unfold math_Min.
  assert (Hinf : forall y, (a <=? y)%float = true -> is_infinity y && get_sign y = false).
  { intros y Hy. destruct (leb_right y a Hy Fa) as [->|[Fy _]]; [reflexivity|].
    assert (is_infinity y = false) as ->; [|done]. unfold is_infinity. rewrite eqb_spec, abs_spec.
    change (Prim2SF infinity) with (S754_infinity false). unfold finite in Fy. by destruct (Prim2SF y). }
  rewrite !Hinf by done. simpl. destruct (leb_not_nan a x Hx) as [-> _], (leb_not_nan a c Hc) as [-> _].
  simpl. destruct (is_zero x && (x =? c)%float); [by destruct (get_sign x)|]. by destruct (x <? c)%float.
Qed.

(** Sums from below. *)
Lemma geb_add x y a b c :
  finite a = true -> finite b = true -> finite c = true -> FR c <= FR a + FR b ->
  (a <=? x)%float = true -> (b <=? y)%float = true -> (c <=? x + y)%float = true.
Proof.
  intros Fa Fb Fc Hc Hx Hy. rewrite leb_spec, add_spec. pose proof (finite_valid c Fc) as [Vc Sc].
  assert (Hcinf : SFleb (Prim2SF c) (S754_infinity false) = true)
    by (unfold finite in Fc; by destruct (Prim2SF c) as [| | |[]]).
  destruct (leb_right x a Hx Fa) as [->|[Fx Hx']], (leb_right y b Hy Fb) as [->|[Fy Hy']];
    try change (Prim2SF infinity) with (S754_infinity false).
  - exact Hcinf.
  - unfold finite in Fy. by destruct (Prim2SF y).
  - unfold finite in Fx. by destruct (Prim2SF x).
  - destruct (SFadd_rounds (Prim2SF x) (Prim2SF y)) as (_ & _ & H); try (apply Prim2SF_valid || done).
    apply (H _ Vc Sc). unfold FR in *. lra.
Qed.

(** Quotients by a positive constant, from below. *)
Lemma geb_div x k a c :
  finite k = true -> finite a = true -> finite c = true -> 0 < FR k -> FR c <= FR a / FR k ->
  (a <=? x)%float = true -> (c <=? x / k)%float = true.
Proof.
  intros Fk Fa Fc Hk Hc Hx. rewrite leb_spec, div_spec. pose proof (finite_valid c Fc) as [Vc Sc].
  assert (Hcinf : SFleb (Prim2SF c) (S754_infinity false) = true)
    by (unfold finite in Fc; by destruct (Prim2SF c) as [| | |[]]).
  destruct (leb_right x a Hx Fa) as [->|[Fx Hx']].
  - change (Prim2SF infinity) with (S754_infinity false). unfold finite, FR in *.
    destruct (Prim2SF k) as [| | |[] m e]; try done; simpl in Hk; [lra|pose proof (SFR_pos m e); lra].
  - destruct (SFdiv_rounds (Prim2SF x) (Prim2SF k)) as (_ & _ & H);
      [apply Prim2SF_valid|done|done|unfold FR in Hk; lra|].
    apply (H _ Vc Sc). unfold FR in *. eapply Rle_trans; [exact Hc|].
    apply Rmult_le_compat_r; [|done]. apply Rlt_le, Rinv_0_lt_compat. lra.
Qed.

(** One over a bounded-below and a bounded-above positive denominator. *)
Lemma recip_bounds d a b :
  finite a = true -> finite b = true ->
  ((a <=? d)%float = true -> 0 < FR a -> 1 / FR a <= FR b -> (1 / d <=? b)%float = true) /\
  (finite d = true -> 0 < FR d -> (d <=? a)%float = true -> FR b <= 1 / FR a -> (b <=? 1 / d)%float = true).
Proof.
  intros Fa Fb. pose proof (finite_valid b Fb) as [Vb Sb].
  assert (H1 : SFR (Prim2SF 1%float) = 1) by (vm_compute; lra).
  split.
  - intros Hd Ha Hb. rewrite leb_spec, div_spec.
    assert (Hpos : 0 < 1 / FR a) by (apply Rdiv_lt_0_compat; lra).
    destruct (leb_right d a Hd Fa) as [->|[Fd Hd']].
    + change (Prim2SF infinity) with (S754_infinity false).
      change (SFleb (S754_zero false) (Prim2SF b) = true). apply SFleb_FR; [done..|]. apply Rlt_le, (Rlt_le_trans _ _ _ Hpos Hb).
    + destruct (SFdiv_rounds (Prim2SF 1%float) (Prim2SF d)) as (_ & _ & H);
        [apply Prim2SF_valid|done|done|unfold FR in *; lra|].
      apply (H _ Vb Sb). rewrite H1. unfold FR in *. eapply Rle_trans; [|exact Hb].
      apply Rmult_le_compat_l; [lra|]. by apply Rinv_le_contravar.
  - intros Fd Hd Hda Hb. rewrite leb_spec, div_spec.
    destruct (leb_left d a Hda Fa) as [->|[_ Hd']]; [done|].
    destruct (SFdiv_rounds (Prim2SF 1%float) (Prim2SF d)) as (_ & _ & H);
      [apply Prim2SF_valid|done|done|unfold FR in *; lra|].
    apply (H _ Vb Sb). rewrite H1. unfold FR in *. eapply Rle_trans; [exact Hb|].
    apply Rmult_le_compat_l; [lra|]. by apply Rinv_le_contravar.
Qed.

(** ** Side conditions on constants, by evaluation *)

Lemma FR_scaled x : finite x = true -> FR x = IZR (scaled (Prim2SF x)) * bp (-1074).
Proof. intros H. apply SFR_scaled; [apply Prim2SF_valid|exact H]. Qed.

Definition const_le (a b : float) : bool :=
  finite a && finite b && (scaled (Prim2SF a) <=? scaled (Prim2SF b))%Z.

Lemma const_le_FR a b : const_le a b = true -> FR a <= FR b.
Proof.
  intros H. unfold const_le in H. bool_hyps. rewrite !FR_scaled by done.
  apply bp_scale_le. by apply Z.leb_le.
Qed.

Definition const_add_le (a b c : float) : bool :=
  finite a && finite b && finite c && (scaled (Prim2SF a) + scaled (Prim2SF b) <=? scaled (Prim2SF c))%Z.

Lemma const_add_le_FR a b c : const_add_le a b c = true -> FR a + FR b <= FR c.
Proof.
  intros H. unfold const_add_le in H. bool_hyps. rewrite !FR_scaled by done.
  rewrite <- Rmult_plus_distr_r, <- plus_IZR. apply bp_scale_le. by apply Z.leb_le.
Qed.

Definition const_add_ge (a b c : float) : bool :=
  finite a && finite b && finite c && (scaled (Prim2SF c) <=? scaled (Prim2SF a) + scaled (Prim2SF b))%Z.

Lemma const_add_ge_FR a b c : const_add_ge a b c = true -> FR c <= FR a + FR b.
Proof.
  intros H. unfold const_add_ge in H. bool_hyps. rewrite !FR_scaled by done.
  rewrite <- Rmult_plus_distr_r, <- plus_IZR. apply bp_scale_le. by apply Z.leb_le.
Qed.

(** A constant with an integer value. *)
Lemma FR_int x k : finite x && (scaled (Prim2SF x) =? k * 2 ^ 1074)%Z = true -> FR x = IZR k.
Proof.
  intros H. bool_hyps. rewrite (FR_value x k 1); [field|done|lia|].
  rewrite Z.mul_1_r. by apply Z.eqb_eq.
Qed.

(** The operations against constants, in the form the proofs use: the side
    conditions are evaluated. *)
Lemma add_upper x y a b c :
  const_add_le a b c = true -> le_or_nan x a -> le_or_nan y b -> le_or_nan (x + y) c.
Proof.
  intros H. pose proof (const_add_le_FR a b c H). unfold const_add_le in H. bool_hyps.
  by apply le_or_nan_add.
Qed.

Lemma add_lower x y a b c :
  const_add_ge a b c = true -> (a <=? x)%float = true -> (b <=? y)%float = true -> (c <=? x + y)%float = true.
Proof.
  intros H. pose proof (const_add_ge_FR a b c H). unfold const_add_ge in H. bool_hyps.
  by apply geb_add.
Qed.

Lemma le_weaken x a b : const_le a b = true -> le_or_nan x a -> le_or_nan x b.
Proof.
  intros H. pose proof (const_le_FR a b H). unfold const_le in H. bool_hyps.
  by apply le_or_nan_trans.
Qed.

Lemma of_int_lower n c k :
  finite c && (scaled (Prim2SF c) =? k * 2 ^ 1074)%Z = true -> (k <= n)%Z -> (c <=? of_int n)%float = true.
Proof.
  intros H Hk. pose proof (FR_int c k H). bool_hyps. apply of_int_geb; [done|].
  rewrite H0. by apply IZR_le.
Qed.

Lemma of_int_upper n c k :
  finite c && (scaled (Prim2SF c) =? k * 2 ^ 1074)%Z = true -> (n <= k)%Z -> (of_int n <=? c)%float = true.
Proof.
  intros H Hk. pose proof (FR_int c k H). bool_hyps. apply of_int_leb; [done|].
  rewrite H0. by apply IZR_le.
Qed.

(** ** Order on all floats *)

Lemma SFcompare_flip x y : SFcompare x y = option_map CompOpp (SFcompare y x).
Proof.
  destruct x as [[]|[]| |[] m1 e1], y as [[]|[]| |[] m2 e2]; simpl; try done;
    rewrite (Z.compare_antisym e2 e1); destruct (e2 ?= e1)%Z; try done; simpl;
    change (Pos.compare_cont Eq m1 m2) with (Pos.compare m1 m2);
    change (Pos.compare_cont Eq m2 m1) with (Pos.compare m2 m1);
    rewrite (Pos.compare_antisym m2 m1); by destruct (m2 ?= m1)%positive.
Qed.

Lemma ltb_leb x y : (x <? y)%float = true -> (x <=? y)%float = true.
Proof. rewrite ltb_spec, leb_spec. unfold SFltb, SFleb. by destruct (SFcompare _ _) as [[]|]. Qed.

Lemma not_ltb_leb x y :
  is_nan x = false -> is_nan y = false -> (x <? y)%float = false -> (y <=? x)%float = true.
Proof.
  intros Hx Hy. rewrite ltb_spec, leb_spec. unfold SFltb, SFleb. rewrite (SFcompare_flip (Prim2SF y)).
  destruct (SFcompare (Prim2SF x) (Prim2SF y)) as [[]|] eqn:E; try done.
  apply SFcompare_nan in E as [E|E]; apply is_nan_SF in E; congruence.
Qed.

Lemma leb_inf x : is_nan x = false -> (neg_infinity <=? x)%float = true /\ (x <=? infinity)%float = true.
Proof.
  intros H. rewrite !leb_spec. change (Prim2SF neg_infinity) with (S754_infinity true).
  change (Prim2SF infinity) with (S754_infinity false). unfold SFleb.
  destruct (Prim2SF x) as [|[]| |[]] eqn:E; try done. apply is_nan_SF in E. congruence.
Qed.

Lemma leb_trans x y z : (x <=? y)%float = true -> (y <=? z)%float = true -> (x <=? z)%float = true.
Proof.
  intros H1 H2. pose proof (leb_not_nan _ _ H1) as [_ Nx]. pose proof (leb_not_nan _ _ H2) as [Nz Ny].
  destruct (finite y) eqn:Fy.
  - destruct (leb_left _ _ H1 Fy) as [->|[Fx Hx]]; [by apply leb_inf|].
    destruct (leb_right _ _ H2 Fy) as [->|[Fz Hz]]; [by apply leb_inf|].
    apply leb_FR; [done..|lra].
  - unfold finite in Fy. destruct (Prim2SF y) as [|s| |] eqn:E; try done.
    + assert (y = if s then neg_infinity else infinity) as ->
        by (apply Prim2SF_inj; rewrite E; by destruct s).
      rewrite leb_spec in H1, H2 |- *. destruct s.
      * change (Prim2SF neg_infinity) with (S754_infinity true) in *. unfold SFleb in *.
        destruct (Prim2SF x) as [|[]| |[]]; try done; by destruct (Prim2SF z) as [|[]| |[]].
      * change (Prim2SF infinity) with (S754_infinity false) in *. unfold SFleb in *.
        destruct (Prim2SF z) as [|[]| |[]]; try done; by destruct (Prim2SF x) as [|[]| |[]].
    + apply is_nan_SF in E. congruence.
Qed.

(** Negation. *)
Lemma opp_leb x c : (x <=? c)%float = true -> (- c <=? - x)%float = true.
Proof. rewrite !leb_spec, !opp_spec. intros H. by rewrite SFleb_opp. Qed.

(** Truncation of a float between 0 and an integer bound. *)
Lemma SFtrunc_range x k :
  valid_binary x = true -> SFfinite x = true -> 0 <= SFR x -> SFR x <= IZR k ->
  exists v, SFtrunc x = Some v /\ (0 <= v <= k)%Z.
Proof.
  intros Vx Fx H0 Hk. destruct x as [s|s| |s m e]; try discriminate.
  { exists 0%Z. split; [done|]. simpl in Hk. apply le_IZR in Hk. lia. }
  simpl in H0. pose proof (SFR_pos m e). destruct s; [lra|]. eexists. split; [reflexivity|].
  simpl in Hk. rewrite Rmult_1_l in Hk. destruct (Z.leb_spec 0 e) as [He|He].
  - assert (0 < 2 ^ e)%Z by (apply Z.pow_pos_nonneg; lia). split; [lia|].
    apply le_IZR. rewrite mult_IZR, <- bp_Z by done. done.
  - assert (Hp : (0 < 2 ^ (- e))%Z) by (apply Z.pow_pos_nonneg; lia).
    split; [apply Z.div_pos; lia|]. apply Z.div_le_upper_bound; [lia|].
    apply le_IZR. rewrite mult_IZR, <- bp_Z by lia.
    assert (bp (- e) * bp e = 1) by (rewrite <- bp_add; replace (- e + e)%Z with 0%Z by lia; reflexivity).
    pose proof (bp_pos (- e)). replace (IZR (Zpos m)) with (bp (- e) * (IZR (Zpos m) * bp e)); [nra|].
    rewrite <- Rmult_assoc, (Rmult_comm (bp (- e))), Rmult_assoc, H1. ring.
Qed.

Lemma to_int64_range x c k :
  finite c && (scaled (Prim2SF c) =? k * 2 ^ 1074)%Z = true -> (k < 2 ^ 63)%Z ->
  (0 <=? x)%float = true -> (x <=? c)%float = true -> (0 <= to_int64 x <= k)%Z.
Proof.
  intros Hc Hk H0 Hx. pose proof (FR_int c k Hc) as HR. bool_hyps.
  destruct (leb_left x c Hx) as [->|[Fx Hle]]; [done| |].
  { rewrite leb_spec in H0. done. }
  assert (H0' : FR 0%float <= FR x) by (by apply leb_FR).
  change (FR 0%float) with 0 in H0'.
  destruct (SFtrunc_range (Prim2SF x) k) as (v & Hv & Hr); [apply Prim2SF_valid|done|done|by rewrite <- HR|].
  unfold to_int64. rewrite Hv.
  rewrite (proj2 (Z.leb_le _ _)) by lia. rewrite (proj2 (Z.ltb_lt _ _)) by lia. done.
Qed.

(** Quotient of a float by a positive integer constant, from below. *)
Lemma div_lower x k a c (kk ka : Z) :
  FR k = IZR kk -> FR a = IZR ka -> finite k && finite a && finite c = true -> (0 < kk)%Z ->
  FR c * IZR kk <= IZR ka -> (a <=? x)%float = true -> (c <=? x / k)%float = true.
Proof.
  intros Hk Ha Hf Hpos Hle Hx. bool_hyps. apply IZR_lt in Hpos. apply (geb_div x k a c); try done.
  - by rewrite Hk.
  - rewrite Hk, Ha. apply Rmult_le_reg_r with (IZR kk); [done|]. unfold Rdiv.
    rewrite Rmult_assoc, Rinv_l by lra. lra.
Qed.

Lemma ltb_leb_trans x y z : (x <? y)%float = true -> (y <=? z)%float = true -> (x <? z)%float = true.
Proof.
  intros H1 H2. destruct (x <? z)%float eqn:E; [done|].
  pose proof (leb_not_nan _ _ (ltb_leb _ _ H1)) as [_ Nx]. pose proof (leb_not_nan _ _ H2) as [Nz _].
  apply not_ltb_leb in E; [|done..]. pose proof (leb_trans _ _ _ H2 E) as H3.
  apply ltb_geb_false in H3. congruence.
Qed.

Lemma leb_ltb_trans x y z : (x <=? y)%float = true -> (y <? z)%float = true -> (x <? z)%float = true.
Proof.
  intros H1 H2. destruct (x <? z)%float eqn:E; [done|].
  pose proof (leb_not_nan _ _ H1) as [_ Nx]. pose proof (leb_not_nan _ _ (ltb_leb _ _ H2)) as [Nz _].
  apply not_ltb_leb in E; [|done..]. pose proof (leb_trans _ _ _ E H1) as H3.
  apply ltb_geb_false in H3. congruence.
Qed.

Lemma leb_refl x : is_nan x = false -> (x <=? x)%float = true.
Proof.
  intros H. apply not_ltb_leb; [done..|]. destruct (x <? x)%float eqn:E; [|done].
  pose proof (ltb_geb_false _ _ (ltb_leb _ _ E)). congruence.
Qed.

(** Minus infinity absorbs what is added to it, up to NaN. *)
Lemma leb_neg_infinity x : (x <=? neg_infinity)%float = true -> x = neg_infinity.
Proof.
  rewrite leb_spec. change (Prim2SF neg_infinity) with (S754_infinity true). intros H.
  apply Prim2SF_inj. change (Prim2SF neg_infinity) with (S754_infinity true).
  by destruct (Prim2SF x) as [|[]| |[]].
Qed.

Lemma neg_infinity_add y : is_nan (neg_infinity + y) = true \/ (neg_infinity + y)%float = neg_infinity.
Proof.
  rewrite is_nan_SF, add_spec. change (Prim2SF neg_infinity) with (S754_infinity true).
  destruct (Prim2SF y) as [|[]| |] eqn:E; [right|right|left|left|right]; try done;
    (apply Prim2SF_inj; rewrite add_spec, E; done).
Qed.

(** A step function with the documented behaviour, to evaluate examples
    with. *)
Definition sample_math : GoMath := {|
  math_Exp x := if is_nan x then nan else if (0 <=? x)%float then 2%float
                else if (x <=? -2)%float then (1 / 8)%float else (1 / 2)%float;
  math_Exp2 x := (x * x)%float;
  math_Log2 x := (x - 1)%float
|}.

Lemma sample_laws : @GoMathLaws sample_math.
Proof.
  split; simpl.
  - intros x ->. reflexivity.
  - intros x Hx. destruct (leb_not_nan _ _ Hx) as [-> _]. by rewrite Hx.
  - intros x Hx. destruct (leb_not_nan _ _ Hx) as [_ _].
    destruct (leb_not_nan _ _ Hx) as [_ Hn]. rewrite Hn.
    rewrite Hx. destruct (0 <=? x)%float eqn:E; [|done].
    pose proof (leb_trans _ _ _ E Hx) as Hbad. by vm_compute in Hbad.
Qed.

(** ** Exact operations *)

Lemma sub_self x : finite x = true -> (x - x)%float = 0%float.
Proof.
  intros Fx. apply Prim2SF_inj. rewrite sub_spec. unfold finite in Fx.
  destruct (Prim2SF x) as [[]| | |s m e]; try done. simpl. unfold SF64sub, SFsub. by rewrite Z.sub_diag.
Qed.

Definition positive_finite (x : float64) : Prop := exists m e, Prim2SF x = S754_finite false m e.

Lemma sub_0_r x : positive_finite x -> (x - 0)%float = x.
Proof. intros (m & e & E). apply Prim2SF_inj. rewrite sub_spec. by rewrite E. Qed.
Lemma add_0_l x : positive_finite x -> (0 + x)%float = x.
Proof. intros (m & e & E). apply Prim2SF_inj. rewrite add_spec. by rewrite E. Qed.
Lemma add_0_r x : positive_finite x -> (x + 0)%float = x.
Proof. intros (m & e & E). apply Prim2SF_inj. rewrite add_spec. by rewrite E. Qed.
Lemma mul_0_r x : positive_finite x -> (x * 0)%float = 0%float.
Proof. intros (m & e & E). apply Prim2SF_inj. rewrite mul_spec. by rewrite E. Qed.
Lemma div_0_l x : positive_finite x -> (0 / x)%float = 0%float.
Proof. intros (m & e & E). apply Prim2SF_inj. rewrite div_spec. by rewrite E. Qed.

Lemma positive_finite_finite x : positive_finite x -> finite x = true.
Proof. intros (m & e & E). unfold finite. by rewrite E. Qed.

Lemma SFleb_antisym s m e g :
  SFleb (S754_finite s m e) g = true -> SFleb g (S754_finite s m e) = true -> g = S754_finite s m e.
Proof.
  unfold SFleb. rewrite (SFcompare_flip g). intros H1 H2.
  destruct (SFcompare (S754_finite s m e) g) as [[]|] eqn:E; try done. clear H1 H2.
  destruct g as [|[]| |s' m' e'], s; simpl in E; try done; destruct s'; try done;
    destruct (e ?= e')%Z eqn:Ee; try done; apply Z.compare_eq in Ee; subst e'; simpl in E;
    injection E as E; change (Pos.compare_cont Eq m m') with (Pos.compare m m') in E;
    [assert (Pos.compare m m' = Eq) as E' by (by destruct (Pos.compare m m'))|assert (Pos.compare m m' = Eq) as E' by done];
    apply Pos.compare_eq in E'; by subst m'.
Qed.

Lemma div_1_r x : positive_finite x -> (x / 1)%float = x.
Proof.
  intros (m & e & E). apply Prim2SF_inj. rewrite div_spec.
  assert (H1 : SFR (Prim2SF 1%float) = 1) by (vm_compute; lra).
  destruct (SFdiv_rounds (Prim2SF x) (Prim2SF 1%float)) as (_ & _ & Hg);
    [apply Prim2SF_valid|by rewrite E|done|lra|].
  destruct (Hg (Prim2SF x)) as [Hle Hge]; [apply Prim2SF_valid|by rewrite E|]. rewrite H1 in Hle, Hge.
  rewrite E in Hle, Hge |- *. apply SFleb_antisym; [apply Hge|apply Hle]; lra.
Qed.

(** A positive word converts to a positive finite float. *)
Lemma of_int_positive n : (0 < n < 2 ^ 64)%Z -> positive_finite (of_int n).
Proof.
  intros Hn.
  assert (Hlo : (1 <=? of_int n)%float = true) by (by apply (of_int_lower _ _ 1); [vm_compute|lia]).
  assert (Hhi : (of_int n <=? 18446744073709551616)%float = true)
    by (by apply (of_int_upper _ _ (2 ^ 64)); [vm_compute|lia]).
  destruct (leb_left _ _ Hhi) as [E|[Fx _]]; [done|by rewrite E in Hlo|].
  rewrite leb_spec in Hlo. unfold finite in Fx. unfold positive_finite.
  destruct (Prim2SF (of_int n)) as [s| | |[] m e]; try done; by eauto.
Qed.
