(* ===== verification/Flow.v ===== *)
(** * The flow aggregator ([pkg/aggregator/flow.go])

    A rolling window of telemetry: packets are sharded by their canonical
    5-tuple, each flow accumulates counts and the running variance of its
    inter-arrival times, each source address the distribution of the ports it
    touched; every 100 ms the window is turned into feature vectors. *)

From S2P Require Import Prelude GoNet Contracts Float64.

(** Durations are in nanoseconds. *)
Definition WindowInterval : Z := 100 * 1000000.

Definition numShards : Z := 16.
Definition maxFlowsPerShard : Z := 16384.
Definition maxPortsPerSrcIP : Z := 256.
Definition overflowPortKey : Z := 65535.
Definition outputBufferSize : Z := 4096.
Definition minIATSamplesForVariance : Z := 30.
Definition neutralIATStdDevNS : float64 := 5000000%float.
Definition tcpFlagSYN : Z := 2.
Definition tcpFlagPSH : Z := 8.
Definition tcpFlagACK : Z := 16.
Definition protocolTCP : Z := 6.

(** ** Flow keys *)

Record FlowKey := mkFlowKey {
  IPLo : Z; IPHi : Z;         (* uint32 *)
  PortLo : Z; PortHi : Z;     (* uint16 *)
  key_Protocol : Z            (* uint8 *)
}.

#[global] Instance FlowKey_eq_dec : EqDecision FlowKey.
Proof. solve_decision. Defined.

Definition key_tuple (k : FlowKey) : Z * Z * Z * Z * Z :=
  (IPLo k, IPHi k, PortLo k, PortHi k, key_Protocol k).
Definition tuple_key (t : Z * Z * Z * Z * Z) : FlowKey :=
  let '(a, b, c, d, e) := t in mkFlowKey a b c d e.

#[global] Program Instance FlowKey_countable : Countable FlowKey :=
  inj_countable' key_tuple tuple_key _.
Next Obligation. by intros []. Qed.

Definition canonicalize (m : FlowPacketMeta) : FlowKey * bool :=
  if (SrcIP m <? DstIP m) || ((SrcIP m =? DstIP m) && (SrcPort m <=? DstPort m))
  then (mkFlowKey (SrcIP m) (DstIP m) (SrcPort m) (DstPort m) (Protocol m), true)
  else (mkFlowKey (DstIP m) (SrcIP m) (DstPort m) (SrcPort m) (Protocol m), false).

Definition shardIndex (k : FlowKey) : Z :=
  let h := Z.lxor (Z.lxor (Z.lxor (Z.lxor
             (IPLo k *{32} 2654435761) (IPHi k *{32} 40503))
             (wrap 32 (Z.shiftl (PortLo k) 16))) (PortHi k)) (key_Protocol k) in
  h mod numShards.

Definition srcIPShardIndex (srcIP : Z) : Z := (srcIP *{32} 2654435761) mod numShards.

(** ** Flow accumulators *)

Record flowAccumulator := mkFlow {
  firstSrcIP : Z; firstDstIP : Z; firstSrcPort : Z; firstDstPort : Z;
  fa_protocol : Z;
  packetCount : Z; forwardCount : Z; reverseCount : Z;   (* uint64 *)
  synCount : Z; ackPshCount : Z;                          (* uint64 *)
  lastTimestamp : Z;                                      (* uint64, 0 = unset *)
  iatMean : float64; iatM2 : float64;
  iatSamples : Z                                          (* uint64 *)
}.

Definition new_flow : flowAccumulator := mkFlow 0 0 0 0 0 0 0 0 0 0 0 0%float 0%float 0.

(** [observe]: identity of the first packet, counters, then the inter-arrival
    statistics when this packet is later than the previous one. *)
Definition observe_first (fa : flowAccumulator) (m : FlowPacketMeta) : flowAccumulator :=
  if packetCount fa =? 0
  then mkFlow (SrcIP m) (DstIP m) (SrcPort m) (DstPort m) (Protocol m)
         (packetCount fa) (forwardCount fa) (reverseCount fa) (synCount fa) (ackPshCount fa)
         (lastTimestamp fa) (iatMean fa) (iatM2 fa) (iatSamples fa)
  else fa.

Definition observe_counts (fa : flowAccumulator) (m : FlowPacketMeta) (srcIsLo : bool) : flowAccumulator :=
  let tcp := Protocol m =? protocolTCP in
  let syn := tcp && negb (Z.land (TCPFlags m) tcpFlagSYN =? 0) in
  let ackpsh := tcp && negb (Z.land (TCPFlags m) (Z.lor tcpFlagACK tcpFlagPSH) =? 0) in
  mkFlow (firstSrcIP fa) (firstDstIP fa) (firstSrcPort fa) (firstDstPort fa) (fa_protocol fa)
    (packetCount fa +{64} 1)
    (if srcIsLo then forwardCount fa +{64} 1 else forwardCount fa)
    (if srcIsLo then reverseCount fa else reverseCount fa +{64} 1)
    (if syn then synCount fa +{64} 1 else synCount fa)
    (if ackpsh then ackPshCount fa +{64} 1 else ackPshCount fa)
    (lastTimestamp fa) (iatMean fa) (iatM2 fa) (iatSamples fa).

Definition observe_iat (fa : flowAccumulator) (m : FlowPacketMeta) : flowAccumulator :=
  let upd mean m2 n :=
    mkFlow (firstSrcIP fa) (firstDstIP fa) (firstSrcPort fa) (firstDstPort fa) (fa_protocol fa)
      (packetCount fa) (forwardCount fa) (reverseCount fa) (synCount fa) (ackPshCount fa)
      (TimestampNS m) mean m2 n in
  if negb (lastTimestamp fa =? 0) && (lastTimestamp fa <? TimestampNS m) then
    let iat := of_int (TimestampNS m -{64} lastTimestamp fa) in
    let n := iatSamples fa +{64} 1 in
    let delta := (iat - iatMean fa)%float in
    let mean := (iatMean fa + delta / of_int n)%float in
    let delta2 := (iat - mean)%float in
    upd mean (iatM2 fa + delta * delta2)%float n
  else upd (iatMean fa) (iatM2 fa) (iatSamples fa).

Definition observe (fa : flowAccumulator) (m : FlowPacketMeta) (srcIsLo : bool) : flowAccumulator :=
  observe_iat (observe_counts (observe_first fa m) m srcIsLo) m.

Definition iatStdDevNS (fa : flowAccumulator) : float64 :=
  if iatSamples fa <? minIATSamplesForVariance then neutralIATStdDevNS
  else
    let variance := (iatM2 fa / of_int (iatSamples fa))%float in
    if (variance <? 0)%float then 0%float else math_Sqrt variance.

(** ** Port trackers *)

Record portTracker := mkTracker { counts : gmap Z Z; total : Z (* uint32 *) }.

Definition newPortTracker : portTracker := mkTracker ∅ 0.

Definition port_observe (pt : portTracker) (dstPort : Z) : portTracker :=
  let total' := total pt +{32} 1 in
  match counts pt !! dstPort with
  | Some c => mkTracker (<[dstPort := c +{32} 1]> (counts pt)) total'
  | None =>
      if maxPortsPerSrcIP <=? Z.of_nat (size (counts pt))
      then mkTracker (<[overflowPortKey := default 0 (counts pt !! overflowPortKey) +{32} 1]> (counts pt)) total'
      else mkTracker (<[dstPort := 1]> (counts pt)) total'
  end.

(** ** Features and the aggregator *)

Record FlowFeatures := mkFeatures {
  ff_SrcIP : IP; ff_DstIP : IP;
  ff_SrcPort : Z; ff_DstPort : Z;
  ff_Protocol : Z;
  ff_PacketCount : Z; ff_ForwardCount : Z; ff_ReverseCount : Z;
  ff_SynCount : Z; ff_AckPshCount : Z;
  ff_IATStdDevNS : float64;
  ff_RatioFlow : float64;
  ff_PortEntropyBits : float64;
  ff_WindowStart : Z; ff_WindowEnd : Z
}.

Definition u32ToIP (v : Z) : IP :=
  IPv4 (wrap 8 (Z.shiftr v 24)) (wrap 8 (Z.shiftr v 16)) (wrap 8 (Z.shiftr v 8)) (wrap 8 v).

Definition max64 (a b : Z) : Z := if b <? a then a else b.

Record Aggregator := mkAgg {
  flowShards : list (gmap FlowKey flowAccumulator);
  portShards : list (gmap Z portTracker);
  out : list FlowFeatures;      (* the buffered channel *)
  out_closed : bool;
  windowStart : Z;
  droppedNewFlows : Z;          (* uint64 *)
  droppedOutput : Z             (* uint64 *)
}.

Definition NewAggregator (now : Z) : Aggregator :=
  mkAgg (replicate (Z.to_nat numShards) ∅) (replicate (Z.to_nat numShards) ∅) [] false now 0 0.

Definition Output (a : Aggregator) : list FlowFeatures := out a.
Definition DroppedNewFlows (a : Aggregator) : Z := droppedNewFlows a.
Definition DroppedOutput (a : Aggregator) : Z := droppedOutput a.

(** The two critical sections of [Ingest].  The first, under the flow shard's
    lock, fails when the shard is saturated and the flow is new. *)
Definition flow_shard (a : Aggregator) (i : Z) : gmap FlowKey flowAccumulator :=
  default ∅ (flowShards a !! Z.to_nat i).
Definition port_shard (a : Aggregator) (i : Z) : gmap Z portTracker :=
  default ∅ (portShards a !! Z.to_nat i).

Definition set_flow_shard (a : Aggregator) (i : Z) (s : gmap FlowKey flowAccumulator) : Aggregator :=
  mkAgg (<[Z.to_nat i := s]> (flowShards a)) (portShards a) (out a) (out_closed a) (windowStart a)
    (droppedNewFlows a) (droppedOutput a).
Definition set_port_shard (a : Aggregator) (i : Z) (s : gmap Z portTracker) : Aggregator :=
  mkAgg (flowShards a) (<[Z.to_nat i := s]> (portShards a)) (out a) (out_closed a) (windowStart a)
    (droppedNewFlows a) (droppedOutput a).
Definition drop_new_flow (a : Aggregator) : Aggregator :=
  mkAgg (flowShards a) (portShards a) (out a) (out_closed a) (windowStart a)
    (droppedNewFlows a +{64} 1) (droppedOutput a).

Definition ingest_flow (a : Aggregator) (m : FlowPacketMeta) : Aggregator * bool :=
  let '(key, srcIsLo) := canonicalize m in
  let fs := flow_shard a (shardIndex key) in
  match fs !! key with
  | Some fa => (set_flow_shard a (shardIndex key) (<[key := observe fa m srcIsLo]> fs), true)
  | None =>
      if maxFlowsPerShard <=? Z.of_nat (size fs) then (drop_new_flow a, false)
      else (set_flow_shard a (shardIndex key) (<[key := observe new_flow m srcIsLo]> fs), true)
  end.

Definition ingest_port (a : Aggregator) (m : FlowPacketMeta) : Aggregator :=
  let ps := port_shard a (srcIPShardIndex (SrcIP m)) in
  let pt := default newPortTracker (ps !! SrcIP m) in
  set_port_shard a (srcIPShardIndex (SrcIP m)) (<[SrcIP m := port_observe pt (DstPort m)]> ps).

Definition Ingest (a : Aggregator) (m : FlowPacketMeta) : Aggregator :=
  let '(a', tracked) := ingest_flow a m in
  if tracked then ingest_port a' m else a'.

Section window.
Context `{MapRange, GoMath}.

Definition entropy_step (total : float64) (h : float64) (c : Z) : float64 :=
  if c =? 0 then h
  else
    let p := (of_int c / total)%float in
    (h - p * math_Log2 p)%float.

Definition entropyBits (pt : portTracker) : float64 :=
  if total pt =? 0 then 0%float
  else
    let t := of_int (total pt) in
    fold_left (fun h '(_, c) => entropy_step t h c) (range_map (counts pt)) 0%float.

(** One feature vector of the window that ends. *)
Definition make_features (snap : gmap Z portTracker) (windowStart windowEnd : Z) (fa : flowAccumulator)
    : FlowFeatures :=
  let entropy := match snap !! firstSrcIP fa with
                 | Some pt => entropyBits pt
                 | None => 0%float
                 end in
  mkFeatures (u32ToIP (firstSrcIP fa)) (u32ToIP (firstDstIP fa)) (firstSrcPort fa) (firstDstPort fa)
    (fa_protocol fa) (packetCount fa) (forwardCount fa) (reverseCount fa) (synCount fa) (ackPshCount fa)
    (iatStdDevNS fa)
    (of_int (forwardCount fa) / of_int (max64 (reverseCount fa) 1))%float
    entropy windowStart windowEnd.

(** The non-blocking send: a full buffer drops the vector, a closed channel
    panics. *)
Definition emit (a : Aggregator) (ff : FlowFeatures) : option Aggregator :=
  if out_closed a then None
  else if Z.of_nat (length (out a)) <? outputBufferSize
  then Some (mkAgg (flowShards a) (portShards a) (out a ++ [ff]) (out_closed a) (windowStart a)
               (droppedNewFlows a) (droppedOutput a))
  else Some (mkAgg (flowShards a) (portShards a) (out a) (out_closed a) (windowStart a)
               (droppedNewFlows a) (droppedOutput a +{64} 1)).

Fixpoint emit_all (a : Aggregator) (l : list FlowFeatures) : option Aggregator :=
  match l with
  | [] => Some a
  | ff :: l' => a' ← emit a ff; emit_all a' l'
  end.

(** Reading the window's bounds, under [winMu]. *)
Definition flush_window (a : Aggregator) (now : Z) : Aggregator :=
  mkAgg (flowShards a) (portShards a) (out a) (out_closed a) now (droppedNewFlows a) (droppedOutput a).

(** The snapshot of the port trackers; every shard is replaced by an empty
    one. *)
Fixpoint snapshot_ports (shards : list (gmap Z portTracker)) (snap : gmap Z portTracker) : gmap Z portTracker :=
  match shards with
  | [] => snap
  | ps :: shards' => snapshot_ports shards' (ps ∪ snap)
  end.

Definition flush_ports (a : Aggregator) : gmap Z portTracker * Aggregator :=
  (snapshot_ports (portShards a) ∅,
   mkAgg (flowShards a) (map (fun _ => ∅) (portShards a)) (out a) (out_closed a) (windowStart a)
     (droppedNewFlows a) (droppedOutput a)).

(** One iteration of the second loop: take a flow shard, then emit its
    flows. *)
Definition flush_shard (snap : gmap Z portTracker) (ws we : Z) (a : Aggregator) (i : nat) : option Aggregator :=
  let flows := flow_shard a (Z.of_nat i) in
  emit_all (set_flow_shard a (Z.of_nat i) ∅) (map (fun kv => make_features snap ws we (snd kv)) (range_map flows)).

Fixpoint flush_shards (snap : gmap Z portTracker) (ws we : Z) (a : Aggregator) (idx : list nat) : option Aggregator :=
  match idx with
  | [] => Some a
  | i :: idx' => a' ← flush_shard snap ws we a i; flush_shards snap ws we a' idx'
  end.

Definition flush (a : Aggregator) (now : Z) : option Aggregator :=
  let ws := windowStart a in
  let '(snap, a2) := flush_ports (flush_window a now) in
  flush_shards snap ws now a2 (seq 0 (Z.to_nat numShards)).

Definition close_out (a : Aggregator) : Aggregator :=
  mkAgg (flowShards a) (portShards a) (out a) true (windowStart a) (droppedNewFlows a) (droppedOutput a).

(** [Run]: what its select receives, in order; the loop ends with the
    context, and nothing is received after that. *)
Inductive run_event := TickerC (now : Z) | CtxDone (now : Z).

Fixpoint Run (a : Aggregator) (evs : list run_event) : option Aggregator :=
  match evs with
  | [] => Some a
  | TickerC now :: evs' => a' ← flush a now; Run a' evs'
  | CtxDone now :: _ => a' ← flush a now; if out_closed a' then None else Some (close_out a')
  end.

End window.

(** ** Keys and shards *)

(** The reply to a packet. *)
Definition reply (m : FlowPacketMeta) : FlowPacketMeta :=
  mkMeta (DstIP m) (SrcIP m) (DstPort m) (SrcPort m) (Protocol m) (TCPFlags m) (meta_Action m) (meta_DropReason m)
    (TimestampNS m).

(** Two packets belong to the same conversation: same protocol, and the same two
    endpoints in either direction. *)
Definition same_conversation (m m' : FlowPacketMeta) : Prop :=
  Protocol m = Protocol m' /\
  ((SrcIP m = SrcIP m' /\ SrcPort m = SrcPort m' /\ DstIP m = DstIP m' /\ DstPort m = DstPort m') \/
   (SrcIP m = DstIP m' /\ SrcPort m = DstPort m' /\ DstIP m = SrcIP m' /\ DstPort m = SrcPort m')).

(** C21: a flow key identifies a conversation. Two packets have the same key
    exactly when they have the same protocol and the same two endpoints, in
    either direction; the reply to a packet has its key with the direction
    reversed, unless both endpoints are the same. *)
Theorem canonicalize_conversation (m m' : FlowPacketMeta) :
  (fst (canonicalize m) = fst (canonicalize m') <-> same_conversation m m') /\
  fst (canonicalize (reply m)) = fst (canonicalize m) /\
  ((SrcIP m <> DstIP m \/ SrcPort m <> DstPort m) ->
   snd (canonicalize (reply m)) = negb (snd (canonicalize m))).
Proof.
  assert (Hcase : forall x, (fst (canonicalize x) = mkFlowKey (SrcIP x) (DstIP x) (SrcPort x) (DstPort x) (Protocol x)
      /\ snd (canonicalize x) = true /\ (SrcIP x < DstIP x \/ (SrcIP x = DstIP x /\ SrcPort x <= DstPort x))) \/
    (fst (canonicalize x) = mkFlowKey (DstIP x) (SrcIP x) (DstPort x) (SrcPort x) (Protocol x)
      /\ snd (canonicalize x) = false /\ (DstIP x < SrcIP x \/ (SrcIP x = DstIP x /\ DstPort x < SrcPort x)))).
  { intros x. unfold canonicalize.
    destruct (Z.ltb_spec (SrcIP x) (DstIP x)), (Z.eqb_spec (SrcIP x) (DstIP x)),
      (Z.leb_spec (SrcPort x) (DstPort x)); simpl; (left; split_and!; done || lia) || (right; split_and!; done || lia). }
  split_and!.
  - unfold same_conversation.
    destruct (Hcase m) as [(-> & _ & Hm)|(-> & _ & Hm)], (Hcase m') as [(-> & _ & Hm')|(-> & _ & Hm')];
      (split; [intros [=]; lia|intros [? Hc]; f_equal; lia]).
  - destruct (Hcase m) as [(-> & _ & Hm)|(-> & _ & Hm)], (Hcase (reply m)) as [(-> & _ & Hr)|(-> & _ & Hr)];
      simpl in *; f_equal; lia.
  - intros Hne.
    destruct (Hcase m) as [(_ & -> & Hm)|(_ & -> & Hm)], (Hcase (reply m)) as [(_ & -> & Hr)|(_ & -> & Hr)];
      simpl in *; done || lia.
Qed.

(** Shard routing. A shard index is below 16, and depends on the low four
    bits of the addresses, of the higher endpoint's port and of the protocol
    only: two conversations that differ in the lower endpoint's port share a
    shard. The port tracker's shard is the low four bits of the source. *)
Theorem shardIndex_spec (k : FlowKey) (ip : Z) :
  shardIndex k = Z.lxor (Z.lxor (Z.lxor (IPLo k mod 16) ((7 * IPHi k) mod 16)) (PortHi k mod 16)) (key_Protocol k mod 16) /\
  0 <= shardIndex k < 16 /\
  srcIPShardIndex ip = ip mod 16 /\
  (forall p, shardIndex (mkFlowKey (IPLo k) (IPHi k) p (PortHi k) (key_Protocol k)) = shardIndex k).
Proof.
  assert (Hx : forall a b, Z.lxor a b mod 16 = Z.lxor (a mod 16) (b mod 16)).
  { intros a b. change 16 with (2 ^ 4). rewrite <- !Z.land_ones by lia.
    apply Z.bits_inj'. intros n Hn. rewrite !Z.lxor_spec, !Z.land_spec, Z.lxor_spec. by destruct (Z.testbit (Z.ones 4) n), (Z.testbit a n), (Z.testbit b n). }
  assert (Hw : forall x, wrap 32 x mod 16 = x mod 16).
  { intros x. unfold wrap. change (2 ^ 32) with (16 * 2 ^ 28). rewrite Z.rem_mul_r by lia.
    rewrite (Z.mul_comm 16), Z.mod_add, Z.mod_mod by lia. done. }
  assert (Hspec : forall k, shardIndex k =
    Z.lxor (Z.lxor (Z.lxor (IPLo k mod 16) ((7 * IPHi k) mod 16)) (PortHi k mod 16)) (key_Protocol k mod 16)).
  { intros k'. unfold shardIndex, numShards. rewrite !Hx, !Hw.
    replace (Z.shiftl (PortLo k') 16 mod 16) with 0
      by (rewrite Z.shiftl_mul_pow2 by lia; change (2 ^ 16) with (2 ^ 12 * 16); rewrite Z.mul_assoc, Z.mod_mul; lia).
    rewrite Z.lxor_0_r. do 3 f_equal; div_lia. }
  split_and!; [apply Hspec|unfold shardIndex, numShards; apply Z.mod_pos_bound; lia..| |].
  - unfold srcIPShardIndex, numShards. rewrite Hw. div_lia.
  - intros p. by rewrite !Hspec.
Qed.

Lemma shardIndex_range k : 0 <= shardIndex k < numShards.
Proof. by apply Z.mod_pos_bound. Qed.
Lemma srcIPShardIndex_range ip : 0 <= srcIPShardIndex ip < numShards.
Proof. by apply Z.mod_pos_bound. Qed.

(** ** The abstract window

    What the aggregator promises: the window is the list of the packets it
    accepted.  A flow is what [observe] makes of the packets of its
    conversation, in order; a tracker is what it makes of the ports its source
    sent to. *)

Record window := mkWindow { accepted : list FlowPacketMeta; refused : Z }.

Definition key_of (m : FlowPacketMeta) : FlowKey := fst (canonicalize m).

Definition conversation (k : FlowKey) (ms : list FlowPacketMeta) : list FlowPacketMeta :=
  filter (fun m => key_of m = k) ms.
Definition observe_all (ms : list FlowPacketMeta) : flowAccumulator :=
  fold_left (fun fa m => observe fa m (snd (canonicalize m))) ms new_flow.
Definition flow_of (ms : list FlowPacketMeta) (k : FlowKey) : option flowAccumulator :=
  match conversation k ms with [] => None | c => Some (observe_all c) end.

Definition sent_to (ip : Z) (ms : list FlowPacketMeta) : list Z :=
  map DstPort (filter (fun m => SrcIP m = ip) ms).
Definition tracker_of (ms : list FlowPacketMeta) (ip : Z) : option portTracker :=
  match sent_to ip ms with [] => None | ps => Some (fold_left port_observe ps newPortTracker) end.

(** The keys of the window that fall in a shard. *)
Definition shard_keys (ms : list FlowPacketMeta) (i : Z) : gset FlowKey :=
  filter (fun k => shardIndex k = i) (list_to_set (map key_of ms)).

Definition accepts (ms : list FlowPacketMeta) (m : FlowPacketMeta) : bool :=
  bool_decide (key_of m ∈ shard_keys ms (shardIndex (key_of m))) ||
  (Z.of_nat (size (shard_keys ms (shardIndex (key_of m)))) <? maxFlowsPerShard).

Definition window_ingest (w : window) (m : FlowPacketMeta) : window :=
  if accepts (accepted w) m then mkWindow (accepted w ++ [m]) (refused w)
  else mkWindow (accepted w) (refused w +{64} 1).

(** The aggregator's shards hold an abstract window. *)
Record holds (w : window) (a : Aggregator) : Prop := {
  h_flow_len : length (flowShards a) = Z.to_nat numShards;
  h_port_len : length (portShards a) = Z.to_nat numShards;
  h_flow : forall k, flow_shard a (shardIndex k) !! k = flow_of (accepted w) k;
  h_flow_own : forall i k, 0 <= i < numShards -> is_Some (flow_shard a i !! k) -> shardIndex k = i;
  h_port : forall ip, port_shard a (srcIPShardIndex ip) !! ip = tracker_of (accepted w) ip;
  h_port_own : forall i ip, 0 <= i < numShards -> is_Some (port_shard a i !! ip) -> srcIPShardIndex ip = i;
  h_refused : droppedNewFlows a = refused w
}.

Lemma conversation_app k ms m :
  conversation k (ms ++ [m]) = conversation k ms ++ (if decide (key_of m = k) then [m] else []).
Proof. unfold conversation. rewrite filter_app, filter_cons, filter_nil. by case_decide. Qed.

Lemma flow_of_app ms m k :
  flow_of (ms ++ [m]) k =
  if decide (key_of m = k)
  then Some (observe (default new_flow (flow_of ms k)) m (snd (canonicalize m))) else flow_of ms k.
Proof.
  unfold flow_of. rewrite conversation_app. case_decide; [|by rewrite app_nil_r].
  unfold observe_all. destruct (conversation k ms) as [|m0 c] eqn:E; [done|].
  cbn [app default]. change (m0 :: c ++ [m]) with ((m0 :: c) ++ [m]). by rewrite fold_left_app.
Qed.

Lemma tracker_of_app ms m ip :
  tracker_of (ms ++ [m]) ip =
  if decide (SrcIP m = ip)
  then Some (port_observe (default newPortTracker (tracker_of ms ip)) (DstPort m)) else tracker_of ms ip.
Proof.
  unfold tracker_of, sent_to. rewrite filter_app, map_app, filter_cons, filter_nil.
  case_decide; [|by rewrite app_nil_r]. simpl map at 2.
  destruct (map DstPort _) as [|p ps]; [done|].
  cbn [app default]. change (p :: ps ++ [DstPort m]) with ((p :: ps) ++ [DstPort m]). by rewrite fold_left_app.
Qed.

Lemma flow_of_Some ms k : is_Some (flow_of ms k) <-> k ∈ map key_of ms.
Proof.
  unfold flow_of, conversation. rewrite list_elem_of_fmap. split.
  - destruct (filter _ ms) as [|m c] eqn:E; [by intros []|intros _].
    assert (Hin : m ∈ filter (fun m => key_of m = k) ms) by (rewrite E; apply list_elem_of_here).
    apply list_elem_of_filter in Hin as [Hk Hin]. by exists m.
  - intros (m & -> & Hin). destruct (filter _ ms) eqn:E; [|by eexists].
    assert (Hin' : m ∈ filter (fun m' => key_of m' = key_of m) ms) by (by apply list_elem_of_filter).
    rewrite E in Hin'. by apply elem_of_nil in Hin'.
Qed.

Lemma elem_shard_keys ms i k : k ∈ shard_keys ms i <-> shardIndex k = i /\ is_Some (flow_of ms k).
Proof. unfold shard_keys. by rewrite elem_of_filter, elem_of_list_to_set, flow_of_Some. Qed.

Lemma flow_shard_set a i j s :
  length (flowShards a) = Z.to_nat numShards -> 0 <= i < numShards -> 0 <= j < numShards ->
  flow_shard (set_flow_shard a i s) j = if decide (i = j) then s else flow_shard a j.
Proof.
  intros Hl Hi Hj. unfold flow_shard, set_flow_shard. simpl. case_decide.
  - subst j. by rewrite list_lookup_insert_eq by lia.
  - rewrite list_lookup_insert_ne; [done|lia].
Qed.

Lemma port_shard_set a i j s :
  length (portShards a) = Z.to_nat numShards -> 0 <= i < numShards -> 0 <= j < numShards ->
  port_shard (set_port_shard a i s) j = if decide (i = j) then s else port_shard a j.
Proof.
  intros Hl Hi Hj. unfold port_shard, set_port_shard. simpl. case_decide.
  - subst j. by rewrite list_lookup_insert_eq by lia.
  - rewrite list_lookup_insert_ne; [done|lia].
Qed.

(** Looking up any key in its shard, after one entry of one shard changed. *)
Lemma flow_shard_set_lookup a k v k' :
  length (flowShards a) = Z.to_nat numShards ->
  flow_shard (set_flow_shard a (shardIndex k) (<[k := v]> (flow_shard a (shardIndex k)))) (shardIndex k') !! k' =
  if decide (k = k') then Some v else flow_shard a (shardIndex k') !! k'.
Proof.
  intros Hl. rewrite flow_shard_set by (done || apply shardIndex_range).
  destruct (decide (k = k')) as [<-|Hne]; [rewrite decide_True by done; apply lookup_insert_eq|].
  case_decide as E; [|done]. by rewrite lookup_insert_ne, E.
Qed.

Lemma port_shard_set_lookup a ip v ip' :
  length (portShards a) = Z.to_nat numShards ->
  port_shard (set_port_shard a (srcIPShardIndex ip) (<[ip := v]> (port_shard a (srcIPShardIndex ip)))) (srcIPShardIndex ip') !! ip' =
  if decide (ip = ip') then Some v else port_shard a (srcIPShardIndex ip') !! ip'.
Proof.
  intros Hl. rewrite port_shard_set by (done || apply srcIPShardIndex_range).
  destruct (decide (ip = ip')) as [<-|Hne]; [rewrite decide_True by done; apply lookup_insert_eq|].
  case_decide as E; [|done]. by rewrite lookup_insert_ne, E.
Qed.

(** The shard's map has exactly the keys of the window that fall in it. *)
Lemma holds_dom w a i : holds w a -> 0 <= i < numShards -> dom (flow_shard a i) = shard_keys (accepted w) i.
Proof.
  intros Hh Hi. apply set_eq. intros k. rewrite elem_of_dom, elem_shard_keys. split.
  - intros Hk. pose proof (h_flow_own w a Hh i k Hi Hk) as E. split; [done|].
    by rewrite <- (h_flow w a Hh), E.
  - intros [<- Hk]. by rewrite (h_flow w a Hh).
Qed.

Lemma holds_size w a i :
  holds w a -> 0 <= i < numShards -> size (flow_shard a i) = size (shard_keys (accepted w) i).
Proof. intros Hh Hi. by rewrite <- (holds_dom w a i Hh Hi), size_dom. Qed.

Lemma default_replicate {A} n (x : A) i : default x (replicate n x !! i) = x.
Proof. destruct (replicate n x !! i) eqn:E; [|done]. by apply lookup_replicate in E as [-> _]. Qed.

Lemma flow_shard_New now i : flow_shard (NewAggregator now) i = ∅.
Proof. apply default_replicate. Qed.
Lemma port_shard_New now i : port_shard (NewAggregator now) i = ∅.
Proof. apply default_replicate. Qed.

Lemma holds_New now : holds (mkWindow [] 0) (NewAggregator now).
Proof.
  split; try done.
  - intros k. by rewrite flow_shard_New.
  - intros i k _. rewrite flow_shard_New, lookup_empty. by intros [].
  - intros ip. by rewrite port_shard_New.
  - intros i k _. rewrite port_shard_New, lookup_empty. by intros [].
Qed.

(** The tracked packets of the window, then the ports. *)
Lemma ingest_flow_holds w a m :
  holds w a ->
  let '(a', tracked) := ingest_flow a m in
  tracked = accepts (accepted w) m /\
  (tracked = false -> a' = drop_new_flow a) /\
  (tracked = true ->
    length (flowShards a') = Z.to_nat numShards /\ portShards a' = portShards a /\
    (forall k, flow_shard a' (shardIndex k) !! k = flow_of (accepted w ++ [m]) k) /\
    (forall i k, 0 <= i < numShards -> is_Some (flow_shard a' i !! k) -> shardIndex k = i) /\
    droppedNewFlows a' = droppedNewFlows a).
Proof.
  intros Hh. unfold ingest_flow. destruct (canonicalize m) as [key lo] eqn:Ec.
  assert (Hkey : key_of m = key) by (unfold key_of; by rewrite Ec).
  pose proof (shardIndex_range key) as Hr. pose proof (h_flow w a Hh key) as Hlk.
  pose proof (holds_size w a _ Hh Hr) as Hsz.
  assert (Hacc : accepts (accepted w) m =
    bool_decide (is_Some (flow_shard a (shardIndex key) !! key)) ||
    (Z.of_nat (size (flow_shard a (shardIndex key))) <? maxFlowsPerShard)).
  { unfold accepts. rewrite Hkey, Hsz. f_equal. apply bool_decide_ext. rewrite elem_shard_keys, Hlk. split; [by intros [_ ?]|by split]. }
  assert (Hset : forall v, Some v = Some (observe (default new_flow (flow_of (accepted w) key)) m lo) ->
    let a' := set_flow_shard a (shardIndex key) (<[key := v]> (flow_shard a (shardIndex key))) in
    length (flowShards a') = Z.to_nat numShards /\ portShards a' = portShards a /\
    (forall k, flow_shard a' (shardIndex k) !! k = flow_of (accepted w ++ [m]) k) /\
    (forall i k, 0 <= i < numShards -> is_Some (flow_shard a' i !! k) -> shardIndex k = i) /\
    droppedNewFlows a' = droppedNewFlows a).
  { intros v Hv. cbv zeta. split_and!; try done.
    - simpl. rewrite length_insert. apply (h_flow_len w a Hh).
    - intros k. rewrite flow_shard_set_lookup, flow_of_app, Hkey, Ec by apply (h_flow_len w a Hh). case_decide; [by subst k|apply (h_flow w a Hh)].
    - intros i k Hi. rewrite flow_shard_set by (done || apply (h_flow_len w a Hh)). case_decide as Ei; [|by apply (h_flow_own w a Hh)].
      destruct (decide (key = k)) as [->|Hne]; [done|]. rewrite lookup_insert_ne by done. subst i. by apply (h_flow_own w a Hh). }
  rewrite Hlk in *. destruct (flow_of (accepted w) key) as [fa|] eqn:Ef; simpl.
  - split; [by rewrite Hacc, bool_decide_true by eauto|]. split; [done|]. intros _. by apply Hset.
  - rewrite bool_decide_false in Hacc by (by intros []). simpl in Hacc.
    destruct (Z.leb_spec maxFlowsPerShard (Z.of_nat (size (flow_shard a (shardIndex key))))).
    + split; [rewrite Hacc; symmetry; apply Z.ltb_ge; lia|]. split; done.
    + split; [rewrite Hacc; symmetry; apply Z.ltb_lt; lia|]. split; [done|]. intros _. by apply Hset.
Qed.

Lemma Ingest_holds w a m : holds w a -> holds (window_ingest w m) (Ingest a m).
Proof.
  intros Hh. pose proof (ingest_flow_holds w a m Hh) as Hf. unfold Ingest, window_ingest.
  destruct (ingest_flow a m) as [a' tracked]. destruct Hf as (<- & Hno & Hyes). destruct tracked.
  - destruct (Hyes eq_refl) as (Hl & Hps & Hfl & Hown & Hd). unfold ingest_port.
    assert (Hpl : length (portShards a') = Z.to_nat numShards) by (rewrite Hps; apply (h_port_len w a Hh)).
    assert (Hpsh : forall i, port_shard a' i = port_shard a i) by (intros i; unfold port_shard; by rewrite Hps).
    split; simpl accepted; simpl refused.
    + done.
    + simpl. by rewrite length_insert.
    + exact Hfl.
    + exact Hown.
    + intros ip. rewrite port_shard_set_lookup, tracker_of_app by done. rewrite !Hpsh, !(h_port w a Hh). case_decide; [by subst ip|done].
    + intros i ip Hi. rewrite port_shard_set by (done || apply srcIPShardIndex_range).
      rewrite !Hpsh. case_decide as Ei; [|by apply (h_port_own w a Hh)].
      destruct (decide (SrcIP m = ip)) as [<-|Hne]; [done|]. rewrite lookup_insert_ne by done. subst i.
      by apply (h_port_own w a Hh).
    + simpl. rewrite Hd. apply (h_refused w a Hh).
  - rewrite (Hno eq_refl). destruct Hh. split; try done. simpl. by rewrite h_refused0.
Qed.

(** A window of few packets refuses none. *)
Lemma shard_keys_size ms i : (size (shard_keys ms i) <= length ms)%nat.
Proof.
  assert (Hall : (size (list_to_set (map key_of ms) : gset FlowKey) <= length ms)%nat).
  { induction ms as [|m ms IH]; [done|]. simpl. rewrite size_union_alt, size_singleton.
    assert (Hsub : (list_to_set (map key_of ms) ∖ {[key_of m]} : gset FlowKey) ⊆ list_to_set (map key_of ms))
      by by intros x [? _]%elem_of_difference.
    apply subseteq_size in Hsub. lia. }
  assert (Hsub : shard_keys ms i ⊆ list_to_set (map key_of ms)) by by intros x [_ ?]%elem_of_filter.
  apply subseteq_size in Hsub. lia.
Qed.

Lemma small_window_accepted ms :
  Z.of_nat (length ms) <= maxFlowsPerShard -> fold_left window_ingest ms (mkWindow [] 0) = mkWindow ms 0.
Proof.
  intros Hlen. change ms with ([] ++ ms) in Hlen at 1. change (mkWindow ms 0) with (mkWindow ([] ++ ms) 0).
  revert Hlen. generalize (@nil FlowPacketMeta) as pre.
  induction ms as [|m ms IH]; intros pre Hlen; simpl; [by rewrite app_nil_r|].
  rewrite length_app in Hlen. simpl in Hlen. pose proof (shard_keys_size pre (shardIndex (key_of m))).
  unfold window_ingest at 2. unfold accepts. simpl accepted. rewrite (proj2 (Z.ltb_lt _ _)) by lia. rewrite orb_true_r. simpl refused.
  rewrite IH; [by rewrite <- app_assoc|]. rewrite !length_app. simpl. lia.
Qed.

(** ** The end of a window *)

Section window_end.
Context `{MapRange, GoMath}.

(** The vector of a conversation of the window: its flow, with the entropy of
    the ports its first source sent to. *)
Definition vector (ms : list FlowPacketMeta) (ws we : Z) (k : FlowKey) : option FlowFeatures :=
  fa ← flow_of ms k;
  Some (make_features (match tracker_of ms (firstSrcIP fa) with
                       | Some pt => {[firstSrcIP fa := pt]} | None => ∅ end) ws we fa).

Definition window_keys (ms : list FlowPacketMeta) : list FlowKey := remove_dups (map key_of ms).

(** What sending [l] does: the buffer takes what it has room for, and the rest
    is counted. *)
Definition room (a : Aggregator) : nat := Z.to_nat outputBufferSize - length (out a).
Definition emitted (a : Aggregator) (l : list FlowFeatures) : Aggregator :=
  mkAgg (flowShards a) (portShards a) (out a ++ take (room a) l) (out_closed a) (windowStart a)
    (droppedNewFlows a) (Nat.iter (length l - room a) (fun d => d +{64} 1) (droppedOutput a)).

Lemma iter_wrap n d : in_u 64 d -> Nat.iter n (fun d => d +{64} 1) d = wrap 64 (d + Z.of_nat n).
Proof.
  intros Hd. induction n as [|n IH]; [rewrite Z.add_0_r; symmetry; by apply wrap_small|].
  rewrite Nat.iter_succ, IH, wrap_add_l. f_equal. lia.
Qed.

Lemma emitted_nil a : emitted a [] = a.
Proof. unfold emitted. destruct a. simpl. by rewrite take_nil, app_nil_r. Qed.

Lemma emitted_app a l1 l2 : emitted (emitted a l1) l2 = emitted a (l1 ++ l2).
Proof.
  assert (Hr : room (emitted a l1) = (room a - length l1)%nat)
    by (unfold room, emitted; cbn; rewrite length_app, length_take; unfold room; lia).
  unfold emitted at 1 3. rewrite Hr. f_equal; simpl.
  - by rewrite take_app, <- app_assoc.
  - rewrite length_app, <- Nat.iter_add. f_equal. lia.
Qed.

Lemma emit_emitted a ff : out_closed a = false -> emit a ff = Some (emitted a [ff]).
Proof.
  intros Ho. unfold emit, emitted. rewrite Ho. unfold room, outputBufferSize.
  destruct (Z.ltb_spec (Z.of_nat (length (out a))) 4096) as [Hlt|Hge].
  - replace (Z.to_nat 4096 - length (out a))%nat with (S (Z.to_nat 4095 - length (out a)))%nat by lia.
    simpl. by rewrite take_nil.
  - replace (Z.to_nat 4096 - length (out a))%nat with 0%nat by lia. simpl. by rewrite app_nil_r.
Qed.

Lemma emit_all_emitted a l : out_closed a = false -> emit_all a l = Some (emitted a l).
Proof.
  revert a. induction l as [|ff l IH]; intros a Ho; simpl; [by rewrite emitted_nil|].
  rewrite emit_emitted by done. simpl. rewrite IH by done. by rewrite emitted_app.
Qed.

Definition shard_vectors (snap : gmap Z portTracker) (ws we : Z) (a : Aggregator) (i : nat) : list FlowFeatures :=
  map (fun kv => make_features snap ws we (snd kv)) (range_map (flow_shard a (Z.of_nat i))).

Definition clear_shards (a : Aggregator) (idx : list nat) : Aggregator :=
  fold_left (fun a i => set_flow_shard a (Z.of_nat i) ∅) idx a.

Lemma clear_shards_emitted a l idx : clear_shards (emitted a l) idx = emitted (clear_shards a idx) l.
Proof. revert a. induction idx as [|i idx IH]; intros a; [done|]. unfold clear_shards in *. simpl. by rewrite <- IH. Qed.

Lemma flush_shards_emitted snap ws we a idx :
  out_closed a = false -> length (flowShards a) = Z.to_nat numShards ->
  NoDup idx -> Forall (fun i => Z.of_nat i < numShards) idx ->
  flush_shards snap ws we a idx =
  Some (emitted (clear_shards a idx) (concat (map (shard_vectors snap ws we a) idx))).
Proof.
  intros Ho Hl Hnd Hidx. revert a Ho Hl. induction idx as [|i idx IH]; intros a Ho Hl; simpl; [by rewrite emitted_nil|].
  apply NoDup_cons in Hnd as [Hni Hnd]. apply Forall_cons in Hidx as [Hi Hidx].
  unfold flush_shard. rewrite emit_all_emitted by done. simpl.
  rewrite IH by (done || (simpl; by rewrite length_insert)).
  rewrite clear_shards_emitted, emitted_app. do 4 f_equal.
  apply map_ext_in. intros j Hj. unfold shard_vectors. do 2 f_equal.
  change (flow_shard (set_flow_shard a (Z.of_nat i) ∅) (Z.of_nat j) = flow_shard a (Z.of_nat j)).
  apply list_elem_of_In in Hj. rewrite Forall_forall in Hidx. specialize (Hidx j Hj).
  rewrite flow_shard_set by (done || lia). rewrite decide_False; [done|]. intros E. apply Hni.
  by replace i with j by lia.
Qed.

Lemma clear_shards_other a idx :
  portShards (clear_shards a idx) = portShards a /\ out (clear_shards a idx) = out a /\
  out_closed (clear_shards a idx) = out_closed a /\ windowStart (clear_shards a idx) = windowStart a /\
  droppedNewFlows (clear_shards a idx) = droppedNewFlows a /\ droppedOutput (clear_shards a idx) = droppedOutput a /\
  length (flowShards (clear_shards a idx)) = length (flowShards a).
Proof.
  revert a. induction idx as [|i idx IH]; intros a; [done|]. unfold clear_shards in *. simpl.
  destruct (IH (set_flow_shard a (Z.of_nat i) ∅)) as (-> & -> & -> & -> & -> & -> & ->). simpl.
  by rewrite length_insert.
Qed.

Lemma clear_shards_lookup a idx (j : nat) :
  length (flowShards a) = Z.to_nat numShards -> Forall (fun i => Z.of_nat i < numShards) idx ->
  Z.of_nat j < numShards ->
  flow_shard (clear_shards a idx) (Z.of_nat j) = if decide (j ∈ idx) then ∅ else flow_shard a (Z.of_nat j).
Proof.
  intros Hl Hidx Hj. revert a Hl. induction Hidx as [|i idx Hi Hidx IH]; intros a Hl; simpl; [done|].
  unfold clear_shards in *. simpl. rewrite IH by (simpl; by rewrite length_insert).
  rewrite flow_shard_set by (done || lia). destruct (decide (i = j)) as [->|Hne].
  - rewrite (decide_True (P := Z.of_nat j = Z.of_nat j)), (decide_True (P := j ∈ j :: idx))
      by (done || by apply list_elem_of_here). by case_decide.
  - rewrite (decide_False (P := Z.of_nat i = Z.of_nat j)) by lia.
    destruct (decide (j ∈ i :: idx)) as [E|E], (decide (j ∈ idx)) as [E'|E']; try done; rewrite elem_of_cons in E.
    + by destruct E as [->|].
    + destruct E. by right.
Qed.

(** The snapshot finds the tracker of every source. *)
Lemma snapshot_ports_lookup l snap ip :
  snapshot_ports l snap !! ip =
  fold_left (fun o ps => match ps !! ip with Some pt => Some pt | None => o end) l (snap !! ip).
Proof.
  revert snap. induction l as [|ps l IH]; intros snap; simpl; [done|]. rewrite IH. f_equal.
  rewrite lookup_union. by destruct (ps !! ip), (snap !! ip).
Qed.

Lemma fold_lookup_own (l : list (gmap Z portTracker)) ip (j : nat) o :
  (forall i, is_Some (default ∅ (l !! i) !! ip) -> i = j) ->
  fold_left (fun o ps => match ps !! ip with Some pt => Some pt | None => o end) l o =
  match default ∅ (l !! j) !! ip with Some pt => Some pt | None => o end.
Proof.
  revert j o. induction l as [|ps l IH]; intros j o Hown; simpl; [by rewrite lookup_empty|].
  destruct j as [|j]; simpl.
  - assert (Hl : forall o', fold_left (fun o ps => match ps !! ip with Some pt => Some pt | None => o end) l o' = o').
    { intros o'. rewrite (IH (length l)); [by rewrite lookup_ge_None_2 by lia|].
      intros i Hi. exfalso. by specialize (Hown (S i) Hi). }
    by rewrite Hl.
  - destruct (ps !! ip) as [pt|] eqn:E.
    { exfalso. assert (0%nat = S j) by (apply (Hown 0%nat); simpl; by rewrite E). done. }
    apply IH. intros i Hi. specialize (Hown (S i) Hi). lia.
Qed.

Lemma flush_snapshot w a ip :
  holds w a -> snapshot_ports (portShards a) ∅ !! ip = tracker_of (accepted w) ip.
Proof.
  intros Hh. rewrite snapshot_ports_lookup, lookup_empty.
  rewrite (fold_lookup_own _ ip (Z.to_nat (srcIPShardIndex ip))).
  - pose proof (h_port w a Hh ip) as Hp. unfold port_shard in Hp. rewrite Hp. by destruct (tracker_of _ _).
  - intros i Hi. pose proof (h_port_len w a Hh) as Hl.
    destruct (decide (i < 16)%nat) as [Hlt|Hge].
    + rewrite (h_port_own w a Hh (Z.of_nat i) ip); [lia|unfold numShards; lia|].
      unfold port_shard. by rewrite Nat2Z.id.
    + rewrite lookup_ge_None_2 in Hi; [|rewrite Hl; unfold numShards; lia]. simpl in Hi.
      rewrite lookup_empty in Hi. by destruct Hi.
Qed.

(** The entries of all the shards are the flows of the window. *)
Definition all_flows (a : Aggregator) : list (FlowKey * flowAccumulator) :=
  concat (map (fun i => range_map (flow_shard a (Z.of_nat i))) (seq 0 (Z.to_nat numShards))).

Lemma elem_range_map {K A} `{Countable K} (m : gmap K A) k v : (k, v) ∈ range_map m <-> m !! k = Some v.
Proof. by rewrite (range_map_perm m), elem_of_map_to_list. Qed.

Lemma elem_all_flows w a k fa :
  holds w a -> (k, fa) ∈ all_flows a <-> flow_of (accepted w) k = Some fa.
Proof.
  intros Hh. unfold all_flows. rewrite <- (h_flow w a Hh). rewrite list_elem_of_In, in_concat. split.
  - intros (l & Hl & Hin). apply in_map_iff in Hl as (i & <- & Hi). apply in_seq in Hi.
    apply list_elem_of_In, elem_range_map in Hin.
    rewrite (h_flow_own w a Hh (Z.of_nat i) k); [done|unfold numShards in *; lia|by eexists].
  - intros Hk. exists (range_map (flow_shard a (shardIndex k))).
    split; [|by apply list_elem_of_In, elem_range_map]. pose proof (shardIndex_range k).
    apply in_map_iff. exists (Z.to_nat (shardIndex k)). split; [by rewrite Z2Nat.id by lia|]. apply in_seq. lia.
Qed.

Lemma NoDup_all_flows w a : holds w a -> NoDup (all_flows a).
Proof.
  intros Hh. unfold all_flows.
  assert (Hgen : forall idx, NoDup idx -> Forall (fun i => Z.of_nat i < numShards) idx ->
    NoDup (concat (map (fun i => range_map (flow_shard a (Z.of_nat i))) idx))).
  { intros idx Hnd Hidx. induction idx as [|i idx IH]; simpl; [constructor|].
    apply NoDup_cons in Hnd as [Hni Hnd]. apply Forall_cons in Hidx as [Hi Hidx].
    apply NoDup_app. split_and!; [|intros [k fa] Hin Hin'|by apply IH].
    - rewrite (range_map_perm _). apply NoDup_map_to_list.
    - apply elem_range_map in Hin. apply list_elem_of_In, in_concat in Hin' as (l & Hl & Hin').
      apply in_map_iff in Hl as (j & <- & Hj). apply list_elem_of_In, elem_range_map in Hin'.
      apply list_elem_of_In in Hj. rewrite Forall_forall in Hidx. specialize (Hidx j Hj).
      assert (Ei : shardIndex k = Z.of_nat i) by (apply (h_flow_own w a Hh); [lia|by eexists]).
      assert (Ej : shardIndex k = Z.of_nat j) by (apply (h_flow_own w a Hh); [lia|by eexists]).
      apply Hni. by replace i with j by lia. }
  apply Hgen; [apply NoDup_seq|]. apply Forall_forall. intros i Hi. apply list_elem_of_In, in_seq in Hi.
  unfold numShards in *. lia.
Qed.

Lemma make_features_ext snap snap' ws we fa :
  snap !! firstSrcIP fa = snap' !! firstSrcIP fa ->
  make_features snap ws we fa = make_features snap' ws we fa.
Proof. intros E. unfold make_features. by rewrite E. Qed.

Lemma NoDup_keyed {A B} (f : A -> option B) ks :
  NoDup ks -> NoDup (omap (fun k => (fun b => (k, b)) <$> f k) ks).
Proof.
  induction 1 as [|k ks Hk Hks IH]; simpl; [constructor|]. destruct (f k) as [b|] eqn:E; [|done].
  simpl. constructor; [|done]. rewrite list_elem_of_omap. intros (k' & Hk' & E').
  apply fmap_Some in E' as (b' & _ & [= -> _]). done.
Qed.

Lemma vectors_perm w a ws we :
  holds w a ->
  map (fun kv => make_features (snapshot_ports (portShards a) ∅) ws we (snd kv)) (all_flows a)
  ≡ₚ omap (vector (accepted w) ws we) (window_keys (accepted w)).
Proof.
  intros Hh.
  assert (Hp : all_flows a ≡ₚ
    omap (fun k => (fun fa => (k, fa)) <$> flow_of (accepted w) k) (window_keys (accepted w))).
  { apply NoDup_Permutation; [by apply (NoDup_all_flows w)|apply NoDup_keyed, NoDup_remove_dups|].
    intros [k fa]. rewrite (elem_all_flows w a k fa Hh), list_elem_of_omap. split.
    - intros E. exists k. split; [|by rewrite E]. apply elem_of_remove_dups, flow_of_Some. by eexists.
    - intros (k' & _ & E). by apply fmap_Some in E as (fa' & E & [= -> ->]). }
  rewrite Hp. apply reflexive_eq. clear Hp.
  induction (window_keys (accepted w)) as [|k ks IH]; simpl; [done|].
  unfold vector at 1. destruct (flow_of (accepted w) k) as [fa|] eqn:E; simpl; [|done].
  f_equal; [|done]. apply make_features_ext. rewrite (flush_snapshot w a) by done.
  destruct (tracker_of (accepted w) (firstSrcIP fa)); [by rewrite lookup_singleton_eq|by rewrite lookup_empty].
Qed.

(** What [flush] does to an open aggregator that holds a window. *)
Lemma flush_holds w a now :
  holds w a -> out_closed a = false ->
  exists a' l,
    flush a now = Some a' /\ holds (mkWindow [] (refused w)) a' /\
    windowStart a' = now /\ out_closed a' = false /\
    l ≡ₚ omap (vector (accepted w) (windowStart a) now) (window_keys (accepted w)) /\
    out a' = out a ++ take (room a) l /\
    droppedOutput a' = Nat.iter (length l - room a) (fun d => d +{64} 1) (droppedOutput a).
Proof.
  intros Hh Ho. set (a2 := snd (flush_ports (flush_window a now))).
  set (l := map (fun kv => make_features (snapshot_ports (portShards a) ∅) (windowStart a) now (snd kv)) (all_flows a)).
  assert (Hnd : NoDup (seq 0 (Z.to_nat numShards))) by apply NoDup_seq.
  assert (Hall : forall i, 0 <= i < numShards -> Z.to_nat i ∈ seq 0 (Z.to_nat numShards))
    by (intros i Hi; apply list_elem_of_In, in_seq; lia).
  assert (Hfl : flush a now = flush_shards (snapshot_ports (portShards a) ∅) (windowStart a) now a2 (seq 0 (Z.to_nat numShards)))
    by reflexivity.
  assert (Hal : all_flows a = concat (map (fun i => range_map (flow_shard a (Z.of_nat i))) (seq 0 (Z.to_nat numShards))))
    by reflexivity.
  assert (Hidx : Forall (fun i => Z.of_nat i < numShards) (seq 0 (Z.to_nat numShards))).
  { apply Forall_forall. intros i Hi. apply list_elem_of_In, in_seq in Hi. unfold numShards in *. lia. }
  assert (Hl2 : length (flowShards a2) = Z.to_nat numShards) by apply (h_flow_len w a Hh).
  generalize dependent (seq 0 (Z.to_nat numShards)). intros idx Hnd Hall Hfl Hal Hidx.
  exists (emitted (clear_shards a2 idx) l), l.
  destruct (clear_shards_other a2 idx) as (Ep & Eo & Ec & Ew & En & Ed & El).
  assert (Hroom : room (clear_shards a2 idx) = room a) by (unfold room; by rewrite Eo).
  split_and!.
  - rewrite Hfl, flush_shards_emitted by done. do 2 f_equal.
    unfold l. rewrite Hal, concat_map, map_map. done.
  - assert (Hf : forall i, 0 <= i < numShards ->
      flow_shard (clear_shards a2 idx) i = ∅).
    { intros i Hi. pose proof (clear_shards_lookup a2 idx (Z.to_nat i) Hl2 Hidx) as E.
      rewrite Z2Nat.id in E by lia. rewrite E by lia. apply decide_True. by apply Hall. }
    assert (Hp : forall i, port_shard (emitted (clear_shards a2 idx) l) i = ∅).
    { intros i. unfold port_shard, emitted. simpl. rewrite Ep. simpl. rewrite list_lookup_fmap.
      by destruct (portShards a !! Z.to_nat i). }
    split; simpl.
    + by rewrite El.
    + rewrite Ep. simpl. rewrite length_map. apply (h_port_len w a Hh).
    + intros k. change (flow_shard (clear_shards a2 idx) (shardIndex k) !! k = None).
      by rewrite Hf by apply shardIndex_range.
    + intros i k Hi Hk. change (is_Some (flow_shard (clear_shards a2 idx) i !! k)) in Hk.
      rewrite Hf, lookup_empty in Hk by done. by destruct Hk.
    + intros ip. by rewrite Hp.
    + intros i ip Hi. rewrite Hp, lookup_empty. by intros [].
    + rewrite En. apply (h_refused w a Hh).
  - simpl. by rewrite Ew.
  - simpl. by rewrite Ec.
  - by apply vectors_perm.
  - simpl. by rewrite Eo, Hroom.
  - simpl. by rewrite Ed, Hroom.
Qed.
End window_end.

(** ** Ingest and flush refine the abstract window *)

(** C18: [Ingest] refines the abstract window. A new aggregator holds the empty
    window, and ingesting a packet into an aggregator that holds a window holds
    the window's next state: the packet is accepted when its conversation is
    tracked already or its shard has room for a new one, and counted as refused
    otherwise, with nothing else changed. *)
Theorem Ingest_refines_window :
  (forall now, holds (mkWindow [] 0) (NewAggregator now)) /\
  (forall w a m, holds w a -> holds (window_ingest w m) (Ingest a m)) /\
  (forall w a m, holds w a -> accepts (accepted w) m = false -> Ingest a m = drop_new_flow a).
Proof.
  split_and!; [apply holds_New|apply Ingest_holds|]. intros w a m Hh Hacc.
  pose proof (ingest_flow_holds w a m Hh) as Hf. unfold Ingest. destruct (ingest_flow a m) as [a' tracked].
  destruct Hf as (-> & Hno & _). rewrite Hacc in *. by apply Hno.
Qed.

(** The memory of a window is bounded: no shard ever tracks more than 16384
    conversations, and a conversation is tracked only in its own shard. *)
Theorem shards_bounded (now : Z) (ms : list FlowPacketMeta) (i : Z) :
  0 <= i < numShards ->
  let a := fold_left Ingest ms (NewAggregator now) in
  Z.of_nat (size (flow_shard a i)) <= maxFlowsPerShard /\
  (forall k fa, flow_shard a i !! k = Some fa -> shardIndex k = i).
Proof.
  intros Hi. cbv zeta.
  assert (Hgen : forall w a, holds w a ->
    (forall j, 0 <= j < numShards -> Z.of_nat (size (flow_shard a j)) <= maxFlowsPerShard) ->
    exists w', holds w' (fold_left Ingest ms a) /\
      forall j, 0 <= j < numShards -> Z.of_nat (size (flow_shard (fold_left Ingest ms a) j)) <= maxFlowsPerShard).
  { induction ms as [|m ms IH]; intros w a Hh Hsz; simpl; [by exists w|].
    apply (IH (window_ingest w m)); [by apply Ingest_holds|]. intros j Hj.
    assert (Hfs : flow_shard (Ingest a m) j = flow_shard (fst (ingest_flow a m)) j)
      by (unfold Ingest; by destruct (ingest_flow a m) as [a' []]).
    rewrite Hfs. specialize (Hsz j Hj). unfold ingest_flow. destruct (canonicalize m) as [k lo].
    pose proof (shardIndex_range k) as Hk. pose proof (h_flow_len w a Hh) as Hl.
    destruct (flow_shard a (shardIndex k) !! k) as [fa|] eqn:E; [|case_Z; [done|]]; simpl;
      (rewrite flow_shard_set by done; case_decide as Ej; [|done]; subst j; rewrite map_size_insert, E; unfold id; lia). }
  destruct (Hgen (mkWindow [] 0) (NewAggregator now)) as (w' & Hh & Hsz); [apply holds_New| |].
  { intros j Hj. by rewrite flow_shard_New. }
  split; [by apply Hsz|]. intros k fa Hk. apply (h_flow_own w' _ Hh); [done|by eexists].
Qed.

Section windows.
Context `{MapRange, GoMath}.

(** C19: [flush] reports the window. From an open aggregator that holds a window
    it never panics; it sends one vector for each conversation of the window, in
    some order, of which the buffer keeps those it has room for while the others
    are counted as dropped; it leaves the empty window, starting where this one
    ended. *)
Theorem flush_reports_window (w : window) (a : Aggregator) (now : Z) :
  holds w a -> out_closed a = false -> in_u 64 (droppedOutput a) ->
  exists a' l,
    flush a now = Some a' /\ holds (mkWindow [] (refused w)) a' /\
    windowStart a' = now /\ out_closed a' = false /\
    l ≡ₚ omap (vector (accepted w) (windowStart a) now) (window_keys (accepted w)) /\
    length l = length (window_keys (accepted w)) /\
    out a' = out a ++ take (room a) l /\
    droppedOutput a' = wrap 64 (droppedOutput a + Z.of_nat (length l - room a)).
Proof.
  intros Hh Ho Hd. destruct (flush_holds w a now Hh Ho) as (a' & l & E & Hh' & Hw & Ho' & Hp & Hout & Hdr).
  exists a', l. split_and!; try done; [|by rewrite Hdr, iter_wrap].
  rewrite Hp. apply length_omap_Some. intros k Hk. apply elem_of_remove_dups, flow_of_Some in Hk as [fa Hk].
  unfold vector. rewrite Hk. by eexists.
Qed.

Definition is_cancel (e : run_event) : bool := match e with CtxDone _ => true | TickerC _ => false end.

(** The loop of [Run] does not panic and closes its output once. Whatever
    ticks it receives, an open aggregator holding a window runs to the end; its
    output is closed exactly if the context was cancelled, after the last
    flush; the window is empty once anything was received, and vectors are only
    ever added to the output. *)
Theorem Run_closes_once (w : window) (a : Aggregator) (evs : list run_event) :
  holds w a -> out_closed a = false ->
  exists a', Run a evs = Some a' /\ out_closed a' = existsb is_cancel evs /\
    holds (match evs with [] => w | _ => mkWindow [] (refused w) end) a' /\
    (exists sent, out a' = out a ++ sent).
Proof.
  revert w a. induction evs as [|[now|now] evs IH]; intros w a Hh Ho; simpl.
  - exists a. split_and!; try done. exists []. by rewrite app_nil_r.
  - destruct (flush_holds w a now Hh Ho) as (a' & l & -> & Hh' & _ & Ho' & _ & Hout & _). simpl.
    destruct (IH _ a' Hh' Ho') as (a'' & -> & Hc & Hne & sent & Hs). exists a''. split_and!; try done.
    + by destruct evs.
    + exists (take (room a) l ++ sent). by rewrite Hs, Hout, app_assoc.
  - destruct (flush_holds w a now Hh Ho) as (a' & l & -> & Hh' & _ & Ho' & _ & Hout & _). simpl. rewrite Ho'.
    exists (close_out a'). split_and!; try done.
    + by destruct Hh'.
    + by exists (take (room a) l).
Qed.
End windows.

(** ** What a flow records of its conversation *)

Definition tally (f : FlowPacketMeta -> bool) (c : list FlowPacketMeta) : Z := Z.of_nat (length (List.filter f c)).

Definition is_syn (m : FlowPacketMeta) : bool := (Protocol m =? 6) && Z.testbit (TCPFlags m) 1.
Definition is_data (m : FlowPacketMeta) : bool :=
  (Protocol m =? 6) && (Z.testbit (TCPFlags m) 3 || Z.testbit (TCPFlags m) 4).

Lemma tally_app f c m : tally f (c ++ [m]) = tally f c + (if f m then 1 else 0).
Proof. unfold tally. rewrite List.filter_app, length_app. simpl. destruct (f m); simpl; lia. Qed.

Lemma tally_bound f c : 0 <= tally f c <= Z.of_nat (length c).
Proof. unfold tally. pose proof (List.filter_length_le f c). lia. Qed.

Lemma tally_split f c : tally f c + tally (fun m => negb (f m)) c = Z.of_nat (length c).
Proof.
  unfold tally. induction c as [|m c IH]; [done|]. simpl. destruct (f m); simpl in *; lia.
Qed.

Lemma syn_flag x : in_u 8 x -> negb (Z.land x tcpFlagSYN =? 0) = Z.testbit x 1.
Proof. revert x. by_bytes. Qed.
Lemma data_flags x :
  in_u 8 x -> negb (Z.land x (Z.lor tcpFlagACK tcpFlagPSH) =? 0) = Z.testbit x 3 || Z.testbit x 4.
Proof. revert x. by_bytes. Qed.

(** The counters after [c], for packets with byte-sized flags. *)
Record counted (c : list FlowPacketMeta) (fa : flowAccumulator) : Prop := {
  c_packets : packetCount fa = Z.of_nat (length c);
  c_forward : forwardCount fa = tally (fun m => snd (canonicalize m)) c;
  c_reverse : reverseCount fa = tally (fun m => negb (snd (canonicalize m))) c;
  c_syn : synCount fa = tally is_syn c;
  c_data : ackPshCount fa = tally is_data c;
  c_first : match c with
            | [] => True
            | m :: _ => firstSrcIP fa = SrcIP m /\ firstDstIP fa = DstIP m /\ firstSrcPort fa = SrcPort m /\
                        firstDstPort fa = DstPort m /\ fa_protocol fa = Protocol m
            end;
  c_last : lastTimestamp fa = match last c with Some m => TimestampNS m | None => 0 end;
  c_samples : 0 <= iatSamples fa <= Z.max 0 (Z.of_nat (length c) - 1)
}.

Lemma observe_all_app c m : observe_all (c ++ [m]) = observe (observe_all c) m (snd (canonicalize m)).
Proof. unfold observe_all. by rewrite fold_left_app. Qed.

Lemma count_up (b : bool) x n :
  0 <= x < 2 ^ 64 - 1 -> n = x -> (if b then x +{64} 1 else x) = n + (if b then 1 else 0).
Proof. intros Hx ->. destruct b; [|lia]. apply wrap_small. unfold in_u. lia. Qed.

Lemma observe_first_fields fa m :
  let fa' := observe_first fa m in
  packetCount fa' = packetCount fa /\ forwardCount fa' = forwardCount fa /\ reverseCount fa' = reverseCount fa /\
  synCount fa' = synCount fa /\ ackPshCount fa' = ackPshCount fa /\ lastTimestamp fa' = lastTimestamp fa /\
  iatMean fa' = iatMean fa /\ iatM2 fa' = iatM2 fa /\ iatSamples fa' = iatSamples fa.
Proof. unfold observe_first. destruct (packetCount fa =? 0); split_and!; reflexivity. Qed.

Definition later (fa : flowAccumulator) (m : FlowPacketMeta) : bool :=
  negb (lastTimestamp fa =? 0) && (lastTimestamp fa <? TimestampNS m).

Lemma observe_fields fa m b :
  let fa' := observe fa m b in
  packetCount fa' = packetCount fa +{64} 1 /\
  forwardCount fa' = (if b then forwardCount fa +{64} 1 else forwardCount fa) /\
  reverseCount fa' = (if negb b then reverseCount fa +{64} 1 else reverseCount fa) /\
  synCount fa' = (if (Protocol m =? 6) && negb (Z.land (TCPFlags m) tcpFlagSYN =? 0)
                  then synCount fa +{64} 1 else synCount fa) /\
  ackPshCount fa' = (if (Protocol m =? 6) && negb (Z.land (TCPFlags m) (Z.lor tcpFlagACK tcpFlagPSH) =? 0)
                     then ackPshCount fa +{64} 1 else ackPshCount fa) /\
  lastTimestamp fa' = TimestampNS m /\
  iatSamples fa' = (if later fa m then iatSamples fa +{64} 1 else iatSamples fa).
Proof.
  cbv zeta. destruct (observe_first_fields fa m) as (<- & <- & <- & <- & <- & E & _ & _ & <-).
  unfold later. rewrite <- E. unfold observe, observe_iat. simpl lastTimestamp.
  destruct (negb _ && _); destruct b; split_and!; reflexivity.
Qed.

Lemma observe_identity fa m b :
  let fa' := observe fa m b in
  let keep (x y : Z) := if packetCount fa =? 0 then x else y in
  firstSrcIP fa' = keep (SrcIP m) (firstSrcIP fa) /\ firstDstIP fa' = keep (DstIP m) (firstDstIP fa) /\
  firstSrcPort fa' = keep (SrcPort m) (firstSrcPort fa) /\ firstDstPort fa' = keep (DstPort m) (firstDstPort fa) /\
  fa_protocol fa' = keep (Protocol m) (fa_protocol fa).
Proof.
  cbv zeta. unfold observe, observe_iat. simpl lastTimestamp.
  destruct (negb _ && _); unfold observe_first; destruct (packetCount fa =? 0); split_and!; reflexivity.
Qed.

Lemma observe_all_counted c :
  Z.of_nat (length c) < 2 ^ 64 -> Forall (fun m => in_u 8 (TCPFlags m)) c -> counted c (observe_all c).
Proof.
  induction c as [|m c IH] using rev_ind; intros Hlen Hok; [by split|].
  rewrite length_app in Hlen. simpl in Hlen. apply Forall_app in Hok as [Hok Hm].
  apply Forall_cons in Hm as [Hm _]. destruct IH; [lia|done|].
  rewrite observe_all_app. set (fa := observe_all c) in *.
  assert (Hup : forall f x, x = tally f c -> 0 <= x < 2 ^ 64 - 1) by (intros f x ->; pose proof (tally_bound f c); lia).
  assert (Hwrap : packetCount fa +{64} 1 = Z.of_nat (length c) + 1) by (rewrite c_packets0; apply wrap_small; unfold in_u; lia).
  destruct (observe_fields fa m (snd (canonicalize m))) as (Ep & Ef & Er & Es & Ed & El & Ei).
  destruct (observe_identity fa m (snd (canonicalize m))) as (F1 & F2 & F3 & F4 & F5).
  split; rewrite ?Ep, ?Ef, ?Er, ?Es, ?Ed, ?El, ?Ei, ?F1, ?F2, ?F3, ?F4, ?F5, ?tally_app.
  - rewrite Hwrap, length_app. change (length [m]) with 1%nat. lia.
  - apply count_up; [eapply Hup; eassumption|by symmetry].
  - apply count_up; [eapply Hup; eassumption|by symmetry].
  - rewrite (syn_flag _ Hm). apply count_up; [eapply Hup; eassumption|by symmetry].
  - rewrite (data_flags _ Hm). apply count_up; [eapply Hup; eassumption|by symmetry].
  - rewrite c_packets0. destruct c as [|m0 c]; [done|]. by rewrite (proj2 (Z.eqb_neq _ _)) by (simpl; lia).
  - by rewrite last_snoc.
  - rewrite length_app. change (length [m]) with 1%nat. unfold later.
    destruct c as [|m0 c0]; [unfold fa; simpl; lia|].
    clear Es Ed; destruct (negb _ && _); [|lia]. simpl length in *. rewrite (wrap_small 64) by (unfold in_u; lia). lia.
Qed.

Lemma conversation_counted ms k :
  Z.of_nat (length ms) < 2 ^ 64 -> Forall (fun m => in_u 8 (TCPFlags m)) ms ->
  counted (conversation k ms) (observe_all (conversation k ms)).
Proof.
  intros Hlen Hok. apply observe_all_counted.
  - unfold conversation. pose proof (length_filter (fun m => key_of m = k) ms). lia.
  - rewrite Forall_forall in Hok |- *. intros m Hm. apply list_elem_of_filter in Hm as [_ Hm]. by apply Hok.
Qed.

(** C20: a flow is its conversation's summary. After a window of fewer than 2^64
    packets, the flow of a key has counted exactly the packets of that
    conversation, those in each direction, the SYN packets and the data packets;
    it carries the endpoints of the first packet and the timestamp of the last;
    forward and reverse packets add up; and it has fewer inter-arrival samples
    than packets. *)
Theorem flow_counts_conversation (ms : list FlowPacketMeta) (k : FlowKey) (fa : flowAccumulator) :
  flow_of ms k = Some fa ->
  Z.of_nat (length ms) < 2 ^ 64 -> Forall (fun m => in_u 8 (TCPFlags m)) ms ->
  counted (conversation k ms) fa /\
  packetCount fa = forwardCount fa + reverseCount fa /\
  0 < packetCount fa /\ iatSamples fa < packetCount fa /\
  synCount fa <= packetCount fa /\ ackPshCount fa <= packetCount fa.
Proof.
  unfold flow_of. intros Hf Hlen Hok.
  pose proof (conversation_counted ms k Hlen Hok) as Hc.
  destruct (conversation k ms) as [|m c] eqn:E; [done|]. injection Hf as <-.
  split; [done|]. destruct Hc. pose proof (tally_split (fun m => snd (canonicalize m)) (m :: c)).
  pose proof (tally_bound is_syn (m :: c)). pose proof (tally_bound is_data (m :: c)).
  simpl length in *. lia.
Qed.

(** The packets of the conversations of a window are all its packets. *)
Lemma sum_conversations ms ks :
  NoDup ks -> (forall m, m ∈ ms -> key_of m ∈ ks) ->
  sumZ (map (fun k => Z.of_nat (length (conversation k ms))) ks) = Z.of_nat (length ms).
Proof.
  intros Hnd. induction ms as [|m ms IH]; intros Hin.
  { clear. induction ks as [|k ks IH]; [done|]. exact IH. }
  assert (Hstep : forall l, NoDup l ->
    sumZ (map (fun k => Z.of_nat (length (conversation k (m :: ms)))) l) =
    sumZ (map (fun k => Z.of_nat (length (conversation k ms))) l) + (if decide (key_of m ∈ l) then 1 else 0)).
  { clear. intros l. induction 1 as [|k l Hk Hl IH]; [done|]. simpl map. unfold sumZ in *. simpl foldr. rewrite IH. clear IH.
    unfold conversation at 1. rewrite filter_cons. fold (conversation k ms).
    destruct (decide (key_of m = k)) as [<-|Hne].
    - rewrite (decide_False (P := key_of m ∈ l)), decide_True by (done || apply list_elem_of_here). simpl length. lia.
    - destruct (decide (key_of m ∈ l)) as [Hin|Hin], (decide (key_of m ∈ k :: l)) as [Hin'|Hin']; try lia.
      + destruct Hin'. by apply list_elem_of_further.
      + by apply elem_of_cons in Hin' as [?|?]. }
  rewrite Hstep by done. rewrite decide_True by (apply Hin, list_elem_of_here).
  rewrite IH by (intros m' Hm'; apply Hin; by apply list_elem_of_further). simpl length. lia.
Qed.

(** No packet is lost or counted twice between [Ingest] and the vectors of
    the window: the packet counts of the vectors that [flush] makes add up to
    the number of packets the window accepted. *)
Theorem flush_conserves_packets `{MapRange, GoMath} (w : window) (a : Aggregator) (now : Z) :
  holds w a -> out_closed a = false -> Z.of_nat (length (accepted w)) < 2 ^ 64 ->
  Forall (fun m => in_u 8 (TCPFlags m)) (accepted w) ->
  exists a' l, flush a now = Some a' /\ out a' = out a ++ take (room a) l /\
    sumZ (map ff_PacketCount l) = Z.of_nat (length (accepted w)).
Proof.
  intros Hh Ho Hlen Hok. destruct (flush_holds w a now Hh Ho) as (a' & l & E & _ & _ & _ & Hp & Hout & _).
  exists a', l. split_and!; try done. rewrite (sumZ_perm _ _ (Permutation_map ff_PacketCount Hp)).
  rewrite <- (sum_conversations (accepted w) (window_keys (accepted w))).
  - f_equal. clear Hp E Hout. set (ms := accepted w) in *.
    assert (Hks : Forall (fun k => is_Some (flow_of ms k)) (window_keys ms)).
    { apply Forall_forall. intros k Hk. by apply flow_of_Some, elem_of_remove_dups. }
    induction Hks as [|k ks [fa Hk] _ IH]; simpl; [done|]. unfold vector at 1. rewrite Hk. simpl. f_equal; [|done].
    unfold flow_of in Hk.
    pose proof (conversation_counted ms k Hlen Hok) as Hc.
    destruct (conversation k ms) as [|m c]; [done|]. injection Hk as <-. by destruct Hc.
  - apply NoDup_remove_dups.
  - intros m Hm. apply elem_of_remove_dups, list_elem_of_fmap. by exists m.
Qed.

(** ** Port trackers *)

Definition occurrences (p : Z) (ps : list Z) : Z := Z.of_nat (length (filter (fun q => q = p) ps)).
Definition map_sum (m : gmap Z Z) : Z := msum id m.

Lemma map_sum_insert m k v : map_sum (<[k := v]> m) = map_sum m - default 0 (m !! k) + v.
Proof. unfold map_sum. rewrite msum_insert. by destruct (m !! k). Qed.

Lemma map_sum_bound (m : gmap Z Z) k c : (forall k c, m !! k = Some c -> 1 <= c) -> m !! k = Some c -> c <= map_sum m.
Proof.
  intros Hpos Hk. unfold map_sum. rewrite (msum_delete id m k c Hk).
  assert (0 <= msum id (delete k m)); [|unfold id in *; lia].
  apply msum_nonneg. intros k' c' [_ Hk']%lookup_delete_Some. specialize (Hpos k' c' Hk'). unfold id. lia.
Qed.

Lemma occurrences_app p ps q : occurrences p (ps ++ [q]) = occurrences p ps + (if decide (q = p) then 1 else 0).
Proof. unfold occurrences. rewrite filter_app, length_app, filter_cons, filter_nil. case_decide; simpl; lia. Qed.

Record tracked_ports (ps : list Z) (pt : portTracker) : Prop := {
  t_total : total pt = Z.of_nat (length ps);
  t_sum : map_sum (counts pt) = Z.of_nat (length ps);
  t_pos : forall p c, counts pt !! p = Some c -> 1 <= c;
  t_size : Z.of_nat (size (counts pt)) <=
           maxPortsPerSrcIP + (if decide (is_Some (counts pt !! overflowPortKey)) then 1 else 0);
  t_under : forall p c, p <> overflowPortKey -> counts pt !! p = Some c -> c <= occurrences p ps;
  t_exact : Z.of_nat (size (list_to_set ps : gset Z)) <= maxPortsPerSrcIP ->
            forall p, counts pt !! p = if decide (p ∈ ps) then Some (occurrences p ps) else None
}.

Lemma occurrences_pos p ps : p ∈ ps -> 1 <= occurrences p ps.
Proof.
  intros Hp. unfold occurrences. destruct (filter _ ps) as [|q l] eqn:E; [|simpl; lia].
  assert (Hin : p ∈ filter (fun q => q = p) ps) by (by apply list_elem_of_filter). rewrite E in Hin. by apply elem_of_nil in Hin.
Qed.
Lemma occurrences_zero p ps : p ∉ ps -> occurrences p ps = 0.
Proof.
  intros Hp. unfold occurrences. destruct (filter _ ps) as [|q l] eqn:E; [done|exfalso].
  assert (Hin : q ∈ filter (fun q => q = p) ps) by (rewrite E; apply list_elem_of_here).
  apply list_elem_of_filter in Hin as [-> Hin]. done.
Qed.

(** Counting one more packet on an entry. *)
Lemma port_bump ps pt k :
  tracked_ports ps pt -> Z.of_nat (length ps) + 1 < 2 ^ 32 ->
  let v := default 0 (counts pt !! k) +{32} 1 in
  v = default 0 (counts pt !! k) + 1 /\ 1 <= v /\
  map_sum (<[k := v]> (counts pt)) = Z.of_nat (length ps) + 1 /\
  total pt +{32} 1 = Z.of_nat (length ps) + 1.
Proof.
  intros [Ht Hs Hp _ _ _] Hlen. cbv zeta.
  assert (Hd : 0 <= default 0 (counts pt !! k) <= Z.of_nat (length ps)).
  { destruct (counts pt !! k) as [c|] eqn:E; simpl; [|lia].
    pose proof (map_sum_bound _ _ _ Hp E). specialize (Hp _ _ E). lia. }
  rewrite Ht. rewrite !wrap_small by (unfold in_u; lia). split_and!; try lia.
  rewrite map_sum_insert. lia.
Qed.

Lemma distinct_app (ps : list Z) q :
  (size (list_to_set ps : gset Z) <= size (list_to_set (ps ++ [q]) : gset Z))%nat.
Proof. apply subseteq_size. rewrite list_to_set_app. set_solver. Qed.

(** [k] is the counter the packet of port [q] goes to. *)
Lemma port_counted ps pt q k v :
  tracked_ports ps pt ->
  port_observe pt q = mkTracker (<[k := v]> (counts pt)) (total pt +{32} 1) ->
  v = default 0 (counts pt !! k) + 1 /\ 1 <= v /\ map_sum (<[k := v]> (counts pt)) = Z.of_nat (length ps) + 1 /\
    total pt +{32} 1 = Z.of_nat (length ps) + 1 ->
  k = q \/ k = overflowPortKey ->
  Z.of_nat (size (<[k := v]> (counts pt))) <=
    maxPortsPerSrcIP + (if decide (is_Some (<[k := v]> (counts pt) !! overflowPortKey)) then 1 else 0) ->
  (Z.of_nat (size (list_to_set (ps ++ [q]) : gset Z)) <= maxPortsPerSrcIP ->
     k = q /\ default 0 (counts pt !! q) = occurrences q ps) ->
  tracked_ports (ps ++ [q]) (port_observe pt q).
Proof.
  intros Ht Eobs (Hv & Hv1 & Hsum & Htot) Hk Hsize Hex.
  assert (Hl : Z.of_nat (length (ps ++ [q])) = Z.of_nat (length ps) + 1) by (rewrite length_app; simpl; lia).
  pose proof (distinct_app ps q) as Hmono. destruct Ht as [Ht Hs Hp _ Hu He]. rewrite Eobs. split; simpl.
  - lia.
  - lia.
  - intros p c. destruct (decide (k = p)) as [<-|Hne];
      [rewrite lookup_insert_eq; intros [= <-]; lia|rewrite lookup_insert_ne by done; apply Hp].
  - done.
  - intros p c Hpo. rewrite occurrences_app. destruct (decide (k = p)) as [<-|Hne].
    + destruct Hk as [->|?]; [|done]. rewrite lookup_insert_eq, decide_True by done. intros [= <-].
      destruct (counts pt !! q) as [c|] eqn:E; rewrite ?E in Hv; simpl in Hv; [specialize (Hu q c Hpo E); lia|].
      unfold occurrences. lia.
    + rewrite lookup_insert_ne by done. intros Hc. specialize (Hu p c Hpo Hc). destruct (decide (q = p)); lia.
  - intros Hd p. destruct (Hex Hd) as [-> Hocc]. rewrite occurrences_app.
    specialize (He ltac:(lia) p). destruct (decide (q = p)) as [<-|Hne].
    + rewrite lookup_insert_eq, decide_True by (apply elem_of_app; right; apply list_elem_of_here). f_equal. lia.
    + rewrite lookup_insert_ne, He, Z.add_0_r by done. apply decide_ext.
      rewrite elem_of_app, list_elem_of_singleton. split; [by left|by intros [?|?]].
Qed.

Lemma port_observe_tracked ps pt q :
  tracked_ports ps pt -> Z.of_nat (length ps) + 1 < 2 ^ 32 -> tracked_ports (ps ++ [q]) (port_observe pt q).
Proof.
  intros Ht0 Hlen. pose proof (port_bump ps pt q Ht0 Hlen) as Hq.
  pose proof (port_bump ps pt overflowPortKey Ht0 Hlen) as Ho. cbv zeta in Hq, Ho.
  pose proof (distinct_app ps q) as Hmono. pose proof Ht0 as [Ht Hs Hp Hsz Hu He].
  destruct (counts pt !! q) as [c|] eqn:E; rewrite ?E in Hq; simpl in Hq.
  - apply (port_counted ps pt q q (c +{32} 1)); [done|unfold port_observe; by rewrite E|rewrite E; exact Hq|by left| |].
    + rewrite map_size_insert, E. unfold id. destruct (decide (is_Some (<[_ := _]> _ !! _))) as [|Hno]; [|].
      * case_decide; lia.
      * case_decide as Hsome; [|lia]. destruct Hno. by apply lookup_insert_is_Some'; right.
    + intros Hd. split; [done|]. specialize (He ltac:(lia) q). rewrite E in He |- *. simpl. destruct (decide (q ∈ ps)); congruence.
  - destruct (Z.leb_spec maxPortsPerSrcIP (Z.of_nat (size (counts pt)))) as [Hfull|Hroom].
    + apply (port_counted ps pt q overflowPortKey (default 0 (counts pt !! overflowPortKey) +{32} 1));
        [done|unfold port_observe; by rewrite E, (proj2 (Z.leb_le _ _) Hfull)|exact Ho|by right| |].
      * rewrite lookup_insert_eq, decide_True by by eexists. rewrite map_size_insert.
        destruct (counts pt !! overflowPortKey) as [c|] eqn:Eo; unfold id;
          [rewrite decide_True in Hsz by by eexists|rewrite decide_False in Hsz by by intros []]; lia.
      * intros Hd. exfalso. specialize (He ltac:(lia)).
        assert (Hdom : dom (counts pt) = list_to_set ps).
        { apply set_eq. intros p. rewrite elem_of_dom, elem_of_list_to_set, He.
          by destruct (decide (p ∈ ps)); split. }
        assert (Hq' : q ∉ (list_to_set ps : gset Z)) by (rewrite <- Hdom; by apply not_elem_of_dom).
        rewrite list_to_set_app, size_union in Hd
          by (apply elem_of_disjoint; intros x Hx1 Hx2; apply elem_of_list_to_set, list_elem_of_singleton in Hx2; by subst x).
        change (list_to_set [q] : gset Z) with ({[q]} ∪ ∅ : gset Z) in Hd. rewrite union_empty_r_L, size_singleton in Hd.
        rewrite <- Hdom, size_dom in Hd. lia.
    + apply (port_counted ps pt q q 1);
        [done|unfold port_observe; by rewrite E, (proj2 (Z.leb_gt _ _) Hroom)|rewrite E; exact Hq|by left| |].
      * rewrite map_size_insert, E. destruct (decide (is_Some (<[q := 1]> (counts pt) !! overflowPortKey))); lia.
      * intros Hd. split; [done|]. specialize (He ltac:(lia) q). rewrite E in He |- *. simpl.
        destruct (decide (q ∈ ps)) as [|Hin]; [done|]. by rewrite occurrences_zero.
Qed.

(** C37: what a port tracker counts. For fewer than 2^32 packets sent to [ps],
    the tracker's total and the sum of its counters are the number of packets;
    it never has more than 257 counters; no real port but 65535 is counted more
    often than it was sent to; and while at most 256 distinct ports occur, the
    counters are exactly the occurrences of each port. *)
Theorem port_tracker_counts (ps : list Z) :
  Z.of_nat (length ps) < 2 ^ 32 ->
  let pt := fold_left port_observe ps newPortTracker in
  total pt = Z.of_nat (length ps) /\
  map_sum (counts pt) = Z.of_nat (length ps) /\
  Z.of_nat (size (counts pt)) <= 257 /\
  (forall p c, p <> overflowPortKey -> counts pt !! p = Some c -> 1 <= c <= occurrences p ps) /\
  (Z.of_nat (size (list_to_set ps : gset Z)) <= 256 ->
   forall p, counts pt !! p = if decide (p ∈ ps) then Some (occurrences p ps) else None).
Proof.
  intros Hlen. cbv zeta.
  assert (Ht : tracked_ports ps (fold_left port_observe ps newPortTracker)).
  { revert Hlen. induction ps as [|q ps IH] using rev_ind; intros Hlen.
    - by split.
    - rewrite length_app in Hlen. simpl in Hlen. rewrite fold_left_app.
      apply port_observe_tracked; [apply IH|]; lia. }
  destruct Ht as [Ht Hsum Hp Hs Hu He]. split; [done|]. split; [done|]. split; [|split; [|done]].
  - unfold maxPortsPerSrcIP in Hs. destruct (decide _); lia.
  - intros p c Hne Hc. split; [by apply (Hp p)|by apply (Hu p)].
Qed.

(** ** Periodic traffic *)

(** The packets of [c] are [d] nanoseconds apart, the first at [t]. *)
Fixpoint periodic (d t : Z) (c : list FlowPacketMeta) : Prop :=
  match c with
  | [] => True
  | m :: c' => TimestampNS m = t /\ periodic d (t + d) c'
  end.

Lemma periodic_app d t c m :
  periodic d t (c ++ [m]) <-> periodic d t c /\ TimestampNS m = t + d * Z.of_nat (length c).
Proof.
  revert t. induction c as [|m0 c IH]; intros t; simpl; [rewrite Z.mul_0_r, Z.add_0_r; tauto|].
  rewrite IH. replace (t + d * Z.of_nat (S (length c))) with (t + d + d * Z.of_nat (length c)) by lia. tauto.
Qed.

Lemma observe_stats fa m b :
  let fa' := observe fa m b in
  let iat := of_int (TimestampNS m -{64} lastTimestamp fa) in
  let n := iatSamples fa +{64} 1 in
  let mean := (iatMean fa + (iat - iatMean fa) / of_int n)%float in
  later fa m = true ->
  iatMean fa' = mean /\ iatM2 fa' = (iatM2 fa + (iat - iatMean fa) * (iat - mean))%float.
Proof.
  cbv zeta. intros Hl. destruct (observe_first_fields fa m) as (_ & _ & _ & _ & _ & E1 & E2 & E3 & E4).
  unfold later in Hl. rewrite <- E1, <- E2, <- E3, <- E4 in *. unfold observe, observe_iat. simpl lastTimestamp.
  rewrite Hl. split; reflexivity.
Qed.

Lemma periodic_stats d t c :
  0 < d -> 0 < t -> t + d * Z.of_nat (length c) < 2 ^ 64 -> periodic d t c -> c <> [] ->
  let fa := observe_all c in
  lastTimestamp fa = t + d * (Z.of_nat (length c) - 1) /\
  iatSamples fa = Z.of_nat (length c) - 1 /\
  iatMean fa = (if (length c =? 1)%nat then 0%float else of_int d) /\
  iatM2 fa = 0%float.
Proof.
  intros Hd Ht. induction c as [|m c IH] using rev_ind; [done|]. intros Hlen Hper _. cbv zeta.
  rewrite length_app in Hlen |- *. change (length [m]) with 1%nat in *.
  apply periodic_app in Hper as [Hper Hm]. rewrite observe_all_app. set (b := snd (canonicalize m)).
  destruct (observe_fields (observe_all c) m b) as (_ & _ & _ & _ & _ & -> & ->).
  assert (Hdf : positive_finite (of_int d)) by (apply of_int_positive; nia).
  destruct c as [|m0 c].
  { simpl length. rewrite Hm. split; [simpl; lia|]. split; [done|].
    unfold observe, observe_iat, observe_all. simpl. done. }
  destruct IH as (El & Es & Em & E2); [nia|done|done|].
  set (fa := observe_all (m0 :: c)) in *. set (n := Z.of_nat (length (m0 :: c))) in *.
  assert (Hn : 1 <= n) by (unfold n; simpl; lia).
  assert (Hl : later fa m = true).
  { unfold later. rewrite El, Hm. apply andb_true_iff. split; [apply negb_true_iff, Z.eqb_neq; nia|apply Z.ltb_lt; lia]. }
  destruct (observe_stats fa m b Hl) as [-> ->]. rewrite Hl, El, Hm, Es, E2, Em.
  rewrite !(wrap_small 64) by (unfold in_u; nia).
  replace (t + d * n - (t + d * (n - 1))) with d by lia. replace (n - 1 + 1) with n by lia.
  assert (Hnf : positive_finite (of_int n)) by (apply of_int_positive; nia).
  split; [lia|]. split; [lia|].
  replace (length (m0 :: c) + 1 =? 1)%nat with false by (symmetry; apply Nat.eqb_neq; simpl; lia).
  destruct (Nat.eqb_spec (length (m0 :: c)) 1) as [E1|E1].
  - assert (n = 1) as -> by lia. rewrite !(sub_0_r (of_int d)) by done. change (of_int 1) with 1%float.
    rewrite div_1_r, (add_0_l (of_int d)), sub_self, mul_0_r by (done || by apply positive_finite_finite). done.
  - rewrite (sub_self (of_int d)), div_0_l, add_0_r by (done || by apply positive_finite_finite).
    rewrite (sub_self (of_int d)) by by apply positive_finite_finite. done.
Qed.

(** A conversation of at least 31 packets at a constant interval has a measured
    jitter of exactly zero. *)
Lemma periodic_no_jitter d t c :
  0 < d -> 0 < t -> t + d * Z.of_nat (length c) < 2 ^ 64 -> periodic d t c -> 31 <= Z.of_nat (length c) ->
  iatStdDevNS (observe_all c) = 0%float.
Proof.
  intros Hd Ht Hlen Hper Hn. assert (Hne : c <> []) by (intros ->; simpl in Hn; lia).
  destruct (periodic_stats d t c Hd Ht Hlen Hper Hne) as (_ & Es & _ & E2).
  unfold iatStdDevNS. rewrite Es, E2. unfold minIATSamplesForVariance.
  rewrite (proj2 (Z.ltb_ge _ _)) by lia. rewrite div_0_l by (apply of_int_positive; nia). reflexivity.
Qed.

(** The streaming variance is exact on mechanically periodic traffic. A
    conversation of at least 31 packets at a constant interval measures a jitter
    of exactly zero, with no rounding residue, whatever the interval; with fewer
    packets it reports the neutral jitter of 5 ms. *)
Theorem constant_interval_jitter (d t : Z) (c : list FlowPacketMeta) :
  0 < d -> 0 < t -> t + d * Z.of_nat (length c) < 2 ^ 64 -> periodic d t c -> c <> [] ->
  iatStdDevNS (observe_all c) = if 31 <=? Z.of_nat (length c) then 0%float else neutralIATStdDevNS.
Proof.
  intros Hd Ht Hlen Hper Hne. case_Z; [by apply (periodic_no_jitter d t)|].
  destruct (periodic_stats d t c Hd Ht Hlen Hper Hne) as (_ & Es & _ & _).
  unfold iatStdDevNS. rewrite Es. unfold minIATSamplesForVariance. by rewrite (proj2 (Z.ltb_lt _ _)) by lia.
Qed.

(** ** Examples *)

(** Two packets of a conversation and one of another. *)
Definition sample_window : list FlowPacketMeta :=
  [mkMeta 1 2 1024 80 6 2 1 0 10; mkMeta 2 1 80 1024 6 18 1 0 20; mkMeta 1 3 1024 443 6 2 1 0 30].

Definition sample_agg : Aggregator := fold_left Ingest sample_window (NewAggregator 0).

Lemma sample_agg_holds : holds (fold_left window_ingest sample_window (mkWindow [] 0)) sample_agg.
Proof. repeat apply Ingest_holds. apply holds_New. Qed.

Lemma sample_window_accepted :
  accepted (fold_left window_ingest sample_window (mkWindow [] 0)) = sample_window.
Proof. vm_compute. reflexivity. Qed.

Lemma shards_bounded_witness :
  Z.of_nat (size (flow_shard (fold_left Ingest sample_window (NewAggregator 0)) 7)) <= maxFlowsPerShard.
Proof. apply (shards_bounded 0 sample_window 7). unfold numShards. lia. Defined.

Lemma flush_reports_window_witness :
  exists a' l, @flush list_order sample_math sample_agg 100 = Some a' /\ length l = 2%nat /\
    out a' = take (room sample_agg) l.
Proof.
  destruct (@flush_reports_window list_order sample_math _ sample_agg 100 sample_agg_holds)
    as (a' & l & Hf & _ & _ & _ & _ & Hlen & Hout & _); [reflexivity|vm_compute; split; [discriminate|reflexivity]|].
  exists a', l. split; [exact Hf|]. split; [rewrite Hlen, sample_window_accepted; vm_compute; reflexivity|exact Hout].
Defined.

Lemma Run_closes_once_witness :
  exists a', @Run list_order sample_math sample_agg [TickerC 100; CtxDone 150] = Some a' /\ out_closed a' = true.
Proof.
  destruct (@Run_closes_once list_order sample_math _ sample_agg [TickerC 100; CtxDone 150] sample_agg_holds)
    as (a' & Hr & Hc & _); [reflexivity|]. exists a'. split; [exact Hr|exact Hc].
Defined.

Lemma flow_counts_conversation_witness :
  exists fa, flow_of sample_window (mkFlowKey 1 2 1024 80 6) = Some fa /\
    packetCount fa = forwardCount fa + reverseCount fa /\ packetCount fa = 2.
Proof.
  destruct (flow_of sample_window (mkFlowKey 1 2 1024 80 6)) as [fa|] eqn:E; [|vm_compute in E; discriminate].
  exists fa. split; [reflexivity|].
  destruct (flow_counts_conversation _ _ _ E) as (Hc & Hs & _);
    [reflexivity|repeat constructor; discriminate|]. split; [exact Hs|]. apply (c_packets _ _ Hc).
Defined.

Lemma flush_conserves_packets_witness :
  exists a' l, @flush list_order sample_math sample_agg 100 = Some a' /\
    sumZ (map ff_PacketCount l) = 3.
Proof.
  destruct (@flush_conserves_packets list_order sample_math _ sample_agg 100 sample_agg_holds) as (a' & l & Hf & _ & Hs);
    [reflexivity|rewrite sample_window_accepted; reflexivity|
     rewrite sample_window_accepted; repeat constructor; discriminate|].
  exists a', l. split; [exact Hf|]. rewrite Hs, sample_window_accepted. reflexivity.
Defined.

Lemma port_tracker_counts_witness :
  total (fold_left port_observe [80; 443; 80] newPortTracker) = 3.
Proof. apply (port_tracker_counts [80; 443; 80]). reflexivity. Defined.

Lemma constant_interval_jitter_witness :
  iatStdDevNS (observe_all [mkMeta 1 2 1024 80 6 2 1 0 10; mkMeta 1 2 1024 80 6 2 1 0 20]) = neutralIATStdDevNS.
Proof.
  apply (constant_interval_jitter 10 10 [mkMeta 1 2 1024 80 6 2 1 0 10; mkMeta 1 2 1024 80 6 2 1 0 20]);
    [reflexivity|reflexivity|reflexivity|done|discriminate].
Defined.
