(* ===== verification/Trees.v ===== *)
(** * Matrix-free inference ([pkg/inference/trees.go])

    The projection of a feature vector, the three decision trees, and the
    ensemble's verdict. *)

From S2P Require Import Prelude GoNet Contracts Float64 Flow.
From Stdlib Require Import FloatAxioms FloatOps SpecFloat Reals Lra.

Abbreviation AttackType := string (only parsing).
Definition AttackNone : AttackType := "BENIGN".
Definition AttackSynFlood : AttackType := "SYN_FLOOD".
Definition AttackPortScan : AttackType := "PORT_SCAN".
Definition AttackVolumetricAnomaly : AttackType := "VOLUMETRIC_ANOMALY".

(** The constant 0.85, rounded. *)
Definition MalwareThreshold : float64 := (85 / 100)%float.

Record FeatureVector := mkFV {
  PacketCount : float64; ForwardCount : float64; ReverseCount : float64;
  IATStdDevNS : float64; RatioFlow : float64; PortEntropyBits : float64
}.

Definition singleDirectionRatioFloor : Z := 5.

Definition maxU64 (a b : Z) : Z := if b <? a then a else b.

Definition ToFeatureVector (f : FlowFeatures) : FeatureVector :=
  let ratio :=
    if (ff_ReverseCount f =? 0) && (ff_Protocol f =? 6) then
      let samples := ff_SynCount f +{64} ff_AckPshCount f in
      if singleDirectionRatioFloor <=? samples
      then (of_int (ff_SynCount f) / of_int (maxU64 (ff_AckPshCount f) 1))%float
      else ff_RatioFlow f
    else ff_RatioFlow f in
  mkFV (of_int (ff_PacketCount f)) (of_int (ff_ForwardCount f)) (of_int (ff_ReverseCount f))
    (ff_IATStdDevNS f) ratio (ff_PortEntropyBits f).

Record Result := mkResult { Probability : float64; Attack : AttackType; Malicious : bool }.

Definition minF (a b : float64) : float64 := if (a <? b)%float then a else b.

(** Signed 64-bit subtraction. *)
Definition sub_int64 (x y : Z) : Z := wrap 64 (x - y + 2 ^ 63) - 2 ^ 63.

Definition synFloodTree (f : FeatureVector) : float64 :=
  if (PacketCount f <? 20)%float then (-4)%float
  else if (2000000 <=? IATStdDevNS f)%float then (-3)%float
  else if (RatioFlow f <? 8)%float then (-2)%float
  else
    let score := 2%float in
    let score := (score + math_Min (RatioFlow f / 50) 3)%float in
    (score + math_Min (of_int (sub_int64 20000000 (to_int64 (minF (IATStdDevNS f) 20000000))) / 10000000) 2)%float.

Definition volumetricTree (f : FeatureVector) : float64 :=
  if (PacketCount f <? 200)%float then (-3)%float
  else
    let score := (-1)%float in
    let score := (score + math_Min (PacketCount f / 500) 4)%float in
    if (IATStdDevNS f <? 500000)%float then (score + 1)%float else score.

Section inference.
Context `{GoMath}.

Definition portScanTree (f : FeatureVector) : float64 :=
  if (PortEntropyBits f <? 3)%float then (-4)%float
  else
    let avgPacketsPerPort :=
      if (0 <? PortEntropyBits f)%float then (PacketCount f / math_Exp2 (PortEntropyBits f))%float
      else PacketCount f in
    if (10 <? avgPacketsPerPort)%float then (-2)%float
    else
      let score := (3 / 2)%float in
      (score + math_Min (PortEntropyBits f / 2) 3)%float.

Definition ensemble : list (AttackType * (FeatureVector -> float64)) :=
  [(AttackSynFlood, synFloodTree); (AttackPortScan, portScanTree); (AttackVolumetricAnomaly, volumetricTree)].

Definition sigmoid (x : float64) : float64 := (1 / (1 + math_Exp (- x)))%float.

(** One turn of the loop over the ensemble: the running total, and the best
    score with its label. *)
Definition classify_step (fv : FeatureVector) (st : float64 * float64 * AttackType)
    (t : AttackType * (FeatureVector -> float64)) : float64 * float64 * AttackType :=
  let '(total, bestScore, bestAttack) := st in
  let score := snd t fv in
  let total := (total + score)%float in
  if (bestScore <? score)%float then (total, score, fst t) else (total, bestScore, bestAttack).

Definition ensemble_total (fv : FeatureVector) : float64 * float64 * AttackType :=
  fold_left (classify_step fv) ensemble (0%float, neg_infinity, AttackNone).

Definition Classify (f : FlowFeatures) : Result :=
  let fv := ToFeatureVector f in
  let '(total, _, bestAttack) := ensemble_total fv in
  let prob := sigmoid total in
  let attack := if (MalwareThreshold <? prob)%float then bestAttack else AttackNone in
  mkResult prob attack (MalwareThreshold <? prob)%float.

End inference.

(** ** The sigmoid and the threshold *)

(** A bound on a constant, by evaluation. *)
Ltac const_bound := by (right; vm_compute; reflexivity).

Section scores.
Context `{GoMathLaws}.

(** A total of zero or less, or NaN, is below the threshold. *)
Lemma sigmoid_low x : le_or_nan x 0 -> (MalwareThreshold <? sigmoid x)%float = false.
Proof.
  intros [Hx|Hx].
  { apply nan_ltb_r, nan_div_r, nan_add_r, exp_nan, nan_opp, Hx. }
  assert (He : (1 <=? math_Exp (- x))%float = true).
  { apply exp_ge_one. apply (leb_trans _ (PrimFloat.opp 0)); [reflexivity|]. by apply opp_leb. }
  assert (Hd : (2 <=? 1 + math_Exp (- x))%float = true)
    by (apply (add_lower _ _ 1 1 2); [vm_compute; reflexivity|reflexivity|done]).
  apply ltb_geb_false, (leb_trans _ (1 / 2)); [|reflexivity].
  apply (recip_bounds _ 2 (1 / 2)); [done..| |].
  - pose proof (FR_int 2 2 ltac:(vm_compute; reflexivity)) as ->. lra.
  - pose proof (FR_int 2 2 ltac:(vm_compute; reflexivity)) as ->. fr_const (1/2)%float 1%Z 2%Z. lra.
Qed.

(** A total of two or more is above it. *)
Lemma sigmoid_high x : (2 <=? x)%float = true -> (MalwareThreshold <? sigmoid x)%float = true.
Proof.
  intros Hx. destruct (exp_small (- x)) as [He0 He].
  { apply (leb_trans _ (PrimFloat.opp 2)); [by apply opp_leb|reflexivity]. }
  assert (Hlo : (1 <=? 1 + math_Exp (- x))%float = true)
    by (apply (add_lower _ _ 1 0 1); [vm_compute; reflexivity|reflexivity|done]).
  assert (Hhi : le_or_nan (1 + math_Exp (- x)) (37 / 32)).
  { apply (add_upper _ _ 1 (15 / 100)); [vm_compute; reflexivity|by right|by right]. }
  destruct Hhi as [Hn|Hhi]; [by apply leb_not_nan in Hlo as [Hlo _]; rewrite Hn in Hlo|].
  pose proof (FR_int 1 1 ltac:(vm_compute; reflexivity)) as F1.
  fr_const (37/32)%float 37%Z 32%Z. fr_const (55/64)%float 55%Z 64%Z.
  apply ltb_leb_trans with (55 / 64)%float; [reflexivity|].
  destruct (leb_left _ _ Hhi) as [E|[Fd Hd]]; [reflexivity|by rewrite E in Hlo|].
  apply leb_FR in Hlo; [|reflexivity|done].
  apply (recip_bounds _ (37 / 32) (55 / 64)); try done; [lra|rewrite FR, FR0; lra].
Qed.

(** ** Bounds on the scores *)

Lemma syn_upper fv : le_or_nan (synFloodTree fv) 7.
Proof.
  unfold synFloodTree. repeat (case_match; [const_bound|]).
  apply (add_upper _ _ 5 2); [vm_compute; reflexivity| |by apply math_Min_upper].
  apply (add_upper _ _ 2 3); [vm_compute; reflexivity|const_bound|by apply math_Min_upper].
Qed.

Lemma syn_slow fv : (2000000 <=? IATStdDevNS fv)%float = true -> le_or_nan (synFloodTree fv) (-3).
Proof. intros Hs. unfold synFloodTree. rewrite Hs. case_match; const_bound. Qed.

Lemma syn_balanced fv : (RatioFlow fv <? 8)%float = true -> le_or_nan (synFloodTree fv) (-2).
Proof. intros Hs. unfold synFloodTree. rewrite Hs. repeat case_match; const_bound. Qed.

Lemma scan_upper fv : le_or_nan (portScanTree fv) (9 / 2).
Proof.
  unfold portScanTree. case_match; [const_bound|]. cbv zeta. case_match; case_match; try const_bound;
    (apply (add_upper _ _ (3 / 2) 3); [vm_compute; reflexivity|const_bound|by apply math_Min_upper]).
Qed.

Lemma vol_upper fv : le_or_nan (volumetricTree fv) 4.
Proof.
  unfold volumetricTree. case_match; [const_bound|]. cbv zeta.
  assert (le_or_nan (-1 + math_Min (PacketCount fv / 500) 4)%float 3).
  { apply (add_upper _ _ (-1) 4); [vm_compute; reflexivity|const_bound|by apply math_Min_upper]. }
  case_match; [|by apply (le_weaken _ 3 4)].
  apply (add_upper _ _ 3 1); [vm_compute; reflexivity|done|const_bound].
Qed.

Definition total (fv : FeatureVector) : float64 :=
  (0 + synFloodTree fv + portScanTree fv + volumetricTree fv)%float.

Lemma total_upper fv a b c d e :
  const_add_le 0 a a = true -> const_add_le a b d = true -> const_add_le d c e = true ->
  le_or_nan (synFloodTree fv) a -> le_or_nan (portScanTree fv) b -> le_or_nan (volumetricTree fv) c ->
  le_or_nan (total fv) e.
Proof.
  intros ? ? ? H1 H2 H3. apply (add_upper _ _ d c); [done| |done].
  apply (add_upper _ _ a b); [done| |done]. apply (add_upper _ _ 0 a); [done|const_bound|done].
Qed.

(** The loop over the ensemble computes the total of the three scores, and
    the label of a best one. *)
Lemma classify_step_total fv st t : fst (fst (classify_step fv st t)) = (fst (fst st) + snd t fv)%float.
Proof. destruct st as [[tot best] a]. unfold classify_step. by case_match. Qed.

Lemma ensemble_total_sum fv : fst (fst (ensemble_total fv)) = total fv.
Proof. unfold ensemble_total, ensemble. cbn [fold_left]. by rewrite !classify_step_total. Qed.

Lemma Classify_malicious f :
  Malicious (Classify f) = (MalwareThreshold <? sigmoid (total (ToFeatureVector f)))%float.
Proof.
  unfold Classify. pose proof (ensemble_total_sum (ToFeatureVector f)) as E.
  destruct (ensemble_total (ToFeatureVector f)) as [[t b] a]. simpl in E. by subst.
Qed.

Lemma not_malicious f : le_or_nan (total (ToFeatureVector f)) 0 -> Malicious (Classify f) = false.
Proof. intros Ht. rewrite Classify_malicious. by apply sigmoid_low. Qed.

Lemma packet_count_below f n c :
  finite c && (scaled (Prim2SF c) =? (n - 1) * 2 ^ 1074) = true -> (c <? of_int n)%float = true ->
  ff_PacketCount f < n -> (PacketCount (ToFeatureVector f) <? of_int n)%float = true.
Proof.
  intros Hc Hn Hlt. apply (leb_ltb_trans _ c); [|done]. apply (of_int_upper _ c (n - 1)); [done|lia].
Qed.
End scores.

(** ** The running best of the loop *)

Section best.
Context `{GoMathLaws}.

Lemma fold_best fv l tot b a :
  is_nan b = false -> Forall (fun t => is_nan (snd t fv) = false) l ->
  let '(_, b', a') := fold_left (classify_step fv) l (tot, b, a) in
  (b <=? b')%float = true /\ Forall (fun t => (snd t fv <=? b')%float = true) l /\
  ((b' = b /\ a' = a) \/ exists t, t ∈ l /\ a' = fst t /\ b' = snd t fv).
Proof.
  intros Hb Hl. revert tot b a Hb. induction Hl as [|t l Ht Hl IH]; intros tot b a Hb; simpl.
  { split_and!; [by apply leb_refl|constructor|by left]. }
  destruct (b <? snd t fv)%float eqn:E.
  - specialize (IH (tot + snd t fv)%float (snd t fv) (fst t) Ht).
    destruct (fold_left _ _ _) as [[tot' b'] a']. destruct IH as (I1 & I2 & I3). split_and!.
    + by apply (leb_trans _ (snd t fv)); [apply ltb_leb|].
    + by constructor.
    + right. destruct I3 as [[-> ->]|(t' & ? & ? & ?)]; [exists t|exists t']; split_and!; try done;
        [apply list_elem_of_here|by apply list_elem_of_further].
  - apply not_ltb_leb in E; [|done..]. specialize (IH (tot + snd t fv)%float b a Hb).
    destruct (fold_left _ _ _) as [[tot' b'] a']. destruct IH as (I1 & I2 & I3). split_and!.
    + done.
    + constructor; [by apply (leb_trans _ b)|done].
    + destruct I3 as [I3|(t' & ? & ? & ?)]; [by left|right]. exists t'. split_and!; try done. by apply list_elem_of_further.
Qed.

(** A total above zero has no NaN and no infinite first score. *)
Lemma total_scores fv :
  ~ le_or_nan (total fv) 0 ->
  Forall (fun t => is_nan (snd t fv) = false) ensemble /\ synFloodTree fv <> neg_infinity.
Proof.
  intros Ht. assert (Hn : is_nan (total fv) = false)
    by (destruct (is_nan (total fv)) eqn:E; [destruct Ht; by left|done]).
  unfold total in Hn. split.
  - repeat constructor; simpl; (match goal with |- is_nan ?x = false => destruct (is_nan x) eqn:E end; [|done]);
      rewrite <- Hn; symmetry; auto using nan_add_l, nan_add_r.
  - intros E. apply Ht. unfold total. rewrite E. change (0 + neg_infinity)%float with neg_infinity.
    destruct (neg_infinity_add (portScanTree fv)) as [E'|E']; [by left; apply nan_add_l|rewrite E'].
    destruct (neg_infinity_add (volumetricTree fv)) as [E''|E'']; [by left|rewrite E''; by right].
Qed.

Lemma best_attack fv :
  ~ le_or_nan (total fv) 0 ->
  exists t, (snd (ensemble_total fv), t) ∈ ensemble /\
            Forall (fun t' => (snd t' fv <=? t fv)%float = true) ensemble.
Proof.
  intros Ht. destruct (total_scores fv Ht) as [Hall Hs]. unfold ensemble_total.
  pose proof (fold_best fv ensemble 0 neg_infinity AttackNone eq_refl Hall) as Hb.
  destruct (fold_left _ _ _) as [[tot b] a]. destruct Hb as (_ & Hmax & [[-> ->]|(t & Hin & -> & ->)]).
  - exfalso. inversion_clear Hmax. by apply Hs, leb_neg_infinity.
  - exists (snd t). split; [by destruct t|done].
Qed.

Lemma ensemble_labels n t :
  (n, t) ∈ ensemble ->
  (n = AttackSynFlood /\ t = synFloodTree) \/ (n = AttackPortScan /\ t = portScanTree) \/
  (n = AttackVolumetricAnomaly /\ t = volumetricTree).
Proof.
  unfold ensemble. rewrite !elem_of_cons. intros [Hin|[Hin|[Hin|Hin]]]; [injection Hin as -> ->; auto..|inversion Hin].
Qed.

Lemma malicious_total f : Malicious (Classify f) = true -> ~ le_or_nan (total (ToFeatureVector f)) 0.
Proof. intros Hm Ht. by rewrite (not_malicious f Ht) in Hm. Qed.

Lemma Classify_attack f :
  Attack (Classify f) = if Malicious (Classify f) then snd (ensemble_total (ToFeatureVector f)) else AttackNone.
Proof. unfold Classify. by destruct (ensemble_total (ToFeatureVector f)) as [[t b] a]. Qed.

(** Bounds from below, for a fast one-sided flood. *)
Lemma syn_lower fv :
  (1000 <=? PacketCount fv)%float = true -> (150 <=? RatioFlow fv)%float = true ->
  (0 <=? IATStdDevNS fv)%float = true -> (IATStdDevNS fv <? 2000000)%float = true ->
  (27 / 4 <=? synFloodTree fv)%float = true.
Proof.
  intros Hp Hr Hz Hi. unfold synFloodTree.
  rewrite (ltb_geb_false _ 20) by (by apply (leb_trans _ 1000)).
  rewrite (ltb_geb_false _ 8) by (by apply (leb_trans _ 150)).
  destruct (2000000 <=? IATStdDevNS fv)%float eqn:E; [apply ltb_geb_false in E; congruence|].
  apply (add_lower _ _ 5 (7 / 4)); [vm_compute; reflexivity| |].
  - apply (add_lower _ _ 2 3); [vm_compute; reflexivity|reflexivity|]. apply math_Min_lower; [reflexivity| |reflexivity].
    apply (div_lower _ 50 150 3 50 150); try (apply FR_int; vm_compute; reflexivity); [done..| |done].
    rewrite (FR_int 3 3) by (vm_compute; reflexivity). lra.
  - apply math_Min_lower; [reflexivity| |reflexivity].
    apply (div_lower _ 10000000 18000000 (7 / 4) 10000000 18000000);
      try (apply FR_int; vm_compute; reflexivity); [done..| |].
    + fr_const (7/4)%float 7%Z 4%Z. rewrite FR. lra.
    + apply (of_int_lower _ _ 18000000); [by vm_compute|].
      unfold minF. rewrite (ltb_leb_trans _ 2000000 20000000) by done.
      pose proof (to_int64_range (IATStdDevNS fv) 2000000 2000000 ltac:(by vm_compute) ltac:(lia) Hz (ltb_leb _ _ Hi)).
      unfold sub_int64, wrap. rewrite Z.mod_small; lia.
Qed.

Lemma scan_lower fv : (1000 <=? PacketCount fv)%float = true -> (-4 <=? portScanTree fv)%float = true.
Proof.
  intros Hp. unfold portScanTree. destruct (PortEntropyBits fv <? 3)%float eqn:E; [done|]. cbv zeta.
  assert (Hmin : is_nan (PortEntropyBits fv) = false ->
    (-4 <=? 3 / 2 + math_Min (PortEntropyBits fv / 2) 3)%float = true).
  { intros Hn. apply not_ltb_leb in E; [|done..].
    apply (add_lower _ _ (3 / 2) 1); [by vm_compute|done|]. apply math_Min_lower; [done| |done].
    apply (div_lower _ 2 3 1 2 3); try (apply FR_int; vm_compute; reflexivity); [done..| |done].
    rewrite (FR_int 1 1) by (vm_compute; reflexivity). lra. }
  destruct (is_nan (PortEntropyBits fv)) eqn:En.
  - rewrite (nan_ltb_r 0) by done. rewrite (ltb_leb_trans 10 1000) by done. done.
  - case_match; case_match; auto.
Qed.

Lemma vol_lower fv : (1000 <=? PacketCount fv)%float = true -> (1 <=? volumetricTree fv)%float = true.
Proof.
  intros Hp. unfold volumetricTree. rewrite (ltb_geb_false _ 200) by (by apply (leb_trans _ 1000)). cbv zeta.
  assert (H1 : (1 <=? -1 + math_Min (PacketCount fv / 500) 4)%float = true).
  { apply (add_lower _ _ (-1) 2); [by vm_compute|done|]. apply math_Min_lower; [done| |done].
    apply (div_lower _ 500 1000 2 500 1000); try (apply FR_int; vm_compute; reflexivity); [done..| |done].
    rewrite (FR_int 2 2) by (vm_compute; reflexivity). lra. }
  case_match; [|done]. by apply (add_lower _ _ 1 1 1); [by vm_compute| |].
Qed.

Lemma flood_total fv :
  (1000 <=? PacketCount fv)%float = true -> (27 / 4 <=? synFloodTree fv)%float = true ->
  (2 <=? total fv)%float = true.
Proof.
  intros Hp Hsyn. unfold total. apply (add_lower _ _ 2 1); [by vm_compute| |by apply vol_lower].
  apply (add_lower _ _ 6 (-4)); [by vm_compute| |by apply scan_lower].
  apply (add_lower _ _ 0 6); [by vm_compute|done|]. by apply (leb_trans _ (27 / 4)).
Qed.
End best.

(** ** What a malicious verdict requires *)

Section verdicts.
Context `{GoMathLaws}.

(** What every malicious verdict needs. *)
Lemma malicious_needs (f : FlowFeatures) :
  Malicious (Classify f) = true ->
  200 <= ff_PacketCount f \/
  (20 <= ff_PacketCount f /\
   (ff_PortEntropyBits f <? 3)%float = false /\
   (2000000 <=? ff_IATStdDevNS f)%float = false /\
   (RatioFlow (ToFeatureVector f) <? 8)%float = false).
Proof.
  intros Hm. destruct (Z.lt_ge_cases (ff_PacketCount f) 200) as [Hlt|]; [right|by left].
  pose proof (packet_count_below f 200 199 ltac:(vm_compute; reflexivity) ltac:(reflexivity) Hlt) as Hp.
  assert (Hvol : le_or_nan (volumetricTree (ToFeatureVector f)) (-3)).
  { unfold volumetricTree. change (of_int 200) with 200%float in Hp. rewrite Hp. const_bound. }
  assert (Hno : forall a b d e, const_add_le 0 a a = true -> const_add_le a b d = true ->
    const_add_le d (-3) e && const_le e 0 = true ->
    le_or_nan (synFloodTree (ToFeatureVector f)) a -> le_or_nan (portScanTree (ToFeatureVector f)) b -> False).
  { intros a b d e H1 H2 H3 Ha Hb. bool_hyps.
    pose proof (total_upper _ a b (-3) d e H1 H2 H3 Ha Hb Hvol) as Ht.
    apply (le_weaken _ _ 0) in Ht; [|done]. by rewrite (not_malicious f Ht) in Hm. }
  split_and!.
  - destruct (Z.lt_ge_cases (ff_PacketCount f) 20) as [Hlt'|]; [exfalso|done].
    pose proof (packet_count_below f 20 19 ltac:(vm_compute; reflexivity) ltac:(reflexivity) Hlt') as Hp'.
    apply (Hno (-4) (9 / 2) (1 / 2) (-5 / 2))%float; [by vm_compute..| |apply scan_upper].
    unfold synFloodTree. change (of_int 20) with 20%float in Hp'. rewrite Hp'. const_bound.
  - destruct (ff_PortEntropyBits f <? 3)%float eqn:E; [exfalso|done].
    apply (Hno 7 (-4) 3 0)%float; [by vm_compute..|apply syn_upper|].
    unfold portScanTree. change (PortEntropyBits (ToFeatureVector f)) with (ff_PortEntropyBits f). rewrite E. const_bound.
  - destruct (2000000 <=? ff_IATStdDevNS f)%float eqn:E; [exfalso|done].
    apply (Hno (-3) (9 / 2) (3 / 2) (-3 / 2))%float; [by vm_compute..|by apply syn_slow|apply scan_upper].
  - destruct (RatioFlow (ToFeatureVector f) <? 8)%float eqn:E; [exfalso|done].
    apply (Hno (-2) (9 / 2) (5 / 2) (-1 / 2))%float; [by vm_compute..|by apply syn_balanced|apply scan_upper].
Qed.

(** C25: a flow is reported malicious only if it has at least 200 packets, or at
    least 20 packets whose arrival jitter is below 2 ms, whose asymmetry
    ratio is at least 8 and whose source visits ports with at least 3 bits of
    entropy: a single weak signal never reaches the threshold. *)
Theorem malicious_requires (f : FlowFeatures) :
  Malicious (Classify f) = true ->
  200 <= ff_PacketCount f \/
  (20 <= ff_PacketCount f /\
   (ff_PortEntropyBits f <? 3)%float = false /\
   (2000000 <=? ff_IATStdDevNS f)%float = false /\
   (RatioFlow (ToFeatureVector f) <? 8)%float = false).
Proof. apply malicious_needs. Qed.

(** The label of a verdict. A benign verdict carries the label BENIGN; a
    malicious one carries the label of a tree of the ensemble, never BENIGN, and
    no tree of the ensemble scores above it. *)
Theorem verdict_attribution (f : FlowFeatures) :
  let r := Classify f in
  (Malicious r = false -> Attack r = AttackNone) /\
  (Malicious r = true ->
   Attack r <> AttackNone /\
   exists t, (Attack r, t) ∈ ensemble /\
     Forall (fun t' => (snd t' (ToFeatureVector f) <=? t (ToFeatureVector f))%float = true) ensemble).
Proof.
  cbv zeta. rewrite Classify_attack. split; intros Hm; rewrite Hm; [done|].
  destruct (best_attack _ (malicious_total f Hm)) as (t & Hin & Hbest). split; [|by exists t].
  intros E. rewrite E in Hin. by apply ensemble_labels in Hin as [[? _]|[[? _]|[? _]]].
Qed.

Lemma flood_verdict (f : FlowFeatures) :
  ff_Protocol f = 6 -> ff_ReverseCount f = 0 -> ff_AckPshCount f = 0 ->
  150 <= ff_SynCount f < 2 ^ 64 -> 1000 <= ff_PacketCount f ->
  (0 <=? ff_IATStdDevNS f)%float = true -> (ff_IATStdDevNS f <? 2000000)%float = true ->
  Malicious (Classify f) = true /\ Attack (Classify f) = AttackSynFlood.
Proof.
  intros Hproto Hrev Hack Hsyn Hn Hz Hi. set (fv := ToFeatureVector f).
  assert (Hp : (1000 <=? PacketCount fv)%float = true) by (by apply (of_int_lower _ _ 1000); [vm_compute|]).
  assert (Hs : (27 / 4 <=? synFloodTree fv)%float = true).
  { apply syn_lower; try done. unfold fv, ToFeatureVector. rewrite Hproto, Hrev, Hack. simpl.
    rewrite Z.add_0_r, (wrap_small 64) by (unfold in_u; lia). unfold singleDirectionRatioFloor.
    rewrite (proj2 (Z.leb_le _ _)) by lia. simpl. change (of_int (maxU64 0 1)) with 1%float.
    apply (div_lower _ 1 150 150 1 150); try (apply FR_int; vm_compute; reflexivity); [done..| |].
    - rewrite (FR_int 150 150) by (vm_compute; reflexivity). lra.
    - by apply (of_int_lower _ _ 150); [vm_compute|lia]. }
  assert (Hm : Malicious (Classify f) = true) by (rewrite Classify_malicious; by apply sigmoid_high, flood_total).
  split; [done|]. rewrite Classify_attack, Hm. change (ToFeatureVector f) with fv.
  destruct (best_attack fv (malicious_total f Hm)) as (t & Hin & Hbest).
  unfold ensemble in Hbest. apply Forall_cons in Hbest as [Hbest _]. simpl in Hbest.
  pose proof (leb_trans _ _ _ Hs Hbest) as Hlow.
  assert (Hno : forall b, const_le b 5 = true -> le_or_nan (t fv) b -> False).
  { intros b Hb Ht. apply (le_weaken _ _ 5 Hb) in Ht as [Ht|Ht].
    - apply leb_not_nan in Hlow as [Hlow _]. congruence.
    - pose proof (leb_trans _ _ _ Hlow Ht) as Hbad. by vm_compute in Hbad. }
  apply ensemble_labels in Hin as [[-> _]|[[_ ->]|[_ ->]]]; [done|exfalso..].
  - by apply (Hno (9 / 2)%float); [vm_compute|apply scan_upper].
  - by apply (Hno 4%float); [vm_compute|apply vol_upper].
Qed.

(** A one-sided TCP SYN flood of at least 1000 packets in the window, with
    at least 150 SYNs, no established traffic, no reply, and a measured jitter
    below 2 ms, is reported malicious and attributed to SYN_FLOOD, whatever the
    ports touched by its source. *)
Theorem syn_flood_detected (f : FlowFeatures) :
  ff_Protocol f = 6 -> ff_ReverseCount f = 0 -> ff_AckPshCount f = 0 ->
  150 <= ff_SynCount f < 2 ^ 64 -> 1000 <= ff_PacketCount f ->
  (0 <=? ff_IATStdDevNS f)%float = true -> (ff_IATStdDevNS f <? 2000000)%float = true ->
  Malicious (Classify f) = true /\ Attack (Classify f) = AttackSynFlood.
Proof. apply flood_verdict. Qed.

(** A verdict is attributed to the tree that scores highest; when synFloodTree is
    at most -2, a verdict attributed to it would have every score at most -2, and
    would not be malicious. *)
Lemma low_syn_never_attributed f :
  le_or_nan (synFloodTree (ToFeatureVector f)) (-2) -> Attack (Classify f) <> AttackSynFlood.
Proof.
  intros Hlow. rewrite Classify_attack. destruct (Malicious (Classify f)) eqn:Hm; [|done]. intros E.
  destruct (best_attack _ (malicious_total f Hm)) as (t & Hin & Hbest).
  rewrite E in Hin. clear E. apply ensemble_labels in Hin as [[_ ->]|[[? _]|[? _]]]; [|discriminate..].
  apply (malicious_total f Hm). unfold ensemble in Hbest.
  apply Forall_cons in Hbest as [Hb1 Hbest]. apply Forall_cons in Hbest as [Hb2 Hbest].
  apply Forall_cons in Hbest as [Hb3 _]. simpl in *.
  destruct Hlow as [Hn|Hlow]; [apply leb_not_nan in Hb1 as [Hb1 _]; congruence|].
  apply (le_weaken _ (-6) 0); [by vm_compute|].
  apply (total_upper _ (-2) (-2) (-2) (-4)); [by vm_compute..| | |]; right; by eapply leb_trans.
Qed.

(** The small-sample guard fails open. A flow whose window holds fewer than
    30 inter-arrival samples gets the neutral jitter, so it is never attributed
    to SYN_FLOOD; with fewer than 200 packets it is not reported at all. *)
Lemma undersampled_not_syn_flood `{MapRange} snap ws we fa :
  iatSamples fa < minIATSamplesForVariance ->
  let r := Classify (make_features snap ws we fa) in
  Attack r <> AttackSynFlood /\ (packetCount fa < 200 -> Malicious r = false /\ Attack r = AttackNone).
Proof.
  intros Hs. cbv zeta. set (f := make_features snap ws we fa). rewrite Classify_attack.
  assert (Hj : (2000000 <=? IATStdDevNS (ToFeatureVector f))%float = true).
  { change (IATStdDevNS (ToFeatureVector f)) with (iatStdDevNS fa). unfold iatStdDevNS.
    by rewrite (proj2 (Z.ltb_lt _ _) Hs). }
  pose proof (syn_slow _ Hj) as Hlow. split.
  - rewrite <- Classify_attack. apply low_syn_never_attributed, (le_weaken _ (-3)); [by vm_compute|exact Hlow].
  - intros Hn. destruct (Malicious (Classify f)) eqn:Hm; [exfalso|done]. apply (malicious_total f Hm).
    pose proof (packet_count_below f 200 199 ltac:(vm_compute; reflexivity) ltac:(reflexivity) Hn) as Hp.
    apply (le_weaken _ (-3/2) 0); [by vm_compute|].
    apply (total_upper _ (-3) (9 / 2) (-3) (3 / 2)); [by vm_compute..|done|apply scan_upper|].
    unfold volumetricTree. change (of_int 200) with 200%float in Hp. rewrite Hp. const_bound.
Qed.
End verdicts.

(** ** From packets to verdicts *)

Section pipeline.
Context `{MapRange, GoMathLaws}.

Lemma vector_flow ms ws we k f :
  vector ms ws we k = Some f ->
  exists snap, flow_of ms k = Some (observe_all (conversation k ms)) /\ conversation k ms <> [] /\
    f = make_features snap ws we (observe_all (conversation k ms)).
Proof.
  unfold vector, flow_of. destruct (conversation k ms) as [|m c] eqn:E; [done|]. simpl. intros [= <-]. by eexists.
Qed.

Lemma tally_all f c : Forall (fun m => f m = true) c -> tally f c = Z.of_nat (length c).
Proof. induction 1 as [|m c Hm _ IH]; [done|]. unfold tally in *. simpl. rewrite Hm. simpl. lia. Qed.
Lemma tally_none f c : Forall (fun m => f m = false) c -> tally f c = 0.
Proof. induction 1 as [|m c Hm _ IH]; [done|]. unfold tally in *. simpl. by rewrite Hm. Qed.

(** A SYN flood is caught from its packets. When a window holds a
    conversation of at least 1000 bare SYN packets from the lower of its two
    endpoints to the other, sent at a constant interval, the vector made of its
    flow is malicious, attributed to SYN_FLOOD, whatever the port trackers
    hold. *)
Lemma periodic_syn_flood_flow (ms : list FlowPacketMeta) (d t : Z) (k : FlowKey) :
  Z.of_nat (length ms) < 2 ^ 64 -> Forall (fun m => in_u 8 (TCPFlags m)) ms ->
  1000 <= Z.of_nat (length (conversation k ms)) ->
  Forall (fun m => snd (canonicalize m) = true /\ Protocol m = 6 /\ TCPFlags m = 2) (conversation k ms) ->
  0 < d -> 0 < t -> t + d * Z.of_nat (length (conversation k ms)) < 2 ^ 64 -> periodic d t (conversation k ms) ->
  exists fa m, flow_of ms k = Some fa /\ head (conversation k ms) = Some m /\ firstSrcIP fa = SrcIP m /\
    forall snap ws we, let f := make_features snap ws we fa in
      Malicious (Classify f) = true /\ Attack (Classify f) = AttackSynFlood.
Proof.
  intros Hlen Hok Hn Hall Hd Ht Htime Hper. pose proof (conversation_counted ms k Hlen Hok) as [].
  pose proof (periodic_no_jitter d t _ Hd Ht Htime Hper ltac:(lia)) as Hj.
  assert (Hflow : flow_of ms k = Some (observe_all (conversation k ms)))
    by (unfold flow_of; by destruct (conversation k ms)).
  apply Forall_and in Hall as [Hfw Hsyn]. set (c := conversation k ms) in *. set (fa := observe_all c) in *.
  rewrite (tally_all is_syn) in c_syn
    by (eapply Forall_impl; [exact Hsyn|]; intros m [Hp Hf]; unfold is_syn; by rewrite Hp, Hf).
  rewrite (tally_none is_data) in c_data
    by (eapply Forall_impl; [exact Hsyn|]; intros m [Hp Hf]; unfold is_data; by rewrite Hp, Hf).
  rewrite (tally_none (fun m => negb (snd (canonicalize m)))) in c_reverse
    by (eapply Forall_impl; [exact Hfw|]; intros m Hm; simpl in Hm; by rewrite Hm).
  assert (Hlc : Z.of_nat (length c) < 2 ^ 64).
  { pose proof (length_filter (fun m => key_of m = k) ms) as Hl. unfold c, conversation. lia. }
  destruct c as [|m c'] eqn:Ec; [simpl in Hn; lia|]. destruct c_first as (F1 & F2 & F3 & F4 & F5).
  exists fa, m. split_and!; [exact Hflow|done|exact F1|]. intros snap ws we f.
  apply Forall_cons in Hsyn as [[Hproto _] _].
  apply flood_verdict; simpl; try (rewrite ?F5, ?c_reverse, ?c_data, ?c_syn, ?c_packets, ?Hj; done || lia).
Qed.

(** The vector that the window's flush sends for it names the sender. *)
Theorem periodic_syn_flood_reported (ms : list FlowPacketMeta) (ws we d t : Z) (k : FlowKey) :
  Z.of_nat (length ms) < 2 ^ 64 -> Forall (fun m => in_u 8 (TCPFlags m)) ms ->
  1000 <= Z.of_nat (length (conversation k ms)) ->
  Forall (fun m => snd (canonicalize m) = true /\ Protocol m = 6 /\ TCPFlags m = 2) (conversation k ms) ->
  0 < d -> 0 < t -> t + d * Z.of_nat (length (conversation k ms)) < 2 ^ 64 -> periodic d t (conversation k ms) ->
  exists f m, vector ms ws we k = Some f /\ head (conversation k ms) = Some m /\
    ff_SrcIP f = u32ToIP (SrcIP m) /\
    Malicious (Classify f) = true /\ Attack (Classify f) = AttackSynFlood.
Proof.
  intros Hlen Hok Hn Hall Hd Ht Htime Hper.
  destruct (periodic_syn_flood_flow ms d t k) as (fa & m & Hflow & Hm & Hs & Hv); [done..|].
  unfold vector. rewrite Hflow. simpl. eexists _, m. split; [reflexivity|]. split; [done|]. simpl. split; [by rewrite Hs|]. apply Hv.
Qed.

(** C26: detection depends on which endpoint has the lower address. A one-way
    conversation sent by the higher of its two endpoints is counted as replies
    only: its asymmetry ratio is zero, however many packets it has, and it is never
    attributed to SYN_FLOOD, whatever else its vector holds. While its
    source's port entropy is below 3 bits it is not reported at all; from 3 bits on
    only the other two trees can report it. *)
Theorem flood_from_higher_endpoint_missed (ms : list FlowPacketMeta) (ws we : Z) (k : FlowKey) (f : FlowFeatures) :
  Z.of_nat (length ms) < 2 ^ 64 -> Forall (fun m => in_u 8 (TCPFlags m)) ms ->
  Forall (fun m => snd (canonicalize m) = false) (conversation k ms) ->
  vector ms ws we k = Some f ->
  ff_PacketCount f = Z.of_nat (length (conversation k ms)) /\
  ff_ForwardCount f = 0 /\ ff_ReverseCount f = ff_PacketCount f /\
  RatioFlow (ToFeatureVector f) = 0%float /\ Attack (Classify f) <> AttackSynFlood /\
  ((ff_PortEntropyBits f <? 3)%float = true -> Malicious (Classify f) = false /\ Attack (Classify f) = AttackNone).
Proof.
  intros Hlen Hok Hback Hv. pose proof (conversation_counted ms k Hlen Hok) as [].
  destruct (vector_flow _ _ _ _ _ Hv) as (snap & Hflow & Hne & ->). set (fa := observe_all _) in *.
  rewrite (tally_none (fun m => snd (canonicalize m))) in c_forward by done.
  rewrite (tally_all (fun m => negb (snd (canonicalize m)))) in c_reverse
    by (eapply Forall_impl; [exact Hback|]; intros m Hm; simpl in Hm; by rewrite Hm).
  assert (Hlc : 0 < Z.of_nat (length (conversation k ms)) < 2 ^ 64).
  { unfold conversation in *. pose proof (length_filter (fun m => key_of m = k) ms) as Hl.
    destruct (filter _ ms); [done|simpl in *; lia]. }
  assert (Hr : RatioFlow (ToFeatureVector (make_features snap ws we fa)) = 0%float).
  { unfold ToFeatureVector. simpl. rewrite (proj2 (Z.eqb_neq (reverseCount fa) 0)) by lia. simpl.
    rewrite c_forward. change (of_int 0) with 0%float. apply div_0_l, of_int_positive.
    unfold max64. case_Z; lia. }
  assert (Hsyn : le_or_nan (synFloodTree (ToFeatureVector (make_features snap ws we fa))) (-2)) by (apply syn_balanced; by rewrite Hr).
  split_and!; [exact c_packets|exact c_forward|simpl; congruence|exact Hr|by apply low_syn_never_attributed|]. intros He.
  assert (Hm : Malicious (Classify (make_features snap ws we fa)) = false).
  { apply not_malicious, (le_weaken _ (-2)); [by vm_compute|].
    apply (total_upper _ (-2) (-4) 4 (-6)); [by vm_compute..|exact Hsyn| |apply vol_upper].
    unfold portScanTree. simpl PortEntropyBits in *. simpl in He. rewrite He. const_bound. }
  split; [done|]. by rewrite Classify_attack, Hm.
Qed.
End pipeline.

(** ** Examples *)

Definition sample_flood : FlowFeatures :=
  mkFeatures (u32ToIP 167772161) (u32ToIP 167772162) 1024 80 6 1200 1200 0 1200 0
    1000%float 1200%float 0%float 0 100.

Lemma malicious_requires_witness :
  @Malicious (@Classify sample_math sample_flood) = true /\
  (200 <= ff_PacketCount sample_flood \/
   (20 <= ff_PacketCount sample_flood /\
    (ff_PortEntropyBits sample_flood <? 3)%float = false /\
    (2000000 <=? ff_IATStdDevNS sample_flood)%float = false /\
    (RatioFlow (ToFeatureVector sample_flood) <? 8)%float = false)).
Proof.
  split; [vm_compute; reflexivity|].
  apply (@malicious_requires sample_math sample_laws sample_flood). vm_compute. reflexivity.
Defined.

Lemma syn_flood_detected_witness :
  Malicious (@Classify sample_math sample_flood) = true /\
  Attack (@Classify sample_math sample_flood) = AttackSynFlood.
Proof.
  apply (@syn_flood_detected sample_math sample_laws sample_flood);
    solve [reflexivity | simpl; lia | vm_compute; reflexivity].
Defined.

Lemma undersampled_not_syn_flood_witness :
  Malicious (@Classify sample_math (@make_features list_order sample_math ∅ 0 100 new_flow)) = false.
Proof.
  apply (@undersampled_not_syn_flood sample_math sample_laws list_order ∅ 0 100 new_flow);
    [reflexivity|reflexivity].
Defined.

Lemma verdict_attribution_witness :
  Attack (@Classify sample_math sample_flood) <> AttackNone.
Proof.
  apply (@verdict_attribution sample_math sample_laws sample_flood). vm_compute. reflexivity.
Defined.

(** [n] bare SYN packets from [src] to [dst], [d] nanoseconds apart. *)
Fixpoint syn_train (src dst d t : Z) (n : nat) : list FlowPacketMeta :=
  match n with
  | O => []
  | S n' => mkMeta src dst 1024 80 6 2 1 0 t :: syn_train src dst d (t + d) n'
  end.

Lemma syn_train_length src dst d t n : length (syn_train src dst d t n) = n.
Proof. revert t. induction n; intros t; simpl; auto. Qed.
Lemma syn_train_periodic src dst d t n : periodic d t (syn_train src dst d t n).
Proof. revert t. induction n; intros t; simpl; auto. Qed.
Lemma syn_train_all (P : FlowPacketMeta -> Prop) src dst d t n :
  (forall t, P (mkMeta src dst 1024 80 6 2 1 0 t)) -> Forall P (syn_train src dst d t n).
Proof. intros HP. revert t. induction n; intros t; simpl; constructor; auto. Qed.

Lemma syn_train_conversation d t n :
  conversation (mkFlowKey 1 2 1024 80 6) (syn_train 1 2 d t n) = syn_train 1 2 d t n.
Proof.
  unfold conversation. revert t. induction n as [|n IH]; intros t; simpl syn_train; [done|].
  rewrite filter_cons_True by done. by rewrite IH.
Qed.

Lemma periodic_syn_flood_reported_witness :
  exists f m, @vector list_order sample_math (syn_train 1 2 100 5 1000) 0 100 (mkFlowKey 1 2 1024 80 6) = Some f /\
    head (conversation (mkFlowKey 1 2 1024 80 6) (syn_train 1 2 100 5 1000)) = Some m /\
    ff_SrcIP f = u32ToIP (SrcIP m) /\
    Malicious (@Classify sample_math f) = true /\ Attack (@Classify sample_math f) = AttackSynFlood.
Proof.
  apply (@periodic_syn_flood_reported list_order sample_math sample_laws) with (d := 100) (t := 5);
    rewrite ?syn_train_conversation, ?syn_train_length; try lia.
  - apply syn_train_all. intros t. unfold in_u. simpl. lia.
  - apply syn_train_all. done.
  - apply syn_train_periodic.
Defined.

Definition sample_reverse_vector : option FlowFeatures :=
  @vector list_order sample_math (syn_train 2 1 100 5 40) 0 100 (mkFlowKey 1 2 80 1024 6).

Lemma flood_from_higher_endpoint_missed_witness :
  exists f, sample_reverse_vector = Some f /\ ff_PacketCount f = 40 /\ Malicious (@Classify sample_math f) = false.
Proof.
  destruct sample_reverse_vector as [f|] eqn:E; [|vm_compute in E; discriminate]. exists f. split; [done|].
  assert (He : (ff_PortEntropyBits f <? 3)%float = true) by (vm_compute in E; injection E as <-; reflexivity).
  destruct (@flood_from_higher_endpoint_missed list_order sample_math sample_laws
    (syn_train 2 1 100 5 40) 0 100 (mkFlowKey 1 2 80 1024 6) f) as (Hc & _ & _ & _ & _ & Hm).
  - reflexivity.
  - apply syn_train_all. intros t. unfold in_u. simpl. lia.
  - vm_compute. repeat constructor.
  - exact E.
  - split; [rewrite Hc; vm_compute; reflexivity|apply Hm, He].
Defined.
