(* ===== verification/EbpfMap.v ===== *)
(** * The kernel's maps, as the control plane sees them

    [github.com/cilium/ebpf] is not part of the repository: its maps are a
    parameter, the class [Ebpf], and what the program relies on is the class
    [EbpfLaws], which restates the package's documentation. A simulated
    kernel, which any operation may fail on, satisfies the laws and evaluates
    the examples. *)

From S2P Require Import Prelude.

(** A value passed to the kernel is marshalled to bytes: a [uintN] to N/8
    little-endian bytes, a struct to those of its fields. *)
Abbreviation bytes := (list Z) (only parsing).

Class Ebpf := {
  kernel : Type;     (* the state of the kernel's maps *)
  Map : Type;        (* [*ebpf.Map], an open handle *)
  LoadPinnedMap : kernel -> string -> kernel * result Map;
  Map_Close : kernel -> Map -> kernel;
  Map_Put : kernel -> Map -> bytes -> bytes -> kernel * option error;
  Map_Lookup : kernel -> Map -> bytes -> result bytes;
  Map_Delete : kernel -> Map -> bytes -> kernel * option error
}.

Definition ErrKeyNotExist : string := "ebpf.ErrKeyNotExist".

(** The documented behaviour. [object m] is the pinned object a handle refers to,
    [entries k o] its contents, by marshalled key; [opened k] the handles not
    closed yet. A failing operation changes nothing; a successful one was
    given a key and a value of the map's sizes. Only opening and closing change
    the open handles. An LPM trie stores a full-length
    prefix under the key itself; its lookup is by longest prefix, so that the law of
    lookups leaves the reputation map out (the control plane never looks it up). *)
Class EbpfLaws `{Ebpf} := {
  object : Map -> string;
  entries : kernel -> string -> gmap (list Z) bytes;
  opened : kernel -> list Map;
  key_size : string -> nat;
  value_size : string -> nat;
  canon : string -> bytes -> bytes;

  load_law k path :
    let '(k', r) := LoadPinnedMap k path in
    entries k' = entries k /\
    match r with
    | Ok m => object m = path /\ opened k' = m :: opened k
    | Err _ => opened k' = opened k
    end;
  close_law k m l : opened k ≡ₚ m :: l -> entries (Map_Close k m) = entries k /\ opened (Map_Close k m) ≡ₚ l;
  put_law k m key v :
    let '(k', e) := Map_Put k m key v in
    match e with
    | None => length key = key_size (object m) /\ length v = value_size (object m) /\
              forall o, entries k' o = if decide (o = object m) then <[canon o key := v]> (entries k o) else entries k o
    | Some _ => entries k' = entries k
    end;
  delete_law k m key :
    let '(k', e) := Map_Delete k m key in
    match e with
    | None => length key = key_size (object m) /\
              forall o, entries k' o = if decide (o = object m) then delete (canon o key) (entries k o) else entries k o
    | Some e => entries k' = entries k /\
                (errors_Is e ErrKeyNotExist = true -> entries k (object m) !! canon (object m) key = None)
    end;
  put_opened k m key v : opened (fst (Map_Put k m key v)) = opened k;
  delete_opened k m key : opened (fst (Map_Delete k m key)) = opened k;
  lookup_law k m key :
    object m <> "/sys/fs/bpf/ai_ida/reputation_map"%string ->
    match Map_Lookup k m key with
    | Ok v => entries k (object m) !! canon (object m) key = Some v /\ length v = value_size (object m)
    | Err e => errors_Is e ErrKeyNotExist = true -> entries k (object m) !! canon (object m) key = None
    end;
  canon_full o addr : length addr = 4%nat -> canon o (le_split 4 32 ++ addr) = le_split 4 32 ++ addr;
  canon_word o n : canon o (le_split 4 n) = le_split 4 n
}.

(** ** A simulated kernel

    Each operation consumes one element of [faults]: [true] makes it fail. A
    handle is an object's name and a number. *)

Record sim_kernel := mkSim {
  sim_maps : string -> gmap (list Z) bytes;
  sim_open : list (string * nat);
  sim_faults : list bool
}.

Definition sim_fault (k : sim_kernel) : bool := hd false (sim_faults k).
Definition sim_next (k : sim_kernel) : sim_kernel := mkSim (sim_maps k) (sim_open k) (List.tl (sim_faults k)).
Definition sim_key_size (o : string) : nat := if decide (o = "/sys/fs/bpf/ai_ida/reputation_map") then 8 else 4.
Definition sim_value_size (o : string) : nat := if decide (o = "/sys/fs/bpf/ai_ida/port_gate_map") then 1 else 4.
Definition sim_error : error := Sentinel "injected".

Definition sim_update (k : sim_kernel) (o : string) (f : gmap (list Z) bytes -> gmap (list Z) bytes) : sim_kernel :=
  mkSim (fun o' => if decide (o' = o) then f (sim_maps k o') else sim_maps k o') (sim_open k) (sim_faults k).

Definition sim_ebpf : Ebpf := {|
  kernel := sim_kernel;
  Map := string * nat;
  LoadPinnedMap k path :=
    let k' := sim_next k in
    if sim_fault k then (k', Err sim_error)
    else let m := (path, length (sim_open k)) in (mkSim (sim_maps k') (m :: sim_open k') (sim_faults k'), Ok m);
  Map_Close k m :=
    mkSim (sim_maps k) (match list_find (fun m' => m' = m) (sim_open k) with
                        | Some (i, _) => delete i (sim_open k) | None => sim_open k end) (sim_faults k);
  Map_Put k m key v :=
    let k' := sim_next k in
    if sim_fault k || negb (length key =? sim_key_size (fst m))%nat || negb (length v =? sim_value_size (fst m))%nat
    then (k', Some sim_error) else (sim_update k' (fst m) (fun e => <[key := v]> e), None);
  Map_Lookup k m key :=
    match sim_maps k (fst m) !! key with
    | Some v => if (length v =? sim_value_size (fst m))%nat then Ok v else Err sim_error
    | None => Err (Sentinel ErrKeyNotExist)
    end;
  Map_Delete k m key :=
    let k' := sim_next k in
    if sim_fault k || negb (length key =? sim_key_size (fst m))%nat then (k', Some sim_error)
    else match sim_maps k (fst m) !! key with
         | Some _ => (sim_update k' (fst m) (fun e => delete key e), None)
         | None => (k', Some (Sentinel ErrKeyNotExist))
         end
|}.

#[local] Obligation Tactic := idtac.
#[program] Definition sim_laws : @EbpfLaws sim_ebpf := {|
  object := fst;
  entries := sim_maps;
  opened := sim_open;
  key_size := sim_key_size;
  value_size := sim_value_size;
  canon _ key := key
|}.
Next Obligation. intros k path. simpl. by destruct (sim_fault k). Qed.
Next Obligation.
  intros k m l Hp. simpl in *. split; [done|].
  destruct (list_find (fun m' => m' = m) (sim_open k)) as [[i m']|] eqn:E.
  - apply list_find_Some in E as (Hi & -> & _). apply delete_Permutation in Hi.
    rewrite Hi in Hp. by apply Permutation_cons_inv in Hp.
  - apply list_find_None in E. rewrite Hp in E. by apply Forall_cons in E as [E _].
Qed.
Next Obligation.
  intros k m key v. simpl. destruct (sim_fault k); simpl; [done|].
  destruct (Nat.eqb_spec (length key) (sim_key_size (fst m))); simpl; [|done].
  destruct (Nat.eqb_spec (length v) (sim_value_size (fst m))); simpl; [|done].
  split_and!; [done..|]. intros o. simpl. by destruct (decide (o = fst m)).
Qed.
Next Obligation.
  intros k m key. simpl. destruct (sim_fault k); simpl; [done|].
  destruct (Nat.eqb_spec (length key) (sim_key_size (fst m))); simpl; [|done].
  destruct (sim_maps k (fst m) !! key) eqn:E; [|done]. split; [done|]. intros o. simpl. by destruct (decide (o = fst m)).
Qed.
Next Obligation. intros k m key v. simpl. by case_match. Qed.
Next Obligation. intros k m key. simpl. by repeat case_match. Qed.
Next Obligation.
  intros k m key _. simpl. destruct (sim_maps k (fst m) !! key) as [v|] eqn:E; [|done].
  destruct (Nat.eqb_spec (length v) (sim_value_size (fst m))); [done|]. done.
Qed.
Next Obligation. done. Qed.
Next Obligation. done. Qed.

(** A kernel with empty maps and a given sequence of faults. *)
Definition sim_start (faults : list bool) : sim_kernel := mkSim (fun _ => ∅) [] faults.
