(* ===== verification/MapManager.v ===== *)
(** * The pinned map manager ([pkg/engine/map_manager.go])

    The five pinned maps and the typed operations on them. Each operation
    takes the kernel's state and gives the new one with its error. *)

From S2P Require Import Prelude GoNet Contracts EbpfMap.

Definition BpfFsPath : string := "/sys/fs/bpf/ai_ida".

(** [filepath.Join] of two clean elements. *)
Definition filepath_Join (dir name : string) : string := dir +:+ "/" +:+ name.

Section manager.
Context `{Ebpf}.

(** The handles, nil or open. *)
Record MapManager := mkMgr {
  reputationMap : option Map;
  portGateMap : option Map;
  rateLimitMap : option Map;
  configMap : option Map;
  eventsMap : option Map
}.

Definition LoadPinnedMaps (k : kernel) : kernel * result MapManager :=
  let '(k, r) := LoadPinnedMap k (filepath_Join BpfFsPath "reputation_map") in
  match r with
  | Err err => (k, Err (ErrorfW "failed to open reputation_map (is AI-IDA running?): %w" [] err))
  | Ok repMap =>
      let '(k, r) := LoadPinnedMap k (filepath_Join BpfFsPath "port_gate_map") in
      match r with
      | Err err =>
          let k := Map_Close k repMap in
          (k, Err (ErrorfW "failed to open port_gate_map: %w" [] err))
      | Ok portMap =>
          let '(k, r) := LoadPinnedMap k (filepath_Join BpfFsPath "rate_limit_map") in
          match r with
          | Err err =>
              let k := Map_Close k repMap in
              let k := Map_Close k portMap in
              (k, Err (ErrorfW "failed to open rate_limit_map: %w" [] err))
          | Ok rateMap =>
              let '(k, r) := LoadPinnedMap k (filepath_Join BpfFsPath "config_map") in
              match r with
              | Err err =>
                  let k := Map_Close k repMap in
                  let k := Map_Close k portMap in
                  let k := Map_Close k rateMap in
                  (k, Err (ErrorfW "failed to open config_map: %w" [] err))
              | Ok cfgMap =>
                  let '(k, r) := LoadPinnedMap k (filepath_Join BpfFsPath "events") in
                  match r with
                  | Err err =>
                      let k := Map_Close k repMap in
                      let k := Map_Close k portMap in
                      let k := Map_Close k rateMap in
                      let k := Map_Close k cfgMap in
                      (k, Err (ErrorfW "failed to open events ringbuf map: %w" [] err))
                  | Ok evMap => (k, Ok (mkMgr (Some repMap) (Some portMap) (Some rateMap) (Some cfgMap) (Some evMap)))
                  end
              end
          end
      end
  end.

(** [if h != nil { h.Close() }] *)
Definition close_handle (k : kernel) (h : option Map) : kernel :=
  match h with Some m => Map_Close k m | None => k end.

Definition Close (m : MapManager) (k : kernel) : kernel :=
  let k := close_handle k (reputationMap m) in
  let k := close_handle k (portGateMap m) in
  let k := close_handle k (rateLimitMap m) in
  let k := close_handle k (configMap m) in
  close_handle k (eventsMap m).

Definition GetEventsMap (m : MapManager) : option Map := eventsMap m.

(** A call on a handle; [None] is the panic of a nil handle. *)
Definition outcome (A : Type) : Type := option (kernel * A).

Definition put (h : option Map) (k : kernel) (key v : list Z) (wrap_err : error -> error) : outcome (option error) :=
  m ← h;
  let '(k', err) := Map_Put k m key v in
  Some (k', option_map wrap_err err).

Definition SetLogLevel (m : MapManager) (level : Z) (k : kernel) : outcome (option error) :=
  let key := 0 in
  let val := level in
  put (configMap m) k (le_split 4 key) (le_split 4 val)
    (ErrorfW "failed to update config_map log level to %s (%d): %w" [ArgS (LogSeverity_String level); ArgD val]).

(** [Lookup] into a [uint32]: the value must have four bytes. *)
Definition lookup_u32 (h : option Map) (k : kernel) (key : list Z) : option (result Z) :=
  m ← h;
  Some (match Map_Lookup k m key with
        | Err e => Err e
        | Ok v => if (length v =? 4)%nat then Ok (le_combine v) else Err (Sentinel "ebpf: can't unmarshal")
        end).

Definition GetLogLevel (m : MapManager) (k : kernel) : option (Z * option error) :=
  r ← lookup_u32 (configMap m) k (le_split 4 0);
  Some (match r with
        | Err e => (LogLevelOff, Some (ErrorfW "failed to lookup config_map log level: %w" [] e))
        | Ok val => (wrap 8 val, None)
        end).

(** The marshalled [LpmIpv4Key]: the prefix length, then the address. *)
Definition lpm_bytes (key : LpmIpv4Key) : list Z := le_split 4 (PrefixLen key) ++ KeyAddr key.

Definition BlockIP (m : MapManager) (cidr : string) (k : kernel) : outcome (option error) :=
  match NewLpmKey cidr with
  | Err err => Some (k, Some err)
  | Ok key =>
      let value := 1 in
      put (reputationMap m) k (lpm_bytes key) (le_split 4 value)
        (ErrorfW "failed to insert IP into BPF LPM_TRIE: %w" [])
  end.

Definition UnblockIP (m : MapManager) (cidr : string) (k : kernel) : outcome (option error) :=
  match NewLpmKey cidr with
  | Err err => Some (k, Some err)
  | Ok key =>
      h ← reputationMap m;
      let '(k', err) := Map_Delete k h (lpm_bytes key) in
      Some (k', match err with
                | None => None
                | Some err => if errors_Is err ErrKeyNotExist then None
                              else Some (ErrorfW "failed to remove IP from BPF LPM_TRIE: %w" [] err)
                end)
  end.

Definition SetDryRun (m : MapManager) (enabled : bool) (k : kernel) : outcome (option error) :=
  let key := 1 in
  let val := if enabled then 1 else 0 in
  put (configMap m) k (le_split 4 key) (le_split 4 val) (ErrorfW "failed to update config_map dry-run flag: %w" []).

Definition GetDryRun (m : MapManager) (k : kernel) : option (bool * option error) :=
  r ← lookup_u32 (configMap m) k (le_split 4 1);
  Some (match r with
        | Err e => if errors_Is e ErrKeyNotExist then (false, None)
                   else (false, Some (ErrorfW "failed to lookup config_map dry-run flag: %w" [] e))
        | Ok val => (val =? 1, None)
        end).

(** The key is the [uint16] itself: two bytes. *)
Definition SetPortStatus (m : MapManager) (port : Z) (allow : bool) (k : kernel) : outcome (option error) :=
  let val := if allow then 1 else 0 in
  put (portGateMap m) k (le_split 2 port) (le_split 1 val)
    (ErrorfW "failed to update port %d status: %w" [ArgD port]).

Definition BlockPort (m : MapManager) (port : Z) (k : kernel) : outcome (option error) :=
  let val := 2 in
  let key := port in
  put (portGateMap m) k (le_split 4 key) (le_split 1 val) (ErrorfW "failed to block port %d: %w" [ArgD port]).

Definition UnblockPort (m : MapManager) (port : Z) (k : kernel) : outcome (option error) :=
  let val := 0 in
  let key := port in
  put (portGateMap m) k (le_split 4 key) (le_split 1 val) (ErrorfW "failed to unblock port %d: %w" [ArgD port]).

End manager.

(** ** What the operations promise *)

Definition pinned (name : string) : string := filepath_Join BpfFsPath name.

Section laws.
Context `{EbpfLaws}.

(** The handles of a manager refer to the pinned objects. *)
Record wired (m : MapManager) : Prop := {
  w_reputation : exists h, reputationMap m = Some h /\ object h = pinned "reputation_map";
  w_port : exists h, portGateMap m = Some h /\ object h = pinned "port_gate_map";
  w_rate : exists h, rateLimitMap m = Some h /\ object h = pinned "rate_limit_map";
  w_config : exists h, configMap m = Some h /\ object h = pinned "config_map";
  w_events : exists h, eventsMap m = Some h /\ object h = pinned "events"
}.

Definition handles (m : MapManager) : list Map :=
  omap id [reputationMap m; portGateMap m; rateLimitMap m; configMap m; eventsMap m].

(** Closing open handles, in any order they are open. *)
Lemma close_open k h l :
  opened k ≡ₚ h :: l -> entries (Map_Close k h) = entries k /\ opened (Map_Close k h) ≡ₚ l.
Proof. apply close_law. Qed.

Lemma load_step k path :
  match LoadPinnedMap k path with
  | (k', Ok h) => entries k' = entries k /\ object h = path /\ opened k' = h :: opened k
  | (k', Err _) => entries k' = entries k /\ opened k' = opened k
  end.
Proof. pose proof (load_law k path) as Hl. destruct (LoadPinnedMap k path) as [k' [h|e]]; tauto. Qed.

Lemma close_list hs k l :
  opened k ≡ₚ hs ++ l ->
  entries (fold_left Map_Close hs k) = entries k /\ opened (fold_left Map_Close hs k) ≡ₚ l.
Proof.
  revert k. induction hs as [|h hs IH]; intros k Hop; simpl; [done|].
  destruct (close_open k h (hs ++ l) Hop) as [He Ho]. destruct (IH _ Ho) as [He' Ho']. by rewrite He', He.
Qed.

(** A failed load: the handles opened so far are closed. *)
Lemma close_failed hs k0 k e :
  opened k ≡ₚ hs ++ opened k0 -> entries k = entries k0 ->
  let '(k', r) := (fold_left Map_Close hs k, Err (A := MapManager) e) in
  entries k' = entries k0 /\
  match r with
  | Err _ => opened k' ≡ₚ opened k0
  | Ok m => wired m /\ length (handles m) = 5%nat /\ opened k' ≡ₚ handles m ++ opened k0
  end.
Proof. intros Hop He. destruct (close_list hs k _ Hop) as [-> Ho]. by rewrite He. Qed.

Lemma Close_fold m k : Close m k = fold_left Map_Close (handles m) k.
Proof. unfold Close, handles. destruct m as [[] [] [] [] []]; done. Qed.

Lemma Close_open m k l :
  opened k ≡ₚ handles m ++ l -> entries (Close m k) = entries k /\ opened (Close m k) ≡ₚ l.
Proof. rewrite Close_fold. apply close_list. Qed.

(** The kernel and the handles after loading. *)
Lemma LoadPinnedMaps_open k :
  let '(k', r) := LoadPinnedMaps k in
  entries k' = entries k /\
  match r with
  | Err _ => opened k' ≡ₚ opened k
  | Ok m => wired m /\ length (handles m) = 5%nat /\ opened k' ≡ₚ handles m ++ opened k
  end.
Proof.
  unfold LoadPinnedMaps.
  pose proof (load_step k (filepath_Join BpfFsPath "reputation_map")) as S1.
  destruct (LoadPinnedMap k _) as [k1 [h1|e1]]; [|by destruct S1 as (-> & ->)]. destruct S1 as (E1 & O1 & P1).
  pose proof (load_step k1 (filepath_Join BpfFsPath "port_gate_map")) as S2.
  destruct (LoadPinnedMap k1 _) as [k2 [h2|e2]]; [destruct S2 as (E2 & O2 & P2)|destruct S2 as [E2 P2]].
  2: { apply (close_failed [h1] _ _ e2); [by rewrite P2, P1|by rewrite E2, E1]. }
  pose proof (load_step k2 (filepath_Join BpfFsPath "rate_limit_map")) as S3.
  destruct (LoadPinnedMap k2 _) as [k3 [h3|e3]]; [destruct S3 as (E3 & O3 & P3)|destruct S3 as [E3 P3]].
  2: { apply (close_failed [h1; h2] _ _ e3); [rewrite P3, P2, P1; solve_Permutation|by rewrite E3, E2, E1]. }
  pose proof (load_step k3 (filepath_Join BpfFsPath "config_map")) as S4.
  destruct (LoadPinnedMap k3 _) as [k4 [h4|e4]]; [destruct S4 as (E4 & O4 & P4)|destruct S4 as [E4 P4]].
  2: { apply (close_failed [h1; h2; h3] _ _ e4); [rewrite P4, P3, P2, P1; solve_Permutation|by rewrite E4, E3, E2, E1]. }
  pose proof (load_step k4 (filepath_Join BpfFsPath "events")) as S5.
  destruct (LoadPinnedMap k4 _) as [k5 [h5|e5]]; [destruct S5 as (E5 & O5 & P5)|destruct S5 as [E5 P5]].
  2: { apply (close_failed [h1; h2; h3; h4] _ _ e5); [rewrite P5, P4, P3, P2, P1; solve_Permutation|by rewrite E5, E4, E3, E2, E1]. }
  assert (Hop : opened k5 ≡ₚ [h1; h2; h3; h4; h5] ++ opened k) by (rewrite P5, P4, P3, P2, P1; solve_Permutation).
  split; [by rewrite E5, E4, E3, E2, E1|]. split; [split; eauto|]. split; [done|]. exact Hop.
Qed.

(** C27: loading the pinned maps leaks no handle. When any of the five maps
    cannot be opened, every handle opened before it is closed again; when all
    are, the manager holds the five pinned objects, and closing it closes
    exactly them. The maps' contents are not touched. *)
Theorem load_pinned_maps_handles (k : kernel) :
  let '(k', r) := LoadPinnedMaps k in
  entries k' = entries k /\
  match r with
  | Err _ => opened k' ≡ₚ opened k
  | Ok m => wired m /\ length (handles m) = 5%nat /\ opened k' ≡ₚ handles m ++ opened k /\
            opened (Close m k') ≡ₚ opened k /\ entries (Close m k') = entries k
  end.
Proof.
  pose proof (LoadPinnedMaps_open k) as Hload. destruct (LoadPinnedMaps k) as [k' [m|e]]; [|done].
  destruct Hload as (He & Hw & Hn & Hop). destruct (Close_open m k' (opened k) Hop) as [He' Ho'].
  split; [done|]. split_and!; [done..|by rewrite He'].
Qed.

(** A store through a handle: the new contents of the handle's object, and
    nothing else. *)
Lemma put_object h o k key v w :
  (exists m, h = Some m /\ object m = o) ->
  exists k' e, put h k key v w = Some (k', e) /\
    match e with
    | None => length key = key_size o /\ length v = value_size o /\
              forall o', entries k' o' = if decide (o' = o) then <[canon o key := v]> (entries k o') else entries k o'
    | Some _ => entries k' = entries k
    end.
Proof.
  intros (m & -> & <-). unfold put. simpl. pose proof (put_law k m key v) as Hp.
  destruct (Map_Put k m key v) as [k' [e|]]; eexists _, _; (split; [reflexivity|]); simpl; [done|].
  destruct Hp as (Hk & Hv & He). split_and!; [done..|]. intros o'. rewrite He. case_decide; by subst.
Qed.

(** No store, lookup or deletion opens or closes a handle. *)
Lemma put_keeps_open h k key v w k' e : put h k key v w = Some (k', e) -> opened k' = opened k.
Proof.
  unfold put. destruct h as [m|]; simpl; [|done]. pose proof (put_opened k m key v) as Ho.
  destruct (Map_Put k m key v). by intros [= <- <-].
Qed.

Lemma SetLogLevel_open m level k k' e : SetLogLevel m level k = Some (k', e) -> opened k' = opened k.
Proof. apply put_keeps_open. Qed.

Lemma BlockIP_open m cidr k k' e : BlockIP m cidr k = Some (k', e) -> opened k' = opened k.
Proof. unfold BlockIP. destruct (NewLpmKey cidr); [apply put_keeps_open|by intros [= <- <-]]. Qed.

Definition the_key (ip : list Z) : list Z := le_split 4 32 ++ ip.

(** What the kernel program matches a source address against, for entries of
    full length. *)
Definition blocked_entry (k : kernel) (ip : list Z) : option (list Z) :=
  entries k (pinned "reputation_map") !! the_key ip.

Lemma canon_the_key o ip : length ip = 4%nat -> canon o (lpm_bytes (mkLpmKey 32 ip)) = the_key ip.
Proof. apply canon_full. Qed.

Lemma BlockIP_entry m k cidr ip :
  wired m -> NewLpmKey cidr = Ok (mkLpmKey 32 ip) -> length ip = 4%nat ->
  exists k' e, BlockIP m cidr k = Some (k', e) /\
    match e with
    | None => forall o, entries k' o = if decide (o = pinned "reputation_map")
                                       then <[the_key ip := [1; 0; 0; 0]]> (entries k o) else entries k o
    | Some _ => entries k' = entries k
    end.
Proof.
  intros Hw Hkey Hl. unfold BlockIP. rewrite Hkey.
  destruct (put_object (reputationMap m) (pinned "reputation_map") k (lpm_bytes (mkLpmKey 32 ip)) (le_split 4 1)
    (ErrorfW "failed to insert IP into BPF LPM_TRIE: %w" [])) as (k' & e & -> & He); [apply Hw|].
  exists k', e. split; [done|]. destruct e; [done|]. destruct He as (_ & _ & He). intros o. rewrite He.
  case_decide; [|done]. by rewrite canon_the_key.
Qed.

Lemma UnblockIP_entry m k cidr ip :
  wired m -> NewLpmKey cidr = Ok (mkLpmKey 32 ip) -> length ip = 4%nat ->
  exists k' e, UnblockIP m cidr k = Some (k', e) /\
    match e with
    | None => forall o, entries k' o = if decide (o = pinned "reputation_map")
                                       then delete (the_key ip) (entries k o) else entries k o
    | Some _ => entries k' = entries k
    end.
Proof.
  intros Hw Hkey Hl. unfold UnblockIP. rewrite Hkey. destruct (w_reputation m Hw) as (h & -> & Ho). simpl.
  pose proof (delete_law k h (lpm_bytes (mkLpmKey 32 ip))) as Hd. rewrite Ho in Hd.
  destruct (Map_Delete k h _) as [k' [e|]]; eexists _, _; (split; [reflexivity|]).
  - destruct Hd as [He Hne]. destruct (errors_Is e ErrKeyNotExist); [|done]. intros o. rewrite He.
    case_decide; [|done]. subst o. symmetry. apply delete_id.
    rewrite <- (canon_the_key (pinned "reputation_map")) by done. by apply Hne.
  - destruct Hd as [_ He]. intros o. rewrite He. case_decide; [|done]. by rewrite canon_the_key.
Qed.

(** Blocking and unblocking an address. [BlockIP] of a dotted quad with /32
    either fails and changes nothing, or stores the value 1 under exactly that
    address with prefix 32; [UnblockIP] either fails and changes nothing, or
    leaves no entry for it, which is also its answer when there was none; no
    other map and no other entry is touched, so that unblocking an address that
    was not blocked before restores the kernel's state. *)
Theorem block_unblock_ip (m : MapManager) (k : kernel) (a b c d : Z) :
  wired m -> is_bytes [a; b; c; d] ->
  let cidr := dotted [a; b; c; d] +:+ "/32" in
  exists k1 e1, BlockIP m cidr k = Some (k1, e1) /\
    (e1 = None -> blocked_entry k1 [a; b; c; d] = Some [1; 0; 0; 0] /\
                  (forall ip, ip <> [a; b; c; d] -> blocked_entry k1 ip = blocked_entry k ip)) /\
    (e1 <> None -> entries k1 = entries k) /\
    exists k2 e2, UnblockIP m cidr k1 = Some (k2, e2) /\
      (e2 <> None -> entries k2 = entries k1) /\
      (e2 = None -> blocked_entry k2 [a; b; c; d] = None /\
        (blocked_entry k [a; b; c; d] = None -> forall o, entries k2 o = entries k o)).
Proof.
  intros Hw Hb. cbv zeta. pose proof (NewLpmKey_dotted32 a b c d Hb) as Hkey.
  destruct (BlockIP_entry m k _ _ Hw Hkey eq_refl) as (k1 & e1 & E1 & H1).
  destruct (UnblockIP_entry m k1 _ _ Hw Hkey eq_refl) as (k2 & e2 & E2 & H2).
  exists k1, e1. split; [exact E1|]. split; [|split; [by intros; destruct e1|]].
  - intros ->. unfold blocked_entry. rewrite !H1, decide_True by done. split; [apply lookup_insert_eq|].
    intros ip Hne. rewrite lookup_insert_ne; [done|]. unfold the_key. by intros ?%app_inv_head.
  - exists k2, e2. split; [exact E2|]. split; [by intros; destruct e2|]. intros ->. unfold blocked_entry.
    rewrite H2, decide_True by done. split; [apply lookup_delete_eq|].
    intros Hnone o. rewrite H2. destruct e1 as [e|]; [rewrite H1|rewrite (H1 o)]; case_decide as Ho; subst; try done.
    + by apply delete_id.
    + rewrite delete_insert_eq. by apply delete_id.
Qed.

(** The kernel program's maps: keys and values of the sizes it declares. *)
Record kernel_maps : Prop := {
  km_reputation : key_size (pinned "reputation_map") = 8%nat /\ value_size (pinned "reputation_map") = 4%nat;
  km_port : key_size (pinned "port_gate_map") = 4%nat /\ value_size (pinned "port_gate_map") = 1%nat;
  km_config : key_size (pinned "config_map") = 4%nat /\ value_size (pinned "config_map") = 4%nat
}.

(** [SetPortStatus] never works. It stores a two-byte key into a map with
    four-byte keys, so that every call fails and leaves the port gate as it
    was, while [BlockPort] and [UnblockPort] store 2 and 0 under the port's
    four-byte key. *)
Lemma SetPortStatus_always_fails (m : MapManager) (k : kernel) (port : Z) (allow : bool) :
  wired m -> kernel_maps -> in_u 16 port ->
  (exists k' e, SetPortStatus m port allow k = Some (k', Some e) /\ entries k' = entries k) /\
  (exists k' e, BlockPort m port k = Some (k', e) /\
     (e = None -> entries k' (pinned "port_gate_map") = <[le_split 4 port := [2]]> (entries k (pinned "port_gate_map")))) /\
  (exists k' e, UnblockPort m port k = Some (k', e) /\
     (e = None -> entries k' (pinned "port_gate_map") = <[le_split 4 port := [0]]> (entries k (pinned "port_gate_map")))).
Proof.
  intros Hw [_ [Hks Hvs] _] Hport.
  assert (Hput : forall key v w, exists k' e, put (portGateMap m) k key v w = Some (k', e) /\
    match e with
    | None => length key = 4%nat /\ length v = 1%nat /\
        entries k' (pinned "port_gate_map") = <[canon (pinned "port_gate_map") key := v]> (entries k (pinned "port_gate_map"))
    | Some _ => entries k' = entries k
    end).
  { intros key v w. destruct (put_object (portGateMap m) (pinned "port_gate_map") k key v w) as (k' & e & E & He);
      [apply Hw|]. exists k', e. split; [done|]. destruct e; [done|]. rewrite Hks, Hvs in He.
    destruct He as (? & ? & He). by rewrite He, decide_True by done. }
  split_and!.
  - destruct (Hput (le_split 2 port) (le_split 1 (if allow then 1 else 0))
      (ErrorfW "failed to update port %d status: %w" [ArgD port])) as (k' & [e|] & E & He); [by exists k', e|].
    destruct He as [He _]. rewrite length_le_split in He. done.
  - destruct (Hput (le_split 4 port) (le_split 1 2)
      (ErrorfW "failed to block port %d: %w" [ArgD port])) as (k' & e & E & He); exists k', e; (split; [exact E|]).
    intros ->. destruct He as (_ & _ & ->). by rewrite canon_word.
  - destruct (Hput (le_split 4 port) (le_split 1 0)
      (ErrorfW "failed to unblock port %d: %w" [ArgD port])) as (k' & e & E & He); exists k', e; (split; [exact E|]).
    intros ->. destruct He as (_ & _ & ->). by rewrite canon_word.
Qed.

Lemma lookup_u32_value h o k n v x :
  (exists m, h = Some m /\ object m = o) -> o <> pinned "reputation_map" -> entries k o !! le_split 4 n = Some v ->
  lookup_u32 h k (le_split 4 n) = Some (Ok x) -> le_combine v = x.
Proof.
  intros (m & -> & <-) Ho Hv. unfold lookup_u32. simpl. pose proof (lookup_law k m (le_split 4 n) Ho) as Hl.
  destruct (Map_Lookup k m _) as [v'|e]; [|done]. rewrite canon_word in Hl. destruct Hl as [Hl _].
  rewrite Hv in Hl. injection Hl as <-. case_match; [by intros [= <-]|done].
Qed.

Lemma lookup_u32_exists h o k n e :
  (exists m, h = Some m /\ object m = o) -> o <> pinned "reputation_map" -> is_Some (entries k o !! le_split 4 n) ->
  lookup_u32 h k (le_split 4 n) = Some (Err e) -> errors_Is e ErrKeyNotExist = false.
Proof.
  intros (m & -> & <-) Ho [v Hv]. unfold lookup_u32. simpl. pose proof (lookup_law k m (le_split 4 n) Ho) as Hl.
  destruct (Map_Lookup k m _) as [v'|e']; [case_match; by intros [= <-]|]. rewrite canon_word in Hl.
  intros [= ->]. destruct (errors_Is e ErrKeyNotExist); [|done]. rewrite Hl in Hv by done. done.
Qed.

(** The write of one byte under a port's key. *)
Lemma put_port m k port v w :
  wired m ->
  exists k' e, put (portGateMap m) k (le_split 4 port) (le_split 1 v) w = Some (k', e) /\ opened k' = opened k /\
    match e with
    | None => forall o, entries k' o = if decide (o = pinned "port_gate_map")
                                       then <[le_split 4 port := le_split 1 v]> (entries k o) else entries k o
    | Some _ => entries k' = entries k
    end.
Proof.
  intros Hw. destruct (put_object (portGateMap m) (pinned "port_gate_map") k (le_split 4 port) (le_split 1 v) w)
    as (k' & e & E & He); [apply Hw|].
  exists k', e. split; [done|]. split; [by eapply put_keeps_open|]. destruct e; [done|].
  destruct He as (_ & _ & He). intros o. rewrite He. case_decide; [|done]. by rewrite canon_word.
Qed.

(** A write of the log-level register: it holds the level, or nothing changed. *)
Lemma SetLogLevel_register m level k :
  wired m ->
  exists k' e, SetLogLevel m level k = Some (k', e) /\
    match e with
    | None => entries k' (pinned "config_map") !! le_split 4 0 = Some (le_split 4 level)
    | Some _ => entries k' = entries k
    end.
Proof.
  intros Hw. unfold SetLogLevel.
  destruct (put_object (configMap m) (pinned "config_map") k (le_split 4 0) (le_split 4 level)
    (ErrorfW "failed to update config_map log level to %s (%d): %w" [ArgS (LogSeverity_String level); ArgD level]))
    as (k' & e & E & He); [apply Hw|]. exists k', e. split; [exact E|]. destruct e; [done|].
  destruct He as (_ & _ & He). by rewrite He, decide_True, canon_word, lookup_insert_eq by done.
Qed.

(** It touches nothing else. *)
Lemma SetLogLevel_frame m level k k' e :
  wired m -> SetLogLevel m level k = Some (k', e) ->
  (forall o, o <> pinned "config_map" -> entries k' o = entries k o) /\
  entries k' (pinned "config_map") !! le_split 4 1 = entries k (pinned "config_map") !! le_split 4 1.
Proof.
  intros Hw. unfold SetLogLevel.
  destruct (put_object (configMap m) (pinned "config_map") k (le_split 4 0) (le_split 4 level)
    (ErrorfW "failed to update config_map log level to %s (%d): %w" [ArgS (LogSeverity_String level); ArgD level]))
    as (k1 & e1 & E & He); [apply Hw|]. rewrite E. intros [= <- <-]. destruct e1; [by rewrite He|].
  destruct He as (_ & _ & He). split; [intros o Ho; by rewrite He, decide_False|].
  by rewrite He, decide_True, canon_word, lookup_insert_ne by done.
Qed.

(** C28: the two registers of the config map are what was last written. After
    [SetLogLevel] succeeds, [GetLogLevel] gives that level unless it fails; after
    [SetDryRun] succeeds, [GetDryRun] gives that mode unless it fails; neither
    write disturbs the other register, and a failed write changes nothing. *)
Theorem config_registers (m : MapManager) (k : kernel) (level : Z) (dry : bool) :
  wired m -> in_u 8 level ->
  let cfg := pinned "config_map" in
  (exists k' e, SetLogLevel m level k = Some (k', e) /\
    (e <> None -> entries k' = entries k) /\
    (e = None -> (forall l, GetLogLevel m k' = Some (l, None) -> l = level) /\
                 entries k' cfg !! le_split 4 1 = entries k cfg !! le_split 4 1)) /\
  (exists k' e, SetDryRun m dry k = Some (k', e) /\
    (e <> None -> entries k' = entries k) /\
    (e = None -> (forall d, GetDryRun m k' = Some (d, None) -> d = dry) /\
                 entries k' cfg !! le_split 4 0 = entries k cfg !! le_split 4 0)).
Proof.
  intros Hw Hlevel. cbv zeta. split.
  - destruct (put_object (configMap m) (pinned "config_map") k (le_split 4 0) (le_split 4 level)
      (ErrorfW "failed to update config_map log level to %s (%d): %w" [ArgS (LogSeverity_String level); ArgD level]))
      as (k' & e & E & He); [apply Hw|].
    exists k', e. split; [exact E|]. split; [by intros; destruct e|]. intros ->. destruct He as (_ & _ & He).
    rewrite He, decide_True, canon_word by done. split; [|by rewrite lookup_insert_ne by done].
    intros l. unfold GetLogLevel. destruct (lookup_u32 (configMap m) k' (le_split 4 0)) as [[x|x]|] eqn:El; simpl; try done.
    intros [= <-]. apply (lookup_u32_value _ (pinned "config_map") _ _ (le_split 4 level)) in El;
      [|apply Hw|discriminate|by rewrite He, decide_True, canon_word, lookup_insert_eq by done].
    rewrite le_combine_split in El. subst x. unfold in_u in Hlevel. unfold wrap.
    rewrite !Z.mod_small; [done|lia|]. change (8 * Z.of_nat 4) with 32. rewrite Z.mod_small; lia.
  - destruct (put_object (configMap m) (pinned "config_map") k (le_split 4 1) (le_split 4 (if dry then 1 else 0))
      (ErrorfW "failed to update config_map dry-run flag: %w" [])) as (k' & e & E & He); [apply Hw|].
    exists k', e. split; [exact E|]. split; [by intros; destruct e|]. intros ->. destruct He as (_ & _ & He).
    rewrite He, decide_True, canon_word by done. split; [|by rewrite lookup_insert_ne by done].
    intros d. unfold GetDryRun. destruct (lookup_u32 (configMap m) k' (le_split 4 1)) as [[x|x]|] eqn:El; simpl; try done.
    + intros [= <-]. apply (lookup_u32_value _ (pinned "config_map") _ _ (le_split 4 (if dry then 1 else 0))) in El;
        [|apply Hw|discriminate|by rewrite He, decide_True, canon_word, lookup_insert_eq by done].
      subst x. by destruct dry.
    + apply (lookup_u32_exists _ (pinned "config_map")) in El; [|apply Hw|discriminate|].
      * by rewrite El.
      * rewrite He, decide_True, canon_word, lookup_insert_eq by done. by eexists.
Qed.
End laws.

(** ** Examples, on the simulated kernel *)

Definition sim_manager : @MapManager sim_ebpf :=
  @mkMgr sim_ebpf (Some (pinned "reputation_map", 0%nat)) (Some (pinned "port_gate_map", 1%nat))
    (Some (pinned "rate_limit_map", 2%nat)) (Some (pinned "config_map", 3%nat)) (Some (pinned "events", 4%nat)).

Lemma sim_wired : @wired sim_ebpf sim_laws sim_manager.
Proof. split; eexists; split; reflexivity. Qed.

Lemma sim_kernel_maps : @kernel_maps sim_ebpf sim_laws.
Proof. split; split; reflexivity. Qed.

Lemma load_pinned_maps_handles_witness :
  let '(k', r) := @LoadPinnedMaps sim_ebpf (sim_start [false; false; true]) in
  is_Ok r = false /\ sim_open k' ≡ₚ [].
Proof.
  pose proof (@load_pinned_maps_handles sim_ebpf sim_laws (sim_start [false; false; true])) as H.
  destruct (@LoadPinnedMaps sim_ebpf (sim_start [false; false; true])) as [k' r] eqn:E.
  destruct H as [_ H]. destruct r as [m|e]; [vm_compute in E; discriminate|]. split; [reflexivity|exact H].
Defined.

Lemma block_unblock_ip_witness :
  exists k1, @BlockIP sim_ebpf sim_manager "10.0.0.1/32" (sim_start []) = Some (k1, None) /\
    @blocked_entry sim_ebpf sim_laws k1 [10; 0; 0; 1] = Some [1; 0; 0; 0].
Proof.
  destruct (@block_unblock_ip sim_ebpf sim_laws sim_manager (sim_start []) 10 0 0 1) as (k1 & e1 & E1 & H1 & _).
  - exact sim_wired.
  - repeat constructor; discriminate.
  - exists k1. change (dotted [10; 0; 0; 1] +:+ "/32") with "10.0.0.1/32" in E1.
    assert (e1 = None) as -> by (vm_compute in E1; congruence). split; [exact E1|]. apply H1. reflexivity.
Defined.

Lemma SetPortStatus_always_fails_witness :
  exists k' e, @SetPortStatus sim_ebpf sim_manager 80 true (sim_start []) = Some (k', Some e).
Proof.
  destruct (@SetPortStatus_always_fails sim_ebpf sim_laws sim_manager (sim_start []) 80 true sim_wired sim_kernel_maps)
    as [(k' & e & E & _) _]; [split; [discriminate|reflexivity]|]. exists k', e. exact E.
Defined.

Lemma config_registers_witness :
  exists k', @SetLogLevel sim_ebpf sim_manager LogLevelWarn (sim_start []) = Some (k', None) /\
    forall l, @GetLogLevel sim_ebpf sim_manager k' = Some (l, None) -> l = LogLevelWarn.
Proof.
  destruct (@config_registers sim_ebpf sim_laws sim_manager (sim_start []) LogLevelWarn true sim_wired)
    as [(k' & e & E & _ & He) _]; [split; [discriminate|reflexivity]|].
  assert (e = None) as -> by (vm_compute in E; congruence). exists k'. split; [exact E|]. apply He. reflexivity.
Defined.
