(* ===== verification/Feedback.v ===== *)
(** * The feedback controller ([pkg/engine/feedback.go])

    From an alert to a kernel block and back: the registry of safe networks,
    the deduplicated blocking of alerts, and the janitor that reverses expired
    blocks. Times are in nanoseconds. *)

From Stdlib Require Import Ascii.
From S2P Require Import Prelude GoStrings GoNet Contracts Float64 EbpfMap MapManager.

Definition BlockTTL : Z := 300 * 1000000000.
Definition janitorInterval : Z := 30 * 1000000000.

Record ThreatAlert := mkAlert {
  al_SrcIP : string;
  al_Attack : string;
  al_Probability : float64;
  DetectedAt : Z
}.

(** ** Safe networks *)

(** [None] is the panic on a malformed constant. *)
Fixpoint mustParseCIDRs (cidrs : list string) : option (list IPNet) :=
  match cidrs with
  | [] => Some []
  | c :: cs =>
      match ParseCIDR c with
      | None => None
      | Some (_, ipNet) => nets ← mustParseCIDRs cs; Some (ipNet :: nets)
      end
  end.

Definition static_cidrs : list string := ["127.0.0.0/8"; "255.255.255.255/32"; "224.0.0.0/4"].
Definition dns_cidrs : list string := ["8.8.8.8/32"; "8.8.4.4/32"; "1.1.1.1/32"; "1.0.0.1/32"].

Definition staticSafeNetworks : list IPNet := default [] (mustParseCIDRs static_cidrs).
Definition wellKnownPublicDNS : list IPNet := default [] (mustParseCIDRs dns_cidrs).

(** What the host answers: netlink's routes, links and addresses, and the
    contents of [/etc/resolv.conf]. *)
Record Route := mkRoute { Dst : option IPNet; Gw : IP }.
Record Link := mkLink { link_addrs : result (list (option IPNet)) }.
Record Host := mkHost {
  RouteList : result (list Route);
  LinkList : result (list Link);
  resolv_conf : option string
}.

Definition hostCIDR (ip : IP) : IPNet :=
  let ip4 := To4 ip in
  if bool_decide (ip4 = []) then mkIPNet ip (CIDRMask 128 128) else mkIPNet ip4 (CIDRMask 32 32).

Fixpoint first_default (routes : list Route) : option IP :=
  match routes with
  | [] => None
  | r :: rs => if bool_decide (Dst r = None) && negb (bool_decide (Gw r = [])) then Some (Gw r) else first_default rs
  end.

Definition discoverDefaultGateway (h : Host) : result IP :=
  match RouteList h with
  | Err err => Err (ErrorfW "netlink route list failed: %w" [] err)
  | Ok routes =>
      match first_default routes with
      | Some gw => Ok gw
      | None => Err (Errorf "no default route found" [])
      end
  end.

(** The subnets of one interface's addresses. *)
Fixpoint addr_subnets (addrs : list (option IPNet)) : list IPNet :=
  match addrs with
  | [] => []
  | None :: addrs' => addr_subnets addrs'
  | Some n :: addrs' => if IsLoopback (ipn_IP n) then addr_subnets addrs' else n :: addr_subnets addrs'
  end.

Fixpoint link_subnets (links : list Link) : list IPNet :=
  match links with
  | [] => []
  | l :: links' =>
      match link_addrs l with
      | Err _ => link_subnets links'
      | Ok addrs => addr_subnets addrs ++ link_subnets links'
      end
  end.

Definition discoverLocalSubnets (h : Host) : result (list IPNet) :=
  match LinkList h with
  | Err err => Err (ErrorfW "netlink link list failed: %w" [] err)
  | Ok links => Ok (link_subnets links)
  end.

(** One line of [resolv.conf]. *)
Definition resolver_line (line : string) : list IPNet :=
  match Fields line with
  | f0 :: f1 :: _ =>
      if bool_decide (f0 = "nameserver") then
        let ip := ParseIP f1 in
        if bool_decide (ip = []) then [] else [hostCIDR ip]
      else []
  | _ => []
  end.

Definition discoverLocalResolvers (h : Host) : result (list IPNet) :=
  match resolv_conf h with
  | None => Ok []
  | Some text => Ok (concat (map resolver_line (ScanLines text)))
  end.

Definition DiscoverSafeNetworks (h : Host) : list IPNet :=
  let nets := staticSafeNetworks in
  let nets := nets ++ wellKnownPublicDNS in
  let nets := match discoverDefaultGateway h with
              | Ok gw => if bool_decide (gw = []) then nets else nets ++ [hostCIDR gw]
              | Err _ => nets
              end in
  let nets := match discoverLocalSubnets h with Ok subnets => nets ++ subnets | Err _ => nets end in
  match discoverLocalResolvers h with Ok resolvers => nets ++ resolvers | Err _ => nets end.

(** ** The controller *)

Section controller.
Context `{Ebpf}.

Record FeedbackController := mkFC {
  fc_mgr : MapManager;
  safeNetworks : list IPNet;
  blocked : gmap string Z     (* source address -> expiresAt *)
}.

Definition RefreshSafeNetworks (fc : FeedbackController) (h : Host) : FeedbackController :=
  mkFC (fc_mgr fc) (DiscoverSafeNetworks h) (blocked fc).

Definition NewFeedbackController (mgr : MapManager) (h : Host) : FeedbackController :=
  RefreshSafeNetworks (mkFC mgr [] ∅) h.

Fixpoint first_containing (nets : list IPNet) (ip : IP) : option IPNet :=
  match nets with
  | [] => None
  | n :: nets' => if Contains n ip then Some n else first_containing nets' ip
  end.

Definition isSafeNetwork (fc : FeedbackController) (ip : IP) : option IPNet := first_containing (safeNetworks fc) ip.

Definition set_blocked (fc : FeedbackController) (b : gmap string Z) : FeedbackController :=
  mkFC (fc_mgr fc) (safeNetworks fc) b.

(** What a step reports: the hook it calls or the line it prints. *)
Inductive report :=
  | Discarded (src : string)
  | OnExempt (alert : ThreatAlert) (net : IPNet)
  | Skipped (src : string)
  | BlockFailed (alert : ThreatAlert) (err : error)
  | OnBlock (alert : ThreatAlert)
  | UnblockFailed (src : string) (err : error)
  | OnUnblock (src : string).

Definition handle (fc : FeedbackController) (k : kernel) (alert : ThreatAlert) (now : Z)
    : option (FeedbackController * kernel * report) :=
  let src := al_SrcIP alert in
  let ip := ParseIP src in
  if bool_decide (ip = []) then Some (fc, k, Discarded src)
  else match isSafeNetwork fc ip with
  | Some sn => Some (fc, k, OnExempt alert sn)
  | None =>
      let live := match blocked fc !! src with Some expiresAt => now <? expiresAt | None => false end in
      if live then Some (fc, k, Skipped src)
      else
        let fc := set_blocked fc (<[src := now + BlockTTL]> (blocked fc)) in
        let cidr := src +:+ "/32" in
        '(k, err) ← BlockIP (fc_mgr fc) cidr k;
        match err with
        | Some err => Some (set_blocked fc (delete src (blocked fc)), k, BlockFailed alert err)
        | None => Some (fc, k, OnBlock alert)
        end
  end.

Context `{MapRange}.

Definition expired_at (now : Z) (b : gmap string Z) : list string :=
  omap (fun '(ip, expiresAt) => if expiresAt <? now then Some ip else None) (range_map b).

Fixpoint janitor_loop (fc : FeedbackController) (k : kernel) (expired : list string)
    : option (FeedbackController * kernel * list report) :=
  match expired with
  | [] => Some (fc, k, [])
  | ip :: expired' =>
      '(k, err) ← UnblockIP (fc_mgr fc) (ip +:+ "/32") k;
      match err with
      | Some err =>
          '(fc, k, out) ← janitor_loop fc k expired';
          Some (fc, k, UnblockFailed ip err :: out)
      | None =>
          '(fc, k, out) ← janitor_loop (set_blocked fc (delete ip (blocked fc))) k expired';
          Some (fc, k, OnUnblock ip :: out)
      end
  end.

Definition runJanitor (fc : FeedbackController) (k : kernel) (now : Z)
    : option (FeedbackController * kernel * list report) :=
  janitor_loop fc k (expired_at now (blocked fc)).

(** What the select of [Run] receives, with the time of the receipt. *)
Inductive fc_event :=
  | FcDone
  | FcTick (now : Z)
  | FcAlert (alert : ThreatAlert) (now : Z)
  | FcClosed.

Fixpoint fc_Run (fc : FeedbackController) (k : kernel) (evs : list fc_event)
    : option (FeedbackController * kernel * list report) :=
  match evs with
  | [] => Some (fc, k, [])
  | FcDone :: _ | FcClosed :: _ => Some (fc, k, [])
  | FcTick now :: evs' =>
      '(fc, k, out) ← runJanitor fc k now;
      '(fc, k, out') ← fc_Run fc k evs';
      Some (fc, k, out ++ out')
  | FcAlert alert now :: evs' =>
      '(fc, k, r) ← handle fc k alert now;
      '(fc, k, out') ← fc_Run fc k evs';
      Some (fc, k, r :: out')
  end.

End controller.

(** ** The key of an alert *)

(** The address an alert names, in four bytes. *)
Definition alert_addr (src : string) : list Z := To4 (ParseIP src).

(** The text an alert's address is blocked under, for an address that contains
    no slash. *)
Lemma NewLpmKey_host src :
  has_byte "/"%char src = false -> ParseIP src <> [] ->
  NewLpmKey (src +:+ "/32") =
  if bool_decide (alert_addr src = []) then Err (Errorf "only IPv4 is supported in Phase 2" [])
  else Ok (mkLpmKey 32 (alert_addr src)).
Proof.
  intros Hs Hip. unfold alert_addr, ParseIP in *. destruct (ParseAddr src) as [ad|] eqn:Ead; [|done].
  case_bool_decide as Hz; [|done]. unfold NewLpmKey, ParseCIDR.
  change (src +:+ "/32") with (src +:+ String "/"%char "32"). rewrite (split_at_app "/"%char src "32") by done.
  rewrite Ead. rewrite bool_decide_false by (rewrite Hz; tauto).
  change (dtoi "32") with (32, 2%nat, true). cbv beta iota.
  assert (Hb : (BitLen ad <? 32) = false) by (destruct ad; reflexivity).
  rewrite Hb. destruct ad; reflexivity.
Qed.

Lemma alert_addr_length src : alert_addr src <> [] -> length (alert_addr src) = 4%nat /\ is_bytes (alert_addr src).
Proof.
  unfold alert_addr. intros Hne. destruct (ParseIP_wf src) as [E|[Hb _]]; [by rewrite E in Hne|].
  destruct (To4_wf _ Hb) as [?|[? ?]]; [done|by split].
Qed.

(** Membership depends on the four bytes of an IPv4 address only. *)
Lemma Contains_To4 n ip ip' : To4 ip = To4 ip' -> To4 ip <> [] -> Contains n ip = Contains n ip'.
Proof. intros E Hne. unfold Contains. rewrite <- E. by rewrite bool_decide_false. Qed.

Lemma first_containing_None nets ip n : n ∈ nets -> Contains n ip = true -> first_containing nets ip <> None.
Proof.
  induction nets as [|m nets IH]; intros Hin Hc; [by apply elem_of_nil in Hin|]. simpl.
  apply elem_of_cons in Hin as [->|Hin]; [by rewrite Hc|]. destruct (Contains m ip); [done|by apply IH].
Qed.
Lemma first_containing_Some nets ip n : first_containing nets ip = Some n -> n ∈ nets /\ Contains n ip = true.
Proof.
  induction nets as [|m nets IH]; simpl; [done|]. destruct (Contains m ip) eqn:E.
  - intros [= <-]. split; [apply list_elem_of_here|done].
  - intros Hn. destruct (IH Hn). split; [by apply list_elem_of_further|done].
Qed.

Section laws.
Context `{EbpfLaws, MapRange}.

(** The record of an address is live: it has not expired yet. *)
Definition live (fc : FeedbackController) (src : string) (now : Z) : Prop :=
  exists t, blocked fc !! src = Some t /\ now < t.

(** The kernel's contents with one more address blocked. *)
Definition added (k k' : kernel) (ip : list Z) : Prop :=
  forall o, entries k' o = if decide (o = pinned "reputation_map")
                           then <[the_key ip := [1; 0; 0; 0]]> (entries k o) else entries k o.
Definition removed (k k' : kernel) (ip : list Z) : Prop :=
  forall o, entries k' o = if decide (o = pinned "reputation_map")
                           then delete (the_key ip) (entries k o) else entries k o.

(** The five outcomes of [handle], with the condition and the effect of each. *)
Definition handled (fc : FeedbackController) (k : kernel) (alert : ThreatAlert) (now : Z)
    (fc' : FeedbackController) (k' : kernel) (r : report) : Prop :=
  let src := al_SrcIP alert in
  match r with
  | Discarded s => s = src /\ ParseIP src = [] /\ fc' = fc /\ k' = k
  | OnExempt al sn => al = alert /\ isSafeNetwork fc (ParseIP src) = Some sn /\ fc' = fc /\ k' = k
  | Skipped s => s = src /\ isSafeNetwork fc (ParseIP src) = None /\ live fc src now /\ fc' = fc /\ k' = k
  | BlockFailed al _ => al = alert /\ isSafeNetwork fc (ParseIP src) = None /\ ~ live fc src now /\
      fc' = set_blocked fc (delete src (blocked fc)) /\ entries k' = entries k
  | OnBlock al => al = alert /\ isSafeNetwork fc (ParseIP src) = None /\ ~ live fc src now /\
      alert_addr src <> [] /\ fc' = set_blocked fc (<[src := now + BlockTTL]> (blocked fc)) /\
      added k k' (alert_addr src)
  | _ => False
  end.

Lemma handle_handled fc k alert now :
  wired (fc_mgr fc) -> has_byte "/"%char (al_SrcIP alert) = false ->
  exists fc' k' r, handle fc k alert now = Some (fc', k', r) /\ handled fc k alert now fc' k' r.
Proof.
  intros Hw Hs. unfold handle. set (src := al_SrcIP alert) in *. case_bool_decide as Hip; [by eexists _, _, _|].
  destruct (isSafeNetwork fc (ParseIP src)) as [sn|] eqn:Esafe; [by eexists _, _, _|].
  assert (Hlive : live fc src now <-> match blocked fc !! src with Some t => now <? t | None => false end = true).
  { unfold live. destruct (blocked fc !! src) as [t|]; [|split; [by intros (t & ? & _)|done]].
    rewrite Z.ltb_lt. split; [by intros (t' & [= <-] & ?)|by exists t]. }
  destruct (match blocked fc !! src with Some t => now <? t | None => false end) eqn:El.
  { eexists _, _, _. split; [reflexivity|]. simpl. split_and!; try done. by apply Hlive. }
  assert (Hnot : ~ live fc src now) by (rewrite Hlive; done).
  pose proof (NewLpmKey_host src Hs Hip) as Hkey. case_bool_decide as Ha.
  - unfold BlockIP. rewrite Hkey. simpl. eexists _, _, _. split; [reflexivity|]. simpl. split_and!; try done.
    unfold set_blocked. simpl. by rewrite delete_insert_eq.
  - destruct (BlockIP_entry (fc_mgr fc) k _ _ Hw Hkey (proj1 (alert_addr_length _ Ha))) as (k' & e & E & He).
    cbn [fc_mgr set_blocked]. rewrite E. simpl. destruct e as [e|]; eexists _, _, _; (split; [reflexivity|]); simpl; split_and!; try done.
    unfold set_blocked. simpl. by rewrite delete_insert_eq.
Qed.

(** What one sweep does to the tracked addresses in [ips]. *)
Definition tracked_ok (fc : FeedbackController) : Prop :=
  forall src t, blocked fc !! src = Some t -> has_byte "/"%char src = false /\ alert_addr src <> [].

Lemma alert_addr_ParseIP src : alert_addr src <> [] -> ParseIP src <> [].
Proof. unfold alert_addr. by intros Hne E; rewrite E in Hne. Qed.

Lemma UnblockIP_src m k src :
  wired m -> has_byte "/"%char src = false -> alert_addr src <> [] ->
  exists k' e, UnblockIP m (src +:+ "/32") k = Some (k', e) /\
    match e with None => removed k k' (alert_addr src) | Some _ => entries k' = entries k end.
Proof.
  intros Hw Hs Ha. pose proof (NewLpmKey_host src Hs (alert_addr_ParseIP _ Ha)) as Hkey.
  rewrite bool_decide_false in Hkey by done.
  apply (UnblockIP_entry m k _ _ Hw Hkey), (alert_addr_length _ Ha).
Qed.

(** The addresses a list of reports says were unblocked, or not. *)
Definition unblocked_in (out : list report) (src : string) : Prop := OnUnblock src ∈ out.
Definition failed_in (out : list report) (src : string) : Prop := exists e, UnblockFailed src e ∈ out.

Lemma janitor_loop_spec ips fc k :
  wired (fc_mgr fc) -> NoDup ips ->
  Forall (fun src => has_byte "/"%char src = false /\ alert_addr src <> []) ips ->
  exists fc' k' out, janitor_loop fc k ips = Some (fc', k', out) /\
    fc_mgr fc' = fc_mgr fc /\ safeNetworks fc' = safeNetworks fc /\
    (forall src, src ∈ ips -> (unblocked_in out src /\ blocked fc' !! src = None /\ blocked_entry k' (alert_addr src) = None) \/
                              (failed_in out src /\ blocked fc' !! src = blocked fc !! src)) /\
    (forall src, src ∉ ips -> blocked fc' !! src = blocked fc !! src) /\
    (forall ip, blocked_entry k' ip = blocked_entry k ip \/
                (blocked_entry k' ip = None /\ exists src, src ∈ ips /\ unblocked_in out src /\ alert_addr src = ip)).
Proof.
  intros Hw Hnd Hok. revert fc k Hw. induction ips as [|src ips IH]; intros fc k Hw; simpl.
  { eexists _, _, _. split; [reflexivity|]. split_and!; try done; [by intros src ?%elem_of_nil|by left]. }
  apply NoDup_cons in Hnd as [Hni Hnd]. apply Forall_cons in Hok as [[Hs Ha] Hok].
  destruct (UnblockIP_src (fc_mgr fc) k src Hw Hs Ha) as (k1 & e & -> & He). simpl. destruct e as [e|].
  - destruct (IH Hnd Hok fc k1 Hw) as (fc' & k' & out & -> & Em & Es & Hin & Hout & Hent). simpl.
    eexists _, _, _. split; [reflexivity|]. split_and!; try done.
    + intros s Hsin. apply elem_of_cons in Hsin as [->|Hsin].
      * right. split; [exists e; apply list_elem_of_here|by apply Hout].
      * destruct (Hin s Hsin) as [[? ?]|[[e' ?] ?]]; [left; split; [by apply list_elem_of_further|done]|].
        right. split; [exists e'; by apply list_elem_of_further|done].
    + intros s Hsin. apply Hout. intros ?. apply Hsin. by apply list_elem_of_further.
    + intros ip. assert (Eb : blocked_entry k1 ip = blocked_entry k ip) by (unfold blocked_entry; by rewrite He).
      rewrite <- Eb. destruct (Hent ip) as [?|(? & s & ? & ? & ?)]; [by left|right].
      split; [done|]. exists s. split_and!; [by apply list_elem_of_further..|done].
  - destruct (IH Hnd Hok (set_blocked fc (delete src (blocked fc))) k1 Hw) as (fc' & k' & out & -> & Em & Es & Hin & Hout & Hent).
    simpl in *. eexists _, _, _. split; [reflexivity|].
    assert (Hgone : blocked_entry k1 (alert_addr src) = None)
      by (unfold blocked_entry; rewrite He, decide_True by done; apply lookup_delete_eq).
    split_and!; try done.
    + intros s Hsin. apply elem_of_cons in Hsin as [->|Hsin].
      * left. split_and!; [apply list_elem_of_here|by rewrite (Hout _ Hni), lookup_delete_eq|].
        destruct (Hent (alert_addr src)) as [->|[-> _]]; done.
      * assert (s <> src) by (by intros ->).
        destruct (Hin s Hsin) as [[? ?]|[[e' ?] Hb]]; [left; split; [by apply list_elem_of_further|done]|].
        right. split; [exists e'; by apply list_elem_of_further|]. by rewrite Hb, lookup_delete_ne.
    + intros s Hsin. rewrite Hout by (intros ?; apply Hsin; by apply list_elem_of_further).
      rewrite lookup_delete_ne; [done|]. intros ->. apply Hsin, list_elem_of_here.
    + intros ip. destruct (decide (ip = alert_addr src)) as [->|Hne].
      * right. split; [by destruct (Hent (alert_addr src)) as [->|[-> _]]|]. exists src.
        split_and!; [apply list_elem_of_here|apply list_elem_of_here|done].
      * assert (Eb : blocked_entry k1 ip = blocked_entry k ip).
        { unfold blocked_entry. rewrite He, decide_True by done. rewrite lookup_delete_ne; [done|].
          unfold the_key. intros E%app_inv_head. by apply Hne. }
        rewrite <- Eb. destruct (Hent ip) as [?|(? & s & ? & ? & ?)]; [by left|right].
        split; [done|]. exists s. split_and!; [by apply list_elem_of_further..|done].
Qed.

Lemma elem_expired_at now b src : src ∈ expired_at now b <-> exists t, b !! src = Some t /\ t < now.
Proof.
  unfold expired_at. rewrite list_elem_of_omap. split.
  - intros ([s t] & Hin & Hx). rewrite (range_map_perm b), elem_of_map_to_list in Hin.
    case_match eqn:E; [|done]. injection Hx as ->. exists t. split; [done|]. by apply Z.ltb_lt.
  - intros (t & Hb & Ht). exists (src, t). rewrite (range_map_perm b), elem_of_map_to_list.
    split; [done|]. by rewrite (proj2 (Z.ltb_lt _ _) Ht).
Qed.

Lemma NoDup_expired_at now b : NoDup (expired_at now b).
Proof.
  unfold expired_at. assert (Hnd : NoDup (map fst (range_map b))).
  { rewrite (Permutation_map fst (range_map_perm b)). apply NoDup_fst_map_to_list. }
  induction (range_map b) as [|[s t] l IH]; simpl; [constructor|]. simpl in Hnd.
  apply NoDup_cons in Hnd as [Hni Hnd]. destruct (t <? now); [|by apply IH]. constructor; [|by apply IH].
  rewrite list_elem_of_omap. intros ([s' t'] & Hin & Hx). case_match; [|done]. injection Hx as ->.
  apply Hni, list_elem_of_fmap. by exists (s, t').
Qed.

Lemma runJanitor_spec fc k now :
  wired (fc_mgr fc) -> tracked_ok fc ->
  exists fc' k' out, runJanitor fc k now = Some (fc', k', out) /\
    fc_mgr fc' = fc_mgr fc /\ safeNetworks fc' = safeNetworks fc /\
    (forall src t, blocked fc !! src = Some t ->
       if t <? now
       then (unblocked_in out src /\ blocked fc' !! src = None /\ blocked_entry k' (alert_addr src) = None) \/
            (failed_in out src /\ blocked fc' !! src = Some t)
       else blocked fc' !! src = Some t) /\
    (forall src, blocked fc !! src = None -> blocked fc' !! src = None) /\
    (forall ip, blocked_entry k' ip = blocked_entry k ip \/
       (blocked_entry k' ip = None /\
        exists src t, blocked fc !! src = Some t /\ t < now /\ unblocked_in out src /\ alert_addr src = ip)).
Proof.
  intros Hw Hok. unfold runJanitor.
  destruct (janitor_loop_spec (expired_at now (blocked fc)) fc k Hw (NoDup_expired_at _ _))
    as (fc' & k' & out & E & Em & Es & Hin & Hout & Hent).
  { apply Forall_forall. intros src Hsrc. apply elem_expired_at in Hsrc as (t & Hb & _). by apply (Hok src t). }
  exists fc', k', out. split_and!; try done.
  - intros src t Hb. destruct (Z.ltb_spec t now) as [Hlt|Hge].
    + rewrite <- Hb. apply Hin, elem_expired_at. by exists t.
    + rewrite Hout; [done|]. intros (t' & Hb' & Ht)%elem_expired_at. rewrite Hb in Hb'. injection Hb' as ->. lia.
  - intros src Hb. rewrite Hout; [done|]. intros (t' & Hb' & _)%elem_expired_at. congruence.
  - intros ip. destruct (Hent ip) as [?|(? & src & Hsrc & ? & ?)]; [by left|right].
    apply elem_expired_at in Hsrc as (t & ? & ?). split; [done|]. by exists src, t.
Qed.

(** ** Sequences of events *)

Definition alerts_ok (evs : list fc_event) : Prop :=
  Forall (fun ev => match ev with FcAlert al _ => has_byte "/"%char (al_SrcIP al) = false | _ => True end) evs.

Lemma handled_frame fc k alert now fc' k' r :
  handled fc k alert now fc' k' r -> fc_mgr fc' = fc_mgr fc /\ safeNetworks fc' = safeNetworks fc.
Proof. destruct r; simpl; try done; intros; destruct_and?; by subst fc'. Qed.

Lemma handled_tracked_ok fc k alert now fc' k' r :
  tracked_ok fc -> has_byte "/"%char (al_SrcIP alert) = false ->
  handled fc k alert now fc' k' r -> tracked_ok fc'.
Proof.
  intros Hok Hs Hr. destruct r; simpl in Hr; try done; destruct_and?; subst fc'; try done; intros src t; simpl.
  - intros [_ Hb]%lookup_delete_Some. by apply (Hok src t).
  - intros [[<- _]|[_ Hb]]%lookup_insert_Some; [done|by apply (Hok src t)].
Qed.

Lemma janitor_tracked_ok fc k now fc' k' out :
  wired (fc_mgr fc) -> tracked_ok fc -> runJanitor fc k now = Some (fc', k', out) ->
  fc_mgr fc' = fc_mgr fc /\ safeNetworks fc' = safeNetworks fc /\ tracked_ok fc'.
Proof.
  intros Hw Hok E. destruct (runJanitor_spec fc k now Hw Hok) as (fc1 & k1 & out1 & E1 & Em & Es & Hb & Hn & _).
  rewrite E1 in E. simplify_eq. split_and!; try done. intros src t Ht.
  destruct (blocked fc !! src) as [t'|] eqn:Eb; [by apply (Hok src t')|]. rewrite (Hn src Eb) in Ht. done.
Qed.

(** An invariant of the two kinds of step is an invariant of the loop, which
    never panics. *)
Lemma fc_Run_invariant (P : FeedbackController -> kernel -> Prop) (Q : report -> Prop) :
  (forall fc k al now fc' k' r, wired (fc_mgr fc) -> tracked_ok fc -> has_byte "/"%char (al_SrcIP al) = false ->
     P fc k -> handled fc k al now fc' k' r -> Q r -> P fc' k') ->
  (forall fc k now fc' k' out, wired (fc_mgr fc) -> tracked_ok fc -> P fc k ->
     runJanitor fc k now = Some (fc', k', out) -> P fc' k') ->
  forall evs fc k, wired (fc_mgr fc) -> tracked_ok fc -> alerts_ok evs ->
  exists fc' k' out, fc_Run fc k evs = Some (fc', k', out) /\ (P fc k -> Forall Q out -> P fc' k').
Proof.
  intros Hh Hj evs. induction evs as [|ev evs IH]; intros fc k Hw Hok Hevs; simpl; [by eexists _, _, _|].
  apply Forall_cons in Hevs as [Hev Hevs].
  destruct ev as [|now|al now|]; [by eexists _, _, _| | |by eexists _, _, _].
  - destruct (runJanitor_spec fc k now Hw Hok) as (fc1 & k1 & out1 & E1 & _).
    destruct (janitor_tracked_ok _ _ _ _ _ _ Hw Hok E1) as (Em & _ & Hok1).
    rewrite E1. simpl. destruct (IH fc1 k1) as (fc2 & k2 & out2 & -> & HP2); [by rewrite Em|done|done|].
    simpl. eexists _, _, _. split; [reflexivity|]. intros HP [_ HQ]%Forall_app. apply HP2; [|done]. by eapply Hj.
  - destruct (handle_handled fc k al now Hw Hev) as (fc1 & k1 & r & -> & Hr). simpl.
    destruct (handled_frame _ _ _ _ _ _ _ Hr) as [Em _].
    destruct (IH fc1 k1) as (fc2 & k2 & out2 & -> & HP2); [by rewrite Em|by eapply handled_tracked_ok|done|].
    simpl. eexists _, _, _. split; [reflexivity|]. intros HP [HQr HQ]%Forall_cons. apply HP2; [|done]. by eapply Hh.
Qed.

(** ** The properties of the feedback loop *)

(** C17: the outcomes of [handle]. For an alert whose source contains no slash,
    [handle] returns, with one of five outcomes: an unparseable source is
    discarded; a source inside a safe network is exempted; a source whose block
    is live is skipped; otherwise the source is blocked, by storing exactly its
    four bytes with prefix 32, and tracked until 300 s later, or the kernel
    refused, in which case the kernel is unchanged and the source is untracked
    so that the next alert retries. Nothing else changes in any case. *)
Theorem handle_outcomes (fc : FeedbackController) (k : kernel) (alert : ThreatAlert) (now : Z) :
  wired (fc_mgr fc) -> has_byte "/"%char (al_SrcIP alert) = false ->
  exists fc' k' r, handle fc k alert now = Some (fc', k', r) /\ handled fc k alert now fc' k' r.
Proof. apply handle_handled. Qed.

(** An address of a safe network that is not blocked stays so at each step. *)
Definition unblocked_safe (n : IPNet) (a b c d : Z) (fc : FeedbackController) (k : kernel) : Prop :=
  n ∈ safeNetworks fc /\ blocked_entry k [a; b; c; d] = None.

Lemma handled_safe n a b c d fc k al now fc' k' r :
  Contains n (IPv4 a b c d) = true -> unblocked_safe n a b c d fc k ->
  handled fc k al now fc' k' r -> unblocked_safe n a b c d fc' k'.
Proof.
  intros Hc [Hn Hb] Hr. destruct (handled_frame _ _ _ _ _ _ _ Hr) as [_ Es]. split; [by rewrite Es|].
  destruct r; simpl in Hr; try done.
  - by destruct Hr as (_ & _ & _ & ->).
  - by destruct Hr as (_ & _ & _ & ->).
  - by destruct Hr as (_ & _ & _ & _ & ->).
  - destruct Hr as (_ & _ & _ & _ & He). unfold blocked_entry in *. by rewrite He.
  - destruct Hr as (_ & Hsafe & _ & Ha & _ & Hadd).
    destruct (decide (alert_addr (al_SrcIP al) = [a; b; c; d])) as [Ea|Hne].
    + exfalso. apply (first_containing_None (safeNetworks fc) (ParseIP (al_SrcIP al)) n Hn); [|exact Hsafe].
      rewrite (Contains_To4 n _ (IPv4 a b c d)); [done|by rewrite To4_IPv4|done].
    + unfold blocked_entry, added in *. rewrite Hadd, decide_True by done.
      rewrite lookup_insert_ne; [done|]. unfold the_key. by intros ?%app_inv_head.
Qed.

Lemma janitor_safe n a b c d fc k now fc' k' out :
  wired (fc_mgr fc) -> tracked_ok fc -> unblocked_safe n a b c d fc k ->
  runJanitor fc k now = Some (fc', k', out) -> unblocked_safe n a b c d fc' k'.
Proof.
  intros Hw Hok [Hn Hb] E. destruct (runJanitor_spec fc k now Hw Hok) as (fc1 & k1 & out1 & E1 & _ & Es & _ & _ & Hent).
  rewrite E1 in E. simplify_eq. split; [by rewrite Es|]. destruct (Hent [a; b; c; d]) as [->|[-> _]]; done.
Qed.

(** Infrastructure is never blocked. Whatever alerts and sweeps the loop
    receives, and whatever the kernel refuses, an address inside one of the
    controller's safe networks is not blocked unless it was before the loop
    started; and the loop never panics. *)
Theorem safe_networks_never_blocked (fc : FeedbackController) (k : kernel) (evs : list fc_event)
    (n : IPNet) (a b c d : Z) :
  wired (fc_mgr fc) -> tracked_ok fc -> alerts_ok evs ->
  n ∈ safeNetworks fc -> Contains n (IPv4 a b c d) = true ->
  exists fc' k' out, fc_Run fc k evs = Some (fc', k', out) /\
    (blocked_entry k [a; b; c; d] = None -> blocked_entry k' [a; b; c; d] = None).
Proof.
  intros Hw Hok Hevs Hn Hc.
  destruct (fc_Run_invariant (unblocked_safe n a b c d) (fun _ => True)) with (evs := evs) (fc := fc) (k := k)
    as (fc' & k' & out & E & HP); try done.
  - intros fc1 k1 al now fc2 k2 r _ _ _ HP Hr _. by eapply handled_safe.
  - intros fc1 k1 now fc2 k2 out Hw1 Hok1 HP E. by eapply janitor_safe.
  - exists fc', k', out. split; [done|]. intros Hb. by apply HP; [|apply Forall_forall].
Qed.

Definition block_succeeded (r : report) : Prop := match r with BlockFailed _ _ => False | _ => True end.

(** C16: no block is lost track of. As long as the kernel refuses none of the
    loop's blocks, every address blocked in the kernel was either blocked before
    the loop started or is named by a record of the controller, so that the
    janitor will reverse it; failed unblocks keep their record. *)
Theorem auto_blocks_tracked (fc : FeedbackController) (k : kernel) (evs : list fc_event) :
  wired (fc_mgr fc) -> tracked_ok fc -> alerts_ok evs ->
  exists fc' k' out, fc_Run fc k evs = Some (fc', k', out) /\
    (Forall block_succeeded out ->
     forall ip, blocked_entry k' ip <> None ->
       blocked_entry k ip <> None \/ exists src t, blocked fc' !! src = Some t /\ alert_addr src = ip).
Proof.
  intros Hw Hok Hevs.
  destruct (fc_Run_invariant (fun fc1 k1 => forall ip, blocked_entry k1 ip <> None ->
       blocked_entry k ip <> None \/ exists src t, blocked fc1 !! src = Some t /\ alert_addr src = ip) block_succeeded)
    with (evs := evs) (fc := fc) (k := k) as (fc' & k' & out & E & HP); try done.
  - intros fc1 k1 al now fc2 k2 r _ _ _ HP1 Hr HQ ip Hip. destruct r; simpl in Hr; try done.
    + destruct Hr as (_ & _ & -> & ->). by apply HP1.
    + destruct Hr as (_ & _ & -> & ->). by apply HP1.
    + destruct Hr as (_ & _ & _ & -> & ->). by apply HP1.
    + destruct Hr as (_ & _ & _ & Ha & -> & Hadd). simpl.
      destruct (decide (ip = alert_addr (al_SrcIP al))) as [->|Hne].
      * right. exists (al_SrcIP al), (now + BlockTTL). split; [apply lookup_insert_eq|done].
      * unfold blocked_entry in Hip at 1. unfold added in Hadd. rewrite Hadd, decide_True, lookup_insert_ne in Hip
          by (done || (unfold the_key; by intros ?%app_inv_head)).
        destruct (HP1 ip Hip) as [?|(src & t & Hb & Hs)]; [by left|right]. exists src.
        destruct (decide (al_SrcIP al = src)) as [<-|]; [done|]. exists t. by rewrite lookup_insert_ne.
  - intros fc1 k1 now fc2 k2 out Hw1 Hok1 HP1 E ip Hip.
    destruct (runJanitor_spec fc1 k1 now Hw1 Hok1) as (fc3 & k3 & out3 & E3 & _ & _ & Hb & _ & Hent).
    rewrite E3 in E. simplify_eq.
    assert (Hip1 : blocked_entry k1 ip <> None) by (by destruct (Hent ip) as [<-|[? _]]).
    destruct (HP1 ip Hip1) as [?|(src & t & Hsrc & Hs)]; [by left|right]. exists src, t. split; [|done].
    specialize (Hb src t Hsrc). destruct (t <? now); [|done]. destruct Hb as [(_ & _ & Hnone)|[_ ?]]; [|done].
    by rewrite Hs in Hnone.
  - exists fc', k', out. split; [done|]. intros HQ. apply HP; [by left|done].
Qed.

(** One sweep of the janitor. Every record past its time is either dropped,
    its address being unblocked in the kernel, or kept because the kernel
    refused; every other record is kept; no record is made; and the only
    addresses whose entries disappear are those of dropped records. *)
Theorem janitor_sweep (fc : FeedbackController) (k : kernel) (now : Z) :
  wired (fc_mgr fc) -> tracked_ok fc ->
  exists fc' k' out, runJanitor fc k now = Some (fc', k', out) /\
    (forall src t, blocked fc !! src = Some t ->
       if t <? now
       then (unblocked_in out src /\ blocked fc' !! src = None /\ blocked_entry k' (alert_addr src) = None) \/
            (failed_in out src /\ blocked fc' !! src = Some t)
       else blocked fc' !! src = Some t) /\
    (forall src, blocked fc !! src = None -> blocked fc' !! src = None) /\
    (forall ip, blocked_entry k' ip = blocked_entry k ip \/
       (blocked_entry k' ip = None /\
        exists src t, blocked fc !! src = Some t /\ t < now /\ unblocked_in out src /\ alert_addr src = ip)).
Proof.
  intros Hw Hok. destruct (runJanitor_spec fc k now Hw Hok) as (fc' & k' & out & E & _ & _ & Hb & Hn & Hent).
  by exists fc', k', out.
Qed.

(** C15: a block lasts its time and no longer. After an alert is blocked at
    [t0], a sweep at most 300 s later keeps the record, and the entry too unless
    another expired record names the same address; a later sweep removes both,
    unless the kernel refuses the removal. *)
Theorem auto_block_lifetime (fc fc1 : FeedbackController) (k k1 : kernel) (alert : ThreatAlert) (t0 now : Z) :
  wired (fc_mgr fc) -> tracked_ok fc -> has_byte "/"%char (al_SrcIP alert) = false ->
  handle fc k alert t0 = Some (fc1, k1, OnBlock alert) ->
  let src := al_SrcIP alert in
  exists fc2 k2 out, runJanitor fc1 k1 now = Some (fc2, k2, out) /\
    (now <= t0 + BlockTTL ->
       blocked fc2 !! src = Some (t0 + BlockTTL) /\
       ((forall s t, blocked fc !! s = Some t -> s <> src -> alert_addr s <> alert_addr src) ->
        blocked_entry k2 (alert_addr src) = Some [1; 0; 0; 0])) /\
    (t0 + BlockTTL < now ->
       (blocked fc2 !! src = None /\ blocked_entry k2 (alert_addr src) = None) \/
       (failed_in out src /\ blocked fc2 !! src = Some (t0 + BlockTTL))).
Proof.
  intros Hw Hok Hs E. cbv zeta.
  destruct (handle_handled fc k alert t0 Hw Hs) as (fc' & k' & r & E' & Hr). rewrite E in E'. simplify_eq.
  pose proof (handled_frame _ _ _ _ _ _ _ Hr) as [Em _].
  pose proof (handled_tracked_ok _ _ _ _ _ _ _ Hok Hs Hr) as Hok1. rewrite <- Em in Hw.
  destruct Hr as (_ & _ & _ & Ha & -> & Hadd).
  destruct (runJanitor_spec _ k' now Hw Hok1) as (fc2 & k2 & out & E2 & _ & _ & Hb & _ & Hent).
  exists fc2, k2, out. split; [done|].
  specialize (Hb (al_SrcIP alert) (t0 + BlockTTL)). simpl in Hb. rewrite lookup_insert_eq in Hb. specialize (Hb eq_refl).
  split; intros Ht.
  - rewrite (proj2 (Z.ltb_ge _ _)) in Hb by lia. split; [done|]. intros Halone.
    assert (Hk1 : blocked_entry k' (alert_addr (al_SrcIP alert)) = Some [1; 0; 0; 0])
      by (unfold blocked_entry; rewrite Hadd, decide_True by done; apply lookup_insert_eq).
    destruct (Hent (alert_addr (al_SrcIP alert))) as [->|(_ & s & t & Hbs & Hlt & _ & Es)]; [done|exfalso].
    simpl in Hbs. destruct (decide (s = al_SrcIP alert)) as [->|Hne].
    + rewrite lookup_insert_eq in Hbs. injection Hbs as <-. lia.
    + rewrite lookup_insert_ne in Hbs by done. by apply (Halone s t).
  - rewrite (proj2 (Z.ltb_lt _ _)) in Hb by lia. destruct Hb as [(? & ? & ?)|[? ?]]; [by left|by right].
Qed.
End laws.

(** ** The registry *)

Lemma hostCIDR_contains ip : length ip = 16%nat \/ To4 ip <> [] -> Contains (hostCIDR ip) ip = true.
Proof.
  intros Hl. unfold hostCIDR. case_bool_decide as H4.
  - destruct Hl as [Hl|?]; [|done]. unfold Contains, networkNumberAndMask. cbn [ipn_IP ipn_Mask].
    rewrite !(bool_decide_true (To4 ip = [])) by done. rewrite Hl. simpl negb. simpl andb.
    change (length (CIDRMask 128 128)) with 16%nat. cbv beta iota. simpl Nat.eqb. cbv beta iota. simpl.
    rewrite Hl. simpl. by rewrite bool_decide_true.
  - assert (H44 : length (To4 ip) = 4%nat) by (unfold To4 in *; repeat case_decide; rewrite ?length_drop; try done; lia).
    assert (HT : To4 (To4 ip) = To4 ip) by (unfold To4 at 1; by rewrite decide_True).
    unfold Contains, networkNumberAndMask. cbn [ipn_IP ipn_Mask].
    rewrite HT, !(bool_decide_false (To4 ip = [])) by done. simpl. rewrite H44. simpl. rewrite H44. simpl.
    by rewrite bool_decide_true.
Qed.

(** The constants parse, to these networks. *)
Definition host32 (a b c d : Z) : IPNet := mkIPNet [a; b; c; d] [255; 255; 255; 255].
Definition builtin_networks : list IPNet :=
  [mkIPNet [127; 0; 0; 0] [255; 0; 0; 0]; host32 255 255 255 255; mkIPNet [224; 0; 0; 0] [240; 0; 0; 0];
   host32 8 8 8 8; host32 8 8 4 4; host32 1 1 1 1; host32 1 0 0 1].

Lemma static_parse : mustParseCIDRs (static_cidrs ++ dns_cidrs) = Some builtin_networks.
Proof. vm_compute. reflexivity. Qed.
Lemma static_networks : staticSafeNetworks ++ wellKnownPublicDNS = builtin_networks.
Proof. vm_compute. reflexivity. Qed.

(** Where the networks of the registry come from. *)
Lemma elem_DiscoverSafeNetworks h n :
  n ∈ staticSafeNetworks ++ wellKnownPublicDNS \/
  (exists gw, discoverDefaultGateway h = Ok gw /\ gw <> [] /\ n = hostCIDR gw) \/
  (exists ns, discoverLocalSubnets h = Ok ns /\ n ∈ ns) \/
  (exists ns, discoverLocalResolvers h = Ok ns /\ n ∈ ns) ->
  n ∈ DiscoverSafeNetworks h.
Proof.
  intros Hn. unfold DiscoverSafeNetworks.
  assert (Hr : forall nets, n ∈ nets -> n ∈ match discoverLocalResolvers h with Ok r => nets ++ r | Err _ => nets end).
  { intros nets Hi. destruct (discoverLocalResolvers h); [|done]. apply elem_of_app. by left. }
  assert (Hs : forall nets, n ∈ nets -> n ∈ match discoverLocalSubnets h with Ok r => nets ++ r | Err _ => nets end).
  { intros nets Hi. destruct (discoverLocalSubnets h); [|done]. apply elem_of_app. by left. }
  destruct Hn as [Hn|[(gw & Egw & Hgw & ->)|[(ns & Ens & Hn)|(ns & Ens & Hn)]]].
  - apply Hr, Hs. destruct (discoverDefaultGateway h); [|done]. case_bool_decide; [done|]. apply elem_of_app. by left.
  - apply Hr, Hs. rewrite Egw, bool_decide_false by done. apply elem_of_app. right. apply list_elem_of_here.
  - apply Hr. rewrite Ens. apply elem_of_app. by right.
  - rewrite Ens. apply elem_of_app. by right.
Qed.

Lemma first_default_app pre r post :
  Forall (fun r' => Dst r' <> None \/ Gw r' = []) pre -> Dst r = None -> Gw r <> [] ->
  first_default (pre ++ r :: post) = Some (Gw r).
Proof.
  intros Hpre Hd Hg. induction Hpre as [|r' pre Hr' _ IH]; simpl.
  - by rewrite bool_decide_true, bool_decide_false.
  - destruct Hr' as [Hd'|Hg']; [by rewrite (bool_decide_false (Dst r' = None))|].
    rewrite (bool_decide_true (Gw r' = [])) by done. by rewrite andb_false_r.
Qed.

Lemma elem_addr_subnets addrs n : Some n ∈ addrs -> IsLoopback (ipn_IP n) = false -> n ∈ addr_subnets addrs.
Proof.
  intros Hin Hl. induction addrs as [|[n'|] addrs IH]; simpl; [by apply elem_of_nil in Hin|..];
    apply elem_of_cons in Hin as [E|Hin]; try done.
  - injection E as ->. rewrite Hl. apply list_elem_of_here.
  - destruct (IsLoopback (ipn_IP n')); [by apply IH|]. by apply list_elem_of_further, IH.
  - by apply IH.
Qed.

Lemma elem_link_subnets links l addrs n :
  l ∈ links -> link_addrs l = Ok addrs -> n ∈ addr_subnets addrs -> n ∈ link_subnets links.
Proof.
  intros Hin Hl Hn. induction links as [|l' links IH]; simpl; [by apply elem_of_nil in Hin|].
  apply elem_of_cons in Hin as [<-|Hin]; [rewrite Hl; apply elem_of_app; by left|].
  destruct (link_addrs l'); [apply elem_of_app; right|]; by apply IH.
Qed.

(** An address is safe under the registry discovered from [h]. *)
Definition safe_on (h : Host) (ip : IP) : Prop := first_containing (DiscoverSafeNetworks h) ip <> None.

Lemma safe_on_intro h n ip : n ∈ DiscoverSafeNetworks h -> Contains n ip = true -> safe_on h ip.
Proof. apply first_containing_None. Qed.

Lemma Contains_v4 nn m a b c d :
  length nn = 4%nat -> length m = 4%nat ->
  Contains (mkIPNet nn m) (IPv4 a b c d) = bool_decide (and_bytes nn m = and_bytes [a; b; c; d] m).
Proof.
  intros Hn Hm. unfold Contains, networkNumberAndMask. cbn [ipn_IP ipn_Mask]. rewrite To4_IPv4.
  assert (HT : To4 nn = nn) by (unfold To4; by rewrite decide_True). rewrite HT.
  rewrite (bool_decide_false ([a; b; c; d] = [])) by done.
  rewrite (bool_decide_false (nn = [])) by (destruct nn; [discriminate Hn|discriminate]). rewrite Hm. simpl. rewrite Hn. simpl. by rewrite Hn.
Qed.

Lemma multicast_mask a : 224 <= a < 240 -> Z.land a 240 = 224.
Proof.
  intros Ha. assert (Hb : implb ((224 <=? a) && (a <? 240)) (Z.land a 240 =? 224) = true).
  { apply (forall_byte (fun a => implb ((224 <=? a) && (a <? 240)) (Z.land a 240 =? 224)));
      [vm_compute; reflexivity|unfold in_u; lia]. }
  rewrite (proj2 (Z.leb_le _ _)), (proj2 (Z.ltb_lt _ _)) in Hb by lia. by apply Z.eqb_eq.
Qed.

(** C29: the registry of safe networks covers the infrastructure, whatever the
    host answers: loopback, multicast, the broadcast address and the four
    public resolvers always; the gateway of the first default route; the
    subnets of every interface whose addresses can be listed, loopback aside;
    and every name server of resolv.conf. A failing query only loses its own
    part. *)
Theorem safe_registry_covers (h : Host) :
  (forall b c d, safe_on h (IPv4 127 b c d)) /\
  (forall a b c d, 224 <= a < 240 -> safe_on h (IPv4 a b c d)) /\
  safe_on h (IPv4 255 255 255 255) /\
  Forall (safe_on h) [IPv4 8 8 8 8; IPv4 8 8 4 4; IPv4 1 1 1 1; IPv4 1 0 0 1] /\
  (forall pre r post, RouteList h = Ok (pre ++ r :: post) ->
     Forall (fun r' => Dst r' <> None \/ Gw r' = []) pre -> Dst r = None -> To4 (Gw r) <> [] -> safe_on h (Gw r)) /\
  (forall links l addrs n ip, LinkList h = Ok links -> l ∈ links -> link_addrs l = Ok addrs -> Some n ∈ addrs ->
     IsLoopback (ipn_IP n) = false -> Contains n ip = true -> safe_on h ip) /\
  (forall text line server rest, resolv_conf h = Some text -> line ∈ ScanLines text ->
     Fields line = "nameserver" :: server :: rest -> ParseIP server <> [] -> safe_on h (ParseIP server)).
Proof.
  assert (Hstatic : forall i n ip, builtin_networks !! i = Some n -> Contains n ip = true -> safe_on h ip).
  { intros i n ip Hi. apply safe_on_intro, elem_DiscoverSafeNetworks. left. rewrite static_networks.
    by apply list_elem_of_lookup_2 in Hi. }
  split_and!.
  - intros b c d. apply (Hstatic 0%nat _ _ eq_refl). rewrite Contains_v4 by done.
    apply bool_decide_eq_true. cbn -[Z.land]. by rewrite !Z.land_0_r.
  - intros a b c d Ha. apply (Hstatic 2%nat _ _ eq_refl). rewrite Contains_v4 by done.
    apply bool_decide_eq_true. cbn -[Z.land]. by rewrite !Z.land_0_r, (multicast_mask a) by done.
  - by apply (Hstatic 1%nat _ _ eq_refl).
  - repeat constructor; [by apply (Hstatic 3%nat _ _ eq_refl)|by apply (Hstatic 4%nat _ _ eq_refl)|
                         by apply (Hstatic 5%nat _ _ eq_refl)|by apply (Hstatic 6%nat _ _ eq_refl)].
  - intros pre r post Hroutes Hpre Hd H4. assert (Hg : Gw r <> []) by (by intros E; rewrite E in H4).
    apply (safe_on_intro h (hostCIDR (Gw r))); [|apply hostCIDR_contains; by right].
    apply elem_DiscoverSafeNetworks. right. left. exists (Gw r). split_and!; [|done..].
    unfold discoverDefaultGateway. by rewrite Hroutes, first_default_app.
  - intros links l addrs n ip Hl Hin Ha Hn Hlo Hc. apply (safe_on_intro h n); [|done].
    apply elem_DiscoverSafeNetworks. right. right. left. exists (link_subnets links).
    split; [unfold discoverLocalSubnets; by rewrite Hl|]. by eapply elem_link_subnets, elem_addr_subnets.
  - intros text line server rest Ht Hin Hf Hip. destruct (ParseIP_wf server) as [?|[_ Hlen]]; [done|].
    apply (safe_on_intro h (hostCIDR (ParseIP server))); [|apply hostCIDR_contains; by left].
    apply elem_DiscoverSafeNetworks. right. right. right.
    exists (concat (map resolver_line (ScanLines text))). split; [unfold discoverLocalResolvers; by rewrite Ht|].
    apply list_elem_of_In, in_concat. exists (resolver_line line). split.
    + apply in_map_iff. exists line. split; [done|]. by apply list_elem_of_In.
    + unfold resolver_line. rewrite Hf. rewrite !bool_decide_true by done. rewrite bool_decide_false by done. by left.
Qed.

Section finding.
Context `{EbpfLaws, MapRange}.

(** C38: a failed re-block forgets a live kernel entry. When the kernel refuses
    to block a source again (its record having expired, but not been swept yet),
    [handle] drops the record although the kernel's entry is still there: no
    later sweep removes the entry, unless another record names the address. *)
Theorem failed_reblock_forgets (fc fc1 : FeedbackController) (k k1 : kernel) (alert : ThreatAlert) (e : error) (t0 now : Z) :
  wired (fc_mgr fc) -> tracked_ok fc -> has_byte "/"%char (al_SrcIP alert) = false ->
  handle fc k alert t0 = Some (fc1, k1, BlockFailed alert e) ->
  let src := al_SrcIP alert in
  (forall s t, blocked fc !! s = Some t -> s <> src -> alert_addr s <> alert_addr src) ->
  blocked fc1 !! src = None /\
  exists fc2 k2 out, runJanitor fc1 k1 now = Some (fc2, k2, out) /\
    blocked fc2 !! src = None /\ blocked_entry k2 (alert_addr src) = blocked_entry k (alert_addr src).
Proof.
  intros Hw Hok Hs E. cbv zeta. intros Halone.
  destruct (handle_handled fc k alert t0 Hw Hs) as (fc' & k' & r & E' & Hr). rewrite E in E'. simplify_eq.
  pose proof (handled_frame _ _ _ _ _ _ _ Hr) as [Em _].
  pose proof (handled_tracked_ok _ _ _ _ _ _ _ Hok Hs Hr) as Hok1. rewrite <- Em in Hw.
  destruct Hr as (_ & _ & _ & -> & Hent0). split; [apply lookup_delete_eq|].
  destruct (runJanitor_spec _ k' now Hw Hok1) as (fc2 & k2 & out & E2 & _ & _ & _ & Hn & Hent).
  exists fc2, k2, out. split; [done|]. split; [apply Hn, lookup_delete_eq|].
  destruct (Hent (alert_addr (al_SrcIP alert))) as [->|(_ & s & t & Hb & _ & _ & Es)];
    [unfold blocked_entry; by rewrite Hent0|exfalso].
  simpl in Hb. apply lookup_delete_Some in Hb as [Hne Hb]. by apply (Halone s t).
Qed.
End finding.

(** ** Examples, on the simulated kernel *)

Definition sim_fc (b : gmap string Z) : @FeedbackController sim_ebpf :=
  @mkFC sim_ebpf sim_manager (DiscoverSafeNetworks (mkHost (Ok []) (Ok []) None)) b.
Definition sim_alert (src : string) : ThreatAlert := mkAlert src "SYN_FLOOD" 1%float 0.

Lemma sim_tracked_ok : @tracked_ok sim_ebpf (sim_fc ∅).
Proof. intros src t Hb. discriminate Hb. Qed.

Lemma handle_outcomes_witness :
  exists fc' k' r, @handle sim_ebpf (sim_fc ∅) (sim_start []) (sim_alert "10.0.0.1") 0 = Some (fc', k', r) /\
    @handled sim_ebpf sim_laws (sim_fc ∅) (sim_start []) (sim_alert "10.0.0.1") 0 fc' k' r.
Proof. apply (@handle_outcomes sim_ebpf sim_laws); [exact sim_wired|reflexivity]. Defined.

Definition sim_events : list fc_event :=
  [FcAlert (sim_alert "127.0.0.1") 0; FcAlert (sim_alert "10.0.0.1") 10; FcTick 30].

Lemma safe_networks_never_blocked_witness :
  exists fc' k' out, @fc_Run sim_ebpf list_order (sim_fc ∅) (sim_start []) sim_events = Some (fc', k', out) /\
    @blocked_entry sim_ebpf sim_laws k' [127; 0; 0; 1] = None.
Proof.
  destruct (@safe_networks_never_blocked sim_ebpf sim_laws list_order (sim_fc ∅) (sim_start []) sim_events
    (mkIPNet [127; 0; 0; 0] [255; 0; 0; 0]) 127 0 0 1) as (fc' & k' & out & E & Hb).
  - exact sim_wired.
  - exact sim_tracked_ok.
  - repeat constructor.
  - vm_compute. apply list_elem_of_here.
  - vm_compute. reflexivity.
  - exists fc', k', out. split; [exact E|]. apply Hb. reflexivity.
Defined.

Lemma auto_blocks_tracked_witness :
  exists fc' k' out, @fc_Run sim_ebpf list_order (sim_fc ∅) (sim_start []) sim_events = Some (fc', k', out) /\
    (Forall block_succeeded out -> forall ip, @blocked_entry sim_ebpf sim_laws k' ip <> None ->
       exists src t, blocked fc' !! src = Some t /\ alert_addr src = ip).
Proof.
  destruct (@auto_blocks_tracked sim_ebpf sim_laws list_order (sim_fc ∅) (sim_start []) sim_events)
    as (fc' & k' & out & E & Hb).
  - exact sim_wired.
  - exact sim_tracked_ok.
  - repeat constructor.
  - exists fc', k', out. split; [exact E|]. intros HQ ip Hip. destruct (Hb HQ ip Hip) as [Hbad|Ht]; [|exact Ht].
    exfalso. apply Hbad. reflexivity.
Defined.

Lemma janitor_sweep_witness :
  exists fc' k' out, @runJanitor sim_ebpf list_order (sim_fc ∅) (sim_start []) 0 = Some (fc', k', out) /\
    blocked fc' !! "10.0.0.1" = None.
Proof.
  destruct (@janitor_sweep sim_ebpf sim_laws list_order (sim_fc ∅) (sim_start []) 0 sim_wired sim_tracked_ok)
    as (fc' & k' & out & E & _ & Hn & _). exists fc', k', out. split; [exact E|]. apply Hn. reflexivity.
Defined.

Definition sim_blocked : option (@FeedbackController sim_ebpf * sim_kernel * report) :=
  @handle sim_ebpf (sim_fc ∅) (sim_start [false; true]) (sim_alert "10.0.0.1") 0.

Lemma auto_block_lifetime_witness :
  exists fc1 k1 fc2 k2 out, sim_blocked = Some (fc1, k1, OnBlock (sim_alert "10.0.0.1")) /\
    @runJanitor sim_ebpf list_order fc1 k1 (100 * 1000000000) = Some (fc2, k2, out) /\
    blocked fc2 !! "10.0.0.1" = Some BlockTTL.
Proof.
  assert (Hr : option_map snd sim_blocked = Some (OnBlock (sim_alert "10.0.0.1"))) by (vm_compute; reflexivity).
  destruct sim_blocked as [[[fc1 k1] r]|] eqn:E; [|discriminate]. injection Hr as ->.
  destruct (@auto_block_lifetime sim_ebpf sim_laws list_order (sim_fc ∅) fc1 (sim_start [false; true]) k1
    (sim_alert "10.0.0.1") 0 (100 * 1000000000) sim_wired sim_tracked_ok eq_refl E) as (fc2 & k2 & out & E2 & Hin & _).
  exists fc1, k1, fc2, k2, out. split; [reflexivity|]. split; [exact E2|]. apply Hin. vm_compute. discriminate.
Defined.

(** The source is blocked, its block expires, and the kernel refuses to block
    it again. *)
Definition sim_fc1 : @FeedbackController sim_ebpf := sim_fc {["10.0.0.1" := BlockTTL]}.
Definition sim_kernel1 : sim_kernel :=
  match sim_blocked with Some (_, k1, _) => k1 | None => sim_start [] end.
Definition sim_reblocked : option (@FeedbackController sim_ebpf * sim_kernel * report) :=
  @handle sim_ebpf sim_fc1 sim_kernel1 (sim_alert "10.0.0.1") (301 * 1000000000).

Lemma failed_reblock_forgets_witness :
  exists fc1 k1 e fc2 k2 out, sim_reblocked = Some (fc1, k1, BlockFailed (sim_alert "10.0.0.1") e) /\
    @runJanitor sim_ebpf list_order fc1 k1 (10000 * 1000000000) = Some (fc2, k2, out) /\
    @blocked_entry sim_ebpf sim_laws k2 [10; 0; 0; 1] = Some [1; 0; 0; 0].
Proof.
  assert (Hr : exists e, option_map snd sim_reblocked = Some (BlockFailed (sim_alert "10.0.0.1") e))
    by (eexists; vm_compute; reflexivity).
  destruct Hr as [e Hr]. destruct sim_reblocked as [[[fc1 k1] r]|] eqn:E; [|discriminate]. injection Hr as ->.
  destruct (@failed_reblock_forgets sim_ebpf sim_laws list_order sim_fc1 fc1 sim_kernel1 k1
    (sim_alert "10.0.0.1") e (301 * 1000000000) (10000 * 1000000000)) as (_ & fc2 & k2 & out & E2 & _ & Hk).
  - exact sim_wired.
  - intros src t Hb. change (({["10.0.0.1" := BlockTTL]} : gmap string Z) !! src = Some t) in Hb.
    apply lookup_singleton_Some in Hb as [<- _]. split; [reflexivity|vm_compute; discriminate].
  - reflexivity.
  - exact E.
  - intros s t Hb Hne. change (({["10.0.0.1" := BlockTTL]} : gmap string Z) !! s = Some t) in Hb.
    apply lookup_singleton_Some in Hb as [<- _]. contradiction.
  - exists fc1, k1, e, fc2, k2, out. split; [reflexivity|]. split; [exact E2|].
    change (alert_addr (al_SrcIP (sim_alert "10.0.0.1"))) with (alert_addr "10.0.0.1") in Hk.
    assert (Ha : alert_addr "10.0.0.1" = [10; 0; 0; 1]) by (vm_compute; reflexivity). rewrite Ha in Hk.
    rewrite Hk. vm_compute. reflexivity.
Defined.
