(* ===== verification/Daemon.v ===== *)
(** * The daemon's closed loop ([pkg/engine/daemon.go])

    The goroutines of [RunDaemon] and what they share, as a step relation: the
    ring-buffer reader, the aggregator's window driver, the inference stage, the
    feedback controller and the signal handler. A step is one critical section,
    one channel operation or one kernel call, so that the goroutines interleave
    as the scheduler likes, except that a call of the controller is one step
    ([FineGrained] takes it apart). *)

From S2P Require Import Prelude GoStrings GoNet Contracts Float64 Flow Trees EbpfMap MapManager Feedback.
From Stdlib Require Import Ascii.

Definition alertBufferSize : Z := 1024.

Section daemon.
Context `{Ebpf, MapRange, GoMath}.

(** Where each goroutine is. *)
Inductive main_pc :=
  | MRead                              (* reader.Read *)
  | MPort (m : FlowPacketMeta)         (* between the two critical sections of Ingest *)
  | MCancel                            (* cancel *)
  | MWait                              (* wg.Wait *)
  | MReturned.

Inductive agg_pc :=
  | ASelect                            (* the select of Aggregator.Run *)
  | APorts (i : nat) (snap : gmap Z portTracker) (ws we : Z) (final : bool)
  | AFlows (i : nat) (snap : gmap Z portTracker) (ws we : Z) (final : bool)
  | AEmit (i : nat) (rest : list flowAccumulator) (snap : gmap Z portTracker) (ws we : Z) (final : bool)
  | AClose                             (* close(a.out) *)
  | ADone.

Inductive inf_pc :=
  | IRange                             (* for ff := range agg.Output() *)
  | ISend (alert : ThreatAlert)        (* the select around alerts <- *)
  | ICloseAlerts                       (* the deferred close(alerts) *)
  | IDone.

Inductive fc_pc := FSelect | FDone.
Inductive sig_pc := SWait | SCancel | SDone.

Record daemon := mkDaemon {
  d_kernel : kernel;
  d_agg : Aggregator;
  d_fc : FeedbackController;
  d_alerts : list ThreatAlert;         (* the buffered channel *)
  d_alerts_closed : bool;
  d_meta : FlowPacketMeta;             (* the reader's variable *)
  d_reader_open : bool;
  d_cancelled : bool;                  (* daemonCtx *)
  d_main : main_pc; d_aggpc : agg_pc; d_inf : inf_pc; d_fcpc : fc_pc; d_sig : sig_pc
}.

Definition set_main (d : daemon) (a : Aggregator) (m : FlowPacketMeta) (pc : main_pc) : daemon :=
  mkDaemon (d_kernel d) a (d_fc d) (d_alerts d) (d_alerts_closed d) m (d_reader_open d) (d_cancelled d)
    pc (d_aggpc d) (d_inf d) (d_fcpc d) (d_sig d).
Definition set_agg (d : daemon) (a : Aggregator) (pc : agg_pc) : daemon :=
  mkDaemon (d_kernel d) a (d_fc d) (d_alerts d) (d_alerts_closed d) (d_meta d) (d_reader_open d) (d_cancelled d)
    (d_main d) pc (d_inf d) (d_fcpc d) (d_sig d).
Definition set_inf (d : daemon) (a : Aggregator) (al : list ThreatAlert) (closed : bool) (pc : inf_pc) : daemon :=
  mkDaemon (d_kernel d) a (d_fc d) al closed (d_meta d) (d_reader_open d) (d_cancelled d)
    (d_main d) (d_aggpc d) pc (d_fcpc d) (d_sig d).
Definition set_fc (d : daemon) (k : kernel) (fc : FeedbackController) (al : list ThreatAlert) (pc : fc_pc) : daemon :=
  mkDaemon k (d_agg d) fc al (d_alerts_closed d) (d_meta d) (d_reader_open d) (d_cancelled d)
    (d_main d) (d_aggpc d) (d_inf d) pc (d_sig d).
Definition set_sig (d : daemon) (open cancelled : bool) (pc : sig_pc) : daemon :=
  mkDaemon (d_kernel d) (d_agg d) (d_fc d) (d_alerts d) (d_alerts_closed d) (d_meta d) open cancelled
    (d_main d) (d_aggpc d) (d_inf d) (d_fcpc d) pc.
Definition set_cancelled (d : daemon) (pc : main_pc) : daemon :=
  mkDaemon (d_kernel d) (d_agg d) (d_fc d) (d_alerts d) (d_alerts_closed d) (d_meta d) (d_reader_open d) true
    pc (d_aggpc d) (d_inf d) (d_fcpc d) (d_sig d).

(** The alert the inference stage sends for a vector. *)
Definition alert_of (ff : FlowFeatures) (r : Result) : ThreatAlert :=
  mkAlert (IP_String (ff_SrcIP ff)) (Attack r) (Probability r) (ff_WindowEnd ff).

(** The vector taken from the head of the output channel. *)
Definition recv_out (a : Aggregator) : Aggregator :=
  mkAgg (flowShards a) (portShards a) (List.tl (out a)) (out_closed a) (windowStart a) (droppedNewFlows a) (droppedOutput a).

(** A step of the environment (a record, a read error, a tick, a signal, the
    caller's context) or of the program itself. [None] is a panic: a send on a
    closed channel, a second close, or a nil map. *)
Inductive who := Env | Self.

Inductive main_step (d : daemon) : who -> option daemon -> Prop :=
  | read_bad data m e :
      d_main d = MRead -> d_reader_open d = true ->
      UnmarshalBinary (d_meta d) data = (m, Some e) ->
      main_step d Env (Some (set_main d (d_agg d) m MRead))
  | read_record data m a tracked :
      d_main d = MRead -> d_reader_open d = true ->
      UnmarshalBinary (d_meta d) data = (m, None) ->
      ingest_flow (d_agg d) m = (a, tracked) ->
      main_step d Env (Some (set_main d a m (if tracked : bool then MPort m else MRead)))
  | ingest_ports m :
      d_main d = MPort m ->
      main_step d Self (Some (set_main d (ingest_port (d_agg d) m) (d_meta d) MRead))
  | read_error :
      d_main d = MRead -> d_reader_open d = true ->
      main_step d Env (Some (set_main d (d_agg d) (d_meta d) (if d_cancelled d then MCancel else MRead)))
  | read_closed :
      d_main d = MRead -> d_reader_open d = false ->
      main_step d Self (Some (set_main d (d_agg d) (d_meta d) MCancel))
  | main_cancel :
      d_main d = MCancel -> main_step d Self (Some (set_cancelled d MWait))
  | main_wait :
      d_main d = MWait -> d_aggpc d = ADone -> d_inf d = IDone -> d_fcpc d = FDone ->
      main_step d Self (Some (set_main d (d_agg d) (d_meta d) MReturned))
  | caller_cancel :
      main_step d Env (Some (set_cancelled d (d_main d))).

Inductive agg_step (d : daemon) : who -> option daemon -> Prop :=
  | agg_tick now :
      d_aggpc d = ASelect ->
      agg_step d Env (Some (set_agg d (flush_window (d_agg d) now) (APorts 0 ∅ (windowStart (d_agg d)) now false)))
  | agg_cancelled now :
      d_aggpc d = ASelect -> d_cancelled d = true ->
      agg_step d Self (Some (set_agg d (flush_window (d_agg d) now) (APorts 0 ∅ (windowStart (d_agg d)) now true)))
  | agg_port_shard i snap ws we fin :
      d_aggpc d = APorts i snap ws we fin -> Z.of_nat i < numShards ->
      agg_step d Self (Some (set_agg d (set_port_shard (d_agg d) (Z.of_nat i) ∅)
                               (APorts (S i) (port_shard (d_agg d) (Z.of_nat i) ∪ snap) ws we fin)))
  | agg_ports_done i snap ws we fin :
      d_aggpc d = APorts i snap ws we fin -> numShards <= Z.of_nat i ->
      agg_step d Self (Some (set_agg d (d_agg d) (AFlows 0 snap ws we fin)))
  | agg_flow_shard i snap ws we fin :
      d_aggpc d = AFlows i snap ws we fin -> Z.of_nat i < numShards ->
      agg_step d Self (Some (set_agg d (set_flow_shard (d_agg d) (Z.of_nat i) ∅)
                               (AEmit i (map snd (range_map (flow_shard (d_agg d) (Z.of_nat i)))) snap ws we fin)))
  | agg_emit i fa rest snap ws we fin :
      d_aggpc d = AEmit i (fa :: rest) snap ws we fin ->
      agg_step d Self (option_map (fun a => set_agg d a (AEmit i rest snap ws we fin))
                         (emit (d_agg d) (make_features snap ws we fa)))
  | agg_shard_done i snap ws we fin :
      d_aggpc d = AEmit i [] snap ws we fin ->
      agg_step d Self (Some (set_agg d (d_agg d) (AFlows (S i) snap ws we fin)))
  | agg_flush_done i snap ws we fin :
      d_aggpc d = AFlows i snap ws we fin -> numShards <= Z.of_nat i ->
      agg_step d Self (Some (set_agg d (d_agg d) (if fin : bool then AClose else ASelect)))
  | agg_close :
      d_aggpc d = AClose ->
      agg_step d Self (if out_closed (d_agg d) then None else Some (set_agg d (close_out (d_agg d)) ADone)).

Inductive inf_step (d : daemon) : who -> option daemon -> Prop :=
  | inf_recv ff rest :
      d_inf d = IRange -> out (d_agg d) = ff :: rest ->
      let r := Classify ff in
      inf_step d Self (Some (set_inf d (recv_out (d_agg d)) (d_alerts d) (d_alerts_closed d)
                               (if Malicious r then ISend (alert_of ff r) else IRange)))
  | inf_closed :
      d_inf d = IRange -> out (d_agg d) = [] -> out_closed (d_agg d) = true ->
      inf_step d Self (Some (set_inf d (d_agg d) (d_alerts d) (d_alerts_closed d) ICloseAlerts))
  | inf_send alert :
      d_inf d = ISend alert -> Z.of_nat (length (d_alerts d)) < alertBufferSize ->
      inf_step d Self (if d_alerts_closed d then None
                       else Some (set_inf d (d_agg d) (d_alerts d ++ [alert]) false IRange))
  | inf_cancelled alert :
      d_inf d = ISend alert -> d_cancelled d = true ->
      inf_step d Self (Some (set_inf d (d_agg d) (d_alerts d) (d_alerts_closed d) ICloseAlerts))
  | inf_close :
      d_inf d = ICloseAlerts ->
      inf_step d Self (if d_alerts_closed d then None
                       else Some (set_inf d (d_agg d) (d_alerts d) true IDone)).

Inductive fc_step (d : daemon) : who -> option daemon -> Prop :=
  | fc_cancelled :
      d_fcpc d = FSelect -> d_cancelled d = true ->
      fc_step d Self (Some (set_fc d (d_kernel d) (d_fc d) (d_alerts d) FDone))
  | fc_janitor now :
      d_fcpc d = FSelect ->
      fc_step d Env (option_map (fun '(fc, k, _) => set_fc d k fc (d_alerts d) FSelect)
                       (runJanitor (d_fc d) (d_kernel d) now))
  | fc_alert al rest now :
      d_fcpc d = FSelect -> d_alerts d = al :: rest ->
      fc_step d Self (option_map (fun '(fc, k, _) => set_fc d k fc rest FSelect) (handle (d_fc d) (d_kernel d) al now))
  | fc_closed :
      d_fcpc d = FSelect -> d_alerts d = [] -> d_alerts_closed d = true ->
      fc_step d Self (Some (set_fc d (d_kernel d) (d_fc d) [] FDone)).

Inductive sig_step (d : daemon) : who -> option daemon -> Prop :=
  | sig_received :
      d_sig d = SWait -> sig_step d Env (Some (set_sig d false (d_cancelled d) SCancel))
  | sig_cancel :
      d_sig d = SCancel -> sig_step d Self (Some (set_sig d (d_reader_open d) true SDone))
  | sig_ctx_done :
      d_sig d = SWait -> d_cancelled d = true -> sig_step d Self (Some (set_sig d false true SDone)).

Inductive daemon_step (d : daemon) (w : who) (o : option daemon) : Prop :=
  | step_main : main_step d w o -> daemon_step d w o
  | step_agg : agg_step d w o -> daemon_step d w o
  | step_inf : inf_step d w o -> daemon_step d w o
  | step_fc : fc_step d w o -> daemon_step d w o
  | step_sig : sig_step d w o -> daemon_step d w o.

(** The state in which the goroutines have just been started. *)
Definition daemon_start (mgr : MapManager) (h : Host) (k : kernel) (now : Z) : daemon :=
  mkDaemon k (NewAggregator now) (NewFeedbackController mgr h) [] false zero_meta true false
    MRead ASelect IRange FSelect SWait.

Inductive reachable (d0 : daemon) : daemon -> Prop :=
  | reach_start : reachable d0 d0
  | reach_step d d' w : reachable d0 d -> daemon_step d w (Some d') -> reachable d0 d'.

(** ** The function around the loop *)

Definition daemon_banner : list printed :=
  [Println "================================================================================";
   Println "🧠 AI-IDA Phase 3 — Autonomous Defense Agent";
   Println "📡 Telemetry   : /sys/fs/bpf/ai_ida/events (full trace, log-level=debug)";
   Printf "⏱️  Window      : %s rolling aggregation" [ArgD WindowInterval] None;
   Printf "🎯 Threshold   : P(malicious) > %.2f" [ArgS "0.85"] None;
   Println "⛔ Auto-block  : REPUTATION_MAP (LPM_TRIE), /32 host blocks";
   Println "🛑 Press Ctrl-C to detach and cleanly restore log level";
   Println "================================================================================"].

(** The counters shown when a cap was reached. *)
Definition shutdown_stats (agg : Aggregator) : list printed :=
  let dropped := DroppedNewFlows agg in
  let droppedOut := DroppedOutput agg in
  if (0 <? dropped) || (0 <? droppedOut)
  then [Printf "ℹ️  [AI-IDA] Shutdown stats — flows dropped (cardinality cap): %d, features dropped (consumer backpressure): %d"
          [ArgD dropped; ArgD droppedOut] None]
  else [].

(** The function around the goroutines: the previous level is read, the level is
    set to debug, the reader is opened ([newReader], the ring-buffer package's
    answer). Once the level is set, every way out restores the previous one.
    [loop] is a run of the goroutines from [daemon_start] to the return of
    [wg.Wait]: what it leaves in the kernel and the aggregator, and its
    lines. *)
Definition RunDaemon (mgr : MapManager) (newReader : option error)
    (loop : kernel -> kernel * Aggregator * list printed) (k : kernel)
    : option (kernel * list printed * option error) :=
  prev ← GetLogLevel mgr k;
  let prevLevel := match snd prev with Some _ => LogLevelOff | None => fst prev end in
  '(k, err) ← SetLogLevel mgr LogLevelDebug k;
  match err with
  | Some err => Some (k, [], Some (ErrorfW "failed to enable full telemetry (CONFIG_MAP -> debug): %w" [] err))
  | None =>
      let restore k out ret := '(k, _) ← SetLogLevel mgr prevLevel k; Some (k, out, ret) in
      match GetEventsMap mgr with
      | None => restore k [] (Some (Errorf "events ring buffer map is nil" []))
      | Some _ =>
          match newReader with
          | Some err => restore k [] (Some (ErrorfW "failed to open eBPF ring buffer reader: %w" [] err))
          | None =>
              let '(k, agg, out) := loop k in
              restore k (daemon_banner ++ out ++ shutdown_stats agg) None
          end
      end
  end.

End daemon.

(** ** The invariant of the running daemon *)

Section invariant.
Context `{EbpfLaws, MapRange, GoMath}.

Definition final_flush (pc : agg_pc) : bool :=
  match pc with
  | APorts _ _ _ _ fin | AFlows _ _ _ _ fin | AEmit _ _ _ _ _ fin => fin
  | AClose | ADone => true
  | ASelect => false
  end.

Definition host_vector (ff : FlowFeatures) : Prop := exists v, ff_SrcIP ff = u32ToIP v.
Definition no_slash (al : ThreatAlert) : Prop := has_byte "/"%char (al_SrcIP al) = false.

(** The part about the goroutines and channels. *)
Record control_ok (d : daemon) : Prop := {
  i_out : out_closed (d_agg d) = true <-> d_aggpc d = ADone;
  i_alerts : d_alerts_closed d = true <-> d_inf d = IDone;
  i_final : final_flush (d_aggpc d) = true -> d_cancelled d = true;
  i_inf : d_inf d = ICloseAlerts \/ d_inf d = IDone -> d_cancelled d = true;
  i_fc : d_fcpc d = FDone -> d_cancelled d = true;
  i_main : d_main d = MWait \/ d_main d = MReturned -> d_cancelled d = true;
  i_returned : d_main d = MReturned -> d_aggpc d = ADone /\ d_inf d = IDone /\ d_fcpc d = FDone;
  i_reader : d_reader_open d = false <-> d_sig d <> SWait;
  i_sig : d_sig d = SDone -> d_cancelled d = true
}.

(** The part about the data. *)
Record data_ok (d : daemon) : Prop := {
  i_out_len : Z.of_nat (length (out (d_agg d))) <= outputBufferSize;
  i_alerts_len : Z.of_nat (length (d_alerts d)) <= alertBufferSize;
  i_flow_len : length (flowShards (d_agg d)) = Z.to_nat numShards;
  i_index : match d_aggpc d with AEmit i _ _ _ _ _ => Z.of_nat i < numShards | _ => True end;
  i_vectors : Forall host_vector (out (d_agg d));
  i_dotted : Forall no_slash (d_alerts d);
  i_pending : forall al, d_inf d = ISend al -> no_slash al;
  i_wired : wired (fc_mgr (d_fc d));
  i_tracked : tracked_ok (d_fc d)
}.

Lemma alert_no_slash ff r : host_vector ff -> no_slash (alert_of ff r).
Proof.
  intros [v Hv]. unfold no_slash, alert_of. simpl al_SrcIP. rewrite Hv. unfold u32ToIP. rewrite IP_String_IPv4.
  apply has_byte_slash_dotted, ip_of_u32_bytes.
Qed.

Lemma emit_open a ff : out_closed a = false -> emit a ff = Some (emitted a [ff]).
Proof. apply emit_emitted. Qed.

(** The sections of [Ingest] leave the channel and its closing alone. *)
Lemma ingest_flow_frame a m :
  out (fst (ingest_flow a m)) = out a /\ out_closed (fst (ingest_flow a m)) = out_closed a /\
  portShards (fst (ingest_flow a m)) = portShards a /\
  length (flowShards (fst (ingest_flow a m))) = length (flowShards a).
Proof.
  unfold ingest_flow. destruct (canonicalize m) as [k lo].
  repeat case_match; simpl; rewrite ?length_insert; done.
Qed.

(** Fields of [control_ok] after a step: the step's conditions decide them. *)
Ltac control_t :=
  split; simpl in *; repeat match goal with H : d_aggpc _ = _ |- _ => rewrite H in * | H : d_inf _ = _ |- _ => rewrite H in *
    | H : d_fcpc _ = _ |- _ => rewrite H in * | H : d_main _ = _ |- _ => rewrite H in * | H : d_sig _ = _ |- _ => rewrite H in * end;
  simpl in *; intuition congruence.

Lemma main_control d w d' : control_ok d -> main_step d w (Some d') -> control_ok d'.
Proof.
  intros [] Hs. inversion Hs as [| ? m a tracked ? ? ? E | | | | | |]; subst; clear Hs; try control_t.
  - assert (Hc : out_closed a = out_closed (d_agg d))
      by (pose proof (ingest_flow_frame (d_agg d) m) as (_ & Hc & _); by rewrite E in Hc).
    clear E. rewrite <- Hc in *. destruct tracked; control_t.
  - destruct (d_cancelled d) eqn:Ec; control_t.
Qed.

Lemma agg_control d w d' : control_ok d -> agg_step d w (Some d') -> control_ok d'.
Proof.
  intros [] Hs. inversion Hs as [| | | | |i fa rest snap ws we fin Hpc Hw E| |i snap ws we fin Hpc Hi|Hpc Hw E]; subst; clear Hs; try control_t.
  - destruct (emit _ _) as [a|] eqn:Ea; [|done]. injection E as <-.
    assert (Ho : out_closed (d_agg d) = false) by (destruct (out_closed (d_agg d)); intuition congruence).
    rewrite emit_open in Ea by done. injection Ea as <-. control_t.
  - destruct fin; control_t.
  - destruct (out_closed (d_agg d)) eqn:Ho; rewrite ?Ho in E; [done|]. injection E as <-. control_t.
Qed.

Lemma inf_control d w d' : control_ok d -> inf_step d w (Some d') -> control_ok d'.
Proof.
  intros [] Hs. inversion Hs as [ff rest Hpc Ho r| |al Hpc Hl Hw E| |Hpc Hw E]; subst; clear Hs; try control_t.
  - subst r. assert (Hc : out_closed (recv_out (d_agg d)) = out_closed (d_agg d)) by done.
    destruct (Malicious _); revert Hc; generalize (recv_out (d_agg d)); intros a' Hc; rewrite <- Hc in *; control_t.
  - assert (Hcan : d_cancelled d = true) by (apply i_final0; by rewrite (proj1 i_out0)). control_t.
  - destruct (d_alerts_closed d) eqn:Ec; rewrite ?Ec in E; [intuition congruence|]. injection E as <-. control_t.
  - destruct (d_alerts_closed d) eqn:Ec; rewrite ?Ec in E; [intuition congruence|]. injection E as <-. control_t.
Qed.

Lemma fc_control d w d' : control_ok d -> fc_step d w (Some d') -> control_ok d'.
Proof.
  intros [] Hs. inversion Hs as [|now Hpc Hw E|al rest now Hpc Hal Hw E|]; subst; clear Hs; try control_t.
  - destruct (runJanitor _ _ _) as [[[fc k] out]|]; [|done]. injection E as <-. control_t.
  - destruct (handle _ _ _ _) as [[[fc k] r]|]; [|done]. injection E as <-. control_t.
Qed.

Lemma sig_control d w d' : control_ok d -> sig_step d w (Some d') -> control_ok d'.
Proof. intros [] Hs. inversion Hs; subst; clear Hs; control_t. Qed.

Lemma control_step d w d' : control_ok d -> daemon_step d w (Some d') -> control_ok d'.
Proof. intros Hc []; eauto using main_control, agg_control, inf_control, fc_control, sig_control. Qed.

(** No step panics. *)
Lemma step_not_panic d w o : control_ok d -> data_ok d -> daemon_step d w o -> o <> None.
Proof.
  intros [] [] [Hs|Hs|Hs|Hs|Hs]; inversion Hs; subst; try done.
  - rewrite emit_open; [done|]. destruct (out_closed (d_agg d)); intuition congruence.
  - destruct (out_closed (d_agg d)); [intuition congruence|done].
  - destruct (d_alerts_closed d); [intuition congruence|done].
  - destruct (d_alerts_closed d); [intuition congruence|done].
  - by destruct (runJanitor_spec (d_fc d) (d_kernel d) now) as (? & ? & ? & -> & _).
  - match goal with Ha : d_alerts d = _ |- _ => rewrite Ha in i_dotted0 end.
    apply Forall_cons in i_dotted0 as [Hal _].
    by destruct (handle_handled (d_fc d) (d_kernel d) al now) as (? & ? & ? & -> & _).
Qed.

Lemma main_data d w d' : data_ok d -> main_step d w (Some d') -> data_ok d'.
Proof.
  intros [] Hs. inversion Hs as [| ? m a tracked ? ? ? E | | | | | |]; subst; clear Hs; try (by split).
  pose proof (ingest_flow_frame (d_agg d) m) as (Ho & _ & _ & Hl). rewrite E in Ho, Hl. simpl in Ho, Hl.
  split; simpl; rewrite ?Ho, ?Hl; done.
Qed.

Lemma agg_data d w d' : data_ok d -> control_ok d -> agg_step d w (Some d') -> data_ok d'.
Proof.
  intros [] [] Hs. inversion Hs as [| | | | |i fa rest snap ws we fin Hpc Hw E| |i snap ws we fin Hpc Hi|Hpc Hw E];
    subst; clear Hs; try (by split); try (split; simpl; try done; by destruct fin).
  - split; simpl; rewrite ?length_insert; done.
  - destruct (emit _ _) as [a|] eqn:Ea; [|done]. injection E as <-.
    assert (Ho : out_closed (d_agg d) = false) by (destruct (out_closed (d_agg d)); intuition congruence).
    rewrite emit_open in Ea by done. injection Ea as <-. rewrite Hpc in i_index0. split; simpl; try done.
    + rewrite length_app, length_take. unfold room, outputBufferSize in *. simpl length. lia.
    + apply Forall_app. split; [done|]. apply Forall_take. constructor; [by eexists|constructor].
  - destruct (out_closed (d_agg d)) eqn:Ho; rewrite ?Ho in E; [done|]. injection E as <-. by split.
Qed.

Lemma inf_data d w d' : data_ok d -> inf_step d w (Some d') -> data_ok d'.
Proof.
  intros [] Hs. inversion Hs as [ff rest Hpc Ho r| |al Hpc Hl Hw E| |Hpc Hw E]; subst; clear Hs; try (by split).
  - subst r. rewrite Ho in i_out_len0, i_vectors0. apply Forall_cons in i_vectors0 as [Hff Hrest].
    split; simpl; rewrite ?Ho; simpl in *; try done; [lia|].
    intros al. destruct (Malicious _); [|done]. intros [= <-]. by apply alert_no_slash.
  - destruct (d_alerts_closed d) eqn:Ec; rewrite ?Ec in E; [done|]. injection E as <-. split; simpl; try done.
    + rewrite length_app. simpl. lia.
    + apply Forall_app. split; [done|]. constructor; [by apply i_pending0|constructor].
  - destruct (d_alerts_closed d) eqn:Ec; rewrite ?Ec in E; [done|]. injection E as <-. by split.
Qed.

Lemma fc_data d w d' : data_ok d -> fc_step d w (Some d') -> data_ok d'.
Proof.
  intros [] Hs. inversion Hs as [|now Hpc Hw E|al rest now Hpc Hal Hw E|]; subst; clear Hs; try (by split).
  - destruct (runJanitor _ _ _) as [[[fc k] out]|] eqn:Ej; [|done]. injection E as <-.
    destruct (janitor_tracked_ok _ _ _ _ _ _ i_wired0 i_tracked0 Ej) as (Em & _ & Hok).
    split; simpl; rewrite ?Em; done.
  - rewrite Hal in *. apply Forall_cons in i_dotted0 as [Hs Hrest].
    destruct (handle_handled (d_fc d) (d_kernel d) al now i_wired0 Hs) as (fc & k & r & Eh & Hr).
    rewrite Eh in E. injection E as <-. destruct (handled_frame _ _ _ _ _ _ _ Hr) as [Em _].
    split; simpl in *; rewrite ?Em; try done; [lia|]. by eapply handled_tracked_ok.
Qed.

Lemma sig_data d w d' : data_ok d -> sig_step d w (Some d') -> data_ok d'.
Proof. intros [] Hs. inversion Hs; subst; clear Hs; by split. Qed.

Lemma data_step d w d' : data_ok d -> control_ok d -> daemon_step d w (Some d') -> data_ok d'.
Proof. intros Hd Hc []; eauto using main_data, agg_data, inf_data, fc_data, sig_data. Qed.

Lemma start_ok mgr h k now :
  wired mgr -> control_ok (daemon_start mgr h k now) /\ data_ok (daemon_start mgr h k now).
Proof.
  intros Hw. split; split; simpl; try done; try (intuition congruence).
Qed.

Lemma reachable_ok mgr h k now d :
  wired mgr -> reachable (daemon_start mgr h k now) d -> control_ok d /\ data_ok d.
Proof.
  intros Hw. induction 1 as [|d d' w Hr [Hc Hd] Hs]; [by apply start_ok|].
  split; [by eapply control_step|by eapply data_step].
Qed.

(** ** Shutdown

    A number that every step of the program itself decreases. *)

Definition tracked_flows (a : Aggregator) : nat := foldr Nat.add 0%nat (map size (flowShards a)).

Lemma tracked_flows_clear a i :
  length (flowShards a) = Z.to_nat numShards -> Z.of_nat i < numShards ->
  (tracked_flows (set_flow_shard a (Z.of_nat i) ∅) + size (flow_shard a (Z.of_nat i)) = tracked_flows a)%nat.
Proof.
  intros Hl Hi. unfold tracked_flows, set_flow_shard, flow_shard. simpl flowShards. rewrite Nat2Z.id.
  assert (Hi' : (i < length (flowShards a))%nat) by (rewrite Hl; unfold numShards in *; lia). clear Hl Hi.
  generalize dependent i. induction (flowShards a) as [|s l IH]; intros i Hi; simpl in *; [lia|].
  destruct i as [|i]; simpl; [rewrite map_size_empty; lia|]. specialize (IH i ltac:(lia)). lia.
Qed.

Definition agg_weight (pc : agg_pc) : nat :=
  let base (fin : bool) := if fin then 0%nat else 200%nat in
  match pc with
  | ASelect => 100
  | APorts i _ _ _ fin => base fin + (16 - i) + 60
  | AFlows i _ _ _ fin => base fin + 2 * (16 - i) + 3
  | AEmit i rest _ _ _ fin => base fin + 2 * (16 - i) + 2 + 5 * length rest
  | AClose => 1
  | ADone => 0
  end.

Definition measure (d : daemon) : nat :=
  6 * tracked_flows (d_agg d) + 4 * length (out (d_agg d)) + length (d_alerts d) + agg_weight (d_aggpc d) +
  match d_main d with MPort _ => 4 | MRead => 3 | MCancel => 2 | MWait => 1 | MReturned => 0 end +
  match d_inf d with IRange => 2 | ISend _ => 5 | ICloseAlerts => 1 | IDone => 0 end +
  match d_fcpc d with FSelect => 1 | FDone => 0 end +
  match d_sig d with SWait => 2 | SCancel => 1 | SDone => 0 end.

Lemma emitted_one_out a ff : (length (out (emitted a [ff])) <= length (out a) + 1)%nat.
Proof. unfold emitted. simpl. rewrite length_app, length_take. simpl. lia. Qed.

Lemma set_agg_measure d a pc :
  (measure (set_agg d a pc) + agg_weight (d_aggpc d) + 6 * tracked_flows (d_agg d) + 4 * length (out (d_agg d)) =
   measure d + agg_weight pc + 6 * tracked_flows a + 4 * length (out a))%nat.
Proof. unfold measure. cbn [d_agg set_agg d_alerts d_main d_inf d_fcpc d_sig d_aggpc]. lia. Qed.

Lemma agg_measure d d' : data_ok d -> control_ok d -> agg_step d Self (Some d') -> (measure d' < measure d)%nat.
Proof.
  intros [] [] Hs. inversion Hs as [|now Hpc Hcan|i snap ws we fin Hpc Hi|i snap ws we fin Hpc Hi|i snap ws we fin Hpc Hi
    |i fa rest snap ws we fin Hpc Hw E|i snap ws we fin Hpc|i snap ws we fin Hpc Hi|Hpc Hw E];
    subst; clear Hs; rewrite Hpc in i_index0; unfold numShards in *;
    try (match goal with |- (measure (set_agg _ ?a ?pc) < _)%nat => pose proof (set_agg_measure d a pc) as Hm end;
         rewrite Hpc in Hm; unfold agg_weight in Hm; cbv beta iota zeta in Hm).
  - change (tracked_flows (flush_window (d_agg d) now)) with (tracked_flows (d_agg d)) in Hm. simpl out in Hm. lia.
  - change (tracked_flows (set_port_shard (d_agg d) (Z.of_nat i) ∅)) with (tracked_flows (d_agg d)) in Hm. simpl out in Hm. lia.
  - lia.
  - pose proof (tracked_flows_clear (d_agg d) i i_flow_len0 Hi) as Hf.
    rewrite length_map, (Permutation_length (range_map_perm _)), length_map_to_list in Hm. simpl out in Hm. lia.
  - destruct (emit _ _) as [a|] eqn:Ea; [|done]. injection E as <-.
    assert (Ho : out_closed (d_agg d) = false) by (destruct (out_closed (d_agg d)); intuition congruence).
    rewrite emit_open in Ea by done. injection Ea as <-.
    pose proof (emitted_one_out (d_agg d) (make_features snap ws we fa)) as Hlen.
    pose proof (set_agg_measure d (emitted (d_agg d) [make_features snap ws we fa]) (AEmit i rest snap ws we fin)) as Hm.
    rewrite Hpc in Hm. unfold agg_weight in Hm; cbv beta iota zeta in Hm.
    change (length (fa :: rest)) with (S (length rest)) in Hm.
    assert (Ht : tracked_flows (emitted (d_agg d) [make_features snap ws we fa]) = tracked_flows (d_agg d)) by done.
    rewrite Ht in Hm. lia.
  - simpl length in Hm. lia.
  - destruct fin; lia.
  - destruct (out_closed (d_agg d)) eqn:Ho; rewrite ?Ho in E; [done|]. injection E as <-.
    pose proof (set_agg_measure d (close_out (d_agg d)) ADone) as Hm. rewrite Hpc in Hm. unfold agg_weight in Hm; cbv beta iota zeta in Hm.
    change (tracked_flows (close_out (d_agg d))) with (tracked_flows (d_agg d)) in Hm. simpl out in Hm. lia.
Qed.

Lemma self_measure d d' : data_ok d -> control_ok d -> daemon_step d Self (Some d') -> (measure d' < measure d)%nat.
Proof.
  intros Hd Hc [Hs|Hs|Hs|Hs|Hs]; [|by apply agg_measure| | |].
  - inversion Hs as [| |m Hpc| |Hpc Ho|Hpc|Hpc Ha Hi Hf|]; subst; clear Hs; unfold measure; simpl; rewrite Hpc; try lia.
    change (tracked_flows (ingest_port (d_agg d) m)) with (tracked_flows (d_agg d)). lia.
  - inversion Hs as [ff rest Hpc Ho r| Hpc Ho Hcl|al Hpc Hl Hw E|al Hpc Hcan|Hpc Hw E]; subst; clear Hs.
    + unfold measure. simpl. rewrite Hpc, Ho. simpl length.
      change (tracked_flows (recv_out (d_agg d))) with (tracked_flows (d_agg d)). subst r. destruct (Malicious _); lia.
    + unfold measure. simpl. rewrite Hpc. lia.
    + destruct (d_alerts_closed d) eqn:Ec; rewrite ?Ec in E; [done|]. injection E as <-.
      unfold measure. simpl. rewrite Hpc, length_app. simpl length. lia.
    + unfold measure. simpl. rewrite Hpc. lia.
    + destruct (d_alerts_closed d) eqn:Ec; rewrite ?Ec in E; [done|]. injection E as <-.
      unfold measure. simpl. rewrite Hpc. lia.
  - inversion Hs as [Hpc Hcan| |al rest now Hpc Hal Hw E|Hpc Hal Hcl]; subst; clear Hs.
    + unfold measure. simpl. rewrite Hpc. lia.
    + destruct (handle _ _ _ _) as [[[fc k] r]|]; [|done]. injection E as <-.
      unfold measure. simpl. rewrite Hpc, Hal. simpl length. lia.
    + unfold measure. simpl. rewrite Hpc, Hal. lia.
  - inversion Hs as [|Hpc|Hpc Hcan]; subst; clear Hs; unfold measure; simpl; rewrite Hpc; lia.
Qed.

(** Once the context is cancelled, some goroutine can always move until
    [RunDaemon] returns. *)
Lemma agg_moves d : d_aggpc d <> ADone -> d_cancelled d = true -> exists o, agg_step d Self o.
Proof.
  intros Hne Hcan. destruct (d_aggpc d) as [|i snap ws we fin|i snap ws we fin|i [|fa rest] snap ws we fin| |] eqn:Hpc; [..|done].
  - eexists. by apply (agg_cancelled d 0).
  - destruct (Z.lt_ge_cases (Z.of_nat i) numShards); eexists; [by eapply agg_port_shard|by eapply agg_ports_done].
  - destruct (Z.lt_ge_cases (Z.of_nat i) numShards); eexists; [by eapply agg_flow_shard|by eapply agg_flush_done].
  - eexists. by eapply agg_shard_done.
  - eexists. by eapply agg_emit.
  - eexists. by apply agg_close.
Qed.

Lemma inf_moves d :
  control_ok d -> d_aggpc d = ADone -> d_inf d <> IDone -> d_cancelled d = true -> exists o, inf_step d Self o.
Proof.
  intros [] Ha Hne Hcan. destruct (d_inf d) as [|al| |] eqn:Hpc; [..|done].
  - destruct (out (d_agg d)) as [|ff rest] eqn:Ho; eexists; [apply inf_closed; try done; by apply i_out0|by eapply inf_recv].
  - eexists. by eapply inf_cancelled.
  - eexists. by apply inf_close.
Qed.

Lemma progress d :
  control_ok d -> data_ok d -> d_cancelled d = true -> d_main d <> MReturned ->
  exists d', daemon_step d Self (Some d').
Proof.
  intros Hc Hd Hcan Hne.
  assert (Hsome : forall o, daemon_step d Self o -> exists d', daemon_step d Self (Some d')).
  { intros [d'|] Hs; [by exists d'|]. by destruct (step_not_panic d Self None Hc Hd Hs). }
  destruct (d_main d) as [|m| | |] eqn:Hm; [| | | |done].
  - destruct (d_reader_open d) eqn:Ho.
    + apply (Hsome (Some (set_sig d false true SDone))). apply step_sig, sig_ctx_done; [|done].
      destruct (d_sig d) eqn:Es; [done|..]; destruct Hc; intuition congruence.
    + eapply Hsome, step_main, read_closed; done.
  - eapply Hsome, step_main, ingest_ports; done.
  - eapply Hsome, step_main, main_cancel; done.
  - assert (Ha : d_aggpc d = ADone \/ d_aggpc d <> ADone) by (destruct (d_aggpc d); auto; right; discriminate).
    destruct Ha as [Ha|Ha]; [|destruct (agg_moves d Ha Hcan) as [o Ho]; by eapply Hsome, step_agg].
    assert (Hi : d_inf d = IDone \/ d_inf d <> IDone) by (destruct (d_inf d); auto; right; discriminate).
    destruct Hi as [Hi|Hi]; [|destruct (inf_moves d Hc Ha Hi Hcan) as [o Ho]; by eapply Hsome, step_inf].
    destruct (d_fcpc d) eqn:Hf.
    + eapply Hsome, step_fc, fc_cancelled; done.
    + eapply Hsome, step_main, main_wait; done.
Qed.

(** Steps of the program itself, without the environment. *)
Inductive self_steps : daemon -> daemon -> Prop :=
  | self_refl d : self_steps d d
  | self_step d d' d'' : daemon_step d Self (Some d') -> self_steps d' d'' -> self_steps d d''.

Lemma cancelled_kept d w d' : d_cancelled d = true -> daemon_step d w (Some d') -> d_cancelled d' = true.
Proof.
  intros Hcan [Hs|Hs|Hs|Hs|Hs]; inversion Hs; subst; try done;
    repeat match goal with
    | H : option_map _ ?o = Some _ |- _ => destruct o as [[[? ?] ?]|] || destruct o; [injection H as <-|discriminate H]
    | H : (if ?b then None else Some _) = Some _ |- _ => destruct b; [discriminate H|injection H as <-]
    end; done.
Qed.

Lemma run_to_end n d :
  (measure d <= n)%nat -> control_ok d -> data_ok d -> d_cancelled d = true ->
  exists d', self_steps d d' /\ d_main d' = MReturned /\ control_ok d' /\ data_ok d'.
Proof.
  revert d. induction n as [|n IH]; intros d Hn Hc Hd Hcan.
  - assert (Hm : d_main d = MReturned) by (unfold measure in Hn; destruct (d_main d); [lia..|done]).
    exists d. split_and!; [constructor|done..].
  - assert (Hm : d_main d = MReturned \/ d_main d <> MReturned) by (destruct (d_main d); auto; right; discriminate).
    destruct Hm as [Hm|Hm]; [exists d; split_and!; [constructor|done..]|].
    destruct (progress d Hc Hd Hcan Hm) as [d' Hs]. pose proof (self_measure d d' Hd Hc Hs).
    destruct (IH d') as (d'' & Hss & ? & ? & ?);
      [lia|by eapply control_step|by eapply data_step|by eapply cancelled_kept|].
    exists d''. split_and!; [by eapply self_step|done..].
Qed.

(** ** The properties of the daemon *)

(** The daemon never panics and its buffers stay bounded. In every state it
    can reach, under any interleaving of its goroutines and whatever the kernel,
    the ring buffer and the clock do, no step sends on a closed channel, closes
    one twice or calls a nil map; the feature channel holds at most 4096
    vectors and the alert channel at most 1024 alerts; and the alerts name
    addresses the controller can block. *)
Theorem daemon_never_panics (mgr : MapManager) (h : Host) (k : kernel) (now : Z) (d : daemon) :
  wired mgr -> reachable (daemon_start mgr h k now) d ->
  (forall w o, daemon_step d w o -> o <> None) /\
  Z.of_nat (length (out (d_agg d))) <= outputBufferSize /\
  Z.of_nat (length (d_alerts d)) <= alertBufferSize /\
  Forall no_slash (d_alerts d).
Proof.
  intros Hw Hr. destruct (reachable_ok mgr h k now d Hw Hr) as [Hc Hd]. destruct (Hd).
  split; [|done]. intros w o. by apply step_not_panic.
Qed.

(** The daemon shuts down. Once the context is cancelled, by a signal, the
    caller or the reader, the goroutines left to themselves always reach the
    return of [RunDaemon]: every step they take decreases [measure], as long as
    it has not returned some goroutine can move, and so a run of their own
    steps reaches the return, with both channels closed. *)
Theorem daemon_shuts_down (mgr : MapManager) (h : Host) (k : kernel) (now : Z) (d : daemon) :
  wired mgr -> reachable (daemon_start mgr h k now) d ->
  (forall d', daemon_step d Self (Some d') -> (measure d' < measure d)%nat) /\
  (d_cancelled d = true ->
   (d_main d <> MReturned -> exists d', daemon_step d Self (Some d')) /\
   exists d', self_steps d d' /\ d_main d' = MReturned /\ out_closed (d_agg d') = true /\ d_alerts_closed d' = true).
Proof.
  intros Hw Hr. destruct (reachable_ok mgr h k now d Hw Hr) as [Hc Hd].
  split; [intros d'; by apply self_measure|]. intros Hcan. split; [by apply progress|].
  destruct (run_to_end (measure d) d) as (d' & Hs & Hm & [] & _); [done..|].
  exists d'. destruct (i_returned0 Hm) as (Ha & Hi & _). split_and!; try done; [by apply i_out0|by apply i_alerts0].
Qed.

(** Only the feedback goroutine changes the controller and the kernel. *)
Lemma other_steps_frame d w d' :
  daemon_step d w (Some d') -> (d_fc d' = d_fc d /\ d_kernel d' = d_kernel d) \/ fc_step d w (Some d').
Proof.
  intros [Hst|Hst|Hst|Hst|Hst]; [left|left|left|by right|left]; inversion Hst; subst; clear Hst; try done;
    match goal with
    | E : option_map _ ?o = Some _ |- _ => destruct o; [injection E as <-; done|discriminate E]
    | E : (if ?x then None else Some _) = Some _ |- _ => destruct x; [discriminate E|injection E as <-; done]
    end.
Qed.

Lemma safe_step n a b c e d w d' :
  Contains n (IPv4 a b c e) = true -> data_ok d -> unblocked_safe n a b c e (d_fc d) (d_kernel d) ->
  daemon_step d w (Some d') -> unblocked_safe n a b c e (d_fc d') (d_kernel d').
Proof.
  intros Hn [] Hs Hst. destruct (other_steps_frame _ _ _ Hst) as [[-> ->]|Hf]; [done|].
  inversion Hf as [|now Hpc Hw E|al rest now Hpc Hal Hw E|]; subst; clear Hf; try done.
  - destruct (runJanitor _ _ _) as [[[fc k] out]|] eqn:Ej; [|done]. injection E as <-. by eapply janitor_safe.
  - rewrite Hal in *. apply Forall_cons in i_dotted0 as [Hsl _].
    destruct (handle_handled (d_fc d) (d_kernel d) al now i_wired0 Hsl) as (fc & k & r & Eh & Hr).
    rewrite Eh in E. injection E as <-. by eapply handled_safe.
Qed.

Lemma reachable_safe mgr h k now d n a b c e :
  wired mgr -> reachable (daemon_start mgr h k now) d ->
  n ∈ DiscoverSafeNetworks h -> Contains n (IPv4 a b c e) = true ->
  blocked_entry k [a; b; c; e] = None -> unblocked_safe n a b c e (d_fc d) (d_kernel d).
Proof.
  intros Hw Hr Hn Hc Hb. induction Hr as [|d d' w Hr IH Hst]; [by split|].
  destruct (reachable_ok mgr h k now d Hw Hr) as [_ Hd]. by eapply safe_step.
Qed.

(** End to end, the daemon never blocks its own infrastructure. An address
    inside one of the networks found at start-up, not blocked when the daemon
    starts, is not blocked in any state the daemon reaches, whatever traffic
    the ring buffer delivers and whatever the scheduler does. *)
Theorem daemon_never_blocks_safe (mgr : MapManager) (h : Host) (k : kernel) (now : Z) (d : daemon)
    (n : IPNet) (a b c e : Z) :
  wired mgr -> reachable (daemon_start mgr h k now) d ->
  n ∈ DiscoverSafeNetworks h -> Contains n (IPv4 a b c e) = true ->
  blocked_entry k [a; b; c; e] = None -> blocked_entry (d_kernel d) [a; b; c; e] = None.
Proof. intros Hw Hr Hn Hc Hb. by destruct (reachable_safe mgr h k now d n a b c e Hw Hr Hn Hc Hb). Qed.

(** [RunDaemon] restores the log level. When the level cannot be set to
    debug it returns the error having changed nothing; otherwise, however it
    ends and whatever its loop did, it finally sets the level that was read at
    the start, OFF if it could not be read, so that the level is that one
    unless this last write fails. *)
Theorem RunDaemon_restores_level (m : MapManager) (newReader : option error)
    (loop : kernel -> kernel * Aggregator * list printed) (k : kernel) (prev : Z) (perr : option error) :
  wired m -> GetLogLevel m k = Some (prev, perr) ->
  let restored := match perr with Some _ => LogLevelOff | None => prev end in
  exists k1 e1, SetLogLevel m LogLevelDebug k = Some (k1, e1) /\
    match e1 with
    | Some e => RunDaemon m newReader loop k =
        Some (k1, [], Some (ErrorfW "failed to enable full telemetry (CONFIG_MAP -> debug): %w" [] e)) /\ entries k1 = entries k
    | None =>
        let k2 := match newReader with Some _ => k1 | None => fst (fst (loop k1)) end in
        exists k3 out e3, SetLogLevel m restored k2 = Some (k3, e3) /\
          RunDaemon m newReader loop k =
            Some (k3, out, option_map (ErrorfW "failed to open eBPF ring buffer reader: %w" []) newReader) /\
          (e3 = None -> entries k3 (pinned "config_map") !! le_split 4 0 = Some (le_split 4 restored))
    end.
Proof.
  intros Hw Hg. cbv zeta. set (restored := match perr with Some _ => LogLevelOff | None => prev end).
  pose proof (fun level k => SetLogLevel_register m level k Hw) as Hset.
  destruct (Hset LogLevelDebug k) as (k1 & e1 & E1 & Hset1). exists k1, e1. split; [done|].
  unfold RunDaemon. rewrite Hg. simpl mbind. cbv beta iota zeta. rewrite E1. simpl. destruct e1 as [e1|]; [done|].
  destruct (w_events m Hw) as (ev & Hev & _). unfold GetEventsMap. rewrite Hev.
  destruct newReader as [e|]; simpl; fold restored; [|destruct (loop k1) as [[k2 agg] lines]; simpl].
  - destruct (Hset restored k1) as (k3 & e3 & E3 & H3). exists k3, [], e3. rewrite E3. split_and!; try done.
    by intros ->.
  - destruct (Hset restored k2) as (k3 & e3 & E3 & H3). eexists k3, _, e3. rewrite E3. split_and!; try done.
    by intros ->.
Qed.

(** ** Telemetry under interleaving *)

(** The packets the aggregator holds: in the shards, and in the shard being
    emitted. *)
Definition shard_packets (s : gmap FlowKey flowAccumulator) : Z := msum packetCount s.
Definition held_packets (d : daemon) : Z :=
  sumZ (map shard_packets (flowShards (d_agg d))) +
  match d_aggpc d with AEmit _ rest _ _ _ _ => sumZ (map packetCount rest) | _ => 0 end.

(** What a step adds to the packets accepted by [Ingest], and to the packets
    counted by the vectors made. *)
Definition accepted_by (d d' : daemon) : Z :=
  match d_main d, d_main d' with MRead, MPort _ => 1 | _, _ => 0 end.
Definition reported_by (d d' : daemon) : Z :=
  match d_aggpc d, d_aggpc d' with
  | AEmit _ (fa :: rest) _ _ _ _, AEmit _ rest' _ _ _ _ => if (length rest' =? length rest)%nat then packetCount fa else 0
  | _, _ => 0
  end.

(** Runs, with the two totals. *)
Inductive traced (d0 : daemon) : daemon -> Z -> Z -> Prop :=
  | traced_start : traced d0 d0 0 0
  | traced_step d d' w t r :
      traced d0 d t r -> daemon_step d w (Some d') ->
      traced d0 d' (t + accepted_by d d') (r + reported_by d d').

Lemma traced_reachable d0 d t r : traced d0 d t r -> reachable d0 d.
Proof. induction 1; [constructor|by econstructor]. Qed.

Lemma sum_shards_insert (l : list (gmap FlowKey flowAccumulator)) i s :
  (i < length l)%nat ->
  sumZ (map shard_packets (<[i := s]> l)) = sumZ (map shard_packets l) - shard_packets (default ∅ (l !! i)) + shard_packets s.
Proof.
  revert i. induction l as [|s0 l IH]; intros i Hi; simpl in *; [lia|].
  destruct i as [|i]; unfold sumZ in *; simpl; [lia|]. rewrite IH by lia. lia.
Qed.

Definition counts_ok (d : daemon) : Prop :=
  Forall (fun s : gmap FlowKey flowAccumulator => forall k fa, s !! k = Some fa -> 0 <= packetCount fa) (flowShards (d_agg d)) /\
  match d_aggpc d with AEmit _ rest _ _ _ _ => Forall (fun fa => 0 <= packetCount fa) rest | _ => True end.

Lemma flow_shard_counts a i :
  Forall (fun s : gmap FlowKey flowAccumulator => forall k fa, s !! k = Some fa -> 0 <= packetCount fa) (flowShards a) ->
  forall k fa, flow_shard a i !! k = Some fa -> 0 <= packetCount fa.
Proof.
  intros Hall k fa. unfold flow_shard. destruct (flowShards a !! Z.to_nat i) as [s|] eqn:E; simpl; [|by rewrite lookup_empty].
  by apply (Forall_lookup_1 _ _ _ _ Hall E).
Qed.

Lemma shards_nonneg l :
  Forall (fun s : gmap FlowKey flowAccumulator => forall k fa, s !! k = Some fa -> 0 <= packetCount fa) l ->
  0 <= sumZ (map shard_packets l).
Proof. induction 1 as [|s l Hs _ IH]; [done|]. unfold sumZ in *. simpl. pose proof (msum_nonneg packetCount s Hs). unfold shard_packets at 1. lia. Qed.

(** One packet, in the flow section: one more packet held if it is tracked. *)
Lemma ingest_flow_packets a m :
  length (flowShards a) = Z.to_nat numShards ->
  Forall (fun s : gmap FlowKey flowAccumulator => forall k fa, s !! k = Some fa -> 0 <= packetCount fa) (flowShards a) ->
  sumZ (map shard_packets (flowShards a)) < 2 ^ 64 - 1 ->
  let '(a', tracked) := ingest_flow a m in
  sumZ (map shard_packets (flowShards a')) = sumZ (map shard_packets (flowShards a)) + (if tracked then 1 else 0) /\
  Forall (fun s : gmap FlowKey flowAccumulator => forall k fa, s !! k = Some fa -> 0 <= packetCount fa) (flowShards a').
Proof.
  intros Hl Hpos Hlt. unfold ingest_flow. destruct (canonicalize m) as [key lo].
  pose proof (shardIndex_range key) as Hr.
  assert (Hi : (Z.to_nat (shardIndex key) < length (flowShards a))%nat) by (rewrite Hl; lia).
  set (fs := flow_shard a (shardIndex key)).
  assert (Hfs : forall k fa, fs !! k = Some fa -> 0 <= packetCount fa) by by apply flow_shard_counts.
  assert (Hsub : shard_packets fs <= sumZ (map shard_packets (flowShards a))).
  { pose proof (sum_shards_insert (flowShards a) (Z.to_nat (shardIndex key)) ∅ Hi) as Hs.
    assert (H0' : 0 <= sumZ (map shard_packets (<[Z.to_nat (shardIndex key) := ∅]> (flowShards a)))).
    { apply shards_nonneg, Forall_insert; [done|]. intros k fa. by rewrite lookup_empty. }
    unfold shard_packets in Hs at 4. rewrite msum_empty in Hs. fold (flow_shard a (shardIndex key)) in Hs. fold fs in Hs. lia. }
  assert (Hset : forall fa, packetCount fa = match fs !! key with Some fa0 => packetCount fa0 | None => 0 end ->
    let s := <[key := observe fa m lo]> fs in
    sumZ (map shard_packets (flowShards (set_flow_shard a (shardIndex key) s))) = sumZ (map shard_packets (flowShards a)) + 1 /\
    Forall (fun s : gmap FlowKey flowAccumulator => forall k fa, s !! k = Some fa -> 0 <= packetCount fa)
      (flowShards (set_flow_shard a (shardIndex key) s))).
  { intros fa Hfa. cbv zeta. destruct (observe_fields fa m lo) as (Ep & _).
    assert (Hb : 0 <= packetCount fa <= shard_packets fs).
    { rewrite Hfa. destruct (fs !! key) as [fa0|] eqn:E; [|pose proof (msum_nonneg packetCount fs Hfs); unfold shard_packets; lia].
      split; [by apply (Hfs key)|]. unfold shard_packets. rewrite (msum_delete packetCount fs key fa0 E).
      assert (0 <= msum packetCount (delete key fs)); [|lia].
      apply msum_nonneg. intros k v [_ Hk]%lookup_delete_Some. by apply (Hfs k). }
    rewrite wrap_small in Ep by (unfold in_u; lia). simpl. split.
    - rewrite sum_shards_insert by done. change (default ∅ (flowShards a !! Z.to_nat (shardIndex key))) with fs.
      unfold shard_packets at 3. rewrite msum_insert, Ep, Hfa. fold (shard_packets fs). lia.
    - apply Forall_insert; [done|]. intros k fa' [[<- <-]|[_ Hk]]%lookup_insert_Some; [rewrite Ep; lia|by apply (Hfs k)]. }
  destruct (fs !! key) as [fa|] eqn:E; [by apply Hset|]. destruct (maxFlowsPerShard <=? _); [by rewrite Z.add_0_r|]. by apply (Hset new_flow).
Qed.

Lemma accepted_same d d' : d_main d' = d_main d -> accepted_by d d' = 0.
Proof. unfold accepted_by. intros ->. by destruct (d_main d). Qed.
Lemma reported_same d d' : d_aggpc d' = d_aggpc d -> reported_by d d' = 0.
Proof.
  unfold reported_by. intros ->. destruct (d_aggpc d) as [| | |i [|fa rest]| |]; try done.
  by rewrite (proj2 (Nat.eqb_neq _ _)) by (simpl; lia).
Qed.

(** A step that keeps the flow shards and the emission keeps the balance. *)
Lemma balance_same d d' :
  flowShards (d_agg d') = flowShards (d_agg d) -> d_aggpc d' = d_aggpc d ->
  accepted_by d d' = 0 -> counts_ok d ->
  held_packets d' = held_packets d + accepted_by d d' - reported_by d d' /\ counts_ok d'.
Proof.
  intros Hf Hp Ha Hc. rewrite Ha, (reported_same d d' Hp). unfold held_packets, counts_ok in *. rewrite Hf, Hp. split; [lia|done].
Qed.

Lemma main_balance d w d' :
  data_ok d -> counts_ok d -> held_packets d < 2 ^ 64 - 1 -> main_step d w (Some d') ->
  held_packets d' = held_packets d + accepted_by d d' - reported_by d d' /\ counts_ok d'.
Proof.
  intros [] [Hpos Hrest] Hlt Hs.
  inversion Hs as [| ? m a tracked Hpc Ho Hu E|m Hpc |Hpc ?|Hpc ?|Hpc|Hpc ? ? ?|]; subst; clear Hs;
    try (apply balance_same; simpl; try done; unfold accepted_by; simpl; rewrite ?Hpc; by repeat case_match).
  assert (Hrest0 : 0 <= match d_aggpc d with AEmit _ rest _ _ _ _ => sumZ (map packetCount rest) | _ => 0 end).
  { destruct (d_aggpc d); try done. apply sumZ_nonneg, Forall_map. exact Hrest. }
  unfold held_packets in Hlt. pose proof (ingest_flow_packets (d_agg d) m i_flow_len0 Hpos ltac:(lia)) as Hi.
  rewrite E in Hi. destruct Hi as [Hsum Hpos']. rewrite (reported_same d) by done.
  unfold held_packets, accepted_by, counts_ok. simpl. rewrite Hpc, Hsum. split; [destruct tracked; lia|done].
Qed.

Lemma agg_balance d w d' :
  data_ok d -> control_ok d -> counts_ok d -> agg_step d w (Some d') ->
  held_packets d' = held_packets d + accepted_by d d' - reported_by d d' /\ counts_ok d'.
Proof.
  intros [] [] [Hpos Hrest] Hs.
  assert (Hclear : forall i pc rest, d_aggpc d = pc -> Z.of_nat i < numShards ->
    rest = map snd (range_map (flow_shard (d_agg d) (Z.of_nat i))) ->
    sumZ (map shard_packets (flowShards (set_flow_shard (d_agg d) (Z.of_nat i) ∅))) + sumZ (map packetCount rest) =
      sumZ (map shard_packets (flowShards (d_agg d))) /\
    Forall (fun fa => 0 <= packetCount fa) rest).
  { intros i pc rest _ Hi ->. simpl. rewrite sum_shards_insert by (rewrite i_flow_len0; unfold numShards in *; lia).
    split.
    - rewrite map_map, (msum_range packetCount). unfold shard_packets at 3. rewrite msum_empty.
      change (default ∅ (flowShards (d_agg d) !! Z.to_nat (Z.of_nat i))) with (flow_shard (d_agg d) (Z.of_nat i)).
      unfold shard_packets at 2. lia.
    - apply Forall_forall. intros fa Hin. apply list_elem_of_fmap in Hin as ([k fa'] & -> & Hin).
      apply elem_range_map in Hin. by apply (flow_shard_counts (d_agg d) (Z.of_nat i) Hpos k). }
  inversion Hs as [now Hpc|now Hpc Hcan|i snap ws we fin Hpc Hi|i snap ws we fin Hpc Hi|i snap ws we fin Hpc Hi
    |i fa rest snap ws we fin Hpc Hw E|i snap ws we fin Hpc|i snap ws we fin Hpc Hi|Hpc Hw E]; subst; clear Hs;
    try (rewrite (accepted_same d) by done);
    unfold held_packets, reported_by, counts_ok in *; simpl; rewrite ?Hpc in *; try (split; [lia|done]).
  - destruct (Hclear i _ _ eq_refl Hi eq_refl) as [Hsum Hok]. simpl in Hsum. split; [lia|]. split; [|done].
    apply Forall_insert; [done|]. intros k fa. by rewrite lookup_empty.
  - destruct (emit _ _) as [a|] eqn:Ea; [|done]. injection E as <-.
    assert (Ho : out_closed (d_agg d) = false) by (destruct (out_closed (d_agg d)); intuition congruence).
    rewrite emit_open in Ea by done. injection Ea as <-. rewrite (accepted_same d) by done. simpl.
    rewrite Nat.eqb_refl. apply Forall_cons in Hrest as [_ Hrest]. unfold sumZ. simpl. split; [lia|done].
  - split; [unfold sumZ at 3; simpl; lia|done].
  - destruct fin; simpl; split; try done; lia.
  - destruct (out_closed (d_agg d)) eqn:Ho; rewrite ?Ho in E; [done|]. injection E as <-.
    rewrite (accepted_same d) by done. simpl. split; [lia|done].
Qed.

Lemma step_balance d w d' :
  data_ok d -> control_ok d -> counts_ok d -> held_packets d < 2 ^ 64 - 1 -> daemon_step d w (Some d') ->
  held_packets d' = held_packets d + accepted_by d d' - reported_by d d' /\ counts_ok d'.
Proof.
  intros Hd Hc Hok Hlt [Hs|Hs|Hs|Hs|Hs].
  - by eapply main_balance.
  - by eapply agg_balance.
  - inversion Hs as [| |al Hpc Hl Hw E| |Hpc Hw E]; subst; clear Hs; try (by apply balance_same; [..|apply accepted_same|]).
    all: destruct (d_alerts_closed d); [done|injection E as <-]; by apply balance_same; [..|apply accepted_same|].
  - inversion Hs as [|now Hpc Hw E|al rest now Hpc Hal Hw E|]; subst; clear Hs; try (by apply balance_same; [..|apply accepted_same|]).
    + destruct (runJanitor _ _ _) as [[[fc k] out]|]; [|done]. injection E as <-. by apply balance_same; [..|apply accepted_same|].
    + destruct (handle _ _ _ _) as [[[fc k] r]|]; [|done]. injection E as <-. by apply balance_same; [..|apply accepted_same|].
  - inversion Hs; subst; clear Hs; by apply balance_same; [..|apply accepted_same|].
Qed.

(** C7: no packet is lost between the ring buffer and the vectors, whatever the
    interleaving. In every state the daemon reaches after accepting fewer than
    2^64 - 1 packets, those packets are exactly the ones counted by the vectors
    already made, held in a shard, or in the shard being emitted: none is
    dropped or counted twice by ingesting while a flush is in progress. *)
Theorem telemetry_conserved (mgr : MapManager) (h : Host) (k : kernel) (now : Z) (d : daemon) (t r : Z) :
  wired mgr -> traced (daemon_start mgr h k now) d t r -> t < 2 ^ 64 - 1 ->
  t = held_packets d + r /\ 0 <= r /\ 0 <= held_packets d.
Proof.
  intros Hw Ht.
  assert (Hgen : t < 2 ^ 64 - 1 -> (t = held_packets d + r /\ 0 <= r) /\ counts_ok d).
  { induction Ht as [|d d' w t r Ht IH Hs]; intros Hlt.
    - split; [split; [reflexivity|done]|]. split; [|done].
      change (flowShards (d_agg (daemon_start mgr h k now))) with
        (replicate (Z.to_nat numShards) (∅ : gmap FlowKey flowAccumulator)).
      apply Forall_replicate. intros key fa. by rewrite lookup_empty.
    - assert (Ha : 0 <= accepted_by d d') by (unfold accepted_by; repeat case_match; lia).
      destruct IH as [[Hb Hr0] Hok]; [lia|].
      destruct (reachable_ok mgr h k now d Hw (traced_reachable _ _ _ _ Ht)) as [Hc Hd].
      destruct (step_balance d w d' Hd Hc Hok) as [Hb' Hok']; [lia|done|].
      assert (Hr : 0 <= reported_by d d').
      { unfold reported_by. destruct Hok as [_ Hrest]. destruct (d_aggpc d) as [| | |i [|fa rest]| |]; try done.
        apply Forall_cons in Hrest as [Hfa _]. repeat case_match; lia. }
      split; [lia|done]. }
  intros Hlt. destruct (Hgen Hlt) as [[Hb Hr] [Hpos Hrest]]. split_and!; try done. unfold held_packets.
  pose proof (shards_nonneg _ Hpos). destruct (d_aggpc d); try lia.
  assert (0 <= sumZ (map packetCount rest)) by (apply sumZ_nonneg, Forall_map; exact Hrest). lia.
Qed.
End invariant.

(** ** Examples, on the simulated kernel *)

Definition sim_host : Host := mkHost (Ok []) (Ok []) None.
Definition sim_daemon : @daemon sim_ebpf := @daemon_start sim_ebpf sim_manager sim_host (sim_start []) 0.

(** A TCP SYN frame from 10.0.0.1, ingested up to its port section. *)
Definition sim_meta : FlowPacketMeta := mkMeta 167772161 3232235876 1024 80 6 2 2 0 5.
Definition sim_ingested : @daemon sim_ebpf :=
  @set_main sim_ebpf sim_daemon (fst (ingest_flow (d_agg sim_daemon) sim_meta)) sim_meta (MPort sim_meta).

Lemma sim_ingest_step : @daemon_step sim_ebpf list_order sample_math sim_daemon Env (Some sim_ingested).
Proof.
  apply step_main.
  apply (read_record sim_daemon (wire_bytes sim_meta) sim_meta (fst (ingest_flow (d_agg sim_daemon) sim_meta)) true);
    [reflexivity|reflexivity|vm_compute; reflexivity|vm_compute; reflexivity].
Qed.

(** The same daemon after a signal. *)
Definition sim_signalled : @daemon sim_ebpf := @set_sig sim_ebpf sim_ingested false false SCancel.
Definition sim_cancelled : @daemon sim_ebpf := @set_sig sim_ebpf sim_signalled false true SDone.

Lemma sim_reaches : @reachable sim_ebpf list_order sample_math sim_daemon sim_cancelled.
Proof.
  eapply reach_step with (w := Self); [|apply step_sig; apply (sig_cancel sim_signalled); reflexivity].
  eapply reach_step with (w := Env); [|apply step_sig; apply (sig_received sim_ingested); reflexivity].
  eapply reach_step; [apply reach_start|exact sim_ingest_step].
Qed.

Lemma daemon_never_panics_witness :
  (forall w o, @daemon_step sim_ebpf list_order sample_math sim_cancelled w o -> o <> None) /\
  Z.of_nat (length (d_alerts sim_cancelled)) <= alertBufferSize.
Proof.
  destruct (@daemon_never_panics sim_ebpf sim_laws list_order sample_math sim_manager sim_host (sim_start []) 0
    sim_cancelled sim_wired sim_reaches) as (Hp & _ & Ha & _).
  split; [exact Hp|exact Ha].
Defined.

Lemma daemon_shuts_down_witness :
  exists d', @self_steps sim_ebpf list_order sample_math sim_cancelled d' /\ d_main d' = MReturned.
Proof.
  destruct (@daemon_shuts_down sim_ebpf sim_laws list_order sample_math sim_manager sim_host (sim_start []) 0
    sim_cancelled sim_wired sim_reaches) as [_ H].
  destruct (H eq_refl) as (_ & d' & Hs & Hm & _). exists d'. split; [exact Hs|exact Hm].
Defined.

Lemma daemon_never_blocks_safe_witness :
  @blocked_entry sim_ebpf sim_laws (d_kernel sim_cancelled) [127; 0; 0; 1] = None.
Proof.
  apply (@daemon_never_blocks_safe sim_ebpf sim_laws list_order sample_math sim_manager sim_host (sim_start []) 0
    sim_cancelled (mkIPNet [127; 0; 0; 0] [255; 0; 0; 0]) 127 0 0 1 sim_wired sim_reaches).
  - vm_compute. apply list_elem_of_here.
  - vm_compute. reflexivity.
  - vm_compute. reflexivity.
Defined.

(** The level was INFO before the daemon. *)
Definition sim_info : sim_kernel :=
  mkSim (fun o => if decide (o = pinned "config_map") then {[le_split 4 0 := le_split 4 LogLevelInfo]} else ∅) [] [].

(** A loop that dropped three vectors. *)
Definition sim_loop (k : sim_kernel) : sim_kernel * Aggregator * list printed :=
  (k, mkAgg [] [] [] true 0 0 3, []).

Lemma RunDaemon_restores_level_witness :
  exists k' out, @RunDaemon sim_ebpf sim_manager None sim_loop sim_info = Some (k', out, None) /\
    sim_maps k' (pinned "config_map") !! le_split 4 0 = Some (le_split 4 LogLevelInfo).
Proof.
  destruct (@RunDaemon_restores_level sim_ebpf sim_laws sim_manager None sim_loop sim_info LogLevelInfo None sim_wired)
    as (k1 & e1 & E1 & H); [vm_compute; reflexivity|].
  assert (e1 = None) as -> by (vm_compute in E1; congruence).
  destruct H as (k3 & out & e3 & E3 & Hr & Hk). exists k3, out. split; [exact Hr|]. apply Hk.
  assert (Hok : snd <$> @SetLogLevel sim_ebpf sim_manager LogLevelInfo k1 = Some None).
  { assert (Hk1 : sim_faults k1 = []) by (vm_compute in E1; injection E1 as <-; reflexivity).
    unfold SetLogLevel, put. simpl. unfold sim_fault. rewrite Hk1. reflexivity. }
  simpl fst in E3. rewrite E3 in Hok. injection Hok as ->. reflexivity.
Defined.

Lemma telemetry_conserved_witness :
  @held_packets sim_ebpf sim_ingested = 1.
Proof.
  assert (Ht : @traced sim_ebpf list_order sample_math sim_daemon sim_ingested 1 0).
  { change 1 with (0 + @accepted_by sim_ebpf sim_daemon sim_ingested).
    change 0 with (0 + @reported_by sim_ebpf sim_daemon sim_ingested) at 2.
    eapply traced_step; [apply traced_start|exact sim_ingest_step]. }
  destruct (@telemetry_conserved sim_ebpf sim_laws list_order sample_math sim_manager sim_host (sim_start []) 0
    sim_ingested 1 0 sim_wired Ht ltac:(lia)) as (E & _ & _). lia.
Defined.
