(* ===== verification/Monitor.v ===== *)
(** * The telemetry monitor ([pkg/engine/monitor.go])

    [MonitorEvents] sets the kernel's log level, prints the frames of the ring
    buffer that reach it, and turns the level off when it returns. The read
    loop and the signal goroutine run against a list of events: what the
    scheduler and the environment make happen, in order. *)

From S2P Require Import Prelude GoStrings GoNet Contracts EbpfMap MapManager.

(** ** The stream *)

Definition ErrClosed : string := "ringbuf.ErrClosed".

Inductive mon_event :=
  | Signal (sig : string)                        (* sigChan delivers *)
  | ContextDone                                  (* ctx is cancelled *)
  | CloseStop                                    (* close(stopChan) *)
  | ReadRecord (sample : list Z) (day_ns : Z)    (* Read returns a record, at that time of day *)
  | ReadError (err : error).                     (* Read returns an error *)

(** The signal goroutine: waiting, its reader closed, its channel closed. *)
Inductive stop_state := Waiting | ReaderClosed | StopClosed.

Record mon := mkMon { mn_meta : FlowPacketMeta; mn_stop : stop_state; mn_returned : bool }.

Definition mon_start : mon := mkMon zero_meta Waiting false.

(** [fmt.Sprintf("%s:%d -> %s:%d", ...)] *)
Definition flowStr (meta : FlowPacketMeta) : string :=
  IP_String (SrcIPNet meta) +:+ ":" +:+ itoa (SrcPort meta) +:+ " -> " +:+
  IP_String (DstIPNet meta) +:+ ":" +:+ itoa (DstPort meta).

(** [fmt.Printf("%s %s %s  %-39s %-8s %-9s %s\n", ...)] *)
Definition frame_line (meta : FlowPacketMeta) (day_ns : Z) : string :=
  FormattedTime day_ns +:+ " " +:+
  ColoredPrefix (Severity (meta_DropReason meta)) +:+ " " +:+
  ColoredBadge (meta_Action meta) +:+ "  " +:+
  pad_right 39 (flowStr meta) +:+ " " +:+
  pad_right 8 (ProtocolName meta) +:+ " " +:+
  pad_right 9 (TCPFlagsString meta) +:+ " " +:+
  DropReason_String (meta_DropReason meta).

(** One record, with the loop's variable [meta] before and after. *)
Definition show_record (targetLevel : Z) (meta : FlowPacketMeta) (sample : list Z) (day_ns : Z)
    : FlowPacketMeta * list printed :=
  let '(meta, err) := UnmarshalBinary meta sample in
  match err with
  | Some err =>
      (meta, [Eprintf "⚠️ [AI-IDA] Failed to unmarshal telemetry frame (%d bytes): %v" [ArgD (Z.of_nat (length sample))] (Some err)])
  | None =>
      let severity := Severity (meta_DropReason meta) in
      if severity <? targetLevel then (meta, []) else (meta, [Frame (frame_line meta day_ns)])
  end.

(** An event, where it can happen: the goroutine handles one signal or
    cancellation, and nothing is read once the function has returned. *)
Definition mon_step (targetLevel : Z) (s : mon) (ev : mon_event) : option (mon * list printed) :=
  match ev, mn_stop s with
  | Signal sig, Waiting =>
      Some (mkMon (mn_meta s) ReaderClosed (mn_returned s),
            [Printf (newline +:+ "🛑 [AI-IDA] Received signal %v. Restoring log level to OFF and exiting...") [ArgS sig] None])
  | ContextDone, Waiting => Some (mkMon (mn_meta s) ReaderClosed (mn_returned s), [])
  | CloseStop, ReaderClosed => Some (mkMon (mn_meta s) StopClosed (mn_returned s), [])
  | ReadRecord sample day_ns, stop =>
      if mn_returned s then None
      else let '(meta, out) := show_record targetLevel (mn_meta s) sample day_ns in
           Some (mkMon meta stop false, out)
  | ReadError err, stop =>
      if mn_returned s then None
      else if errors_Is err ErrClosed then Some (mkMon (mn_meta s) stop true, [])
      else match stop with
           | StopClosed => Some (mkMon (mn_meta s) stop true, [])
           | _ => Some (s, [Eprintf "⚠️ [AI-IDA] Ring buffer read error: %v" [] (Some err)])
           end
  | _, _ => None
  end.

Fixpoint mon_run (targetLevel : Z) (s : mon) (evs : list mon_event) : option (mon * list printed) :=
  match evs with
  | [] => Some (s, [])
  | ev :: evs =>
      '(s, out) ← mon_step targetLevel s ev;
      '(s, outs) ← mon_run targetLevel s evs;
      Some (s, out ++ outs)
  end.

Section monitor.
Context `{Ebpf}.

Definition banner (targetLevel prevLevel : Z) : list printed :=
  [Println "================================================================================";
   Println "📡 AI-IDA Telemetry & Dynamic Observability Stream";
   Printf "🎯 Active Log Level : %s (Threshold: %d | Previous: %s)"
     [ArgS (LogSeverity_String targetLevel); ArgD targetLevel; ArgS (LogSeverity_String prevLevel)] None;
   Println "🌊 RingBuffer Map   : /sys/fs/bpf/ai_ida/events (1 MB)";
   Println "🛑 Press Ctrl-C to detach telemetry consumer and cleanly restore log level";
   Println "================================================================================";
   Println "TIMESTAMP       SEVERITY ACTION  FLOW                                    PROTOCOL FLAGS     REASON";
   Println "---------       -------- ------  ----                                    -------- -----     ------"].

(** The function, on the ring-buffer package's answer [newReader] and the
    events of the stream; [world] is what the rest of the system does to the
    kernel's maps meanwhile. The last component is [None] while the stream
    goes on, and then the value returned. *)
Definition MonitorEvents (mgr : MapManager) (targetLevel : Z) (newReader : option error) (evs : list mon_event)
    (world : kernel -> kernel) (k : kernel) : option (kernel * list printed * option (option error)) :=
  prev ← GetLogLevel mgr k;
  let prevLevel := match snd prev with Some _ => LogLevelOff | None => fst prev end in
  '(k, err) ← SetLogLevel mgr targetLevel k;
  match err with
  | Some err => Some (k, [], Some (Some (ErrorfW "failed to enable runtime log level in eBPF config map: %w" [] err)))
  | None =>
      let restore k out ret := '(k, _) ← SetLogLevel mgr LogLevelOff k; Some (k, out, Some ret) in
      match GetEventsMap mgr with
      | None => restore k [] (Some (Errorf "events ring buffer map is nil" []))
      | Some _ =>
          match newReader with
          | Some err => restore k [] (Some (ErrorfW "failed to open eBPF ring buffer reader: %w" [] err))
          | None =>
              '(s, out) ← mon_run targetLevel mon_start evs;
              let out := banner targetLevel prevLevel ++ out in
              if mn_returned s then restore (world k) out None else Some (world k, out, None)
          end
      end
  end.

End monitor.

(** ** What is printed *)

Definition frames (out : list printed) : list string :=
  omap (fun p => match p with Frame s => Some s | _ => None end) out.
Definition is_warning (p : printed) : bool := match p with Eprintf _ _ _ => true | _ => false end.
Definition warnings (out : list printed) : nat := length (List.filter is_warning out).

(** A record by itself: printed when it is long enough and severe enough. *)
Definition record_line (targetLevel : Z) (ev : mon_event) : option string :=
  match ev with
  | ReadRecord sample day_ns =>
      let meta := fst (UnmarshalBinary zero_meta sample) in
      if (24 <=? length sample)%nat && (targetLevel <=? Severity (meta_DropReason meta))
      then Some (frame_line meta day_ns) else None
  | _ => None
  end.

(** The decoder does not look at what the variable held. *)
Lemma UnmarshalBinary_fresh m m' sample :
  (24 <= length sample)%nat -> UnmarshalBinary m sample = UnmarshalBinary m' sample.
Proof. intros Hl. unfold UnmarshalBinary. by rewrite (proj2 (Nat.ltb_ge _ _)) by done. Qed.

Lemma show_record_frames target meta sample day_ns :
  let '(_, out) := show_record target meta sample day_ns in
  frames out = option_list (record_line target (ReadRecord sample day_ns)) /\
  warnings out = if (length sample <? 24)%nat then 1%nat else 0%nat.
Proof.
  unfold show_record, record_line. destruct (Nat.ltb_spec (length sample) 24) as [Hl|Hl].
  - unfold UnmarshalBinary at 1. rewrite (proj2 (Nat.ltb_lt _ _)) by done.
    rewrite (proj2 (Nat.leb_gt _ _)) by done. done.
  - rewrite (UnmarshalBinary_fresh meta zero_meta) by done. rewrite (proj2 (Nat.leb_le _ _)) by done.
    unfold UnmarshalBinary. rewrite (proj2 (Nat.ltb_ge _ _)) by done. simpl fst.
    rewrite Z.leb_antisym. by destruct (_ <? target).
Qed.

(** What the events of a run print, each by itself. *)
Definition is_short (ev : mon_event) : bool :=
  match ev with ReadRecord sample _ => (length sample <? 24)%nat | _ => false end.
Definition is_read_error (ev : mon_event) : bool :=
  match ev with ReadError _ => true | _ => false end.

Lemma mon_step_prints target s ev s' out :
  mon_step target s ev = Some (s', out) ->
  frames out = option_list (record_line target ev) /\
  (is_read_error ev = false -> mn_returned s' = mn_returned s /\ warnings out = if is_short ev then 1%nat else 0%nat) /\
  (is_read_error ev = true -> mn_returned s = false /\ (warnings out + (if mn_returned s' then 1 else 0) = 1)%nat).
Proof.
  destruct ev as [sig| | |sample day_ns|err]; simpl; intros E.
  1-3: destruct (mn_stop s); [..]; simplify_eq; done.
  - destruct (mn_returned s) eqn:Er; [by destruct (mn_stop s)|].
    pose proof (show_record_frames target (mn_meta s) sample day_ns) as Hs.
    destruct (show_record _ _ _ _) as [meta out']. destruct Hs as [Hf Hw].
    assert (Some (mkMon meta (mn_stop s) false, out') = Some (s', out)) as [= <- <-] by by destruct (mn_stop s).
    by rewrite Hf, Hw.
  - destruct (mn_returned s) eqn:Er; [by destruct (mn_stop s)|].
    destruct (errors_Is err ErrClosed), (mn_stop s); simplify_eq; simpl; rewrite ?Er; done.
Qed.

Lemma mon_run_app target s evs1 evs2 :
  mon_run target s (evs1 ++ evs2) =
    '(s, out1) ← mon_run target s evs1; '(s, out2) ← mon_run target s evs2; Some (s, out1 ++ out2).
Proof.
  revert s. induction evs1 as [|ev evs1 IH]; intros s; simpl.
  - by destruct (mon_run target s evs2) as [[s' out]|].
  - destruct (mon_step target s ev) as [[s1 out1]|]; simpl; [|done]. rewrite IH.
    destruct (mon_run target s1 evs1) as [[s2 out2]|]; simpl; [|done].
    destruct (mon_run target s2 evs2) as [[s3 out3]|]; simpl; [|done]. by rewrite app_assoc.
Qed.

Lemma mon_run_prints target s evs s' out :
  mon_run target s evs = Some (s', out) ->
  frames out = omap (record_line target) evs /\
  (warnings out + (if mn_returned s' then 1 else 0) =
   length (List.filter (fun ev => is_short ev || is_read_error ev) evs) + (if mn_returned s then 1 else 0))%nat.
Proof.
  revert s out. induction evs as [|ev evs IH]; intros s out; simpl; [by intros [= <- <-]|].
  destruct (mon_step target s ev) as [[s1 out1]|] eqn:E1; simpl; [|done].
  destruct (mon_run target s1 evs) as [[s2 out2]|] eqn:E2; simpl; [|done]. intros [= <- <-].
  destruct (IH s1 out2 E2) as [Hf Hw]. destruct (mon_step_prints _ _ _ _ _ E1) as (Hf1 & Hn & He).
  unfold frames, warnings in *. rewrite omap_app, List.filter_app, length_app, Hf, Hf1.
  split; [by destruct (record_line target ev)|].
  destruct (is_read_error ev); [destruct (He eq_refl) as [Er Hw1]; rewrite Er|destruct (Hn eq_refl) as [Er Hw1]; rewrite Er in *];
    rewrite ?orb_true_r, ?orb_false_r; simpl length; [|destruct (is_short ev); simpl length]; lia.
Qed.

(** C34: the monitor prints exactly the frames that reach its threshold.
    Whatever the ring buffer delivers and whenever the signal comes, the frame
    lines of a run are, in order, those of the records of at least 24 bytes
    whose drop reason is at least as severe as the threshold, each decoded by
    itself although the loop reuses one variable; every record that cannot be
    decoded and every failed read is reported, except the one failed read that
    ends the stream; and a closed reader always ends it. *)
Theorem monitor_stream (targetLevel : Z) (evs : list mon_event) (s : mon) (out : list printed) :
  mon_run targetLevel mon_start evs = Some (s, out) ->
  frames out = omap (record_line targetLevel) evs /\
  (warnings out + (if mn_returned s then 1 else 0) =
   length (List.filter (fun ev => is_short ev || is_read_error ev) evs))%nat /\
  (mn_returned s = false ->
   exists s', mon_run targetLevel mon_start (evs ++ [ReadError (Sentinel ErrClosed)]) = Some (s', out) /\ mn_returned s' = true).
Proof.
  intros E. destruct (mon_run_prints _ _ _ _ _ E) as [Hf Hw]. split; [done|]. split; [simpl in Hw; lia|].
  intros Hr. exists (mkMon (mn_meta s) (mn_stop s) true). split; [|done].
  rewrite mon_run_app, E. simpl. rewrite Hr. destruct (mn_stop s); simpl; by rewrite app_nil_r.
Qed.

Section laws.
Context `{EbpfLaws}.

Lemma GetLogLevel_total m k : wired m -> exists p, GetLogLevel m k = Some p.
Proof.
  intros Hw. unfold GetLogLevel, lookup_u32. destruct (w_config m Hw) as (h & -> & _). simpl. by eexists.
Qed.

(** When the monitor returns, it leaves the kernel's telemetry off. If the
    level cannot be set it returns that error having changed nothing;
    otherwise it either still streams or has returned with a last write of OFF,
    so that the register holds OFF, not the level found at the start, unless
    this write fails. It never panics. *)
Theorem monitor_leaves_level_off (m : MapManager) (targetLevel : Z) (newReader : option error) (evs : list mon_event)
    (world : kernel -> kernel) (k : kernel) (s : mon) (out : list printed) :
  wired m -> mon_run targetLevel mon_start evs = Some (s, out) ->
  exists k' out' ret, MonitorEvents m targetLevel newReader evs world k = Some (k', out', ret) /\
    ((exists e, ret = Some (Some (ErrorfW "failed to enable runtime log level in eBPF config map: %w" [] e)) /\
                entries k' = entries k) \/
     (ret = None /\ newReader = None /\ mn_returned s = false) \/
     (ret = Some (option_map (ErrorfW "failed to open eBPF ring buffer reader: %w" []) newReader) /\
      exists k2 e, SetLogLevel m LogLevelOff k2 = Some (k', e) /\
        (e = None -> entries k' (pinned "config_map") !! le_split 4 0 = Some (le_split 4 LogLevelOff)))).
Proof.
  intros Hw Hrun. unfold MonitorEvents. destruct (GetLogLevel_total m k Hw) as [p ->]. simpl.
  destruct (SetLogLevel_register m targetLevel k Hw) as (k1 & e1 & -> & H1). simpl.
  destruct e1 as [e1|]; [do 3 eexists; split; [done|left; by exists e1]|].
  destruct (w_events m Hw) as (ev & Hev & _). unfold GetEventsMap. rewrite Hev.
  assert (Hoff : forall k2, exists k' e, SetLogLevel m LogLevelOff k2 = Some (k', e) /\
    (e = None -> entries k' (pinned "config_map") !! le_split 4 0 = Some (le_split 4 LogLevelOff))).
  { intros k2. destruct (SetLogLevel_register m LogLevelOff k2 Hw) as (k' & e & E & He).
    exists k', e. split; [done|]. by intros ->. }
  destruct newReader as [err|]; [|rewrite Hrun; simpl; destruct (mn_returned s)].
  - destruct (Hoff k1) as (k' & e & E & He). rewrite E. do 3 eexists. split; [reflexivity|]. right; right. eauto.
  - destruct (Hoff (world k1)) as (k' & e & E & He). rewrite E. do 3 eexists. split; [reflexivity|]. right; right. eauto.
  - do 3 eexists. split; [reflexivity|]. by right; left.
Qed.
End laws.

(** ** Examples *)

(** An INFO and a WARN record and a truncated one, at threshold WARN, then a
    signal; the reader answers that it is closed. *)
Definition sample_record (reason : Z) : list Z :=
  wire_bytes (mkMeta 167772161 3232235876 1024 80 6 2 1 reason 5).
Definition sample_events : list mon_event :=
  [ReadRecord (sample_record 20) 0; ReadRecord (sample_record 14) 3723000004000; ReadRecord [1; 2] 0;
   Signal "interrupt"; ReadError (Sentinel ErrClosed); CloseStop].

Example sample_stream_lines :
  option_map (fun '(_, out) => frames out) (mon_run LogLevelWarn mon_start sample_events) =
  Some ["01:02:03.000004 " +:+ ESC +:+ "[33m[WARN]" +:+ ESC +:+ "[0m  " +:+ ESC +:+ "[41;97m DROP " +:+ ESC +:+
        "[0m  10.0.0.1:1024 -> 192.168.1.100:80       TCP      SYN       WARN_LPM_BLACKLIST_HIT"].
Proof. vm_compute. reflexivity. Qed.

Definition sample_run : option (mon * list printed) := mon_run LogLevelWarn mon_start sample_events.

Lemma monitor_stream_witness :
  exists s out, sample_run = Some (s, out) /\ length (frames out) = 1%nat /\ warnings out = 1%nat.
Proof.
  assert (Hr : exists s out, sample_run = Some (s, out) /\ mn_returned s = true)
    by (do 2 eexists; split; vm_compute; reflexivity).
  destruct Hr as (s & out & E & Hr). destruct (monitor_stream LogLevelWarn sample_events s out E) as (Hf & Hw & _).
  exists s, out. split; [exact E|]. rewrite Hf. rewrite Hr in Hw. split; [vm_compute; reflexivity|].
  change (List.filter _ sample_events) with [ReadRecord [1; 2] 0; ReadError (Sentinel ErrClosed)] in Hw. simpl in Hw. lia.
Defined.

Lemma monitor_leaves_level_off_witness :
  exists k' out, @MonitorEvents sim_ebpf sim_manager LogLevelWarn None sample_events id (sim_start []) = Some (k', out, Some None) /\
    sim_maps k' (pinned "config_map") !! le_split 4 0 = Some (le_split 4 LogLevelOff).
Proof.
  assert (Hr : exists s out, sample_run = Some (s, out)) by (do 2 eexists; vm_compute; reflexivity).
  destruct Hr as (s & out & E).
  destruct (@monitor_leaves_level_off sim_ebpf sim_laws sim_manager LogLevelWarn None sample_events id (sim_start []) s out
    sim_wired E) as (k' & out' & ret & Em & H).
  assert (Hm : option_map (fun '(k, _, ret) => (ret, sim_maps k (pinned "config_map") !! le_split 4 0))
    (@MonitorEvents sim_ebpf sim_manager LogLevelWarn None sample_events id (sim_start [])) =
    Some (Some None, Some (le_split 4 LogLevelOff))) by (vm_compute; reflexivity).
  rewrite Em in Hm. injection Hm as -> Hk. exists k', out'. split; [exact Em|].
  destruct H as [(e & He & _)|[(He & _)|(_ & k2 & e & Hs & Ho)]]; [discriminate|discriminate|exact Hk].
Defined.
