(* ===== verification/XdpInspector.v ===== *)
(** * The interface inspector ([pkg/engine/xdp_inspector.go])

    What [ai-ida status] shows of each network interface, from the attributes
    netlink reports. *)

From S2P Require Import Prelude GoStrings GoNet.

(** netlink's answer, as far as it is read: [OperState] is the text of the
    package's [LinkOperState]. *)
Record LinkXdp := mkXdp {
  Attached : bool;
  AttachMode : Z;   (* uint32 *)
  xdp_Flags : Z;    (* uint32 *)
  ProgId : Z        (* uint32 *)
}.
Record LinkAttrs := mkAttrs {
  link_Index : Z;
  link_Name : string;
  HardwareAddr : list Z;
  link_OperState : string;
  link_MTU : Z;
  Xdp : option LinkXdp
}.

Record InterfaceStatus := mkStatus {
  Index : Z;
  Name : string;
  MAC : string;
  OperState : string;
  MTU : Z;
  IsProtected : bool;
  XdpMode : string;
  ProgramID : Z
}.

(** [net.HardwareAddr.String]: hexadecimal bytes between colons. *)
Definition HardwareAddr_String (a : list Z) : string := Join ":" (map hex_byte a).

(** The [switch] on the attach mode, with the tests of the flags. *)
Definition xdp_mode (x : LinkXdp) : string :=
  if AttachMode x =? 1 then "GENERIC/SKB"
  else if AttachMode x =? 2 then "NATIVE/DRIVER"
  else if AttachMode x =? 3 then "HW_OFFLOAD"
  else if negb (Z.land (xdp_Flags x) (Z.shiftl 1 1) =? 0) then "GENERIC/SKB"
  else if negb (Z.land (xdp_Flags x) (Z.shiftl 1 2) =? 0) then "NATIVE/DRIVER"
  else if negb (Z.land (xdp_Flags x) (Z.shiftl 1 3) =? 0) then "HW_OFFLOAD"
  else "ATTACHED".

(** The body of the loop over the links. *)
Definition interface_status (attrs : LinkAttrs) : InterfaceStatus :=
  let status protected mode prog :=
    mkStatus (link_Index attrs) (link_Name attrs) (HardwareAddr_String (HardwareAddr attrs)) (link_OperState attrs)
      (link_MTU attrs) protected mode prog in
  match Xdp attrs with
  | Some x => if Attached x then status true (xdp_mode x) (ProgId x) else status false "NONE" 0
  | None => status false "NONE" 0
  end.

Definition InspectInterfaces (links : result (list LinkAttrs)) : result (list InterfaceStatus) :=
  match links with
  | Err err => Err (ErrorfW "failed to query netlink links: %w" [] err)
  | Ok links => Ok (fold_left (fun results attrs => results ++ [interface_status attrs]) links [])
  end.

(** ** What the table says *)

(** The attach mode by itself, without the order of the tests: the mode when
    the kernel gives a known one, and otherwise the lowest mode bit set. *)
Inductive mode_of (x : LinkXdp) : string -> Prop :=
  | mode_skb : AttachMode x = 1 -> mode_of x "GENERIC/SKB"
  | mode_driver : AttachMode x = 2 -> mode_of x "NATIVE/DRIVER"
  | mode_offload : AttachMode x = 3 -> mode_of x "HW_OFFLOAD"
  | flag_skb : ~ 1 <= AttachMode x <= 3 -> Z.testbit (xdp_Flags x) 1 = true -> mode_of x "GENERIC/SKB"
  | flag_driver :
      ~ 1 <= AttachMode x <= 3 -> Z.testbit (xdp_Flags x) 1 = false -> Z.testbit (xdp_Flags x) 2 = true ->
      mode_of x "NATIVE/DRIVER"
  | flag_offload :
      ~ 1 <= AttachMode x <= 3 -> Z.testbit (xdp_Flags x) 1 = false -> Z.testbit (xdp_Flags x) 2 = false ->
      Z.testbit (xdp_Flags x) 3 = true -> mode_of x "HW_OFFLOAD"
  | flag_none :
      ~ 1 <= AttachMode x <= 3 -> (forall i, 1 <= i <= 3 -> Z.testbit (xdp_Flags x) i = false) -> mode_of x "ATTACHED".

(** A masked bit is the bit. *)
Lemma land_bit f i : 0 <= i -> negb (Z.land f (Z.shiftl 1 i) =? 0) = Z.testbit f i.
Proof.
  intros Hi. rewrite Z.shiftl_1_l. destruct (Z.testbit f i) eqn:Eb.
  - apply negb_true_iff, Z.eqb_neq. intros E. apply (f_equal (fun z => Z.testbit z i)) in E.
    rewrite Z.land_spec, Eb, Z.pow2_bits_true, Z.bits_0 in E by done. done.
  - apply negb_false_iff, Z.eqb_eq, Z.bits_inj'. intros j Hj. rewrite Z.land_spec, Z.bits_0.
    destruct (decide (j = i)) as [->|Hne]; [by rewrite Eb|].
    by rewrite Z.pow2_bits_false, andb_false_r by congruence.
Qed.

Lemma xdp_mode_spec x : mode_of x (xdp_mode x).
Proof.
  unfold xdp_mode. rewrite !land_bit by done. repeat case_Z; try by constructor.
  assert (~ 1 <= AttachMode x <= 3) by lia.
  destruct (Z.testbit (xdp_Flags x) 1) eqn:E1; [by constructor|].
  destruct (Z.testbit (xdp_Flags x) 2) eqn:E2; [by constructor|].
  destruct (Z.testbit (xdp_Flags x) 3) eqn:E3; [by constructor|].
  constructor; [done|]. intros i Hi. assert (i = 1 \/ i = 2 \/ i = 3) as [-> | [-> | ->]] by lia; done.
Qed.

Lemma mode_of_not_none x s : mode_of x s -> s <> "NONE".
Proof. by inversion 1. Qed.

Lemma inspect_map links : InspectInterfaces (Ok links) = Ok (map interface_status links).
Proof.
  unfold InspectInterfaces. f_equal.
  assert (Hgen : forall acc, fold_left (fun results attrs => results ++ [interface_status attrs]) links acc =
    acc ++ map interface_status links).
  { induction links as [|l links IH]; intros acc; simpl; [by rewrite app_nil_r|]. by rewrite IH, <- app_assoc. }
  apply Hgen.
Qed.

(** [InspectInterfaces] reports every link, once and in netlink's order,
    under its own name. An interface is shown as protected exactly when a
    program is attached to it; its mode is then the one of the attach mode, or of
    the lowest mode flag where the attach mode is not a known one, and its
    program's number is the attached program's; otherwise the mode is NONE
    and the number 0. *)
Theorem inspect_reports_links (links : list LinkAttrs) :
  exists l, InspectInterfaces (Ok links) = Ok l /\
    Forall2 (fun attrs s =>
      Name s = link_Name attrs /\ Index s = link_Index attrs /\ OperState s = link_OperState attrs /\ MTU s = link_MTU attrs /\
      MAC s = HardwareAddr_String (HardwareAddr attrs) /\
      (IsProtected s = true <-> exists x, Xdp attrs = Some x /\ Attached x = true) /\
      (XdpMode s = "NONE" <-> IsProtected s = false) /\
      match Xdp attrs with
      | Some x => if Attached x then mode_of x (XdpMode s) /\ ProgramID s = ProgId x else ProgramID s = 0
      | None => ProgramID s = 0
      end) links l.
Proof.
  rewrite inspect_map. eexists. split; [reflexivity|].
  induction links as [|attrs links IH]; constructor; [|done]. clear IH. unfold interface_status.
  destruct (Xdp attrs) as [x|]; [destruct (Attached x) eqn:Ea|]; simpl; split_and!; try done.
  - split; [by eexists|done].
  - split; [|done]. intros Hm. by destruct (mode_of_not_none x (xdp_mode x) (xdp_mode_spec x)).
  - apply xdp_mode_spec.
  - split; [done|]. intros (x' & [= <-] & Hx). congruence.
  - split; [done|]. by intros (x' & Hx & _).
Qed.

(** Linux reports 1 for a program attached to the driver and 2 for a generic
    one ([XDP_ATTACHED_DRV], [XDP_ATTACHED_SKB]), and its flags ask for the
    generic mode with bit 1 and for the driver with bit 2. A program attached
    with the driver flag is shown as generic, and one attached with the generic
    flag as driver, although the flags alone would be read correctly. *)
Lemma attach_mode_labels_swapped prog :
  xdp_mode (mkXdp true 1 (Z.shiftl 1 2) prog) = "GENERIC/SKB" /\
  xdp_mode (mkXdp true 0 (Z.shiftl 1 2) prog) = "NATIVE/DRIVER" /\
  xdp_mode (mkXdp true 2 (Z.shiftl 1 1) prog) = "NATIVE/DRIVER" /\
  xdp_mode (mkXdp true 0 (Z.shiftl 1 1) prog) = "GENERIC/SKB".
Proof. done. Qed.
