(* ===== verification/Cli.v ===== *)
(** * The command line ([cmd/main.go])

    The commands of [ai-ida-control]. A command runs to the point where it
    returns, exits or keeps streaming; on a return the deferred [mgr.Close] has
    run, on [os.Exit] it has not. *)

From Stdlib Require Import Ascii.
From S2P Require Import Prelude GoStrings GoNet Contracts Float64 Flow EbpfMap MapManager Feedback Daemon Monitor XdpInspector.

(** ** [fmt.Sscanf(s, "%d", &port)] into a [uint16]

    White space is skipped, a newline is an error; then a run of digits, as
    long as possible, read as a [uint64] and checked against 16 bits. What
    follows the digits is not looked at. *)

Fixpoint SkipSpace (s : string) : option string :=
  match s with
  | EmptyString => Some s
  | String c s' => if byte_of c =? 10 then None else if is_space c then SkipSpace s' else Some s
  end.

(** The digits at the start of [s] as a number, after the digits so far; [seen]
    tells whether there were any. *)
Fixpoint scan_digits (seen : bool) (n : Z) (s : string) : option Z :=
  match s with
  | String c s' => if is_digit c then scan_digits true (n * 10 + digit_val c) s' else if seen then Some n else None
  | EmptyString => if seen then Some n else None
  end.

Definition Sscanf_uint16 (s : string) : option Z :=
  s ← SkipSpace s;
  n ← scan_digits false 0 s;
  if 2 ^ 64 <=? n then None else if n =? wrap 16 n then Some n else None.

(** ** [text/tabwriter], with padding 3 and left alignment

    All the rows written have the same number of cells, and every cell but the last
    ends a column; a cell's width is its number of runes, in UTF-8 the bytes
    that do not continue one. *)

Fixpoint RuneCount (s : string) : nat :=
  match s with
  | EmptyString => 0
  | String c s' => (if (Z.land (byte_of c) 192 =? 128)%Z then 0 else 1) + RuneCount s'
  end%nat.

Fixpoint widen (row : list string) (widths : list nat) : list nat :=
  match row, widths with
  | c :: row', w :: widths' => Nat.max (RuneCount c + 3) w :: widen row' widths'
  | c :: row', [] => (RuneCount c + 3)%nat :: widen row' []
  | [], _ => widths
  end.
Definition column_widths (rows : list (list string)) : list nat :=
  fold_right (fun row widths => widen (removelast row) widths) [] rows.

Fixpoint write_row (widths : list nat) (row : list string) : string :=
  match row, widths with
  | c :: row', w :: widths' => c +:+ spaces (w - RuneCount c) +:+ write_row widths' row'
  | c :: row', [] => c +:+ write_row [] row'
  | [], _ => ""
  end.
Definition tabulate (rows : list (list string)) : list string := map (write_row (column_widths rows)) rows.

(** ** The commands *)

(** Whether the command keeps running, has returned, or has left the process. *)
Inductive cmd_state := Running | Returned | Exited (code : Z).

Section commands.
Context `{Ebpf}.

Definition cmd_result : Type := option (kernel * list printed * cmd_state).

(** What the rest of the system does: the ring-buffer reader and the events of
    the monitor, the daemon's loop, the other writers of the maps, netlink. *)
Record Environment := mkEnv {
  e_newReader : option error;
  e_events : list mon_event;
  e_world : kernel -> kernel;
  e_loop : kernel -> kernel * Aggregator * list printed;
  e_links : result (list LinkAttrs)
}.

Definition monitorCmd (env : Environment) (logLevelFlag : string) (k : kernel) : cmd_result :=
  let '(level, err) := ParseLogLevel logLevelFlag in
  match err with
  | Some err => Some (k, [Printf "❌ [Error] Invalid --log-level: %v" [] (Some err)], Exited 1)
  | None =>
      let '(k, r) := LoadPinnedMaps k in
      match r with
      | Err err => Some (k, [Printf "❌ [Error] Failed to load eBPF pinned maps: %v" [] (Some err)], Exited 1)
      | Ok mgr =>
          '(k, out, ret) ← MonitorEvents mgr level (e_newReader env) (e_events env) (e_world env) k;
          match ret with
          | None => Some (k, out, Running)
          | Some (Some err) => Some (k, out ++ [Printf "❌ [Error] Monitor encountered error: %v" [] (Some err)], Exited 1)
          | Some None => Some (Close mgr k, out, Returned)
          end
      end
  end.

Definition status_row (iface : InterfaceStatus) : list string :=
  let shield := if IsProtected iface then "🟢 SHIELDED" else "🔴 INACTIVE" in
  [Name iface; itoa (Index iface); OperState iface; shield; XdpMode iface; itoa (ProgramID iface)].

Definition status_rows (interfaces : list InterfaceStatus) : list (list string) :=
  ["INTERFACE"; "INDEX"; "STATE"; "PROTECTION"; "XDP MODE"; "PROG ID"]
  :: ["---------"; "-----"; "-----"; "----------"; "--------"; "-------"]
  :: map status_row interfaces.

Definition statusCmd (env : Environment) (k : kernel) : cmd_result :=
  let out := [Println "🛡️  AI-IDA Defensive Architecture — Subsystem Status";
              Println "=================================================="] in
  match InspectInterfaces (e_links env) with
  | Err err => Some (k, out ++ [Printf "❌ [Error] Failed to inspect network adapters: %v" [] (Some err)], Returned)
  | Ok interfaces => Some (k, out ++ map Println (tabulate (status_rows interfaces)) ++ [Println ""], Returned)
  end.

Definition blockCmd (cidr : string) (k : kernel) : cmd_result :=
  let '(k, r) := LoadPinnedMaps k in
  match r with
  | Err err => Some (k, [Printf "❌ [Error] %v" [] (Some err)], Returned)
  | Ok mgr =>
      '(k, err) ← BlockIP mgr cidr k;
      Some (Close mgr k,
            match err with
            | Some err => [Printf "❌ Failed to block target %s: %v" [ArgS cidr] (Some err)]
            | None => [Printf "⛔ [AI-IDA] Successfully blacklisted '%s' in kernel data plane." [ArgS cidr] None]
            end, Returned)
  end.

Definition portCmd (action arg : string) (k : kernel) : cmd_result :=
  match Sscanf_uint16 arg with
  | None => Some (k, [Printf "❌ Invalid port number: %v" [ArgS arg] None], Returned)
  | Some port =>
      let '(k, r) := LoadPinnedMaps k in
      match r with
      | Err err => Some (k, [Printf "❌ [Error] %v" [] (Some err)], Returned)
      | Ok mgr =>
          if bool_decide (action = "block") then
            '(k, err) ← BlockPort mgr port k;
            Some (Close mgr k,
                  match err with
                  | Some err => [Printf "❌ Failed to block port %d: %v" [ArgD port] (Some err)]
                  | None => [Printf "⛔ [AI-IDA] Port %d has been BLOCKED in kernel data plane." [ArgD port] None]
                  end, Returned)
          else if bool_decide (action = "unblock") then
            '(k, err) ← UnblockPort mgr port k;
            Some (Close mgr k,
                  match err with
                  | Some err => [Printf "❌ Failed to unblock port %d: %v" [ArgD port] (Some err)]
                  | None => [Printf "✅ [AI-IDA] Port %d has been UNBLOCKED." [ArgD port] None]
                  end, Returned)
          else Some (Close mgr k, [], Returned)
      end
  end.

Definition daemonCmd (env : Environment) (k : kernel) : cmd_result :=
  let '(k, r) := LoadPinnedMaps k in
  match r with
  | Err err => Some (k, [Printf "❌ [Error] Failed to load eBPF pinned maps: %v" [] (Some err)], Exited 1)
  | Ok mgr =>
      '(k, out, err) ← RunDaemon mgr (e_newReader env) (e_loop env) k;
      match err with
      | Some err => Some (k, out ++ [Printf "❌ [Error] Daemon encountered a fatal error: %v" [] (Some err)], Exited 1)
      | None => Some (Close mgr k, out, Returned)
      end
  end.

(** The command cobra makes of the arguments; it checks their number. *)
Inductive command :=
  | CmdMonitor (log_level : option string)
  | CmdStatus
  | CmdBlock (cidr : string)
  | CmdPort (action port : string)
  | CmdDaemon.

Definition default_log_level : string := "info".

Definition run_command (env : Environment) (c : command) (k : kernel) : cmd_result :=
  match c with
  | CmdMonitor level => monitorCmd env (default default_log_level level) k
  | CmdStatus => statusCmd env k
  | CmdBlock cidr => blockCmd cidr k
  | CmdPort action port => portCmd action port k
  | CmdDaemon => daemonCmd env k
  end.

(** [main]: an error of the command line ends the process with status 1. *)
Definition main (env : Environment) (parsed : result command) (k : kernel) : cmd_result :=
  match parsed with
  | Err _ => Some (k, [], Exited 1)
  | Ok c => run_command env c k
  end.

End commands.

(** ** Scanning *)

Lemma scan_pretty_go x s seen : (0 < x)%N -> scan_digits seen 0 (pretty_N_go x s) = scan_digits true (Z.of_N x) s.
Proof.
  revert x s. refine (pretty_go_ind (fun x s => (0 < x)%N -> scan_digits seen 0 (pretty_N_go x s) = scan_digits true (Z.of_N x) s) _ _);
    [lia|]. intros x s Hx IH _. rewrite pretty_N_go_step by done.
  destruct (pretty_char (x mod 10)) as [Hc Hv]; [by apply N.mod_lt|].
  assert (Hdm : Z.of_N (x / 10) * 10 + Z.of_N (x mod 10) = Z.of_N x) by (pose proof (N.div_mod x 10 ltac:(done)); lia).
  destruct (N.eq_dec (x / 10) 0) as [E|Hne].
  - rewrite E, pretty_N_go_0. simpl. rewrite Hc, Hv. f_equal. rewrite E in Hdm. lia.
  - rewrite (IH (proj1 (N.neq_0_lt_0 _) Hne)). simpl. rewrite Hc, Hv. f_equal. lia.
Qed.

Lemma scan_rest n rest : starts_digit rest = false -> scan_digits true n rest = Some n.
Proof. destruct rest as [|c rest]; simpl; [done|]. by intros ->. Qed.

Lemma SkipSpace_digit s : starts_digit s = true -> SkipSpace s = Some s.
Proof.
  destruct s as [|c s]; simpl; [done|]. intros Hc. unfold is_digit in Hc. bool_hyps. unfold is_space.
  repeat case_Z; simpl; done || lia.
Qed.

(** A number and what follows it: the number, when it has 16 bits. *)
Lemma Sscanf_number n rest :
  0 <= n -> starts_digit rest = false -> Sscanf_uint16 (itoa n +:+ rest) = if n <? 65536 then Some n else None.
Proof.
  intros Hn Hrest. unfold Sscanf_uint16. rewrite SkipSpace_digit by by apply itoa_starts_digit. simpl.
  assert (scan_digits false 0 (itoa n +:+ rest) = Some n) as ->.
  { destruct (decide (n = 0)) as [->|Hne]; [by apply scan_rest|].
    rewrite itoa_go, pretty_go_app, scan_pretty_go, Z2N.id by lia. by apply scan_rest. }
  simpl. destruct (Z.leb_spec (2 ^ 64) n); [by rewrite (proj2 (Z.ltb_ge _ _)) by lia|]. unfold wrap. change (2 ^ 16) with 65536.
  destruct (Z.ltb_spec n 65536); [by rewrite Z.mod_small, Z.eqb_refl by lia|].
  destruct (Z.eqb_spec n (n mod 65536)); [|done]. pose proof (Z.mod_pos_bound n 65536). lia.
Qed.

(** ** What the commands do to the kernel *)

Section laws.
Context `{EbpfLaws}.

(** A command that has loaded the maps and ends by closing them. *)
Lemma closed_after m k k1 k2 :
  opened k1 ≡ₚ handles m ++ opened k -> opened k2 = opened k1 ->
  entries (Close m k2) = entries k2 /\ opened (Close m k2) ≡ₚ opened k.
Proof. intros Hop E. apply Close_open. by rewrite E. Qed.

(** What a command printed: one line with an error, or one without. *)
Definition failure (out : list printed) : Prop := exists fmt args err, out = [Printf fmt args (Some err)].
Definition success (fmt : string) (args : list fmt_arg) (out : list printed) : Prop := out = [Printf fmt args None].

Definition port_entry (k k' : kernel) (port v : Z) : Prop :=
  forall o, entries k' o = if decide (o = pinned "port_gate_map") then <[le_split 4 port := [v]]> (entries k o) else entries k o.

(** [port] tells the truth. For a decimal number, whatever follows it in
    the argument, the command never panics, returns with every handle it opened
    closed, and either prints one error and has changed nothing, or says that it
    blocked (unblocked) the port and has stored 2 (0) under exactly that
    port; an action that is neither changes nothing and says nothing. A
    number of more than 16 bits is refused before any map is opened. *)
Theorem port_command (action : string) (port : Z) (rest : string) (k : kernel) :
  0 <= port -> starts_digit rest = false ->
  exists k' out, portCmd action (itoa port +:+ rest) k = Some (k', out, Returned) /\
    opened k' ≡ₚ opened k /\
    (65536 <= port -> k' = k /\ success "❌ Invalid port number: %v" [ArgS (itoa port +:+ rest)] out) /\
    (port < 65536 ->
     (failure out /\ entries k' = entries k) \/
     (action = "block" /\ success "⛔ [AI-IDA] Port %d has been BLOCKED in kernel data plane." [ArgD port] out /\ port_entry k k' port 2) \/
     (action = "unblock" /\ success "✅ [AI-IDA] Port %d has been UNBLOCKED." [ArgD port] out /\ port_entry k k' port 0) \/
     (action <> "block" /\ action <> "unblock" /\ out = [] /\ entries k' = entries k)).
Proof.
  intros Hp Hrest. unfold portCmd. rewrite Sscanf_number by done. destruct (Z.ltb_spec port 65536); simpl.
  2: { do 2 eexists. split; [reflexivity|]. split; [done|]. split; [done|lia]. }
  pose proof (LoadPinnedMaps_open k) as Hload. destruct (LoadPinnedMaps k) as [k1 [m|e]].
  2: { destruct Hload as [He Ho]. do 2 eexists. split; [reflexivity|]. split_and!; [done|lia|].
       intros _. left. split; [by do 3 eexists|done]. }
  destruct Hload as (He1 & Hw & _ & Hop). unfold BlockPort, UnblockPort.
  case_bool_decide as Hb; [|case_bool_decide as Hu].
  - destruct (put_port m k1 port 2 (ErrorfW "failed to block port %d: %w" [ArgD port]) Hw) as (k2 & e & -> & Ho & He). simpl.
    destruct (closed_after m k k1 k2 Hop Ho) as [Hec Hoc]. do 2 eexists. split; [reflexivity|]. split_and!; [done|lia|].
    intros _. destruct e as [e|]; [left|right; left].
    + split; [by do 3 eexists|]. by rewrite Hec, He.
    + split_and!; [done..|]. intros o. by rewrite Hec, He, He1.
  - destruct (put_port m k1 port 0 (ErrorfW "failed to unblock port %d: %w" [ArgD port]) Hw) as (k2 & e & -> & Ho & He). simpl.
    destruct (closed_after m k k1 k2 Hop Ho) as [Hec Hoc]. do 2 eexists. split; [reflexivity|]. split_and!; [done|lia|].
    intros _. destruct e as [e|]; [left|right; right; left].
    + split; [by do 3 eexists|]. by rewrite Hec, He.
    + split_and!; [done..|]. intros o. by rewrite Hec, He, He1.
  - destruct (closed_after m k k1 k1 Hop eq_refl) as [Hec Hoc]. do 2 eexists. split; [reflexivity|]. split_and!; [done|lia|].
    intros _. right; right; right. by rewrite Hec.
Qed.

(** The rest of the system opens no handle of this process, and the events
    of the monitor are ones that can happen. *)
Record fair (env : Environment) : Prop := {
  f_world : forall k, opened (e_world env k) = opened k;
  f_loop : forall k, opened (fst (fst (e_loop env k))) = opened k;
  f_events : forall level, exists s out, mon_run level mon_start (e_events env) = Some (s, out)
}.

Lemma SetLogLevel_total m level k :
  wired m -> exists k' e, SetLogLevel m level k = Some (k', e) /\ opened k' = opened k.
Proof.
  intros Hw. destruct (SetLogLevel_register m level k Hw) as (k' & e & E & _).
  exists k', e. split; [done|]. by eapply SetLogLevel_open.
Qed.

Lemma MonitorEvents_total m level nr evs world k s out :
  wired m -> (forall k, opened (world k) = opened k) -> mon_run level mon_start evs = Some (s, out) ->
  exists k' out' ret, MonitorEvents m level nr evs world k = Some (k', out', ret) /\ opened k' = opened k.
Proof.
  intros Hw Hworld Hrun. unfold MonitorEvents. destruct (GetLogLevel_total m k Hw) as [p ->]. simpl.
  destruct (SetLogLevel_total m level k Hw) as (k1 & e1 & -> & H1). simpl.
  destruct e1 as [e1|]; [by do 3 eexists|]. destruct (w_events m Hw) as (ev & Hev & _). unfold GetEventsMap. rewrite Hev.
  destruct nr as [err|]; [|rewrite Hrun; simpl; destruct (mn_returned s)].
  - destruct (SetLogLevel_total m LogLevelOff k1 Hw) as (k2 & e2 & -> & H2). do 3 eexists. split; [reflexivity|]. congruence.
  - destruct (SetLogLevel_total m LogLevelOff (world k1) Hw) as (k2 & e2 & -> & H2). do 3 eexists. split; [reflexivity|].
    by rewrite H2, Hworld.
  - do 3 eexists. split; [reflexivity|]. by rewrite Hworld.
Qed.

(** The write of the level in the goal, whatever the level. *)
Ltac set_level Hw k' Ho :=
  match goal with
  | |- context [SetLogLevel ?m ?level ?k] => destruct (SetLogLevel_total m level k Hw) as (k' & ? & -> & Ho); simpl
  end.

Lemma RunDaemon_total m nr loop k :
  wired m -> (forall k, opened (fst (fst (loop k))) = opened k) ->
  exists k' out e, RunDaemon m nr loop k = Some (k', out, e) /\ opened k' = opened k.
Proof.
  intros Hw Hloop. unfold RunDaemon. destruct (GetLogLevel_total m k Hw) as [p ->]. simpl.
  destruct (SetLogLevel_total m LogLevelDebug k Hw) as (k1 & e1 & -> & H1). simpl. destruct e1 as [e1|]; [by do 3 eexists|].
  destruct (w_events m Hw) as (ev & Hev & _). unfold GetEventsMap. rewrite Hev.
  destruct nr as [err|]; simpl; [|pose proof (Hloop k1) as Hl; destruct (loop k1) as [[k1' agg] lines]].
  - set_level Hw k2 H2. do 3 eexists. split; [reflexivity|]. congruence.
  - set_level Hw k2 H2. do 3 eexists. split; [reflexivity|]. simpl in Hl. congruence.
Qed.

Lemma BlockIP_total m cidr k : wired m -> exists k' e, BlockIP m cidr k = Some (k', e) /\ opened k' = opened k.
Proof.
  intros Hw. assert (exists p, BlockIP m cidr k = Some p) as [[k' e] E].
  { unfold BlockIP, put. destruct (NewLpmKey cidr); [|by eexists]. destruct (w_reputation m Hw) as (h & -> & _). simpl.
    destruct (Map_Put _ _ _ _). by eexists. }
  exists k', e. split; [done|]. by eapply BlockIP_open.
Qed.

(** How a command may end. *)
Definition ended_well (c : command) (k k' : kernel) (out : list printed) (st : cmd_state) : Prop :=
  match st with
  | Returned => opened k' ≡ₚ opened k
  | Exited code => code = 1 /\ exists out0 fmt err, out = out0 ++ [Printf fmt [] (Some err)]
  | Running => exists level, c = CmdMonitor level
  end.

(** A command that starts by loading the maps: what it does with a manager. *)
Lemma loaded_command c k (body : MapManager -> kernel -> cmd_result) failed :
  (forall e, exists out st, failed e = (out, st) /\ (st = Returned \/ ended_well c k k out st /\ st = Exited 1)) ->
  (forall m k1, wired m -> opened k1 ≡ₚ handles m ++ opened k ->
     exists k' out st, body m k1 = Some (k', out, st) /\ ended_well c k k' out st) ->
  exists k' out st,
    (let '(k, r) := LoadPinnedMaps k in
     match r with Err e => Some (k, fst (failed e), snd (failed e)) | Ok m => body m k end) = Some (k', out, st) /\
    ended_well c k k' out st.
Proof.
  intros Hf Hb. pose proof (LoadPinnedMaps_open k) as Hload. destruct (LoadPinnedMaps k) as [k1 [m|e]].
  - destruct Hload as (_ & Hw & _ & Hop). by apply Hb.
  - destruct Hload as [_ Ho]. do 3 eexists. split; [reflexivity|].
    destruct (Hf e) as (out & st & -> & [->|[He ->]]); simpl; [exact Ho|exact He].
Qed.

(** C32: no command panics or leaks. Whatever the kernel answers, every command
    comes to its end or keeps streaming, which only [monitor] does; a command
    that returns has closed every handle it opened, on the error paths too; and
    one that leaves the process does it with status 1, after an error
    message. *)
Theorem commands_release_handles (env : Environment) (c : command) (k : kernel) :
  fair env -> exists k' out st, run_command env c k = Some (k', out, st) /\ ended_well c k k' out st.
Proof.
  intros []. destruct c as [level| |cidr|action arg|]; simpl.
  - unfold monitorCmd. destruct (ParseLogLevel _) as [lv [e|]].
    { do 3 eexists. split; [reflexivity|]. split; [done|]. by eexists [], _, _. }
    apply (loaded_command _ _ _ (fun e => ([Printf _ [] (Some e)], Exited 1))).
    { intros e. do 2 eexists. split; [reflexivity|]. right. split; [|done]. split; [done|]. by eexists [], _, _. }
    intros m k1 Hw Hop. destruct (f_events0 lv) as (s & out & Hrun).
    destruct (MonitorEvents_total m lv (e_newReader env) _ _ k1 s out Hw f_world0 Hrun) as (k2 & out2 & ret & -> & Ho). simpl.
    destruct ret as [[e|]|]; do 3 eexists; (split; [reflexivity|]); [split; [done|by do 3 eexists]| |by eexists].
    by eapply proj2, (closed_after m k k1 k2).
  - unfold statusCmd. destruct (InspectInterfaces _); do 3 eexists; (split; [reflexivity|]); simpl; reflexivity.
  - apply (loaded_command _ _ _ (fun e => ([Printf _ [] (Some e)], Returned))); [intros e; do 2 eexists; split; [reflexivity|by left]|].
    intros m k1 Hw Hop. destruct (BlockIP_total m cidr k1 Hw) as (k2 & e & -> & Ho). simpl. do 3 eexists. split; [reflexivity|].
    by eapply proj2, (closed_after m k k1 k2).
  - unfold portCmd. destruct (Sscanf_uint16 arg) as [port|]; [|do 3 eexists; (split; [reflexivity|]); simpl; reflexivity].
    apply (loaded_command _ _ _ (fun e => ([Printf _ [] (Some e)], Returned))); [intros e; do 2 eexists; split; [reflexivity|by left]|].
    intros m k1 Hw Hop. unfold BlockPort, UnblockPort. case_bool_decide; [|case_bool_decide].
    + destruct (put_port m k1 port 2 (ErrorfW "failed to block port %d: %w" [ArgD port]) Hw) as (k2 & e & -> & Ho & _). simpl. do 3 eexists. split; [reflexivity|]. by eapply proj2, (closed_after m k k1 k2).
    + destruct (put_port m k1 port 0 (ErrorfW "failed to unblock port %d: %w" [ArgD port]) Hw) as (k2 & e & -> & Ho & _). simpl. do 3 eexists. split; [reflexivity|]. by eapply proj2, (closed_after m k k1 k2).
    + do 3 eexists. split; [reflexivity|]. by eapply proj2, (closed_after m k k1 k1).
  - apply (loaded_command _ _ _ (fun e => ([Printf _ [] (Some e)], Exited 1))).
    { intros e. do 2 eexists. split; [reflexivity|]. right. split; [|done]. split; [done|]. by eexists [], _, _. }
    intros m k1 Hw Hop. destruct (RunDaemon_total m (e_newReader env) _ k1 Hw f_loop0) as (k2 & out & e & -> & Ho). simpl.
    destruct e as [e|]; do 3 eexists; (split; [reflexivity|]); [split; [done|by do 3 eexists]|].
    by eapply proj2, (closed_after m k k1 k2).
Qed.
End laws.

(** ** Examples, on the simulated kernel *)

(** The number is read up to the first byte that is not a digit. *)
Example scan_prefix : Sscanf_uint16 " 80abc" = Some 80 /\ Sscanf_uint16 "65536" = None /\ Sscanf_uint16 "-1" = None.
Proof. by vm_compute. Qed.

Definition sim_env : @Environment sim_ebpf :=
  @mkEnv sim_ebpf None sample_events id sim_loop (Ok [mkAttrs 1 "lo" [] "unknown" 65536 None;
    mkAttrs 2 "eth0" [2; 66; 172; 17; 0; 2] "up" 1500 (Some (mkXdp true 1 4 57))]).

Example sim_status_table :
  match InspectInterfaces (e_links sim_env) with Ok l => tabulate (status_rows l) | Err _ => [] end =
  ["INTERFACE   INDEX   STATE     PROTECTION   XDP MODE      PROG ID";
   "---------   -----   -----     ----------   --------      -------";
   "lo          1       unknown   🔴 INACTIVE   NONE          0";
   "eth0        2       up        🟢 SHIELDED   GENERIC/SKB   57"].
Proof. vm_compute. reflexivity. Qed.

Lemma sim_fair : @fair sim_ebpf sim_laws sim_env.
Proof.
  split; [done..|]. intros level. simpl. unfold sample_events, mon_run, mon_step. cbn [mn_stop mn_returned mon_start].
  repeat (destruct (show_record _ _ _ _) as [? ?]; cbn [mbind option_bind mn_stop mn_returned mn_meta]).
  by do 2 eexists.
Qed.

Lemma port_command_witness :
  exists k', @portCmd sim_ebpf "block" "443" (sim_start []) =
      Some (k', [Printf "⛔ [AI-IDA] Port %d has been BLOCKED in kernel data plane." [ArgD 443] None], Returned) /\
    sim_maps k' (pinned "port_gate_map") !! le_split 4 443 = Some [2].
Proof.
  destruct (@port_command sim_ebpf sim_laws "block" 443 "" (sim_start [])) as (k' & out & E & _ & _ & Hp);
    [discriminate|reflexivity|].
  change (itoa 443 +:+ "") with "443" in E. exists k'.
  assert (Hok : option_map (fun '(_, out, _) => out) (@portCmd sim_ebpf "block" "443" (sim_start [])) =
    Some [Printf "⛔ [AI-IDA] Port %d has been BLOCKED in kernel data plane." [ArgD 443] None]) by (vm_compute; reflexivity).
  rewrite E in Hok. injection Hok as ->. split; [exact E|].
  destruct (Hp eq_refl) as [[(fmt & args & e & Hf) _]|[(_ & _ & He)|[(Ha & _)|(Ha & _)]]];
    [discriminate|rewrite (He _ : sim_maps k' _ = _); reflexivity|discriminate|by destruct Ha].
Defined.

Lemma commands_release_handles_witness :
  exists k' out st, @run_command sim_ebpf sim_env (CmdMonitor None) (sim_start []) = Some (k', out, st) /\
    @ended_well sim_ebpf sim_laws (CmdMonitor None) (sim_start []) k' out st.
Proof.
  destruct (@commands_release_handles sim_ebpf sim_laws sim_env (CmdMonitor None) (sim_start []) sim_fair) as (k' & out & st & E & He).
  exists k', out, st. split; [exact E|exact He].
Defined.
