(* ===== verification/Packet.v ===== *)
(** * The kernel program's parsers ([kernel-space/src/cursor.rs], [kernel-space/src/parsers/])

    A cursor over the bytes of a frame and the header parsers on it; then the
    frames that are built of well-formed headers, which the parsers take
    apart again. [Result<T, ()>] is [option T]. The program is compiled for
    the little-endian BPF target: a field loaded as it is is the little-endian
    number of its bytes, and a field loaded and passed to [from_be] the
    big-endian one. *)

From S2P Require Import Prelude Contracts.

(** ** The cursor *)

Record Cursor := mkCursor { c_data : list Z; c_offset : nat }.

Definition cursor_new (data : list Z) : Cursor := mkCursor data 0.

(** [read::<T>()], for a type of [size] bytes: the bytes of the header. *)
Definition read (size : nat) (c : Cursor) : option (list Z * Cursor) :=
  let target := c_offset c in
  if (length (c_data c) <? target + size)%nat then None
  else Some (slice (c_data c) target (target + size), mkCursor (c_data c) (target + size)).

Definition advance (n : nat) (c : Cursor) : option Cursor :=
  if (length (c_data c) <? c_offset c + n)%nat then None
  else Some (mkCursor (c_data c) (c_offset c + n)).

Definition current_offset (c : Cursor) : nat := c_offset c.

(** A field of a header: loaded as it is, and through [from_be]. *)
Definition raw (hdr : list Z) (lo hi : nat) : Z := le_combine (slice hdr lo hi).
Definition from_be (hdr : list Z) (lo hi : nat) : Z := be_combine (slice hdr lo hi).
Definition byte_at (hdr : list Z) (i : nat) : Z := nth i hdr 0.

(** ** Ethernet *)

Definition IPV4 : Z := 2048.        (* 0x0800 *)
Definition IPV6 : Z := 34525.       (* 0x86DD *)
Definition ARP : Z := 2054.         (* 0x0806 *)
Definition VLAN_8021Q : Z := 33024. (* 0x8100 *)
Definition QINQ_8021AD : Z := 34984. (* 0x88A8 *)

Record L2Info := mkL2 { l2_src_mac : list Z; l2_dst_mac : list Z; eth_type : Z }.

Fixpoint skip_tags (n : nat) (t : Z) (c : Cursor) : option (Z * Cursor) :=
  match n with
  | O => Some (t, c)
  | S n' =>
      if (t =? VLAN_8021Q) || (t =? QINQ_8021AD) then
        '(vlan, c) ← read 4 c;
        skip_tags n' (from_be vlan 2 4) c
      else Some (t, c)
  end.

Definition parse_ethernet (c : Cursor) : option (L2Info * Cursor) :=
  '(eth, c) ← read 14 c;
  '(t, c) ← skip_tags 2 (from_be eth 12 14) c;
  Some (mkL2 (slice eth 6 12) (slice eth 0 6) t, c).

(** ** IPv4 *)

Record L3Ipv4Info := mkL3 { l3_src_ip : Z; l3_dst_ip : Z; l3_proto : Z; total_len : Z; is_fragment : bool }.

Definition parse_ipv4 (c : Cursor) : option (L3Ipv4Info * Cursor) :=
  '(ip, c) ← read 20 c;
  let version_ihl := byte_at ip 0 in
  let version := Z.shiftr version_ihl 4 in
  let ihl := Z.land version_ihl 15 in
  if negb (version =? 4) || (ihl <? 5) then None
  else
    let frag_off_raw := from_be ip 6 8 in
    let is_fragment := negb (Z.land frag_off_raw 16383 =? 0) in
    c ← (if 5 <? ihl then advance (Z.to_nat ((ihl - 5) * 4)) c else Some c);
    Some (mkL3 (raw ip 12 16) (raw ip 16 20) (byte_at ip 9) (from_be ip 2 4) is_fragment, c).

(** ** TCP, UDP, ARP *)

Record L4TcpInfo := mkTcp { tcp_src_port : Z; tcp_dst_port : Z; tcp_flag_bits : Z; data_offset : Z }.

Definition parse_tcp (c : Cursor) : option (L4TcpInfo * Cursor) :=
  '(tcp, c) ← read 20 c;
  let flags_raw := from_be tcp 12 14 in
  let doff := Z.land (Z.shiftr flags_raw 12) 15 in
  if doff <? 5 then None
  else
    let flags := Z.land flags_raw 255 in
    c ← (if 5 <? doff then advance (Z.to_nat ((doff - 5) * 4)) c else Some c);
    Some (mkTcp (from_be tcp 0 2) (from_be tcp 2 4) flags (doff * 4), c).

Record L4UdpInfo := mkUdp { udp_src_port : Z; udp_dst_port : Z; udp_length : Z }.

Definition parse_udp (c : Cursor) : option (L4UdpInfo * Cursor) :=
  '(udp, c) ← read 8 c;
  let length := from_be udp 4 6 in
  if length <? 8 then None else Some (mkUdp (from_be udp 0 2) (from_be udp 2 4) length, c).

Definition parse_arp (c : Cursor) : option (unit * Cursor) :=
  '(arp, c) ← read 8 c;
  let htype := from_be arp 0 2 in
  let ptype := from_be arp 2 4 in
  if negb (htype =? 1) || negb (ptype =? 2048) || negb (byte_at arp 4 =? 6) || negb (byte_at arp 5 =? 4) then None
  else c ← advance 20 c; Some (tt, c).

(** ** IPv6: defined, and not called by the firewall *)

Record L3Ipv6Info := mkL3v6 { v6_src_ip : list Z; v6_dst_ip : list Z; v6_next_proto : Z; v6_payload_len : Z }.

Fixpoint skip_extensions (n : nat) (next : Z) (c : Cursor) : option (Z * Cursor) :=
  match n with
  | O => Some (next, c)
  | S n' =>
      if (next =? 0) || (next =? 43) || (next =? 60) then
        '(ext, c) ← read 2 c;
        let ext_len := (byte_at ext 1 + 1) * 8 in
        c ← (if 2 <? ext_len then advance (Z.to_nat (ext_len - 2)) c else Some c);
        skip_extensions n' (byte_at ext 0) c
      else if next =? 44 then
        '(ext, c) ← read 2 c;
        c ← advance 6 c;
        skip_extensions n' (byte_at ext 0) c
      else Some (next, c)
  end.

Definition parse_ipv6 (c : Cursor) : option (L3Ipv6Info * Cursor) :=
  '(ip6, c) ← read 40 c;
  '(next, c) ← skip_extensions 4 (byte_at ip6 6) c;
  Some (mkL3v6 (slice ip6 8 24) (slice ip6 24 40) next (from_be ip6 4 6), c).

(** ** Reading *)

(** A cursor in the middle of its data. *)
Definition at_cursor (pre post : list Z) : Cursor := mkCursor (pre ++ post) (length pre).

Lemma read_app pre hdr post n : length hdr = n -> read n (at_cursor pre (hdr ++ post)) = Some (hdr, at_cursor (pre ++ hdr) post).
Proof.
  intros Hn. unfold read, at_cursor. simpl. rewrite !length_app.
  rewrite (proj2 (Nat.ltb_ge _ _)) by lia. rewrite slice_app_r by lia.
  replace (length pre - length pre)%nat with 0%nat by lia.
  replace (length pre + n - length pre)%nat with n by lia. rewrite slice_app_l by done.
  by rewrite <- app_assoc, Hn.
Qed.

Lemma advance_app pre skipped post n :
  length skipped = n -> advance n (at_cursor pre (skipped ++ post)) = Some (at_cursor (pre ++ skipped) post).
Proof.
  intros Hn. unfold advance, at_cursor. simpl. rewrite !length_app.
  rewrite (proj2 (Nat.ltb_ge _ _)) by lia. by rewrite <- app_assoc, Hn.
Qed.

(** What is read lies inside the frame. *)
Lemma read_inside n c hdr c' :
  read n c = Some (hdr, c') ->
  length hdr = n /\ c_data c' = c_data c /\ c_offset c' = (c_offset c + n)%nat /\ (c_offset c' <= length (c_data c))%nat.
Proof.
  unfold read. destruct (Nat.ltb_spec (length (c_data c)) (c_offset c + n)); [done|]. intros [= <- <-]. simpl.
  rewrite length_slice by lia. split_and!; [lia|done..|lia].
Qed.

Lemma advance_inside n c c' :
  advance n c = Some c' ->
  c_data c' = c_data c /\ c_offset c' = (c_offset c + n)%nat /\ (c_offset c' <= length (c_data c))%nat.
Proof.
  unfold advance. destruct (Nat.ltb_spec (length (c_data c)) (c_offset c + n)); [done|]. by intros [= <-].
Qed.

(** ** The width of what is read, on any bytes *)

Definition cursor_ok (c : Cursor) : Prop := is_bytes (c_data c).

Lemma read_typed n c hdr c' : cursor_ok c -> read n c = Some (hdr, c') -> is_bytes hdr /\ length hdr = n /\ cursor_ok c'.
Proof.
  intros Hc E. destruct (read_inside n c hdr c' E) as (Hl & Hd & _). unfold cursor_ok in *. rewrite Hd. split_and!; [|done..].
  revert E. unfold read. case_match; [done|]. intros [= <- _]. by apply slice_bytes.
Qed.

Lemma advance_typed n c c' : cursor_ok c -> advance n c = Some c' -> cursor_ok c'.
Proof. intros Hc E. unfold cursor_ok in *. by destruct (advance_inside n c c' E) as [-> _]. Qed.

Lemma field_typed hdr lo hi w :
  is_bytes hdr -> (lo <= hi <= length hdr)%nat -> w = 8 * Z.of_nat (hi - lo) ->
  in_u w (raw hdr lo hi) /\ in_u w (from_be hdr lo hi).
Proof.
  intros Hb Hl ->. rewrite <- (length_slice hdr lo hi Hl).
  split; [apply le_combine_bound|apply be_combine_bound]; by apply slice_bytes.
Qed.

Lemma byte_typed hdr i : is_bytes hdr -> in_u 8 (byte_at hdr i).
Proof.
  intros Hb. unfold byte_at. revert i. induction Hb as [|b l Hb _ IH]; intros [|i]; simpl; [split; lia..|exact Hb|apply IH].
Qed.

(** A field of [hdr], a header that has been read. *)
Ltac field_t := eapply field_typed; [eassumption|lia|reflexivity].

Definition l3_typed (l3 : L3Ipv4Info) : Prop := in_u 32 (l3_src_ip l3) /\ in_u 32 (l3_dst_ip l3) /\ in_u 8 (l3_proto l3).

Lemma skip_tags_typed n t c t' c' : cursor_ok c -> skip_tags n t c = Some (t', c') -> cursor_ok c'.
Proof.
  revert t c. induction n as [|n IH]; intros t c Hc; simpl; [by intros [= _ <-]|].
  destruct (_ || _); [|by intros [= _ <-]]. destruct (read 4 c) as [[vlan c1]|] eqn:E; [|done]. simpl.
  destruct (read_typed _ _ _ _ Hc E) as (_ & _ & Hc1). by apply IH.
Qed.

Lemma parse_ethernet_typed c l2 c' : cursor_ok c -> parse_ethernet c = Some (l2, c') -> cursor_ok c'.
Proof.
  intros Hc. unfold parse_ethernet. destruct (read 14 c) as [[eth c1]|] eqn:E; [|done]. cbn [mbind option_bind].
  destruct (read_typed _ _ _ _ Hc E) as (_ & _ & Hc1). destruct (skip_tags 2 (from_be eth 12 14) c1) as [[t c2]|] eqn:Et; [|done]. cbn [mbind option_bind].
  intros [= _ <-]. by eapply skip_tags_typed.
Qed.

Lemma parse_ipv4_typed c l3 c' : cursor_ok c -> parse_ipv4 c = Some (l3, c') -> l3_typed l3 /\ cursor_ok c'.
Proof.
  intros Hc. unfold parse_ipv4. destruct (read 20 c) as [[ip c1]|] eqn:E; [|done]. simpl.
  destruct (read_typed _ _ _ _ Hc E) as (Hb & Hl & Hc1). case_match; [done|].
  destruct (if 5 <? _ then _ else _) as [c2|] eqn:E2; [|done]. simpl. intros [= <- <-]. split.
  - split_and!; simpl; [field_t..|by apply byte_typed].
  - case_match; [by eapply advance_typed|by injection E2 as <-].
Qed.

Lemma parse_tcp_typed c tcp c' :
  cursor_ok c -> parse_tcp c = Some (tcp, c') ->
  in_u 16 (tcp_src_port tcp) /\ in_u 16 (tcp_dst_port tcp) /\ in_u 8 (tcp_flag_bits tcp).
Proof.
  intros Hc. unfold parse_tcp. destruct (read 20 c) as [[hdr c1]|] eqn:E; [|done]. simpl.
  destruct (read_typed _ _ _ _ Hc E) as (Hb & Hl & _). case_match; [done|].
  destruct (if 5 <? _ then _ else _) as [c2|]; [|done]. simpl. intros [= <- _]. split_and!; simpl; [field_t..|].
  change 255 with (Z.ones 8). rewrite Z.land_ones by lia. apply Z.mod_pos_bound. lia.
Qed.

Lemma parse_udp_typed c udp c' :
  cursor_ok c -> parse_udp c = Some (udp, c') -> in_u 16 (udp_src_port udp) /\ in_u 16 (udp_dst_port udp).
Proof.
  intros Hc. unfold parse_udp. destruct (read 8 c) as [[hdr c1]|] eqn:E; [|done]. simpl.
  destruct (read_typed _ _ _ _ Hc E) as (Hb & Hl & _). case_match; [done|]. intros [= <- _]. split; simpl; field_t.
Qed.

(** ** Well-formed frames *)

(** The tags: the type that announces each, and its control bytes. *)
Definition tag_type (t : Z) : Prop := t = VLAN_8021Q \/ t = QINQ_8021AD.

Fixpoint tagged (tags : list (Z * list Z)) (inner : Z) (payload : list Z) : list Z :=
  match tags with
  | [] => be_split 2 inner ++ payload
  | (t, tci) :: tags' => be_split 2 t ++ tci ++ tagged tags' inner payload
  end.

Definition eth_frame (macs : list Z) (tags : list (Z * list Z)) (inner : Z) (payload : list Z) : list Z :=
  macs ++ tagged tags inner payload.

Definition eth_ok (macs : list Z) (tags : list (Z * list Z)) : Prop :=
  length macs = 12%nat /\ (length tags <= 2)%nat /\ Forall (fun '(t, tci) => tag_type t /\ length tci = 2%nat) tags.

Record ipv4_hdr := mkIpv4 {
  ip_tos : Z; ip_tot_len : list Z; ip_id : list Z; ip_frag : Z; ip_ttl : Z; ip_proto : Z; ip_check : list Z;
  ip_src : list Z; ip_dst : list Z; ip_options : list Z
}.

Definition ipv4_ihl (h : ipv4_hdr) : Z := 5 + Z.of_nat (length (ip_options h)) / 4.
Definition ipv4_packet (h : ipv4_hdr) (payload : list Z) : list Z :=
  ([64 + ipv4_ihl h; ip_tos h] ++ ip_tot_len h ++ ip_id h ++ be_split 2 (ip_frag h) ++ [ip_ttl h; ip_proto h] ++ ip_check h
   ++ ip_src h ++ ip_dst h) ++ ip_options h ++ payload.

Definition ipv4_ok (h : ipv4_hdr) : Prop :=
  length (ip_tot_len h) = 2%nat /\ length (ip_id h) = 2%nat /\ length (ip_check h) = 2%nat /\
  length (ip_src h) = 4%nat /\ length (ip_dst h) = 4%nat /\ is_bytes (ip_src h) /\ is_bytes (ip_dst h) /\
  in_u 16 (ip_frag h) /\ in_u 8 (ip_proto h) /\
  Z.of_nat (length (ip_options h)) mod 4 = 0 /\ Z.of_nat (length (ip_options h)) <= 40.

(** The segments the program looks into, and the others. *)
Inductive segment :=
  | Tcp (sport dport : Z) (seqack : list Z) (reserved flags : Z) (tail options data : list Z)
  | Udp (sport dport len : Z) (check data : list Z)
  | Other (proto : Z) (data : list Z).

Definition seg_proto (s : segment) : Z :=
  match s with Tcp _ _ _ _ _ _ _ _ => 6 | Udp _ _ _ _ _ => 17 | Other proto _ => proto end.
Definition seg_ports (s : segment) : Z * Z :=
  match s with Tcp sp dp _ _ _ _ _ _ | Udp sp dp _ _ _ => (sp, dp) | Other _ _ => (0, 0) end.
Definition seg_flags (s : segment) : Z :=
  match s with Tcp _ _ _ _ flags _ _ _ => flags | _ => 0 end.

Definition tcp_doff (options : list Z) : Z := 5 + Z.of_nat (length options) / 4.
Definition seg_bytes (s : segment) : list Z :=
  match s with
  | Tcp sp dp seqack reserved flags tail options data =>
      (be_split 2 sp ++ be_split 2 dp ++ seqack ++ [tcp_doff options * 16 + reserved; flags] ++ tail) ++ options ++ data
  | Udp sp dp len check data => (be_split 2 sp ++ be_split 2 dp ++ be_split 2 len ++ check) ++ data
  | Other _ data => data
  end.

Definition seg_ok (s : segment) : Prop :=
  match s with
  | Tcp sp dp seqack reserved flags tail options data =>
      in_u 16 sp /\ in_u 16 dp /\ length seqack = 8%nat /\ in_u 4 reserved /\ in_u 8 flags /\ length tail = 6%nat /\
      Z.of_nat (length options) mod 4 = 0 /\ Z.of_nat (length options) <= 40
  | Udp sp dp len check data => in_u 16 sp /\ in_u 16 dp /\ in_u 16 len /\ 8 <= len /\ length check = 2%nat
  | Other proto data => in_u 8 proto /\ proto <> 6 /\ proto <> 17
  end.

(** ** Taking frames apart *)

Lemma be_split_2 x : be_split 2 x = [x / 256 mod 256; x mod 256].
Proof. reflexivity. Qed.

Lemma be_word x : in_u 16 x -> be_combine (be_split 2 x) = x.
Proof. intros Hx. rewrite be_combine_split. by apply Z.mod_small. Qed.

(** A big-endian field of a header written as the concatenation of its parts. *)
Lemma from_be_field hdr lo hi x : slice hdr lo hi = be_split 2 x -> in_u 16 x -> from_be hdr lo hi = x.
Proof. unfold from_be. intros -> Hx. by apply be_word. Qed.

(** The options of a header, by their length in words. *)
Lemma skip_options pre options rest extra :
  Z.of_nat (length options) mod 4 = 0 -> extra = 5 + Z.of_nat (length options) / 4 ->
  (if 5 <? extra then advance (Z.to_nat ((extra - 5) * 4)) (at_cursor pre (options ++ rest)) else Some (at_cursor pre (options ++ rest)))
  = Some (at_cursor (pre ++ options) rest).
Proof.
  intros Hm ->. assert (Hl : Z.of_nat (length options) = 4 * (Z.of_nat (length options) / 4)) by div_lia.
  destruct (Z.ltb_spec 5 (5 + Z.of_nat (length options) / 4)).
  - apply advance_app. lia.
  - assert (options = []) as -> by (destruct options; [done|simpl length in *; lia]). by rewrite app_nil_r.
Qed.

Definition first_type (tags : list (Z * list Z)) (inner : Z) : Z := match tags with [] => inner | (t, _) :: _ => t end.
Definition after_type (tags : list (Z * list Z)) (inner : Z) (payload : list Z) : list Z :=
  match tags with [] => payload | (_, tci) :: tags' => tci ++ tagged tags' inner payload end.

Lemma tagged_split tags inner payload :
  tagged tags inner payload = be_split 2 (first_type tags inner) ++ after_type tags inner payload.
Proof. by destruct tags as [|[t tci] tags]. Qed.

Lemma skip_tags_tagged n tags inner pre payload :
  Forall (fun '(t, tci) => tag_type t /\ length tci = 2%nat) tags -> (length tags <= n)%nat ->
  in_u 16 inner -> ~ tag_type inner ->
  exists hdrs, skip_tags n (first_type tags inner) (at_cursor pre (after_type tags inner payload)) =
    Some (inner, at_cursor hdrs payload).
Proof.
  intros Ht. revert n pre. induction Ht as [|[t tci] tags [Htype Htci] Ht IH]; intros n pre Hn Hi Hne; simpl in *.
  - exists pre. destruct n; simpl; [done|].
    rewrite (proj2 (Z.eqb_neq _ _)), (proj2 (Z.eqb_neq _ _)) by (intros ->; apply Hne; red; auto). done.
  - destruct n as [|n]; [lia|]. simpl.
    assert ((t =? VLAN_8021Q) || (t =? QINQ_8021AD) = true) as -> by (destruct Htype as [-> | ->]; done).
    rewrite tagged_split, (app_assoc tci).
    rewrite (read_app pre (tci ++ be_split 2 (first_type tags inner))) by (rewrite length_app, length_be_split; lia). simpl.
    assert (Hf : in_u 16 (first_type tags inner)).
    { destruct Ht as [|[t' ?] ? [[-> | ->] _]]; [done|..]; vm_compute; split; congruence. }
    rewrite (from_be_field _ 2 4 (first_type tags inner)) by (done || (rewrite slice_app_r by lia; rewrite Htci; reflexivity)).
    apply IH; [lia|done..].
Qed.

Lemma parse_ethernet_frame macs tags inner payload :
  eth_ok macs tags -> in_u 16 inner -> ~ tag_type inner ->
  exists hdrs l2, parse_ethernet (cursor_new (eth_frame macs tags inner payload)) = Some (l2, at_cursor hdrs payload) /\
    eth_type l2 = inner.
Proof.
  intros (Hm & Hn & Ht) Hi Hne. unfold parse_ethernet, eth_frame. rewrite tagged_split, app_assoc.
  change (cursor_new ?d) with (at_cursor [] d).
  rewrite (read_app [] (macs ++ be_split 2 (first_type tags inner))) by (rewrite length_app, length_be_split; lia). cbn [mbind option_bind app].
  assert (Hf : in_u 16 (first_type tags inner)).
  { destruct Ht as [|[t' ?] ? [[-> | ->] _]]; [done|..]; vm_compute; split; congruence. }
  rewrite (from_be_field _ 12 14 (first_type tags inner)) by (done || (rewrite slice_app_r by lia; rewrite Hm; reflexivity)).
  destruct (skip_tags_tagged 2 tags inner (macs ++ be_split 2 (first_type tags inner)) payload) as [hdrs E]; [done..|].
  rewrite E. simpl. by do 2 eexists.
Qed.

Lemma parse_ipv4_packet pre h payload :
  ipv4_ok h ->
  exists hdrs l3, parse_ipv4 (at_cursor pre (ipv4_packet h payload)) = Some (l3, at_cursor hdrs payload) /\
    l3_src_ip l3 = le_combine (ip_src h) /\ l3_dst_ip l3 = le_combine (ip_dst h) /\ l3_proto l3 = ip_proto h /\
    is_fragment l3 = negb (Z.land (ip_frag h) 16383 =? 0).
Proof.
  intros (Ht & Hid & Hc & Hs & Hd & _ & _ & Hf & _ & Hm & Ho). unfold ipv4_packet, parse_ipv4.
  rewrite read_app by (rewrite !length_app, length_be_split; simpl; lia). simpl mbind.
  destruct h as [tos tot id frag ttl proto check src dst options].
  cbn [ip_tos ip_tot_len ip_id ip_frag ip_ttl ip_proto ip_check ip_src ip_dst ip_options] in *.
  destruct_list tot 2%nat; destruct_list id 2%nat; destruct_list check 2%nat; destruct_list src 4%nat; destruct_list dst 4%nat.
  set (ihl := ipv4_ihl _). assert (Hihl : 5 <= ihl <= 15) by (unfold ihl, ipv4_ihl; simpl; div_lia).
  assert (Hv : Z.shiftr (64 + ihl) 4 = 4 /\ Z.land (64 + ihl) 15 = ihl).
  { clearbody ihl. assert (Hcase : forall P : Z -> Prop, (forall x, x ∈ seqZ 5 11 -> P x) -> P ihl)
      by (intros P HP; apply HP, elem_of_seqZ; lia).
    apply Hcase. apply Forall_forall. repeat constructor. }
  rewrite ?be_split_2. cbn [app byte_at nth]. rewrite (proj1 Hv), (proj2 Hv).
  rewrite (proj2 (Z.ltb_ge _ _)) by lia. cbn [negb Z.eqb Pos.eqb orb].
  rewrite (skip_options _ options payload ihl) by done. simpl mbind. do 2 eexists. split; [reflexivity|]. simpl.
  split_and!; [done..|]. by rewrite (from_be_field _ 6 8 frag).
Qed.

Lemma parse_tcp_segment pre sp dp seqack reserved flags tail options data :
  let s := Tcp sp dp seqack reserved flags tail options data in
  seg_ok s ->
  exists hdrs l4, parse_tcp (at_cursor pre (seg_bytes s)) = Some (l4, at_cursor hdrs data) /\
    tcp_src_port l4 = sp /\ tcp_dst_port l4 = dp /\ tcp_flag_bits l4 = flags.
Proof.
  intros s (Hsp & Hdp & Hq & Hr & Hf & Ht & Hm & Ho). unfold s, seg_bytes, parse_tcp.
  rewrite read_app by (rewrite !length_app, !length_be_split; simpl; lia). simpl mbind.
  destruct_list seqack 8%nat; destruct_list tail 6%nat. rewrite ?be_split_2. cbn [app].
  set (doff := tcp_doff options). assert (Hdoff : 5 <= doff <= 15) by (unfold doff, tcp_doff; div_lia).
  unfold in_u in *. change (2 ^ 4) with 16 in Hr. change (2 ^ 8) with 256 in Hf.
  assert (Hw : from_be [sp / 256 mod 256; sp mod 256; dp / 256 mod 256; dp mod 256; b; b0; b1; b2; b3; b4; b5; b6;
    doff * 16 + reserved; flags; b7; b8; b9; b10; b11; b12] 12 14 = (doff * 16 + reserved) * 256 + flags).
  { transitivity (flags + 256 * ((doff * 16 + reserved) + 256 * 0)); [reflexivity|lia]. }
  rewrite Hw. rewrite Z.shiftr_div_pow2, (Z.land_ones _ 4), (Z.land_ones _ 8) by lia.
  change (2 ^ 12) with 4096. change (2 ^ 4) with 16. change (2 ^ 8) with 256.
  assert (((doff * 16 + reserved) * 256 + flags) / 4096 = doff) as -> by div_lia.
  rewrite (Z.mod_small doff) by lia.
  assert (((doff * 16 + reserved) * 256 + flags) mod 256 = flags) as -> by div_lia.
  rewrite (proj2 (Z.ltb_ge _ _)) by lia. rewrite (skip_options _ options data doff) by done. simpl mbind.
  do 2 eexists. split; [reflexivity|]. simpl.
  split_and!; [by rewrite (from_be_field _ 0 2 sp)|by rewrite (from_be_field _ 2 4 dp)|done].
Qed.

Lemma parse_udp_segment pre sp dp len check data :
  let s := Udp sp dp len check data in
  seg_ok s ->
  exists hdrs l4, parse_udp (at_cursor pre (seg_bytes s)) = Some (l4, at_cursor hdrs data) /\
    udp_src_port l4 = sp /\ udp_dst_port l4 = dp /\ udp_length l4 = len.
Proof.
  intros s (Hsp & Hdp & Hl & Hl8 & Hc). unfold s, seg_bytes, parse_udp.
  rewrite read_app by (rewrite !length_app, !length_be_split; lia). simpl mbind.
  destruct_list check 2%nat. rewrite ?be_split_2. cbn [app].
  rewrite (from_be_field _ 4 6 len) by done. rewrite (proj2 (Z.ltb_ge _ _)) by lia.
  do 2 eexists. split; [reflexivity|]. simpl.
  split_and!; [by rewrite (from_be_field _ 0 2 sp)|by rewrite (from_be_field _ 2 4 dp)|done].
Qed.
