(* ===== verification/Firewall.v ===== *)
(** * The XDP program ([kernel-space/src/main.rs], [kernel-space/src/filters/], [common/src/])

    The filter that runs on every frame: parsing, the policy checks in their
    order, and the single exit that decides the verdict and the telemetry.
    The maps it reads are the ones the control plane writes, under the same
    names and with the same marshalled keys. *)

From S2P Require Import Prelude Contracts EbpfMap MapManager Packet.

(** ** The shared enumerations ([common/src/rules.rs]) *)

Inductive drop_reason :=
  | RNone | REthParseFailed | RIpv4ParseFailed | RTcpParseFailed | RUdpParseFailed | RArpParseFailed | RMalformedPacket
  | RRfcLandAttack | RRfcNullScan | RRfcSynFin | RRfcXmasScan | RBlacklistHit | RPortBlocked | RRateLimited.

#[global] Instance drop_reason_eq_dec : EqDecision drop_reason.
Proof. solve_decision. Defined.

Definition reason_code (r : drop_reason) : Z :=
  match r with
  | RNone => 0 | REthParseFailed => 1 | RIpv4ParseFailed => 2 | RTcpParseFailed => 3 | RUdpParseFailed => 4
  | RArpParseFailed => 5 | RMalformedPacket => 6 | RRfcLandAttack => 10 | RRfcNullScan => 11 | RRfcSynFin => 12
  | RRfcXmasScan => 13 | RBlacklistHit => 14 | RPortBlocked => 20 | RRateLimited => 21
  end.

Inductive severity := SOff | SDebug | SInfo | SWarn | SError.
Definition severity_code (s : severity) : Z :=
  match s with SOff => 0 | SDebug => 1 | SInfo => 2 | SWarn => 3 | SError => 4 end.

Definition reason_severity (r : drop_reason) : severity :=
  let c := reason_code r in
  if (1 <=? c) && (c <=? 9) then SError
  else if (10 <=? c) && (c <=? 19) then SWarn
  else if (20 <=? c) && (c <=? 29) then SInfo
  else SDebug.

(** The conversions from raw bytes, which the program itself does not use. *)
Definition LogSeverity_from_u8 (val : Z) : severity :=
  if val =? 1 then SDebug else if val =? 2 then SInfo else if val =? 3 then SWarn else if val =? 4 then SError else SOff.
Definition LogSeverity_from_u32 (val : Z) : severity := LogSeverity_from_u8 (wrap 8 val).

Definition DropReason_from_u8 (val : Z) : drop_reason :=
  if val =? 1 then REthParseFailed else if val =? 2 then RIpv4ParseFailed else if val =? 3 then RTcpParseFailed
  else if val =? 4 then RUdpParseFailed else if val =? 5 then RArpParseFailed else if val =? 6 then RMalformedPacket
  else if val =? 10 then RRfcLandAttack else if val =? 11 then RRfcNullScan else if val =? 12 then RRfcSynFin
  else if val =? 13 then RRfcXmasScan else if val =? 14 then RBlacklistHit
  else if val =? 20 then RPortBlocked else if val =? 21 then RRateLimited else RNone.

(** The key of the trie, and its 8 bytes in memory. *)
Record TrieKey := mkTrieKey { tk_prefix_len : Z; tk_addr : list Z }.
Definition TrieKey_new (addr : list Z) (prefix_len : Z) : TrieKey := mkTrieKey prefix_len addr.
Definition trie_key_bytes (k : TrieKey) : list Z := le_split 4 (tk_prefix_len k) ++ tk_addr k.

Inductive action := ADrop | APass | ATx | ARedirect | AWouldDrop.
Definition action_code (a : action) : Z :=
  match a with ADrop => 1 | APass => 2 | ATx => 3 | ARedirect => 4 | AWouldDrop => 5 end.

(** The record of [common/src/telemetry.rs]. The addresses are the fields of
    the header as they were loaded. *)
Record PacketMeta := mkPM {
  k_src_ip : Z; k_dst_ip : Z; k_src_port : Z; k_dst_port : Z; k_protocol : Z; k_tcp_flags : Z;
  k_action : Z; k_drop_reason : Z; k_timestamp_ns : Z
}.

(** Its 24 bytes in memory: [repr(C)], without padding, little endian. *)
Definition meta_bytes (m : PacketMeta) : list Z :=
  le_split 4 (k_src_ip m) ++ le_split 4 (k_dst_ip m) ++ le_split 2 (k_src_port m) ++ le_split 2 (k_dst_port m)
  ++ [k_protocol m; k_tcp_flags m; k_action m; k_drop_reason m] ++ le_split 8 (k_timestamp_ns m).

Definition XDP_DROP : Z := 1.
Definition XDP_PASS : Z := 2.

(** They undo the codes, and take a code that is no constructor's to the default. *)
Lemma from_u8_code :
  (forall r, DropReason_from_u8 (reason_code r) = r) /\ (forall s, LogSeverity_from_u8 (severity_code s) = s) /\
  (forall v, DropReason_from_u8 v = RNone \/ reason_code (DropReason_from_u8 v) = v) /\
  (forall v, LogSeverity_from_u8 v = SOff \/ severity_code (LogSeverity_from_u8 v) = v) /\
  (forall v, LogSeverity_from_u32 (v + 256) = LogSeverity_from_u32 v).
Proof.
  split_and!; [by intros []|by intros []|..]; intros v.
  - unfold DropReason_from_u8. repeat (case_Z; [by subst; right|]). by left.
  - unfold LogSeverity_from_u8. repeat (case_Z; [by subst; right|]). by left.
  - unfold LogSeverity_from_u32, wrap. f_equal. change (2 ^ 8) with 256. rewrite <- (Z.mul_1_l 256) at 1. apply Z_mod_plus_full.
Qed.

(** ** The kernel's helpers

    The LRU per-CPU hash of the running CPU (with its eviction), the lookup of
    an LPM trie and the ring buffer are the kernel's: parameters, with the laws
    the theorems rely on. *)

Class BpfHelpers := {
  rate_table : Type;
  rate_get : rate_table -> Z -> option RateLimitState;
  rate_write : rate_table -> Z -> RateLimitState -> rate_table;    (* through [get_ptr_mut] *)
  rate_insert : rate_table -> Z -> RateLimitState -> rate_table;   (* may fail or evict *)
  lpm_get : gmap (list Z) (list Z) -> list Z -> option (list Z);
  ring_output : list (list Z) -> list Z -> list (list Z)
}.

(** The prefix of length [p] of [a] is also one of [addr]. *)
Definition covers (p : Z) (a addr : list Z) : Prop :=
  be_combine a / 2 ^ (32 - p) = be_combine addr / 2 ^ (32 - p).
Definition lpm_entry (e : gmap (list Z) (list Z)) (p : Z) (a v : list Z) : Prop :=
  e !! (le_split 4 p ++ a) = Some v /\ 0 <= p <= 32 /\ length a = 4%nat /\ is_bytes a.

Class BpfHelperLaws `{BpfHelpers} := {
  (* the entry with the longest prefix that matches the address *)
  lpm_longest e addr :
    length addr = 4%nat -> is_bytes addr ->
    match lpm_get e (le_split 4 32 ++ addr) with
    | Some v => exists p a, lpm_entry e p a v /\ covers p a addr /\
                  forall p' a' v', lpm_entry e p' a' v' -> covers p' a' addr -> p' <= p
    | None => forall p a v, lpm_entry e p a v -> ~ covers p a addr
    end;
  (* the record is appended, or dropped when the buffer is full *)
  ring_appends l r : ring_output l r = l ++ [r] \/ ring_output l r = l
}.

Section firewall.
Context `{BpfHelpers}.

Record dataplane := mkDP {
  dp_entries : string -> gmap (list Z) (list Z);   (* the pinned maps *)
  dp_rate : rate_table;                            (* RATE_LIMIT_MAP *)
  dp_log : option RateLimitState;                  (* LOG_RATE_LIMIT_MAP[0] *)
  dp_events : list (list Z)                        (* EVENTS *)
}.

(** [get] on an array map. *)
Definition array_get (s : dataplane) (name : string) (i : Z) : option Z :=
  option_map le_combine (dp_entries s (pinned name) !! le_split 4 i).

Definition set_rate (s : dataplane) (t : rate_table) : dataplane := mkDP (dp_entries s) t (dp_log s) (dp_events s).
Definition set_log (s : dataplane) (st : RateLimitState) : dataplane := mkDP (dp_entries s) (dp_rate s) (Some st) (dp_events s).
Definition output (s : dataplane) (r : list Z) : dataplane :=
  mkDP (dp_entries s) (dp_rate s) (dp_log s) (ring_output (dp_events s) r).

(** ** The token buckets *)

(** The body shared by the two limiters: refill by the time elapsed, then take
    a token if there is one. *)
Definition take_token (nanos_per_token capacity now_ns : Z) (state : RateLimitState) : RateLimitState * bool :=
  let elapsed := Z.max 0 (now_ns - LastUpdateNS state) in
  let new_tokens := elapsed / nanos_per_token in
  let state :=
    if 0 <? new_tokens then mkRateLimitState now_ns (Z.min (Tokens state +{64} new_tokens) capacity) else state in
  if 1 <=? Tokens state then (mkRateLimitState (LastUpdateNS state) (Tokens state - 1), true) else (state, false).

Definition LOG_NANOS_PER_TOKEN : Z := 100000.
Definition LOG_BURST_CAPACITY : Z := 1000.

Definition check_log_rate_limit (now_ns : Z) (s : dataplane) : bool * dataplane :=
  match dp_log s with
  | Some state =>
      let '(state, ok) := take_token LOG_NANOS_PER_TOKEN LOG_BURST_CAPACITY now_ns state in (ok, set_log s state)
  | None => (true, s)
  end.

Definition NANOS_PER_TOKEN : Z := 100000.
Definition BURST_CAPACITY : Z := 20000.

Definition check_rate_limit (src_ip now_ns : Z) (s : dataplane) : bool * dataplane :=
  match rate_get (dp_rate s) src_ip with
  | Some state =>
      let '(state, ok) := take_token NANOS_PER_TOKEN BURST_CAPACITY now_ns state in
      (ok, set_rate s (rate_write (dp_rate s) src_ip state))
  | None =>
      let new_state := mkRateLimitState now_ns (BURST_CAPACITY - 1) in
      (true, set_rate s (rate_insert (dp_rate s) src_ip new_state))
  end.

(** ** The filters *)

(** [ip_raw.to_be() & 0xFF000000 == 0x7F000000], on a little-endian host. *)
Definition is_loopback (ip_raw : Z) : bool :=
  Z.land (be_combine (le_split 4 ip_raw)) 4278190080 =? 2130706432.

Definition CONTROL_FLAG_MASK : Z := 63.
Definition FIN : Z := 1.
Definition SYN : Z := 2.
Definition PSH : Z := 8.
Definition ACK : Z := 16.
Definition URG : Z := 32.

(** [None] is [Ok(())]. *)
Definition validate_rfc_invariants (src_ip dst_ip proto tcp_flags_val : Z) : option drop_reason :=
  if negb (is_loopback src_ip || is_loopback dst_ip) && (negb (src_ip =? 0) && (src_ip =? dst_ip)) then Some RRfcLandAttack
  else if proto =? 6 then
    let control_flags := Z.land tcp_flags_val CONTROL_FLAG_MASK in
    let xmas_mask := Z.lor (Z.lor FIN PSH) URG in
    if control_flags =? 0 then Some RRfcNullScan
    else if negb (Z.land control_flags SYN =? 0) && negb (Z.land control_flags FIN =? 0) then Some RRfcSynFin
    else if Z.land control_flags xmas_mask =? xmas_mask then Some RRfcXmasScan
    else None
  else None.

Definition is_port_blocked (s : dataplane) (protocol dst_port flags : Z) : bool :=
  if dst_port =? 0 then false
  else
    let gated :=
      if protocol =? 6 then negb (Z.land flags SYN =? 0) && (Z.land flags ACK =? 0)
      else if protocol =? 17 then negb (32768 <=? dst_port)
      else false in
    if negb gated then false
    else match array_get s "port_gate_map" dst_port with
         | Some status => status =? 2
         | None => false
         end.

(** ** The program *)

(** The single exit; always [Ok]. *)
Definition emit_and_return (act : Z) (reason : drop_reason) (meta : PacketMeta) (now_ns : Z) (s : dataplane)
    : option Z * dataplane :=
  let dry_run := match array_get s "config_map" 1 with Some val => val =? 1 | None => false end in
  let '(effective_action, telemetry_action) :=
    if act =? XDP_DROP then (if dry_run then (XDP_PASS, AWouldDrop) else (XDP_DROP, ADrop)) else (act, APass) in
  let threshold := match array_get s "config_map" 0 with Some val => val | None => 0 end in
  if threshold =? 0 then (Some effective_action, s)
  else if severity_code (reason_severity reason) <? threshold then (Some effective_action, s)
  else
    let '(ok, s) := check_log_rate_limit now_ns s in
    if negb ok then (Some effective_action, s)
    else
      let meta := mkPM (k_src_ip meta) (k_dst_ip meta) (k_src_port meta) (k_dst_port meta) (k_protocol meta) (k_tcp_flags meta)
                    (action_code telemetry_action) (reason_code reason) now_ns in
      (Some effective_action, output s (meta_bytes meta)).

Definition set_l3 (m : PacketMeta) (l3 : L3Ipv4Info) : PacketMeta :=
  mkPM (l3_src_ip l3) (l3_dst_ip l3) (k_src_port m) (k_dst_port m) (l3_proto l3) (k_tcp_flags m) (k_action m) (k_drop_reason m)
    (k_timestamp_ns m).
Definition set_l4 (m : PacketMeta) (sport dport flags : Z) : PacketMeta :=
  mkPM (k_src_ip m) (k_dst_ip m) sport dport (k_protocol m) flags (k_action m) (k_drop_reason m) (k_timestamp_ns m).

(** The match on the transport protocol: the record with its ports and flags, or the
    reason to drop. *)
Definition parse_l4 (proto : Z) (c : Cursor) (meta : PacketMeta) : PacketMeta + drop_reason :=
  if proto =? 6 then
    match parse_tcp c with
    | Some (tcp, _) => inl (set_l4 meta (tcp_src_port tcp) (tcp_dst_port tcp) (tcp_flag_bits tcp))
    | None => inr RTcpParseFailed
    end
  else if proto =? 17 then
    match parse_udp c with
    | Some (udp, _) => inl (set_l4 meta (udp_src_port udp) (udp_dst_port udp) (k_tcp_flags meta))
    | None => inr RUdpParseFailed
    end
  else inl meta.

(** Steps 4 to 8, on a packet whose headers have been read. *)
Definition check_policy (meta : PacketMeta) (now_ns : Z) (s : dataplane) : option Z * dataplane :=
  match validate_rfc_invariants (k_src_ip meta) (k_dst_ip meta) (k_protocol meta) (k_tcp_flags meta) with
  | Some rfc_reason => emit_and_return XDP_DROP rfc_reason meta now_ns s
  | None =>
      let lpm_key := le_split 4 32 ++ le_split 4 (k_src_ip meta) in
      let listed := match lpm_get (dp_entries s (pinned "reputation_map")) lpm_key with
                    | Some act => le_combine act =? 1
                    | None => false
                    end in
      if listed then emit_and_return XDP_DROP RBlacklistHit meta now_ns s
      else if is_port_blocked s (k_protocol meta) (k_dst_port meta) (k_tcp_flags meta)
      then emit_and_return XDP_DROP RPortBlocked meta now_ns s
      else
        let '(ok, s) := check_rate_limit (k_src_ip meta) now_ns s in
        if negb ok then emit_and_return XDP_DROP RRateLimited meta now_ns s
        else emit_and_return XDP_PASS RNone meta now_ns s
  end.

Definition try_ai_ida_firewall (data : list Z) (now_ns : Z) (s : dataplane) : option Z * dataplane :=
  let meta := mkPM 0 0 0 0 0 0 (action_code APass) (reason_code RNone) now_ns in
  match parse_ethernet (cursor_new data) with
  | None => emit_and_return XDP_DROP REthParseFailed meta now_ns s
  | Some (l2, c) =>
      if eth_type l2 =? IPV4 then
        match parse_ipv4 c with
        | None => emit_and_return XDP_DROP RIpv4ParseFailed meta now_ns s
        | Some (l3, c) =>
            let meta := set_l3 meta l3 in
            if is_fragment l3 then
              let '(ok, s) := check_rate_limit (l3_src_ip l3) now_ns s in
              if negb ok then emit_and_return XDP_DROP RRateLimited meta now_ns s
              else emit_and_return XDP_PASS RNone meta now_ns s
            else
              match parse_l4 (l3_proto l3) c meta with
              | inr reason => emit_and_return XDP_DROP reason meta now_ns s
              | inl meta => check_policy meta now_ns s
              end
        end
      else if eth_type l2 =? ARP then
        match parse_arp c with
        | Some _ => emit_and_return XDP_PASS RNone meta now_ns s
        | None => emit_and_return XDP_DROP RArpParseFailed meta now_ns s
        end
      else emit_and_return XDP_PASS RNone meta now_ns s
  end.

Definition ai_ida_firewall (data : list Z) (now_ns : Z) (s : dataplane) : Z * dataplane :=
  let '(r, s) := try_ai_ida_firewall data now_ns s in
  (match r with Some act => act | None => XDP_DROP end, s).

End firewall.

(** ** The single exit *)

Section exit.
Context `{BpfHelperLaws}.

Definition dry_run_mode (s : dataplane) : bool :=
  match array_get s "config_map" 1 with Some val => val =? 1 | None => false end.

(** The verdict for a reason: none passes, any other drops unless the
    dry-run mode is on. *)
Definition verdict (s : dataplane) (r : drop_reason) : Z :=
  if decide (r = RNone) then XDP_PASS else if dry_run_mode s then XDP_PASS else XDP_DROP.

(** What the record says of the action taken. *)
Definition action_of (v : Z) (r : drop_reason) : action :=
  if decide (r = RNone) then APass else if v =? XDP_DROP then ADrop else AWouldDrop.

(** Two states that differ in the rate limiter only. *)
Definition same_policy (s s' : dataplane) : Prop :=
  dp_entries s' = dp_entries s /\ dp_log s' = dp_log s /\ dp_events s' = dp_events s.

(** The exit of a packet with addresses, ports and flags [meta]: the verdict,
    and at most one record, which tells the reason and what was done. *)
Definition exits (s : dataplane) (now : Z) (r : drop_reason) (meta : PacketMeta) (v : Z) (s' : dataplane) : Prop :=
  v = verdict s r /\ dp_entries s' = dp_entries s /\
  (dp_events s' = dp_events s \/
   exists threshold, array_get s "config_map" 0 = Some threshold /\ threshold <> 0 /\
     threshold <= severity_code (reason_severity r) /\
     dp_events s' = dp_events s ++
       [meta_bytes (mkPM (k_src_ip meta) (k_dst_ip meta) (k_src_port meta) (k_dst_port meta) (k_protocol meta) (k_tcp_flags meta)
          (action_code (action_of v r)) (reason_code r) now)]).

Lemma check_log_frame now s :
  dp_entries (snd (check_log_rate_limit now s)) = dp_entries s /\ dp_events (snd (check_log_rate_limit now s)) = dp_events s.
Proof. unfold check_log_rate_limit. destruct (dp_log s) as [st|]; [destruct (take_token _ _ _ _)|]; done. Qed.

Lemma check_rate_frame src now s : same_policy s (snd (check_rate_limit src now s)).
Proof. unfold check_rate_limit. destruct (rate_get _ _) as [st|]; [destruct (take_token _ _ _ _)|]; done. Qed.

Lemma emit_exits s0 s act r meta now :
  same_policy s0 s -> (act = XDP_PASS /\ r = RNone) \/ (act = XDP_DROP /\ r <> RNone) ->
  exists v s', emit_and_return act r meta now s = (Some v, s') /\ exits s0 now r meta v s'.
Proof.
  intros (He & _ & Hev) Hact. unfold emit_and_return.
  assert (Hg : forall name i, array_get s name i = array_get s0 name i) by (intros; unfold array_get; by rewrite He).
  rewrite !Hg. fold (dry_run_mode s0).
  set (v := verdict s0 r). set (tact := action_of v r).
  assert (E : (if act =? XDP_DROP then (if dry_run_mode s0 then (XDP_PASS, AWouldDrop) else (XDP_DROP, ADrop)) else (act, APass)) = (v, tact)).
  { unfold tact, action_of, v, verdict. destruct Hact as [[-> ->]|[-> Hr]]; [done|].
    rewrite !decide_False by done. by destruct (dry_run_mode s0). }
  rewrite E. exists v. unfold exits. fold v. fold tact.
  destruct (array_get s0 "config_map" 0) as [threshold|]; [|exists s; rewrite He, Hev; auto].
  destruct (Z.eqb_spec threshold 0); [exists s; rewrite He, Hev; auto|].
  destruct (Z.ltb_spec (severity_code (reason_severity r)) threshold); [exists s; rewrite He, Hev; auto|].
  destruct (check_log_frame now s) as [Hle Hlev]. destruct (check_log_rate_limit now s) as [ok s1]. simpl in Hle, Hlev.
  destruct ok; simpl; eexists; (split; [reflexivity|]); simpl; rewrite ?Hle, ?Hlev, He, Hev; [|by auto].
  split_and!; [done..|]. destruct (ring_appends (dp_events s0) (meta_bytes (mkPM (k_src_ip meta) (k_dst_ip meta) (k_src_port meta)
    (k_dst_port meta) (k_protocol meta) (k_tcp_flags meta) (action_code tact) (reason_code r) now))) as [-> | ->]; [right|by left].
  exists threshold. split_and!; done.
Qed.

Lemma same_policy_refl s : same_policy s s.
Proof. done. Qed.

Lemma rfc_reason src dst proto flags r : validate_rfc_invariants src dst proto flags = Some r -> r <> RNone.
Proof. unfold validate_rfc_invariants. repeat case_match; congruence. Qed.

Lemma parse_l4_reason proto c meta r : parse_l4 proto c meta = inr r -> r <> RNone.
Proof. unfold parse_l4. repeat case_match; congruence. Qed.

Ltac exit_t := apply emit_exits; [done|by auto].

Lemma policy_exits meta now s :
  exists r v s', check_policy meta now s = (Some v, s') /\ exits s now r meta v s'.
Proof.
  unfold check_policy. destruct (validate_rfc_invariants _ _ _ _) as [r|] eqn:Er.
  { exists r. apply emit_exits; [done|]. right. split; [done|]. by eapply rfc_reason. }
  cbv zeta. destruct (match lpm_get _ _ with Some _ => _ | None => _ end); [exists RBlacklistHit; exit_t|].
  destruct (is_port_blocked _ _ _ _); [exists RPortBlocked; exit_t|].
  pose proof (check_rate_frame (k_src_ip meta) now s) as Hf. destruct (check_rate_limit _ _ _) as [ok s1].
  destruct ok; simpl; [exists RNone|exists RRateLimited]; exit_t.
Qed.

(** The fields that come from a packet have their widths. *)
Definition fields_typed (m : PacketMeta) : Prop :=
  in_u 32 (k_src_ip m) /\ in_u 32 (k_dst_ip m) /\ in_u 16 (k_src_port m) /\ in_u 16 (k_dst_port m) /\
  in_u 8 (k_protocol m) /\ in_u 8 (k_tcp_flags m).

Lemma set_l3_typed now l3 :
  l3_typed l3 -> fields_typed (set_l3 (mkPM 0 0 0 0 0 0 (action_code APass) (reason_code RNone) now) l3).
Proof. intros (Hs & Hd & Hp). split_and!; simpl; try done; split; lia. Qed.

Lemma parse_l4_typed proto c meta meta' :
  cursor_ok c -> fields_typed meta -> parse_l4 proto c meta = inl meta' -> fields_typed meta'.
Proof.
  intros Hc (Hs & Hd & Hsp & Hdp & Hp & Hf). unfold parse_l4. repeat case_match; try done; intros [= <-].
  - edestruct parse_tcp_typed as (? & ? & ?); [exact Hc|eassumption|]. by split_and!.
  - edestruct parse_udp_typed as (? & ?); [exact Hc|eassumption|]. by split_and!.
  - by split_and!.
Qed.

Lemma firewall_exits data now s :
  exists r meta v s', ai_ida_firewall data now s = (v, s') /\ exits s now r meta v s' /\ (is_bytes data -> fields_typed meta).
Proof.
  assert (Hzero : fields_typed (mkPM 0 0 0 0 0 0 (action_code APass) (reason_code RNone) now)) by (split_and!; simpl; split; lia).
  assert (Hexit : forall act r meta s1, same_policy s s1 -> (act = XDP_PASS /\ r = RNone) \/ (act = XDP_DROP /\ r <> RNone) ->
    (is_bytes data -> fields_typed meta) ->
    exists r' meta' v s', emit_and_return act r meta now s1 = (Some v, s') /\ exits s now r' meta' v s' /\ (is_bytes data -> fields_typed meta')).
  { intros act r meta s1 Hs Ha Ht. destruct (emit_exits s s1 act r meta now Hs Ha) as (v & s' & E & He). by exists r, meta, v, s'. }
  assert (Htry : exists r meta v s', try_ai_ida_firewall data now s = (Some v, s') /\ exits s now r meta v s' /\
    (is_bytes data -> fields_typed meta)).
  { unfold try_ai_ida_firewall. destruct (parse_ethernet _) as [[l2 c]|] eqn:Eeth; [|apply Hexit; by auto].
    assert (Hc : is_bytes data -> cursor_ok c) by (intros; by eapply parse_ethernet_typed, Eeth).
    destruct (eth_type l2 =? IPV4); [|destruct (eth_type l2 =? ARP); [destruct (parse_arp c)|]; apply Hexit; by auto].
    destruct (parse_ipv4 c) as [[l3 c3]|] eqn:Eip; [|apply Hexit; by auto].
    assert (Ht : is_bytes data -> l3_typed l3 /\ cursor_ok c3) by (intros; eapply parse_ipv4_typed, Eip; auto).
    destruct (is_fragment l3).
    - pose proof (check_rate_frame (l3_src_ip l3) now s) as Hf. destruct (check_rate_limit _ _ _) as [ok s1].
      destruct ok; simpl; apply Hexit; try done; try (by auto); intros; by apply set_l3_typed, Ht.
    - destruct (parse_l4 _ _ _) as [meta|r] eqn:El.
      + destruct (policy_exits meta now s) as (r & v & s' & E & He). exists r, meta, v, s'. split_and!; [done..|].
        intros Hb. destruct (Ht Hb) as [Hl3 Hc3]. eapply parse_l4_typed, El; [done|by apply set_l3_typed].
      + apply Hexit; [done|right; split; [done|by eapply parse_l4_reason]|]. intros; by apply set_l3_typed, Ht.
  }
  destruct Htry as (r & meta & v & s' & E & He & Ht). exists r, meta, v, s'. unfold ai_ida_firewall. by rewrite E.
Qed.


(** C12: the firewall always decides, and its telemetry is truthful. For any
    bytes at all there is one reason, which determines the verdict: a frame
    without one passes, and a frame with one is dropped, or passed in dry-run
    mode. The policy maps are not written. At most one record is
    emitted, only when the log level is not OFF and the reason's severity reaches it; it
    carries that reason, the time of the packet and the action taken: DROP
    exactly when the frame was dropped, WOULD_DROP when dry-run spared it. *)
Theorem firewall_truthful (data : list Z) (now : Z) (s : dataplane) :
  exists r meta,
    let '(v, s') := ai_ida_firewall data now s in
    (v = XDP_DROP <-> r <> RNone /\ dry_run_mode s = false) /\
    (v = XDP_PASS <-> r = RNone \/ dry_run_mode s = true) /\
    dp_entries s' = dp_entries s /\
    (dp_events s' = dp_events s \/
     exists threshold, array_get s "config_map" 0 = Some threshold /\ threshold <> 0 /\
       threshold <= severity_code (reason_severity r) /\
       dp_events s' = dp_events s ++ [meta_bytes meta] /\
       k_timestamp_ns meta = now /\ k_drop_reason meta = reason_code r /\
       (k_action meta = action_code ADrop <-> v = XDP_DROP) /\
       (k_action meta = action_code AWouldDrop <-> v = XDP_PASS /\ r <> RNone)).
Proof.
  destruct (firewall_exits data now s) as (r & meta & v & s' & E & (Hv & He & Hev) & _). rewrite E.
  exists r, (mkPM (k_src_ip meta) (k_dst_ip meta) (k_src_port meta) (k_dst_port meta) (k_protocol meta) (k_tcp_flags meta)
    (action_code (action_of v r)) (reason_code r) now).
  assert (Hverdict : (v = XDP_DROP <-> r <> RNone /\ dry_run_mode s = false) /\ (v = XDP_PASS <-> r = RNone \/ dry_run_mode s = true)).
  { rewrite Hv. unfold verdict. destruct (decide (r = RNone)), (dry_run_mode s); intuition (congruence || discriminate). }
  split; [apply Hverdict|]. split; [apply Hverdict|]. split; [done|].
  destruct Hev as [Hev|(threshold & Ht & Hne & Hle & Hev)]; [by left|right].
  exists threshold. split_and!; try done; simpl; unfold action_of; destruct (decide (r = RNone)) as [-> | Hr];
    rewrite Hv; unfold verdict; simpl; rewrite ?decide_False by done; destruct (dry_run_mode s); simpl;
    intuition (congruence || discriminate).
Qed.
End exit.

(** ** Token buckets *)

Fixpoint admitted (nanos capacity : Z) (state : RateLimitState) (arrivals : list Z) : nat :=
  match arrivals with
  | [] => 0
  | now :: arrivals' =>
      let '(state, ok) := take_token nanos capacity now state in
      ((if ok : bool then 1 else 0) + admitted nanos capacity state arrivals')%nat
  end.

(** The arrivals in order, from a time on, and up to another. *)
Fixpoint in_order (from till : Z) (arrivals : list Z) : Prop :=
  match arrivals with [] => True | now :: arrivals' => from <= now <= till /\ in_order now till arrivals' end.

Lemma in_order_weaken from from' till arrivals : from' <= from -> in_order from till arrivals -> in_order from' till arrivals.
Proof. destruct arrivals; simpl; [done|]. intros Hf [Hn Hr]. split; [lia|done]. Qed.

(** One arrival: what the bucket could still give does not grow. *)
Lemma take_token_credit nanos capacity now till state :
  0 < nanos -> 0 <= capacity -> 0 <= Tokens state <= capacity -> LastUpdateNS state <= now <= till ->
  let '(state', ok) := take_token nanos capacity now state in
  0 <= Tokens state' <= capacity /\ LastUpdateNS state' <= now /\
  (if ok : bool then 1 else 0) + (Tokens state' + (till - LastUpdateNS state') / nanos) <=
    Tokens state + (till - LastUpdateNS state) / nanos.
Proof.
  intros Hn Hc Ht Hl. unfold take_token. cbv zeta. rewrite Z.max_r by lia.
  set (new := (now - LastUpdateNS state) / nanos).
  assert (Hnew : 0 <= new) by (apply Z.div_pos; lia).
  assert (Hsum : new + (till - now) / nanos <= (till - LastUpdateNS state) / nanos).
  { apply Z.div_le_lower_bound; [lia|]. pose proof (Z.mul_div_le (now - LastUpdateNS state) nanos Hn).
    pose proof (Z.mul_div_le (till - now) nanos Hn). unfold new. lia. }
  assert (Hw : 0 <= wrap 64 (Tokens state + new) <= Tokens state + new).
  { unfold wrap. split; [apply Z.mod_pos_bound; lia|apply Z.mod_le; lia]. }
  destruct (Z.ltb_spec 0 new); simpl; case_Z; simpl; lia.
Qed.

Lemma admitted_credit nanos capacity till arrivals state :
  0 < nanos -> 0 <= capacity -> 0 <= Tokens state <= capacity ->
  in_order (LastUpdateNS state) till arrivals ->
  arrivals <> [] ->
  Z.of_nat (admitted nanos capacity state arrivals) <= Tokens state + (till - LastUpdateNS state) / nanos.
Proof.
  intros Hn Hc. revert state. induction arrivals as [|now arrivals IH]; intros state Ht Ho Hne; [done|].
  destruct Ho as [Hnow Ho]. simpl. pose proof (take_token_credit nanos capacity now till state Hn Hc Ht Hnow) as Hs.
  destruct (take_token _ _ _ _) as [state' ok]. destruct Hs as (Ht' & Hl' & Hs).
  assert (Hrest : Z.of_nat (admitted nanos capacity state' arrivals) <= Tokens state' + (till - LastUpdateNS state') / nanos).
  { destruct arrivals as [|next arrivals].
    - simpl. assert (0 <= (till - LastUpdateNS state') / nanos) by (apply Z.div_pos; lia). lia.
    - apply IH; [done| |done]. eapply in_order_weaken; [|done]. lia. }
  destruct ok; lia.
Qed.

(** C14: the rate limiter bounds every source. Of the packets of one source that
    arrive within [window] nanoseconds of its last refill, in whatever
    pattern, a bucket admits at most its tokens plus one per 100 microseconds,
    so never more than 20000 and one per 100 microseconds; and a packet that
    comes at least 100 microseconds after the last refill is always admitted. *)
Theorem rate_limit_bound (state : RateLimitState) (arrivals : list Z) (window : Z) :
  0 <= LastUpdateNS state -> 0 <= Tokens state <= BURST_CAPACITY ->
  in_order (LastUpdateNS state) (LastUpdateNS state + window) arrivals -> arrivals <> [] ->
  Z.of_nat (admitted NANOS_PER_TOKEN BURST_CAPACITY state arrivals) <= Tokens state + window / NANOS_PER_TOKEN /\
  Z.of_nat (admitted NANOS_PER_TOKEN BURST_CAPACITY state arrivals) <= 20000 + window / 100000 /\
  (forall now, LastUpdateNS state + NANOS_PER_TOKEN <= now < 2 ^ 64 ->
     snd (take_token NANOS_PER_TOKEN BURST_CAPACITY now state) = true).
Proof.
  intros Hl Ht Ho Hne.
  pose proof (admitted_credit NANOS_PER_TOKEN BURST_CAPACITY _ arrivals state eq_refl ltac:(done) Ht Ho Hne) as Hb.
  replace (LastUpdateNS state + window - LastUpdateNS state) with window in Hb by lia.
  split; [done|]. split; [unfold BURST_CAPACITY, NANOS_PER_TOKEN in *; lia|].
  intros now Hnow. unfold take_token, NANOS_PER_TOKEN, BURST_CAPACITY in *. cbv zeta. rewrite Z.max_r by lia.
  assert (Hnew : 0 < (now - LastUpdateNS state) / 100000 < 2 ^ 63).
  { split; [apply Z.div_str_pos; lia|apply Z.div_lt_upper_bound; lia]. }
  rewrite (proj2 (Z.ltb_lt _ _)) by lia. simpl. rewrite wrap_small by (unfold in_u; lia).
  rewrite (proj2 (Z.leb_le _ _)) by lia. done.
Qed.

Lemma rate_limit_bound_witness :
  Z.of_nat (admitted NANOS_PER_TOKEN BURST_CAPACITY (mkRateLimitState 1000 2) [1000; 2000; 3000; 150000]) <= 3.
Proof.
  destruct (rate_limit_bound (mkRateLimitState 1000 2) [1000; 2000; 3000; 150000] 149000) as [Hb _];
    [simpl; lia|unfold BURST_CAPACITY; simpl; lia|simpl; lia|discriminate|exact Hb].
Defined.

(** ** A simulated kernel

    Helpers that satisfy the laws: a table that never evicts, a buffer that is
    never full, and a trie that is searched entry by entry. *)

Definition sim_entry (addr : list Z) (kv : list Z * list Z) : option (Z * list Z) :=
  let p := le_combine (take 4 (fst kv)) in
  let a := drop 4 (fst kv) in
  if bool_decide (take 4 (fst kv) = le_split 4 p /\ 0 <= p <= 32 /\ length a = 4%nat /\ is_bytes a /\
                  be_combine a / 2 ^ (32 - p) = be_combine addr / 2 ^ (32 - p))
  then Some (p, snd kv) else None.

Fixpoint longest (l : list (Z * list Z)) : option (Z * list Z) :=
  match l with
  | [] => None
  | (p, v) :: l' => match longest l' with Some (p', v') => if p <? p' then Some (p', v') else Some (p, v) | None => Some (p, v) end
  end.

Lemma longest_spec l :
  match longest l with
  | Some (p, v) => (p, v) ∈ l /\ forall p' v', (p', v') ∈ l -> p' <= p
  | None => l = []
  end.
Proof.
  induction l as [|[p v] l IH]; simpl; [done|]. destruct (longest l) as [[p' v']|].
  - destruct IH as [Hin Hmax]. destruct (Z.ltb_spec p p').
    + split; [by apply list_elem_of_further|]. intros q w [[= -> ->]|Hq]%elem_of_cons; [lia|by eapply Hmax].
    + split; [apply list_elem_of_here|]. intros q w [[= -> ->]|Hq]%elem_of_cons; [lia|]. specialize (Hmax q w Hq). lia.
  - subst l. split; [apply list_elem_of_here|]. intros q w [[= -> ->]|Hq]%elem_of_cons; [lia|by apply not_elem_of_nil in Hq].
Qed.

Definition sim_helpers : BpfHelpers := {|
  rate_table := gmap Z RateLimitState;
  rate_get t k := t !! k;
  rate_write t k st := <[k := st]> t;
  rate_insert t k st := <[k := st]> t;
  lpm_get e key := option_map snd (longest (omap (sim_entry (drop 4 key)) (map_to_list e)));
  ring_output l r := l ++ [r]
|}.

Lemma sim_entry_spec (e : gmap (list Z) (list Z)) addr p v :
  (p, v) ∈ omap (sim_entry addr) (map_to_list e) <-> exists a, lpm_entry e p a v /\ covers p a addr.
Proof.
  rewrite list_elem_of_omap. split.
  - intros ([key w] & Hin & He). apply elem_of_map_to_list in Hin. unfold sim_entry in He. cbn [fst snd] in He.
    case_bool_decide as Hd; [|done]. injection He as <- <-. destruct Hd as (Ht & Hp & Hl & Hb & Hc).
    exists (drop 4 key). split; [|done]. split_and!; try done; try lia. by rewrite <- Ht, take_drop.
  - intros (a & (He & Hp & Hl & Hb) & Hc). exists (le_split 4 p ++ a, v). split; [by apply elem_of_map_to_list|].
    unfold sim_entry. cbn [fst snd]. rewrite take_app_length', drop_app_length' by done.
    assert (le_combine (le_split 4 p) = p) as -> by (rewrite le_combine_split; apply Z.mod_small; lia).
    by rewrite bool_decide_eq_true_2.
Qed.

Lemma sim_helper_laws : @BpfHelperLaws sim_helpers.
Proof.
  split; [|by left]. intros e addr Hl Hb. cbn [lpm_get sim_helpers]. rewrite drop_app_length' by done.
  pose proof (longest_spec (omap (sim_entry addr) (map_to_list e))) as Hs.
  destruct (longest _) as [[p v]|]; simpl.
  - destruct Hs as [Hin Hmax]. apply sim_entry_spec in Hin as (a & Ha & Hc). exists p, a. split_and!; [done..|].
    intros p' a' v' Ha' Hc'. apply (Hmax p' v'), sim_entry_spec. by exists a'.
  - intros p a v Ha Hc. assert (Hin : (p, v) ∈ omap (sim_entry addr) (map_to_list e)) by (apply sim_entry_spec; by exists a).
    rewrite Hs in Hin. by apply not_elem_of_nil in Hin.
Qed.

(** The data plane over the maps of a simulated kernel, with a full log bucket. *)
Definition sim_dataplane (k : sim_kernel) : @dataplane sim_helpers :=
  @mkDP sim_helpers (sim_maps k) (∅ : gmap Z RateLimitState) (Some (mkRateLimitState 0 LOG_BURST_CAPACITY)) [].

(** Maps where the log level is DEBUG: every packet is reported. *)
Definition sim_debug : sim_kernel :=
  mkSim (fun o => if decide (o = pinned "config_map") then {[le_split 4 0 := le_split 4 LogLevelDebug]} else ∅) [] [].

(** A frame of no bytes is dropped, and reported as such. *)
Lemma firewall_truthful_witness :
  let out := @ai_ida_firewall sim_helpers [] 1000 (sim_dataplane sim_debug) in
  fst out = XDP_DROP /\
  exists meta, dp_events (snd out) = [meta_bytes meta] /\ k_timestamp_ns meta = 1000 /\ k_action meta = action_code ADrop.
Proof.
  intros out. assert (Hv : fst out = XDP_DROP) by (vm_compute; reflexivity). split; [exact Hv|].
  assert (Hev : dp_events (snd out) <> []) by (vm_compute; discriminate).
  destruct (@firewall_truthful sim_helpers sim_helper_laws [] 1000 (sim_dataplane sim_debug)) as (r & meta & Ht).
  fold out in Ht. destruct out as [v s']. destruct Ht as (_ & _ & _ & [Hno|(threshold & _ & _ & _ & He & Hnow & _ & Hdrop & _)]).
  - destruct (Hev Hno).
  - exists meta. split; [exact He|]. split; [exact Hnow|]. apply Hdrop, Hv.
Defined.
