(* ===== verification/EndToEnd.v ===== *)
(** * The control plane and the data plane together

    What a command of the control plane means for the packets: a source
    blocked with [BlockIP], a port blocked with [BlockPort], and the way of a
    record from the firewall to [UnmarshalBinary]. The packets are the
    well-formed frames of [Packet]. *)

From S2P Require Import Prelude GoNet Contracts EbpfMap MapManager Packet Firewall.

(** ** Well-formed packets *)

Record packet := mkPacket {
  p_macs : list Z; p_tags : list (Z * list Z);   (* Ethernet, at most two VLAN tags *)
  p_ip : ipv4_hdr; p_seg : segment
}.

Definition packet_ok (p : packet) : Prop :=
  eth_ok (p_macs p) (p_tags p) /\ ipv4_ok (p_ip p) /\ seg_ok (p_seg p) /\ ip_proto (p_ip p) = seg_proto (p_seg p).

Definition packet_bytes (p : packet) : list Z :=
  eth_frame (p_macs p) (p_tags p) IPV4 (ipv4_packet (p_ip p) (seg_bytes (p_seg p))).

Definition fragmented (p : packet) : bool := negb (Z.land (ip_frag (p_ip p)) 16383 =? 0).

(** What the program keeps of a packet. *)
Definition packet_meta (p : packet) (now : Z) : PacketMeta :=
  mkPM (le_combine (ip_src (p_ip p))) (le_combine (ip_dst (p_ip p))) (fst (seg_ports (p_seg p))) (snd (seg_ports (p_seg p)))
    (seg_proto (p_seg p)) (seg_flags (p_seg p)) 2 0 now.

Section decide.
Context `{BpfHelpers}.

Lemma parse_l4_segment pre seg meta :
  seg_ok seg -> k_src_port meta = 0 -> k_dst_port meta = 0 -> k_tcp_flags meta = 0 ->
  parse_l4 (seg_proto seg) (at_cursor pre (seg_bytes seg)) meta =
    inl (set_l4 meta (fst (seg_ports seg)) (snd (seg_ports seg)) (seg_flags seg)).
Proof.
  intros Hok Hs Hd Hf. destruct seg as [sp dp seqack reserved flags tail options data|sp dp len check data|proto data].
  - destruct (parse_tcp_segment pre sp dp seqack reserved flags tail options data Hok) as (hdrs & l4 & E & H1 & H2 & H3).
    unfold parse_l4. cbn [seg_proto]. rewrite E. simpl. by rewrite H1, H2, H3.
  - destruct (parse_udp_segment pre sp dp len check data Hok) as (hdrs & l4 & E & H1 & H2 & H3).
    unfold parse_l4. cbn [seg_proto]. rewrite E. simpl. by rewrite H1, H2, Hf.
  - destruct Hok as (_ & H6 & H17). unfold parse_l4. simpl.
    rewrite (proj2 (Z.eqb_neq _ _)), (proj2 (Z.eqb_neq _ _)) by done. destruct meta; simpl in *. by subst.
Qed.

(** The program on a well-formed packet: straight to the policy, unless the packet
    is a fragment. *)
Lemma firewall_packet p now s :
  packet_ok p ->
  try_ai_ida_firewall (packet_bytes p) now s =
    (if fragmented p then
       let '(ok, s) := check_rate_limit (le_combine (ip_src (p_ip p))) now s in
       let meta := mkPM (le_combine (ip_src (p_ip p))) (le_combine (ip_dst (p_ip p))) 0 0 (seg_proto (p_seg p)) 0 2 0 now in
       if negb ok then emit_and_return XDP_DROP RRateLimited meta now s else emit_and_return XDP_PASS RNone meta now s
     else check_policy (packet_meta p now) now s).
Proof.
  intros (He & Hi & Hs & Hp). unfold try_ai_ida_firewall, packet_bytes.
  destruct (parse_ethernet_frame (p_macs p) (p_tags p) IPV4 (ipv4_packet (p_ip p) (seg_bytes (p_seg p))) He) as (h1 & l2 & -> & ->);
    [split; [discriminate|reflexivity]|by intros [?|?]|].
  simpl (IPV4 =? IPV4). cbv iota.
  destruct (parse_ipv4_packet h1 (p_ip p) (seg_bytes (p_seg p)) Hi) as (h2 & l3 & -> & Hsrc & Hdst & Hproto & Hfrag).
  unfold set_l3. rewrite Hsrc, Hdst, Hproto, Hp, Hfrag. fold (fragmented p). destruct (fragmented p); [done|].
  rewrite parse_l4_segment by done. done.
Qed.

Lemma address_bytes p : packet_ok p -> le_split 4 (le_combine (ip_src (p_ip p))) = ip_src (p_ip p).
Proof. intros (_ & (_ & _ & _ & Hl & _ & Hb & _) & _). by apply le_split_combine_len. Qed.
End decide.

Section laws.
Context `{BpfHelperLaws}.

(** The reason of the policy, by itself: the first check that fails. *)
Definition policy_reason (meta : PacketMeta) (now : Z) (s : dataplane) : drop_reason :=
  match validate_rfc_invariants (k_src_ip meta) (k_dst_ip meta) (k_protocol meta) (k_tcp_flags meta) with
  | Some r => r
  | None =>
      if match lpm_get (dp_entries s (pinned "reputation_map")) (le_split 4 32 ++ le_split 4 (k_src_ip meta)) with
         | Some act => le_combine act =? 1
         | None => false
         end then RBlacklistHit
      else if is_port_blocked s (k_protocol meta) (k_dst_port meta) (k_tcp_flags meta) then RPortBlocked
      else if fst (check_rate_limit (k_src_ip meta) now s) then RNone else RRateLimited
  end.

Lemma emit_verdict s0 s act r meta now :
  same_policy s0 s -> (act = XDP_PASS /\ r = RNone) \/ (act = XDP_DROP /\ r <> RNone) ->
  fst (emit_and_return act r meta now s) = Some (verdict s0 r).
Proof. intros Hs Ha. by destruct (emit_exits s0 s act r meta now Hs Ha) as (v & s' & -> & -> & _). Qed.

Lemma check_policy_verdict meta now s : fst (check_policy meta now s) = Some (verdict s (policy_reason meta now s)).
Proof.
  unfold check_policy, policy_reason. destruct (validate_rfc_invariants _ _ _ _) as [r|] eqn:Er.
  { apply emit_verdict; [done|]. right. split; [done|]. by eapply rfc_reason. }
  cbv zeta. destruct (match lpm_get _ _ with Some _ => _ | None => _ end); [apply emit_verdict; auto using same_policy_refl|].
  destruct (is_port_blocked _ _ _ _); [apply emit_verdict; auto using same_policy_refl|].
  pose proof (check_rate_frame (k_src_ip meta) now s) as Hf. destruct (check_rate_limit _ _ _) as [ok s1].
  destruct ok; simpl; apply emit_verdict; auto.
Qed.

(** The verdict on an unfragmented packet. *)
Lemma packet_verdict p now s :
  packet_ok p -> fragmented p = false ->
  fst (ai_ida_firewall (packet_bytes p) now s) = verdict s (policy_reason (packet_meta p now) now s).
Proof.
  intros Hok Hf. unfold ai_ida_firewall. rewrite firewall_packet, Hf by done.
  pose proof (check_policy_verdict (packet_meta p now) now s) as Hp.
  destruct (check_policy _ _ _) as [o s']. simpl in *. by rewrite Hp.
Qed.

Lemma dropped_verdict s r : r <> RNone -> verdict s r = if dry_run_mode s then XDP_PASS else XDP_DROP.
Proof. intros Hr. unfold verdict. by rewrite decide_False. Qed.

(** The longest matching prefix of an address that has an entry of its own is that
    entry. *)
Lemma lpm_host e addr v :
  length addr = 4%nat -> is_bytes addr -> e !! (le_split 4 32 ++ addr) = Some v -> lpm_get e (le_split 4 32 ++ addr) = Some v.
Proof.
  intros Hl Hb He. pose proof (lpm_longest e addr Hl Hb) as Hlpm.
  assert (Hown : lpm_entry e 32 addr v) by (split_and!; done).
  destruct (lpm_get e (le_split 4 32 ++ addr)) as [v'|]; [|by destruct (Hlpm 32 addr v Hown)].
  destruct Hlpm as (p & a & Ha & Hc & Hmax). pose proof (Hmax 32 addr v Hown eq_refl) as Hp.
  destruct Ha as (Ha & Hp' & Hla & Hba). assert (p = 32) as -> by lia.
  unfold covers in Hc. rewrite !Z.div_1_r in Hc.
  assert (a = addr) as ->; [|congruence].
  rewrite <- (be_split_combine_len 4 a Hla Hba), <- (be_split_combine_len 4 addr Hl Hb). by f_equal.
Qed.

(** A listed source, and a gated port: something stops the packet. *)
Lemma listed_stopped p now s :
  packet_ok p -> dp_entries s (pinned "reputation_map") !! the_key (ip_src (p_ip p)) = Some (le_split 4 1) ->
  policy_reason (packet_meta p now) now s <> RNone.
Proof.
  intros Hok He. unfold policy_reason. destruct (validate_rfc_invariants _ _ _ _) as [r|] eqn:Er; [by eapply rfc_reason|].
  simpl k_src_ip. rewrite (address_bytes p Hok). pose proof Hok as (_ & (_ & _ & _ & Hl & _ & Hb & _) & _).
  by rewrite (lpm_host _ _ _ Hl Hb He), le_combine_split.
Qed.

Lemma gated_stopped p now s :
  is_port_blocked s (seg_proto (p_seg p)) (snd (seg_ports (p_seg p))) (seg_flags (p_seg p)) = true ->
  policy_reason (packet_meta p now) now s <> RNone.
Proof.
  intros Hg. unfold policy_reason. destruct (validate_rfc_invariants _ _ _ _) as [r|] eqn:Er; [by eapply rfc_reason|].
  simpl. rewrite Hg. by case_match.
Qed.

(** A fragment is only rate limited. *)
Lemma fragment_passes p now s :
  packet_ok p -> fragmented p = true ->
  fst (check_rate_limit (le_combine (ip_src (p_ip p))) now s) = true ->
  fst (ai_ida_firewall (packet_bytes p) now s) = XDP_PASS.
Proof.
  intros Hok Hf Hrate. unfold ai_ida_firewall. rewrite firewall_packet, Hf by done.
  destruct (check_rate_limit _ _ _) as [ok s1]. simpl in Hrate. subst ok. simpl.
  pose proof (emit_verdict s1 s1 XDP_PASS RNone
    (mkPM (le_combine (ip_src (p_ip p))) (le_combine (ip_dst (p_ip p))) 0 0 (seg_proto (p_seg p)) 0 2 0 now) now) as Hv.
  destruct (emit_and_return _ _ _ _ _) as [o s2]. simpl in *. by rewrite Hv by auto using same_policy_refl.
Qed.

(** ** The record on its way *)

Lemma seg_bounds seg :
  seg_ok seg ->
  in_u 16 (fst (seg_ports seg)) /\ in_u 16 (snd (seg_ports seg)) /\ in_u 8 (seg_proto seg) /\ in_u 8 (seg_flags seg).
Proof. destruct seg; simpl; unfold in_u; intuition lia. Qed.

(** The fields the control plane reads from the bytes of a packet's record. *)
Definition read_meta (p : packet) (now : Z) (act : action) (r : drop_reason) : FlowPacketMeta :=
  mkMeta (be_combine (ip_src (p_ip p))) (be_combine (ip_dst (p_ip p))) (fst (seg_ports (p_seg p))) (snd (seg_ports (p_seg p)))
    (seg_proto (p_seg p)) (seg_flags (p_seg p)) (action_code act) (reason_code r) now.

Lemma read_meta_ok p now act r : packet_ok p -> in_u 64 now -> meta_ok (read_meta p now act r).
Proof.
  intros (_ & (_ & _ & _ & Hls & Hld & Hbs & Hbd & _) & Hseg & _) Hnow.
  destruct (seg_bounds _ Hseg) as (Hsp & Hdp & Hpr & Hfl). unfold meta_ok. simpl. split_and!; try done.
  - pose proof (be_combine_bound _ Hbs) as Hb. by rewrite Hls in Hb.
  - pose proof (be_combine_bound _ Hbd) as Hb. by rewrite Hld in Hb.
  - by destruct act.
  - by destruct r.
Qed.

Lemma meta_bytes_wire p now act r :
  packet_ok p ->
  meta_bytes (mkPM (le_combine (ip_src (p_ip p))) (le_combine (ip_dst (p_ip p))) (fst (seg_ports (p_seg p)))
    (snd (seg_ports (p_seg p))) (seg_proto (p_seg p)) (seg_flags (p_seg p)) (action_code act) (reason_code r) now) =
  wire_bytes (read_meta p now act r).
Proof.
  intros (_ & (_ & _ & _ & Hls & Hld & Hbs & Hbd & _) & _). unfold meta_bytes, wire_bytes. simpl k_src_ip. simpl k_dst_ip.
  cbn [SrcIP DstIP SrcPort DstPort Protocol TCPFlags meta_Action meta_DropReason TimestampNS read_meta
    k_src_port k_dst_port k_protocol k_tcp_flags k_action k_drop_reason k_timestamp_ns].
  by rewrite !le_split_combine_len, !be_split_combine_len.
Qed.

Lemma severity_agrees r : Severity (reason_code r) = severity_code (reason_severity r).
Proof. by destruct r. Qed.

(** On a raw code, the control plane's severity is that of the kernel's reason,
    unless the code is of a range and of no reason; and the two sides lay out the
    key of the trie in the same way. *)
Lemma raw_codes_agree v :
  Severity v = severity_code (reason_severity (DropReason_from_u8 v)) \/ DropReason_from_u8 v = RNone.
Proof. destruct (proj1 (proj2 (proj2 from_u8_code)) v) as [->|E]; [by right|left]. by rewrite <- severity_agrees, E. Qed.

Lemma trie_keys_agree len addr : trie_key_bytes (TrieKey_new addr len) = lpm_bytes (mkLpmKey len addr).
Proof. reflexivity. Qed.

Lemma source_key addr :
  length addr = 4%nat -> is_bytes addr ->
  NewLpmKey (IP_String (ip_of_u32 (be_combine addr)) +:+ "/32") = Ok (mkLpmKey 32 addr).
Proof.
  intros Hl Hb. unfold ip_of_u32. rewrite IP_String_IPv4, NewLpmKey_dotted32 by apply ip_of_u32_bytes.
  by rewrite <- be_split4_shifts, be_split_combine_len.
Qed.

(** A record with fields of their widths, on the wire. *)
Definition decoded (m : PacketMeta) (act : action) (r : drop_reason) (now : Z) : FlowPacketMeta :=
  mkMeta (be_combine (le_split 4 (k_src_ip m))) (be_combine (le_split 4 (k_dst_ip m))) (k_src_port m) (k_dst_port m)
    (k_protocol m) (k_tcp_flags m) (action_code act) (reason_code r) now.

Lemma decoded_ok m act r now : fields_typed m -> in_u 64 now -> meta_ok (decoded m act r now).
Proof.
  intros (_ & _ & Hsp & Hdp & Hpr & Hfl) Hnow. unfold meta_ok. simpl. split_and!; try done.
  - exact (be_combine_bound _ (le_split_bytes 4 (k_src_ip m))).
  - exact (be_combine_bound _ (le_split_bytes 4 (k_dst_ip m))).
  - by destruct act.
  - by destruct r.
Qed.

Lemma decoded_wire m act r now :
  meta_bytes (mkPM (k_src_ip m) (k_dst_ip m) (k_src_port m) (k_dst_port m) (k_protocol m) (k_tcp_flags m)
    (action_code act) (reason_code r) now) = wire_bytes (decoded m act r now).
Proof.
  unfold meta_bytes, wire_bytes. cbn [SrcIP DstIP SrcPort DstPort Protocol TCPFlags meta_Action meta_DropReason TimestampNS
    decoded k_src_ip k_dst_ip k_src_port k_dst_port k_protocol k_tcp_flags k_action k_drop_reason k_timestamp_ns].
  by rewrite !be_split_combine_len by first [reflexivity|apply le_split_bytes].
Qed.

(** The firewall has written [event] for the frame [data]. *)
Definition writes_record (data : list Z) (now : Z) (s : dataplane) (event : list Z) : Prop :=
  dp_events (snd (ai_ida_firewall data now s)) = dp_events s ++ [event].

(** C11: the record type is respected across the ring buffer, on any input. Whatever
    the bytes of a frame, well formed or not, a record that the firewall emits for
    it is 24 bytes long, [UnmarshalBinary] accepts it, and every field it reads
    is in the range of its Go type; the time is the frame's, the action is DROP
    exactly when the frame was dropped, and the severity the control plane derives from
    the reason is the kernel's. So the error path of [UnmarshalBinary] is never
    taken on what the firewall writes. *)
Theorem any_record_decodes (data : list Z) (now : Z) (s : dataplane) (event : list Z) (m0 : FlowPacketMeta) :
  is_bytes data -> in_u 64 now -> writes_record data now s event ->
  exists meta r, length event = 24%nat /\ UnmarshalBinary m0 event = (meta, None) /\ meta_ok meta /\
    TimestampNS meta = now /\ meta_DropReason meta = reason_code r /\
    Severity (meta_DropReason meta) = severity_code (reason_severity r) /\
    (meta_Action meta = action_code ADrop <-> fst (ai_ida_firewall data now s) = XDP_DROP).
Proof.
  intros Hb Hnow. unfold writes_record.
  destruct (firewall_exits data now s) as (r & m & v & s' & E & (Hv & _ & Hev) & Ht). rewrite E. simpl. intros Ho.
  destruct Hev as [Hev|(threshold & _ & _ & _ & Hev)]; rewrite Ho in Hev.
  { apply (f_equal length) in Hev. rewrite length_app in Hev. simpl in Hev. lia. }
  apply app_inv_head in Hev. injection Hev as ->. rewrite decoded_wire.
  pose proof (decoded_ok m (action_of v r) r now (Ht Hb) Hnow) as Hok.
  exists (decoded m (action_of v r) r now), r. split_and!; [apply wire_bytes_length| |done..|apply severity_agrees|].
  - rewrite <- (app_nil_r (wire_bytes _)). by apply UnmarshalBinary_wire.
  - simpl. rewrite Hv. unfold action_of, verdict. destruct (decide (r = RNone)); [done|]. by destruct (dry_run_mode s).
Qed.

(** C10: what the control plane reads is what the firewall saw. When the firewall
    emits a record for a well-formed packet, [UnmarshalBinary] reads from its
    bytes the packet's own addresses, ports, protocol and flags, with the
    time, the reason and the action of the verdict; the control plane gives the
    reason the kernel's severity; and the address it prints for the source,
    followed by /32, is the key under which the firewall looks the source up. *)
Theorem record_read_back (p : packet) (now : Z) (s : dataplane) (event : list Z) (m0 : FlowPacketMeta) :
  packet_ok p -> fragmented p = false -> in_u 64 now ->
  dp_events (snd (ai_ida_firewall (packet_bytes p) now s)) = dp_events s ++ [event] ->
  exists r, let v := fst (ai_ida_firewall (packet_bytes p) now s) in
    let meta := read_meta p now (action_of v r) r in
    v = verdict s r /\ UnmarshalBinary m0 event = (meta, None) /\
    Severity (meta_DropReason meta) = severity_code (reason_severity r) /\
    NewLpmKey (IP_String (SrcIPNet meta) +:+ "/32") = Ok (mkLpmKey 32 (ip_src (p_ip p))).
Proof.
  intros Hok Hf Hnow. unfold ai_ida_firewall. rewrite firewall_packet, Hf by done.
  destruct (policy_exits (packet_meta p now) now s) as (r & v & s' & -> & Hv & _ & Hev). simpl. intros Ho.
  exists r. split; [done|]. destruct Hev as [Hev|(threshold & _ & _ & _ & Hev)]; rewrite Ho in Hev.
  { apply (f_equal length) in Hev. rewrite length_app in Hev. simpl in Hev. lia. }
  apply app_inv_head in Hev. injection Hev as ->.
  pose proof Hok as (_ & (_ & _ & _ & Hls & _ & Hbs & _) & _). split; [|split].
  - unfold packet_meta. simpl. rewrite meta_bytes_wire by done. rewrite <- (app_nil_r (wire_bytes _)).
    apply UnmarshalBinary_wire. by apply read_meta_ok.
  - apply severity_agrees.
  - by apply source_key.
Qed.

Context `{EbpfLaws}.

(** C9: blocking works, except for fragments. After [BlockIP] of an address has
    succeeded, the firewall drops every well-formed IPv4 packet from it, whatever
    its tags, options, protocol, ports and flags, and whatever else is blocked or
    limited (in dry-run mode it passes it). A fragment, the first one
    included, is not looked up: it passes whenever the rate limiter admits it. *)
Theorem blocked_source_dropped (m : MapManager) (k k1 : kernel) (a b c d : Z) (p : packet) (now : Z) (s : dataplane) :
  wired m -> is_bytes [a; b; c; d] -> BlockIP m (dotted [a; b; c; d] +:+ "/32") k = Some (k1, None) ->
  dp_entries s (pinned "reputation_map") = entries k1 (pinned "reputation_map") ->
  packet_ok p -> ip_src (p_ip p) = [a; b; c; d] ->
  (fragmented p = false -> fst (ai_ida_firewall (packet_bytes p) now s) = if dry_run_mode s then XDP_PASS else XDP_DROP) /\
  (fragmented p = true -> fst (check_rate_limit (le_combine [a; b; c; d]) now s) = true ->
     fst (ai_ida_firewall (packet_bytes p) now s) = XDP_PASS).
Proof.
  intros Hw Hb Eb He Hok Hsrc. split.
  - intros Hf. rewrite packet_verdict by done. apply dropped_verdict, listed_stopped; [done|]. rewrite He, Hsrc.
    destruct (BlockIP_entry m k _ _ Hw (NewLpmKey_dotted32 a b c d Hb) eq_refl) as (k2 & e2 & E2 & Hent).
    rewrite Eb in E2. injection E2 as <- <-. by rewrite Hent, decide_True, lookup_insert_eq.
  - intros Hf Hr. apply fragment_passes; [done..|]. by rewrite Hsrc.
Qed.

(** C13: the port gate stops new connections only. After [BlockPort] of a port
    has succeeded, the firewall drops every TCP connection request to it (SYN
    without ACK) and every UDP datagram to it if it is below 32768 (in dry-run mode it
    passes them). A TCP packet with ACK, or without SYN, is decided as if
    no port were gated. *)
Theorem blocked_port_dropped (m : MapManager) (k k1 : kernel) (port : Z) (p : packet) (now : Z) (s : dataplane)
    (gate : gmap (list Z) (list Z)) :
  wired m -> in_u 16 port -> port <> 0 -> BlockPort m port k = Some (k1, None) ->
  dp_entries s (pinned "port_gate_map") = entries k1 (pinned "port_gate_map") ->
  packet_ok p -> fragmented p = false ->
  let open := mkDP (fun o => if decide (o = pinned "port_gate_map") then gate else dp_entries s o) (dp_rate s) (dp_log s) (dp_events s) in
  match p_seg p with
  | Tcp _ dport _ _ flags _ _ _ =>
      (dport = port -> Z.land flags SYN <> 0 -> Z.land flags ACK = 0 ->
       fst (ai_ida_firewall (packet_bytes p) now s) = if dry_run_mode s then XDP_PASS else XDP_DROP) /\
      (Z.land flags SYN = 0 \/ Z.land flags ACK <> 0 ->
       fst (ai_ida_firewall (packet_bytes p) now s) = fst (ai_ida_firewall (packet_bytes p) now open))
  | Udp _ dport _ _ _ =>
      dport = port -> port < 32768 ->
      fst (ai_ida_firewall (packet_bytes p) now s) = if dry_run_mode s then XDP_PASS else XDP_DROP
  | Other _ _ => True
  end.
Proof.
  intros Hw Hport Hne Eb He Hok Hf open.
  assert (Hgate : forall proto flags, is_port_blocked s proto port flags =
    if proto =? 6 then negb (Z.land flags SYN =? 0) && (Z.land flags ACK =? 0)
    else if proto =? 17 then negb (32768 <=? port) else false).
  { intros proto flags. unfold is_port_blocked, array_get. rewrite (proj2 (Z.eqb_neq _ _)) by done.
    destruct (put_port m k port 2 (ErrorfW "failed to block port %d: %w" [ArgD port]) Hw) as (k2 & e2 & E2 & _ & Hent).
    unfold BlockPort in Eb. rewrite Eb in E2. injection E2 as <- <-.
    rewrite He, Hent, decide_True, lookup_insert_eq by done. by destruct (if proto =? 6 then _ else _). }
  assert (Hopen : forall proto dport flags,
    (if proto =? 6 then negb (Z.land flags SYN =? 0) && (Z.land flags ACK =? 0) else true) = false ->
    is_port_blocked s proto dport flags = false /\ is_port_blocked open proto dport flags = false).
  { intros proto dport flags Hp. unfold is_port_blocked. destruct (proto =? 6); [|done]. rewrite Hp. by case_match. }
  pose proof (gated_stopped p now s) as Hstop. rewrite !packet_verdict by done.
  destruct (p_seg p) as [sp dport seqack reserved flags tail options data|sp dport len check data|proto data] eqn:Es; [split|..]; [| | |done].
  - intros -> Hsyn Hack. apply dropped_verdict, Hstop. simpl. rewrite Hgate. simpl.
    by rewrite (proj2 (Z.eqb_neq _ _)), (proj2 (Z.eqb_eq _ _)).
  - intros Hflags.
    destruct (Hopen 6 dport flags) as [Hs Ho].
    { destruct Hflags as [-> | Ha]; [done|]. simpl. by rewrite (proj2 (Z.eqb_neq _ _) Ha), andb_false_r. }
    assert (Hr : policy_reason (packet_meta p now) now open = policy_reason (packet_meta p now) now s).
    { unfold policy_reason, packet_meta. rewrite Es. simpl. rewrite Hs, Ho.
      replace (dp_entries open (pinned "reputation_map")) with (dp_entries s (pinned "reputation_map")) by done.
      unfold check_rate_limit. simpl. destruct (rate_get _ _); [by destruct (take_token _ _ _ _)|done]. }
    rewrite Hr. unfold verdict, dry_run_mode, array_get. simpl. done.
  - intros -> Hlow. apply dropped_verdict, Hstop. simpl. rewrite Hgate. simpl. by rewrite (proj2 (Z.leb_gt _ _)).
Qed.
End laws.

(** ** Examples *)

(** A TCP connection request from 10.0.0.1 to 192.168.1.100, port 443, behind
    one VLAN tag, with four bytes of IP options; and a fragment of it. *)
Definition sim_seg : segment := Tcp 40000 443 [0; 0; 0; 1; 0; 0; 0; 0] 0 2 [0; 0; 0; 0; 0; 0] [] [].
Definition sim_ip (frag : Z) : ipv4_hdr := mkIpv4 0 [0; 44] [0; 7] frag 64 6 [0; 0] [10; 0; 0; 1] [192; 168; 1; 100] [1; 1; 1; 0].
Definition sim_packet (frag : Z) : packet := mkPacket (replicate 12 2) [(VLAN_8021Q, [0; 5])] (sim_ip frag) sim_seg.

Lemma sim_packet_ok frag : in_u 16 frag -> packet_ok (sim_packet frag).
Proof.
  intros Hf. split_and!.
  - split_and!; [done|simpl; lia|]. repeat constructor.
  - split_and!; try done; try (repeat constructor; done).
  - split_and!; done.
  - done.
Qed.

Definition run_packet (frag : Z) (k : sim_kernel) : Z * @dataplane sim_helpers :=
  @ai_ida_firewall sim_helpers (packet_bytes (sim_packet frag)) 1000 (sim_dataplane k).

Lemma blocked_source_dropped_witness :
  exists k1, @BlockIP sim_ebpf sim_manager "10.0.0.1/32" (sim_start []) = Some (k1, None) /\
    fst (run_packet 0 k1) = XDP_DROP /\ fst (run_packet 8192 k1) = XDP_PASS.
Proof.
  assert (He : exists k1, @BlockIP sim_ebpf sim_manager "10.0.0.1/32" (sim_start []) = Some (k1, None) /\
    @dry_run_mode sim_helpers (sim_dataplane k1) = false)
    by (eexists; split; [reflexivity|vm_compute; reflexivity]).
  destruct He as (k1 & He & Hd). exists k1. split; [exact He|].
  assert (Hw : forall frag, in_u 16 frag -> _) by
    exact (fun frag Hf => @blocked_source_dropped sim_helpers sim_helper_laws sim_ebpf sim_laws sim_manager (sim_start []) k1
      10 0 0 1 (sim_packet frag) 1000 (sim_dataplane k1) sim_wired ltac:(repeat constructor; discriminate) He eq_refl
      (sim_packet_ok frag Hf) eq_refl).
  split.
  - destruct (Hw 0 ltac:(split; [discriminate|reflexivity])) as [H1 _]. rewrite Hd in H1. exact (H1 eq_refl).
  - destruct (Hw 8192 ltac:(split; [discriminate|reflexivity])) as [_ H2]. exact (H2 eq_refl eq_refl).
Defined.

Lemma blocked_port_dropped_witness :
  exists k1, @BlockPort sim_ebpf sim_manager 443 (sim_start []) = Some (k1, None) /\ fst (run_packet 0 k1) = XDP_DROP.
Proof.
  assert (He : exists k1, @BlockPort sim_ebpf sim_manager 443 (sim_start []) = Some (k1, None) /\
    @dry_run_mode sim_helpers (sim_dataplane k1) = false)
    by (eexists; split; [reflexivity|vm_compute; reflexivity]).
  destruct He as (k1 & He & Hd). exists k1. split; [exact He|].
  pose proof (@blocked_port_dropped sim_helpers sim_helper_laws sim_ebpf sim_laws sim_manager (sim_start []) k1 443 (sim_packet 0) 1000
    (sim_dataplane k1) ∅ sim_wired ltac:(split; [discriminate|reflexivity]) ltac:(discriminate) He eq_refl
    (sim_packet_ok 0 ltac:(split; [discriminate|reflexivity])) eq_refl) as [H1 _].
  rewrite Hd in H1. exact (H1 eq_refl ltac:(discriminate) eq_refl).
Defined.

Lemma record_read_back_witness :
  exists event meta, dp_events (snd (run_packet 0 sim_debug)) = [event] /\
    UnmarshalBinary zero_meta event = (meta, None) /\ SrcIP meta = 167772161 /\ DstPort meta = 443.
Proof.
  assert (He : exists event, dp_events (snd (run_packet 0 sim_debug)) = [event])
    by (eexists; vm_compute; reflexivity).
  destruct He as [event He].
  destruct (@record_read_back sim_helpers sim_helper_laws (sim_packet 0) 1000 (sim_dataplane sim_debug) event zero_meta
    (sim_packet_ok 0 ltac:(split; [discriminate|reflexivity])) eq_refl ltac:(split; [discriminate|reflexivity]) He)
    as (r & _ & Hu & _). eexists event, _. split; [exact He|]. split; [exact Hu|]. split; reflexivity.
Defined.

(** A frame cut off in its Ethernet header. *)
Lemma any_record_decodes_witness :
  exists event meta, dp_events (snd (@ai_ida_firewall sim_helpers [1; 2; 3] 1000 (sim_dataplane sim_debug))) = [event] /\
    UnmarshalBinary zero_meta event = (meta, None) /\ meta_ok meta /\ meta_Action meta = action_code ADrop.
Proof.
  assert (He : exists event, dp_events (snd (@ai_ida_firewall sim_helpers [1; 2; 3] 1000 (sim_dataplane sim_debug))) = [event])
    by (eexists; vm_compute; reflexivity).
  destruct He as [event He].
  destruct (@any_record_decodes sim_helpers sim_helper_laws [1; 2; 3] 1000 (sim_dataplane sim_debug) event zero_meta
    ltac:(repeat constructor; discriminate) ltac:(split; [discriminate|reflexivity]) He)
    as (meta & r & _ & Hu & Hok & _ & _ & _ & Hact).
  exists event, meta. split; [exact He|]. split; [exact Hu|]. split; [exact Hok|]. apply Hact. vm_compute. reflexivity.
Defined.
