(* ===== verification/ClosedLoop.v ===== *)
(** * The closed loop, from a flood to its packets being dropped

    [Packet], [Firewall], [Contracts], [Flow], [Trees], [Feedback] and [Daemon],
    one after the other: the packets the firewall has seen, their records in a
    window, the vector of a conversation, its verdict, the alert, and the
    firewall again. Then a whole session of [RunDaemon], and a scheduler of the
    daemon's own steps, on which the examples run. *)

From S2P Require Import Prelude GoStrings GoNet Contracts Float64 Flow Trees EbpfMap MapManager Feedback Daemon Packet Firewall EndToEnd.
From Stdlib Require Import Ascii.

(** A packet the firewall has seen and reported, with what it did. *)
Record sighting := mkSeen { seen_packet : packet; seen_at : Z; seen_action : action; seen_reason : drop_reason }.

Definition record_of (x : sighting) : FlowPacketMeta :=
  read_meta (seen_packet x) (seen_at x) (seen_action x) (seen_reason x).

(** The bytes [emit_and_return] writes for it. *)
Definition event_of (x : sighting) : list Z :=
  let m := packet_meta (seen_packet x) (seen_at x) in
  meta_bytes (mkPM (k_src_ip m) (k_dst_ip m) (k_src_port m) (k_dst_port m) (k_protocol m) (k_tcp_flags m)
    (action_code (seen_action x)) (reason_code (seen_reason x)) (seen_at x)).

Definition seen_ok (x : sighting) : Prop := packet_ok (seen_packet x) /\ in_u 64 (seen_at x).

Lemma event_read x m0 : seen_ok x -> UnmarshalBinary m0 (event_of x) = (record_of x, None).
Proof.
  intros [Hok Ht]. unfold event_of, packet_meta. cbn [k_src_ip k_dst_ip k_src_port k_dst_port k_protocol k_tcp_flags].
  rewrite (meta_bytes_wire _ _ _ _ Hok). rewrite <- (app_nil_r (wire_bytes _)). by apply UnmarshalBinary_wire, read_meta_ok.
Qed.

Lemma seen_meta_ok sent : Forall seen_ok sent -> Forall meta_ok (map record_of sent).
Proof. intros Hs. apply Forall_map. eapply Forall_impl; [exact Hs|]. intros x [Hok Ht]. by apply read_meta_ok. Qed.

Definition seen_src (x : sighting) : list Z := ip_src (p_ip (seen_packet x)).

(** ** The address on its way *)

Definition four_bytes (addr : list Z) : Prop := length addr = 4%nat /\ is_bytes addr.

Lemma packet_src_bytes p : packet_ok p -> four_bytes (ip_src (p_ip p)).
Proof. by intros (_ & (_ & _ & _ & Hl & _ & Hb & _) & _). Qed.

Lemma four_bytes_quad addr : four_bytes addr -> exists a b c d, addr = [a; b; c; d].
Proof. intros [Hl _]. destruct addr as [|a [|b [|c [|d [|]]]]]; try done. by exists a, b, c, d. Qed.

(** The address read from the record, as the aggregator rebuilds it. *)
Lemma u32ToIP_addr a b c d : is_bytes [a; b; c; d] -> u32ToIP (be_combine [a; b; c; d]) = IPv4 a b c d.
Proof.
  intros Hb. unfold u32ToIP, IPv4. by rewrite <- be_split4_shifts, be_split_combine_len.
Qed.

Lemma four_bytes_inj l l' : four_bytes l -> four_bytes l' -> be_combine l = be_combine l' -> l = l'.
Proof.
  intros [Hl Hb] [Hl' Hb'] E. by rewrite <- (be_split_combine_len 4 l), <- (be_split_combine_len 4 l'), E.
Qed.

(** The alert for a vector names the address of its source. *)
Lemma alert_of_addr ff r addr :
  four_bytes addr -> ff_SrcIP ff = u32ToIP (be_combine addr) ->
  al_SrcIP (alert_of ff r) = dotted addr /\ To4 (ParseIP (dotted addr)) = addr /\
  has_byte "/"%char (dotted addr) = false /\ (forall n, Contains n (ParseIP (dotted addr)) = Contains n addr).
Proof.
  intros Ha Hs. destruct (four_bytes_quad addr Ha) as (a & b & c & d & ->). destruct Ha as [_ Hb].
  assert (E4 : To4 (ParseIP (dotted [a; b; c; d])) = [a; b; c; d]) by by rewrite ParseIP_dotted, To4_IPv4.
  split_and!; [|exact E4|by apply has_byte_slash_dotted|].
  - simpl. by rewrite Hs, u32ToIP_addr, IP_String_IPv4.
  - intros n. apply Contains_To4; by rewrite E4.
Qed.

(** The packets of a one-sided conversation have one source. *)
Lemma one_source sent k :
  Forall (fun x => packet_ok (seen_packet x)) sent ->
  Forall (fun m => snd (canonicalize m) = true) (conversation k (map record_of sent)) ->
  forall x, x ∈ sent -> key_of (record_of x) = k -> be_combine (seen_src x) = IPLo k.
Proof.
  intros Hok Hone x Hx Hk. rewrite Forall_forall in Hone.
  assert (Hin : record_of x ∈ conversation k (map record_of sent)).
  { apply list_elem_of_filter. split; [done|]. by apply list_elem_of_fmap_2. }
  specialize (Hone _ Hin). rewrite <- Hk. unfold key_of, canonicalize in *. by destruct (_ || _).
Qed.

Section loop.
Context `{BpfHelperLaws, EbpfLaws, MapRange, GoMathLaws}.

(** A packet whose source has an entry of the reputation map. *)
Lemma listed_dropped p now s :
  packet_ok p -> fragmented p = false ->
  dp_entries s (pinned "reputation_map") !! the_key (ip_src (p_ip p)) = Some [1; 0; 0; 0] ->
  fst (ai_ida_firewall (packet_bytes p) now s) = if dry_run_mode s then XDP_PASS else XDP_DROP.
Proof. intros Hok Hf He. rewrite packet_verdict by done. by apply dropped_verdict, listed_stopped. Qed.

(** The packets from [addr] are dropped under the entries of [k]. *)
Definition stopped_from (k : kernel) (addr : list Z) : Prop :=
  forall p now s,
    packet_ok p -> fragmented p = false -> ip_src (p_ip p) = addr ->
    dp_entries s (pinned "reputation_map") = entries k (pinned "reputation_map") ->
    fst (ai_ida_firewall (packet_bytes p) now s) = if dry_run_mode s then XDP_PASS else XDP_DROP.

Lemma blocked_stopped k addr : blocked_entry k addr = Some [1; 0; 0; 0] -> stopped_from k addr.
Proof. intros Hb p now s Hok Hf Hsrc Hent. apply listed_dropped; [done..|]. by rewrite Hent, Hsrc. Qed.

(** ** The controller's records are enforced

    The daemon names an address in one way, its dotted quad, so that two records
    never share an entry, and each record has its entry in the map. *)

Definition names (src : string) (addr : list Z) : Prop := four_bytes addr /\ src = dotted addr.

Definition enforced (fc : FeedbackController) (k : kernel) : Prop :=
  forall src t, blocked fc !! src = Some t -> exists addr, names src addr /\ blocked_entry k addr = Some [1; 0; 0; 0].

Lemma names_addr src addr : names src addr -> has_byte "/"%char src = false /\ alert_addr src = addr /\ addr <> [].
Proof.
  intros [Ha ->]. destruct (four_bytes_quad addr Ha) as (a & b & c & d & ->). destruct Ha as [_ Hb].
  unfold alert_addr. by rewrite ParseIP_dotted, To4_IPv4, has_byte_slash_dotted.
Qed.

Lemma names_inj src src' addr : names src addr -> names src' addr -> src = src'.
Proof. by intros [_ ->] [_ ->]. Qed.

(** What an alert or an unblocking does to the entries of other addresses. *)
Lemma added_entry k k' addr ip :
  added k k' addr -> blocked_entry k' ip = if decide (ip = addr) then Some [1; 0; 0; 0] else blocked_entry k ip.
Proof.
  intros Hadd. unfold blocked_entry. rewrite Hadd, decide_True by done. case_decide as Hip.
  - subst ip. apply lookup_insert_eq.
  - rewrite lookup_insert_ne; [done|]. unfold the_key. intros E%app_inv_head. by apply Hip.
Qed.

Lemma removed_entry k k' addr ip : removed k k' addr -> ip <> addr -> blocked_entry k' ip = blocked_entry k ip.
Proof.
  intros Hr Hip. unfold blocked_entry. rewrite Hr, decide_True, lookup_delete_ne; [done| |done].
  unfold the_key. intros E%app_inv_head. by apply Hip.
Qed.

Lemma handled_enforced fc k al now fc' k' r addr :
  names (al_SrcIP al) addr -> enforced fc k -> handled fc k al now fc' k' r -> enforced fc' k'.
Proof.
  intros Ha Hc Hr. destruct (names_addr _ _ Ha) as (_ & Haddr & _).
  destruct r; simpl in Hr; try done; destruct_and?; subst; try done.
  - intros src t. simpl. intros [_ Hs]%lookup_delete_Some. unfold blocked_entry. by match goal with E : entries k' = _ |- _ => rewrite E end; apply (Hc src t).
  - intros src t. simpl. intros [[<- _]|[_ Hs]]%lookup_insert_Some.
    + eexists. split; [exact Ha|]. erewrite added_entry by done. by rewrite decide_True.
    + destruct (Hc src t Hs) as (a & Hn & He). exists a. split; [done|]. erewrite added_entry by done. by case_decide.
Qed.

Lemma janitor_loop_enforced ips fc k fc' k' out :
  wired (fc_mgr fc) -> Forall (fun src => exists addr, names src addr) ips -> enforced fc k ->
  janitor_loop fc k ips = Some (fc', k', out) -> enforced fc' k'.
Proof.
  revert fc k out. induction ips as [|src ips IH]; intros fc k out Hw Hall Hc; simpl; [by intros [= -> -> _]|].
  apply Forall_cons in Hall as [[addr Hn] Hall]. destruct (names_addr _ _ Hn) as (Hs & Ha & Hne).
  destruct (UnblockIP_src (fc_mgr fc) k src Hw Hs) as (k1 & e & -> & He); [by rewrite Ha|]. simpl. destruct e as [e|].
  - destruct (janitor_loop fc k1 ips) as [[[fc1 k2] out1]|] eqn:E; [|done]. intros [= -> -> _].
    eapply IH, E; [done..|]. intros s t Hst. unfold blocked_entry. rewrite He. by apply (Hc s t).
  - destruct (janitor_loop _ k1 ips) as [[[fc1 k2] out1]|] eqn:E; [|done]. intros [= -> -> _].
    eapply IH, E; [done..|]. intros s t. simpl. intros [Hsn Hst]%lookup_delete_Some. destruct (Hc s t Hst) as (a & Hna & Hent).
    exists a. split; [done|]. rewrite Ha in He. rewrite (removed_entry _ _ _ _ He); [done|]. intros ->.
    apply Hsn. by eapply names_inj.
Qed.

Lemma janitor_enforced fc k now fc' k' out :
  wired (fc_mgr fc) -> enforced fc k -> runJanitor fc k now = Some (fc', k', out) -> enforced fc' k'.
Proof.
  intros Hw Hc. unfold runJanitor. intros E. eapply janitor_loop_enforced, E; [done| |done].
  apply Forall_forall. intros src (t & Hb & _)%elem_expired_at. destruct (Hc src t Hb) as (addr & Hn & _). by exists addr.
Qed.

(** ** In the running daemon *)

Definition named_alert (al : ThreatAlert) : Prop := exists addr, names (al_SrcIP al) addr.

Record loop_ok (d : daemon) : Prop := {
  l_enforced : enforced (d_fc d) (d_kernel d);
  l_alerts : Forall named_alert (d_alerts d);
  l_pending : forall al, d_inf d = ISend al -> named_alert al
}.

Lemma host_vector_named ff r : host_vector ff -> named_alert (alert_of ff r).
Proof.
  intros [v Hv]. eexists. split; [split; [|apply ip_of_u32_bytes]; reflexivity|].
  simpl. by rewrite Hv.
Qed.

Lemma loop_step d w d' : data_ok d -> loop_ok d -> daemon_step d w (Some d') -> loop_ok d'.
Proof.
  intros [] [] [Hst|Hst|Hst|Hst|Hst]; inversion Hst; subst; clear Hst; try (by split);
    repeat match goal with
    | E : option_map _ ?o = Some _ |- _ => destruct o as [[[? ?] ?]|] eqn:?; [injection E as <-|discriminate E]
    | E : option_map _ ?o = Some _ |- _ => destruct o eqn:?; [injection E as <-|discriminate E]
    | E : (if ?x then None else Some _) = Some _ |- _ => destruct x; [discriminate E|injection E as <-]
    end; try (by split); split; simpl; try done.
  - intros al Hal. case_match; [|done]. injection Hal as <-. apply host_vector_named.
    by match goal with E : out _ = ff :: _ |- _ => rewrite E in i_vectors; inversion i_vectors end.
  - apply Forall_app. split; [done|]. constructor; [by apply l_pending0|constructor].
  - by eapply janitor_enforced.
  - match goal with E : d_alerts d = _ |- _ => rewrite E in l_alerts0, i_dotted end.
    apply Forall_cons in l_alerts0 as [[addr Hn] _]. apply Forall_cons in i_dotted as [Hs _].
    destruct (handle_handled (d_fc d) (d_kernel d) al now i_wired Hs) as (fc' & k' & r' & Eh & Hr).
    simplify_eq. by eapply handled_enforced.
  - match goal with E : d_alerts d = _ |- _ => rewrite E in l_alerts0 end. by apply Forall_cons in l_alerts0 as [_ ?].
Qed.

Lemma reachable_loop_ok mgr h k now d : wired mgr -> reachable (daemon_start mgr h k now) d -> loop_ok d.
Proof.
  intros Hw Hr. induction Hr as [|d d' w Hr IH Hst].
  - split; [intros src t; simpl; by intros ?%lookup_empty_Some|constructor|done].
  - destruct (reachable_ok mgr h k now d Hw Hr) as [_ Hd]. by eapply loop_step.
Qed.

(** What the controller believes blocked is stopped. In every state the daemon
    reaches, whatever the traffic, the failures of the kernel and the
    scheduler, each source the controller tracks is the dotted quad of one address, and the
    firewall drops every well-formed, unfragmented IPv4 packet from that
    address (in dry-run mode it passes it). So skipping the alerts for a tracked
    source is sound. *)
Theorem tracked_sources_stopped (mgr : MapManager) (h : Host) (k : kernel) (now : Z) (d : daemon) (src : string) (t : Z) :
  wired mgr -> reachable (daemon_start mgr h k now) d -> blocked (d_fc d) !! src = Some t ->
  exists addr, names src addr /\ stopped_from (d_kernel d) addr.
Proof.
  intros Hw Hr Hb. destruct (reachable_loop_ok mgr h k now d Hw Hr) as [He _ _].
  destruct (He src t Hb) as (addr & Hn & Hent). exists addr. split; [done|]. by apply blocked_stopped.
Qed.

(** ** A whole session

    The controller writes the reputation map only. *)

Definition only_reputation (k k' : kernel) : Prop :=
  forall o, o <> pinned "reputation_map" -> entries k' o = entries k o.

Lemma only_reputation_trans k1 k2 k3 : only_reputation k1 k2 -> only_reputation k2 k3 -> only_reputation k1 k3.
Proof. intros H12 H23 o Ho. by rewrite H23, H12. Qed.

Lemma handled_only fc k al now fc' k' r : handled fc k al now fc' k' r -> only_reputation k k'.
Proof.
  intros Hr o Ho. destruct r; simpl in Hr; try done; destruct_and?; subst; try done.
  - by match goal with E : entries k' = _ |- _ => rewrite E end.
  - by match goal with E : added _ _ _ |- _ => rewrite E, decide_False end.
Qed.

Lemma janitor_only fc k now fc' k' out :
  wired (fc_mgr fc) -> tracked_ok fc -> runJanitor fc k now = Some (fc', k', out) -> only_reputation k k'.
Proof.
  intros Hw Hok. unfold runJanitor.
  assert (Hall : Forall (fun src => has_byte "/"%char src = false /\ alert_addr src <> []) (expired_at now (blocked fc))).
  { apply Forall_forall. intros src (t & Hb & _)%elem_expired_at. by apply (Hok src t). }
  revert Hall. generalize (expired_at now (blocked fc)). clear Hok. intros ips Hall.
  revert fc k out Hw. induction Hall as [|src ips [Hs Ha] _ IH]; intros fc k out Hw; simpl; [by intros [= -> -> _]|].
  destruct (UnblockIP_src (fc_mgr fc) k src Hw Hs Ha) as (k1 & e & -> & He). simpl.
  assert (H1' : only_reputation k k1).
  { intros o Ho. destruct e; [by rewrite He|]. by rewrite He, decide_False. }
  destruct e as [e|]; (destruct (janitor_loop _ k1 ips) as [[[fc1 k2] out1]|] eqn:E; [|done]); intros [= -> -> _];
    (eapply only_reputation_trans; [exact H1'|]); eapply IH, E; done.
Qed.

Lemma own_only d w d' : data_ok d -> daemon_step d w (Some d') -> only_reputation (d_kernel d) (d_kernel d').
Proof.
  intros [] Hst. destruct (other_steps_frame _ _ _ Hst) as [[_ ->]|Hf]; [done|].
  inversion Hf as [|now' Hpc Hw' E|al rest now' Hpc Hal Hw' E|]; subst; clear Hf; try done.
  - destruct (runJanitor _ _ _) as [[[fc k1] out]|] eqn:Ej; [|done]. injection E as <-. by eapply janitor_only.
  - rewrite Hal in *. apply Forall_cons in i_dotted as [Hsl _].
    destruct (handle_handled (d_fc d) (d_kernel d) al now' i_wired Hsl) as (fc & k1 & r & Eh & Hh).
    rewrite Eh in E. injection E as <-. by eapply handled_only.
Qed.

(** The controller's manager and safe networks never change. *)
Lemma own_config d w d' :
  data_ok d -> daemon_step d w (Some d') -> safeNetworks (d_fc d') = safeNetworks (d_fc d) /\ fc_mgr (d_fc d') = fc_mgr (d_fc d).
Proof.
  intros [] Hst. destruct (other_steps_frame _ _ _ Hst) as [[-> _]|Hf]; [done|].
  inversion Hf as [|now' Hpc Hw' E|al rest now' Hpc Hal Hw' E|]; subst; clear Hf; try done.
  - destruct (runJanitor_spec (d_fc d) (d_kernel d) now' i_wired i_tracked) as (fc & k1 & out & Ej & Em & Es & _).
    rewrite Ej in E. by injection E as <-.
  - rewrite Hal in i_dotted. apply Forall_cons in i_dotted as [Hsl _].
    destruct (handle_handled (d_fc d) (d_kernel d) al now' i_wired Hsl) as (fc & k1 & r & Eh & Hr).
    rewrite Eh in E. injection E as <-. by destruct (handled_frame _ _ _ _ _ _ _ Hr).
Qed.

Lemma reachable_only mgr h k now d :
  wired mgr -> reachable (daemon_start mgr h k now) d -> only_reputation k (d_kernel d).
Proof.
  intros Hw Hr. induction Hr as [|d d' w Hr IH Hst]; [done|].
  destruct (reachable_ok mgr h k now d Hw Hr) as [_ Hd]. eapply only_reputation_trans; [exact IH|by eapply own_only].
Qed.

(** Once the context is cancelled, the signal goroutine has ended or can take its
    last step. *)
Lemma cancelled_sig_ends d :
  d_cancelled d = true -> d_sig d = SDone \/ exists d', sig_step d Self (Some d') /\ d_sig d' = SDone.
Proof.
  intros Hc. destruct (d_sig d) eqn:E; [right..|by left].
  - eexists. split; [by apply sig_ctx_done|done].
  - eexists. split; [by apply sig_cancel|done].
Qed.

(** C8: a whole session of the daemon. When the level has been raised and the
    goroutines have run to the return of [wg.Wait], [RunDaemon] returns nil, with
    its lines; the three goroutines it waits for have ended; the context is
    cancelled, so the signal goroutine, which it does not wait for, has ended or
    its own next step is enabled and is its last; the level is the one read at the start,
    OFF if it could not be read, unless this last write fails; the dry-run register, the
    port gate and every map but the reputation map are as they were; no safe
    address has become blocked. The blocks in force are not lifted: each source
    still tracked, however short its remaining time, stays dropped after the
    return, and the next session's controller starts without its record. *)
Theorem RunDaemon_session (m : MapManager) (h : Host) (k k1 : kernel) (now : Z) (d : daemon) (lines : list printed)
    (loop : kernel -> kernel * Aggregator * list printed) (prev : Z) (perr : option error) :
  wired m -> GetLogLevel m k = Some (prev, perr) -> SetLogLevel m LogLevelDebug k = Some (k1, None) ->
  reachable (daemon_start m h k1 now) d -> d_main d = MReturned -> loop k1 = (d_kernel d, d_agg d, lines) ->
  let restored := match perr with Some _ => LogLevelOff | None => prev end in
  let cfg := pinned "config_map" in
  exists k3 e3, RunDaemon m None loop k = Some (k3, daemon_banner ++ lines ++ shutdown_stats (d_agg d), None) /\
    (d_aggpc d = ADone /\ d_inf d = IDone /\ d_fcpc d = FDone /\ d_cancelled d = true /\
     (d_sig d = SDone \/ exists d', sig_step d Self (Some d') /\ d_sig d' = SDone)) /\
    SetLogLevel m restored (d_kernel d) = Some (k3, e3) /\
    (e3 = None -> entries k3 cfg !! le_split 4 0 = Some (le_split 4 restored)) /\
    entries k3 cfg !! le_split 4 1 = entries k cfg !! le_split 4 1 /\
    (forall o, o <> cfg -> o <> pinned "reputation_map" -> entries k3 o = entries k o) /\
    (forall n a b c e, n ∈ DiscoverSafeNetworks h -> Contains n (IPv4 a b c e) = true ->
       blocked_entry k [a; b; c; e] = None -> blocked_entry k3 [a; b; c; e] = None) /\
    (forall src t, blocked (d_fc d) !! src = Some t -> exists addr, names src addr /\ stopped_from k3 addr).
Proof.
  intros Hw Hg E1 Hr Hm Hl restored cfg.
  destruct (SetLogLevel_frame _ _ _ _ _ Hw E1) as [F1 G1].
  destruct (SetLogLevel_register m restored (d_kernel d) Hw) as (k3 & e3 & E3 & Hreg).
  destruct (SetLogLevel_frame _ _ _ _ _ Hw E3) as [F3 G3].
  pose proof (reachable_only m h k1 now d Hw Hr) as Hd.
  assert (Hb : forall ip, blocked_entry k3 ip = blocked_entry (d_kernel d) ip) by (intros; unfold blocked_entry; by rewrite F3).
  assert (Hb1 : forall ip, blocked_entry k1 ip = blocked_entry k ip) by (intros; unfold blocked_entry; by rewrite F1).
  destruct (reachable_ok m h k1 now d Hw Hr) as [Hctl _]. destruct (i_returned _ Hctl Hm) as (? & ? & ?).
  assert (Hcan : d_cancelled d = true) by (apply (i_main _ Hctl); by right).
  exists k3, e3. split; [|split; [split_and!; [done..|exact (cancelled_sig_ends d Hcan)]|split_and!; [exact E3| | | | |]]].
  - unfold RunDaemon. rewrite Hg. cbn [mbind option_bind]. fold restored. rewrite E1. simpl.
    destruct (w_events m Hw) as (ev & Hev & _). unfold GetEventsMap. rewrite Hev, Hl. cbn [snd fst]. fold restored. by rewrite E3.
  - intros ->. exact Hreg.
  - unfold cfg. rewrite <- G1, G3. by rewrite Hd.
  - intros o Hc Hrep. by rewrite F3, Hd, F1.
  - intros n a b c e Hn Hcon Hnone. rewrite Hb. rewrite <- Hb1 in Hnone.
    by destruct (reachable_safe m h k1 now d n a b c e Hw Hr Hn Hcon Hnone).
  - intros src t Ht. destruct (reachable_loop_ok m h k1 now d Hw Hr) as [He _ _].
    destruct (He src t Ht) as (addr & Hn & Hent). exists addr. split; [done|]. apply blocked_stopped. by rewrite Hb.
Qed.

(** What an alert that names [addr] comes to. *)
Definition alert_outcome (fc : FeedbackController) (k : kernel) (addr : list Z) (t0 : Z)
    (fc' : FeedbackController) (k' : kernel) (r : report) : Prop :=
  match r with
  | OnBlock _ => stopped_from k' addr /\ blocked fc' !! dotted addr = Some (t0 + BlockTTL)
  | Skipped _ => stopped_from k' addr /\ exists t, blocked fc' !! dotted addr = Some t /\ t0 < t
  | OnExempt _ n => n ∈ safeNetworks fc /\ Contains n addr = true
  | BlockFailed _ _ => entries k' = entries k /\ blocked fc' !! dotted addr = None
  | _ => False
  end.

Lemma alert_outcomes fc k ff res addr t0 :
  wired (fc_mgr fc) -> enforced fc k -> four_bytes addr -> ff_SrcIP ff = u32ToIP (be_combine addr) ->
  exists fc' k' r, handle fc k (alert_of ff res) t0 = Some (fc', k', r) /\ alert_outcome fc k addr t0 fc' k' r.
Proof.
  intros Hw Henf Ha Hs. destruct (alert_of_addr ff res addr Ha Hs) as (Hal & Hip & Hns & Hc).
  destruct (handle_handled fc k (alert_of ff res) t0 Hw) as (fc' & k' & r & E & Hr); [by rewrite Hal|].
  assert (He : enforced fc' k') by (eapply (handled_enforced _ _ _ _ _ _ _ addr), Hr; done).
  assert (Hstop : forall t, blocked fc' !! dotted addr = Some t -> stopped_from k' addr).
  { intros t Ht. destruct (He _ _ Ht) as (a & Hn & Hent). destruct (names_addr _ _ Hn) as (_ & Haddr & _).
    unfold alert_addr in Haddr. rewrite Hip in Haddr. subst a. by apply blocked_stopped. }
  exists fc', k', r. split; [exact E|]. unfold handled in Hr. cbv zeta in Hr. rewrite Hal in Hr.
  destruct r; simpl; try done.
  - destruct Hr as (_ & Hnil & _). rewrite Hnil in Hip. destruct Ha as [Hl _]. by rewrite <- Hip in Hl.
  - destruct Hr as (_ & Hsafe & _). apply first_containing_Some in Hsafe as [Hin Hcon]. by rewrite <- Hc.
  - destruct Hr as (_ & _ & (t & Ht & Hlt) & Efc & _). rewrite <- Efc in Ht. split; [by eapply Hstop|by exists t].
  - destruct Hr as (_ & _ & _ & -> & Hent). split; [done|]. apply lookup_delete_eq.
  - destruct Hr as (_ & _ & _ & _ & Efc & _).
    assert (Ht : blocked fc' !! dotted addr = Some (t0 + BlockTTL)) by (rewrite Efc; apply lookup_insert_eq).
    split; [by eapply Hstop|done].
Qed.

(** A conversation of at least 1000 bare TCP SYNs among the packets [sent], at a
    constant interval [d] from the time [t] on, all from its lower endpoint. *)
Record syn_flood (sent : list sighting) (d t : Z) (key : FlowKey) : Prop := {
  f_seen : Forall seen_ok sent;
  f_sent : Z.of_nat (length sent) < 2 ^ 64;
  f_many : 1000 <= Z.of_nat (length (conversation key (map record_of sent)));
  f_syns : Forall (fun m => snd (canonicalize m) = true /\ Protocol m = 6 /\ TCPFlags m = 2) (conversation key (map record_of sent));
  f_interval : 0 < d;
  f_start : 0 < t;
  f_end : t + d * Z.of_nat (length (conversation key (map record_of sent))) < 2 ^ 64;
  f_periodic : periodic d t (conversation key (map record_of sent))
}.

(** Its packets have one source, the one its flow names, and every vector made
    of this flow is malicious. *)
Lemma syn_flood_flow sent d t key :
  syn_flood sent d t key ->
  exists fa attacker, flow_of (map record_of sent) key = Some fa /\ four_bytes attacker /\
    (forall x, x ∈ sent -> key_of (record_of x) = key -> seen_src x = attacker) /\ firstSrcIP fa = be_combine attacker /\
    forall snap ws we, let f := make_features snap ws we fa in
      Malicious (Classify f) = true /\ Attack (Classify f) = AttackSynFlood.
Proof.
  intros []. assert (Hok : Forall (fun x => packet_ok (seen_packet x)) sent) by (eapply Forall_impl; [exact f_seen0|]; by intros ? [? _]).
  assert (Hflags : Forall (fun m => in_u 8 (TCPFlags m)) (map record_of sent)).
  { apply Forall_map. eapply Forall_impl; [exact Hok|]. intros x (_ & _ & Hseg & _). by apply seg_bounds in Hseg as (_ & _ & _ & ?). }
  destruct (periodic_syn_flood_flow (map record_of sent) d t key) as (fa & m & Hfa & Hh & Hs & Hv); [by rewrite length_map|done..|].
  assert (Hin : m ∈ conversation key (map record_of sent))
    by (destruct (conversation key (map record_of sent)); [done|injection Hh as ->; apply list_elem_of_here]).
  apply list_elem_of_filter in Hin as [Hk (x & -> & Hx)%list_elem_of_fmap].
  assert (Hfour : forall y, y ∈ sent -> four_bytes (seen_src y))
    by (intros y Hy; rewrite Forall_forall in Hok; by apply packet_src_bytes, Hok).
  pose proof (one_source sent key Hok ltac:(eapply Forall_impl; [exact f_syns0|]; by intros ? [? _])) as Hone.
  exists fa, (seen_src x). split_and!; [done|by apply Hfour| |exact Hs|exact Hv].
  intros y Hy Hky. apply four_bytes_inj; auto. by rewrite (Hone y), (Hone x).
Qed.

(** C4: the loop closes, from packets to packets. The records of a window are
    decoded from the bytes the firewall writes for its packets. When they hold a
    [syn_flood], a conversation of at least 1000 bare TCP SYNs, sent at a constant interval by
    its lower endpoint, then its packets have one source, its vector is malicious
    and attributed to SYN_FLOOD, and the alert for it, handled in any state the
    daemon reaches, has one of four outcomes: the source is now blocked for
    300 s, or was blocked already, and the firewall drops every well-formed,
    unfragmented packet from it; or it is in a safe network; or the kernel refused
    the write, and it is left untracked so that the next alert retries. *)
Theorem flood_stopped (sent : list sighting) (ws we d t t0 : Z) (key : FlowKey)
    (mgr : MapManager) (h : Host) (k : kernel) (now : Z) (dm : daemon) :
  syn_flood sent d t key -> wired mgr -> reachable (daemon_start mgr h k now) dm ->
  (forall x m0, x ∈ sent -> UnmarshalBinary m0 (event_of x) = (record_of x, None)) /\
  exists f attacker, vector (map record_of sent) ws we key = Some f /\ Attack (Classify f) = AttackSynFlood /\
    (forall x, x ∈ sent -> key_of (record_of x) = key -> seen_src x = attacker) /\
    Malicious (Classify f) = true /\
    exists fc' k' r, handle (d_fc dm) (d_kernel dm) (alert_of f (Classify f)) t0 = Some (fc', k', r) /\
      alert_outcome (d_fc dm) (d_kernel dm) attacker t0 fc' k' r.
Proof.
  intros Hf Hw Hr. split.
  - intros x m0 Hx. destruct Hf as [Hs _ _ _ _ _ _ _]. rewrite Forall_forall in Hs. by apply event_read, Hs.
  - destruct (syn_flood_flow sent d t key Hf) as (fa & attacker & Hfa & Hfour & Hsrc & Hfirst & Hv).
    unfold vector. rewrite Hfa. simpl. eexists _, attacker. split; [reflexivity|]. split; [apply Hv|]. split; [done|]. split; [apply Hv|].
    destruct (reachable_ok mgr h k now dm Hw Hr) as [_ []]. destruct (reachable_loop_ok mgr h k now dm Hw Hr).
    apply alert_outcomes; [done..|]. simpl. by rewrite Hfirst.
Qed.
End loop.

(** ** A run

    A scheduler of the daemon's own steps: the aggregator as far as it goes, then
    the inference stage, the controller, the signal goroutine and the reader. *)

Section run.
Context `{Ebpf, MapRange, GoMath}.

Definition agg_next (now : Z) (d : daemon) : option daemon :=
  match d_aggpc d with
  | ASelect =>
      if d_cancelled d
      then Some (set_agg d (flush_window (d_agg d) now) (APorts 0 ∅ (windowStart (d_agg d)) now true)) else None
  | APorts i snap ws we fin => Some
      (if Z.of_nat i <? numShards
       then set_agg d (set_port_shard (d_agg d) (Z.of_nat i) ∅)
              (APorts (S i) (port_shard (d_agg d) (Z.of_nat i) ∪ snap) ws we fin)
       else set_agg d (d_agg d) (AFlows 0 snap ws we fin))
  | AFlows i snap ws we fin => Some
      (if Z.of_nat i <? numShards
       then set_agg d (set_flow_shard (d_agg d) (Z.of_nat i) ∅)
              (AEmit i (map snd (range_map (flow_shard (d_agg d) (Z.of_nat i)))) snap ws we fin)
       else set_agg d (d_agg d) (if fin : bool then AClose else ASelect))
  | AEmit i (fa :: rest) snap ws we fin =>
      option_map (fun a => set_agg d a (AEmit i rest snap ws we fin)) (emit (d_agg d) (make_features snap ws we fa))
  | AEmit i [] snap ws we fin => Some (set_agg d (d_agg d) (AFlows (S i) snap ws we fin))
  | AClose => if out_closed (d_agg d) then None else Some (set_agg d (close_out (d_agg d)) ADone)
  | ADone => None
  end.

Definition inf_next (d : daemon) : option daemon :=
  match d_inf d, out (d_agg d) with
  | IRange, ff :: _ =>
      let r := Classify ff in
      Some (set_inf d (recv_out (d_agg d)) (d_alerts d) (d_alerts_closed d) (if Malicious r then ISend (alert_of ff r) else IRange))
  | ISend al, _ =>
      if (Z.of_nat (length (d_alerts d)) <? alertBufferSize) && negb (d_alerts_closed d)
      then Some (set_inf d (d_agg d) (d_alerts d ++ [al]) false IRange) else None
  | IRange, [] =>
      if out_closed (d_agg d) then Some (set_inf d (d_agg d) (d_alerts d) (d_alerts_closed d) ICloseAlerts) else None
  | ICloseAlerts, _ => if d_alerts_closed d then None else Some (set_inf d (d_agg d) (d_alerts d) true IDone)
  | IDone, _ => None
  end.

Definition fc_next (now : Z) (d : daemon) : option daemon :=
  match d_fcpc d, d_alerts d with
  | FSelect, al :: rest =>
      option_map (fun '(fc, k, _) => set_fc d k fc rest FSelect) (handle (d_fc d) (d_kernel d) al now)
  | FSelect, [] => if d_alerts_closed d then Some (set_fc d (d_kernel d) (d_fc d) [] FDone) else None
  | FDone, _ => None
  end.

Definition sig_next (d : daemon) : option daemon :=
  match d_sig d with SCancel => Some (set_sig d (d_reader_open d) true SDone) | _ => None end.

Definition main_next (d : daemon) : option daemon :=
  match d_main d with
  | MRead => if d_reader_open d then None else Some (set_main d (d_agg d) (d_meta d) MCancel)
  | MPort m => Some (set_main d (ingest_port (d_agg d) m) (d_meta d) MRead)
  | MCancel => Some (set_cancelled d MWait)
  | MWait =>
      match d_aggpc d, d_inf d, d_fcpc d with
      | ADone, IDone, FDone => Some (set_main d (d_agg d) (d_meta d) MReturned)
      | _, _, _ => None
      end
  | MReturned => None
  end.

Definition or_else (o o' : option daemon) : option daemon := match o with Some d => Some d | None => o' end.

Definition next (now : Z) (d : daemon) : option daemon :=
  or_else (agg_next now d) (or_else (inf_next d) (or_else (fc_next now d) (or_else (sig_next d) (main_next d)))).

Fixpoint drain (n : nat) (now : Z) (d : daemon) : daemon :=
  match n with
  | O => d
  | S n' => match next now d with Some d' => drain n' now d' | None => d end
  end.

(** A record read and ingested; a window's tick. *)
Definition read_meta_step (d : daemon) (m : FlowPacketMeta) : daemon :=
  let '(a, tracked) := ingest_flow (d_agg d) m in
  set_main d (if tracked : bool then ingest_port a m else a) m MRead.

Definition tick (now : Z) (d : daemon) : daemon :=
  set_agg d (flush_window (d_agg d) now) (APorts 0 ∅ (windowStart (d_agg d)) now false).

Definition signal (d : daemon) : daemon := set_sig d false (d_cancelled d) SCancel.

Lemma agg_next_step now d d' : agg_next now d = Some d' -> agg_step d Self (Some d').
Proof.
  unfold agg_next. intros E.
  destruct (d_aggpc d) as [|i snap ws we fin|i snap ws we fin|i [|fa rest] snap ws we fin| |] eqn:Hpc; try done.
  - destruct (d_cancelled d) eqn:Hc; [|done]. injection E as <-. by apply (agg_cancelled d now).
  - injection E as <-. destruct (Z.ltb_spec (Z.of_nat i) numShards); [by eapply agg_port_shard|by eapply agg_ports_done].
  - injection E as <-. destruct (Z.ltb_spec (Z.of_nat i) numShards); [by eapply agg_flow_shard|by eapply agg_flush_done].
  - injection E as <-. by eapply agg_shard_done.
  - rewrite <- E. by eapply agg_emit.
  - rewrite <- E. by apply agg_close.
Qed.

Lemma inf_next_step d d' : inf_next d = Some d' -> inf_step d Self (Some d').
Proof.
  unfold inf_next. intros E. destruct (d_inf d) as [|al| |] eqn:Hpc; try done.
  - destruct (out (d_agg d)) as [|ff rest] eqn:Ho.
    + destruct (out_closed (d_agg d)) eqn:Hc; [|done]. injection E as <-. by apply inf_closed.
    + injection E as <-. by eapply inf_recv.
  - destruct (_ && _) eqn:Hb; [|done]. injection E as <-. apply andb_prop in Hb as [Hlt Hc].
    pose proof (inf_send d al Hpc ltac:(by apply Z.ltb_lt)) as Hs. by destruct (d_alerts_closed d).
  - pose proof (inf_close d Hpc) as Hs. destruct (d_alerts_closed d); [done|]. by injection E as <-.
Qed.

Lemma fc_next_step now d d' : fc_next now d = Some d' -> fc_step d Self (Some d').
Proof.
  unfold fc_next. intros E. destruct (d_fcpc d) eqn:Hpc; [|done]. destruct (d_alerts d) as [|al rest] eqn:Ha.
  - destruct (d_alerts_closed d) eqn:Hc; [|done]. injection E as <-. by apply fc_closed.
  - rewrite <- E. by apply fc_alert.
Qed.

Lemma main_next_step d d' : main_next d = Some d' -> main_step d Self (Some d').
Proof.
  unfold main_next. intros E. destruct (d_main d) as [|m| | |] eqn:Hpc; try done.
  - destruct (d_reader_open d) eqn:Ho; [done|]. injection E as <-. by apply read_closed.
  - injection E as <-. by apply ingest_ports.
  - injection E as <-. by apply main_cancel.
  - destruct (d_aggpc d) eqn:Ha, (d_inf d) eqn:Hi, (d_fcpc d) eqn:Hf; try done. injection E as <-. by apply main_wait.
Qed.

Lemma next_step now d d' : next now d = Some d' -> daemon_step d Self (Some d').
Proof.
  unfold next, or_else. destruct (agg_next now d) as [d1|] eqn:Ea.
  { intros [= <-]. by eapply step_agg, agg_next_step. }
  destruct (inf_next d) as [d2|] eqn:Ei; [intros [= <-]; by apply step_inf, inf_next_step|].
  destruct (fc_next now d) as [d3|] eqn:Ef; [intros [= <-]; by eapply step_fc, fc_next_step|].
  destruct (sig_next d) as [d4|] eqn:Es.
  - intros [= <-]. apply step_sig. unfold sig_next in Es. destruct (d_sig d) eqn:Hpc; try done. injection Es as <-. by apply sig_cancel.
  - intros Em. by apply step_main, main_next_step.
Qed.

Lemma drain_reachable n now d0 d : reachable d0 d -> reachable d0 (drain n now d).
Proof.
  revert d. induction n as [|n IH]; intros d Hr; simpl; [done|]. destruct (next now d) as [d'|] eqn:E; [|done].
  apply IH. eapply reach_step; [exact Hr|]. by eapply next_step.
Qed.

Lemma signal_reachable d0 d : reachable d0 d -> d_sig d = SWait -> reachable d0 (signal d).
Proof. intros Hr Hs. eapply reach_step; [exact Hr|]. by apply step_sig, sig_received. Qed.

(** The reader at the top of its loop. *)
Definition reading (d : daemon) : Prop := d_main d = MRead /\ d_reader_open d = true.

Lemma reads_reachable d0 d ms :
  reachable d0 d -> reading d -> Forall meta_ok ms ->
  reachable d0 (fold_left read_meta_step ms d) /\ reading (fold_left read_meta_step ms d).
Proof.
  intros Hr Hd Hok. revert d Hr Hd. induction Hok as [|m ms Hm _ IH]; intros d Hr [Hpc Ho]; simpl; [done|].
  unfold read_meta_step at 2 4. destruct (ingest_flow (d_agg d) m) as [a tracked] eqn:Ei.
  assert (Hread : reachable d0 (set_main d a m (if tracked : bool then MPort m else MRead))).
  { eapply reach_step; [exact Hr|]. apply step_main.
    eapply (read_record d (wire_bytes m)); [done..|by apply UnmarshalBinary_wire|exact Ei]. }
  apply IH; [|by destruct tracked]. destruct tracked; [|exact Hread].
  eapply reach_step; [exact Hread|]. apply step_main. by apply (ingest_ports (set_main d a m (MPort m)) m).
Qed.

(** Reading records is ingesting them. *)
Lemma reads_window ms d :
  Z.of_nat (length ms) <= maxFlowsPerShard -> holds (mkWindow [] 0) (d_agg d) -> holds (mkWindow ms 0) (d_agg (fold_left read_meta_step ms d)).
Proof.
  intros Hlen Hh. rewrite <- (small_window_accepted ms Hlen). revert Hh. generalize (mkWindow [] 0) as w. clear Hlen.
  revert d. induction ms as [|m ms IH]; intros d w Hh; simpl; [done|]. apply IH.
  replace (d_agg (read_meta_step d m)) with (Ingest (d_agg d) m); [by apply Ingest_holds|].
  unfold read_meta_step, Ingest. by destruct (ingest_flow (d_agg d) m) as [a []].
Qed.
End run.

(** ** Examples *)

(** [n] connection requests [d] nanoseconds apart, the packets of [sim_packet],
    as the firewall reports them at DEBUG. *)
Fixpoint sim_train (d t : Z) (n : nat) : list sighting :=
  match n with
  | O => []
  | S n' => mkSeen (sim_packet 0) t APass RNone :: sim_train d (t + d) n'
  end.

Definition sim_flooded (k : sim_kernel) : @daemon sim_ebpf :=
  @drain sim_ebpf list_order sample_math 100 1000
    (@tick sim_ebpf 500
       (fold_left (@read_meta_step sim_ebpf) (map record_of (sim_train 100 5 200))
          (@daemon_start sim_ebpf sim_manager sim_host k 0))).

Lemma sim_packet_named : packet_ok (sim_packet 0).
Proof. apply sim_packet_ok. split; [discriminate|reflexivity]. Qed.

Lemma sim_train_length d t n : length (sim_train d t n) = n.
Proof. revert t. induction n; intros t; simpl; auto. Qed.

Lemma sim_train_all (P : sighting -> Prop) d t n :
  (forall t, P (mkSeen (sim_packet 0) t APass RNone)) -> Forall P (sim_train d t n).
Proof. intros HP. revert t. induction n; intros t; simpl; constructor; auto. Qed.

Lemma sim_train_periodic d t n : periodic d t (map record_of (sim_train d t n)).
Proof. revert t. induction n; intros t; simpl; auto. Qed.

Definition sim_key : FlowKey := mkFlowKey 167772161 3232235876 40000 443 6.

Lemma sim_train_conversation d t n :
  conversation sim_key (map record_of (sim_train d t n)) = map record_of (sim_train d t n).
Proof.
  unfold conversation. revert t. induction n as [|n IH]; intros t; [done|]. simpl sim_train. rewrite map_cons.
  rewrite filter_cons_True by done. by rewrite IH.
Qed.

Lemma sim_train_ok d t n :
  0 <= d -> 0 <= t -> t + d * Z.of_nat n < 2 ^ 64 -> Forall seen_ok (sim_train d t n).
Proof.
  intros Hd. revert t. induction n as [|n IH]; intros t Ht Hlt; simpl; [constructor|].
  constructor; [|apply IH; lia]. split; [apply sim_packet_named|].
  assert (0 <= d * Z.of_nat (S n)) by (apply Z.mul_nonneg_nonneg; lia). simpl. split; lia.
Qed.

Lemma sim_train_flood d t n :
  0 < d -> 0 < t -> 1000 <= Z.of_nat n < 2 ^ 64 -> t + d * Z.of_nat n < 2 ^ 64 -> syn_flood (sim_train d t n) d t sim_key.
Proof.
  intros. split; rewrite ?sim_train_conversation, ?length_map, ?sim_train_length; try lia.
  - apply sim_train_ok; lia.
  - apply Forall_map, sim_train_all. done.
  - apply sim_train_periodic.
Qed.

(** 200 requests in a window are read, aggregated, classified and acted on. *)
Lemma sim_flooded_reachable k :
  @reachable sim_ebpf list_order sample_math (@daemon_start sim_ebpf sim_manager sim_host k 0) (sim_flooded k).
Proof.
  set (d0 := @daemon_start sim_ebpf sim_manager sim_host k 0).
  destruct (@reads_reachable sim_ebpf list_order sample_math d0 d0 _ (reach_start d0) ltac:(by split)
    (seen_meta_ok _ (sim_train_ok 100 5 200 ltac:(lia) ltac:(lia) ltac:(lia)))) as [Hr _].
  unfold sim_flooded. fold d0. apply drain_reachable. eapply reach_step; [exact Hr|]. apply step_agg, agg_tick. vm_compute. reflexivity.
Qed.

(** The firewall over the maps of a simulated kernel. *)
Lemma stopped_sim (k : sim_kernel) :
  @stopped_from sim_helpers sim_ebpf sim_laws k [10; 0; 0; 1] -> @dry_run_mode sim_helpers (sim_dataplane k) = false ->
  fst (run_packet 0 k) = XDP_DROP.
Proof.
  intros Hstop Hd. unfold run_packet.
  rewrite (Hstop (sim_packet 0) 1000 (sim_dataplane k) sim_packet_named eq_refl eq_refl eq_refl). by rewrite Hd.
Qed.

Lemma tracked_sources_stopped_witness :
  blocked (d_fc (sim_flooded (sim_start []))) !! dotted [10; 0; 0; 1] = Some (1000 + BlockTTL) /\
  fst (run_packet 0 (d_kernel (sim_flooded (sim_start [])))) = XDP_DROP.
Proof.
  assert (Hb : blocked (d_fc (sim_flooded (sim_start []))) !! dotted [10; 0; 0; 1] = Some (1000 + BlockTTL)) by (vm_compute; reflexivity).
  split; [exact Hb|].
  destruct (@tracked_sources_stopped sim_helpers sim_helper_laws sim_ebpf sim_laws list_order sample_math sim_manager sim_host
    (sim_start []) 0 (sim_flooded (sim_start [])) _ _ sim_wired (sim_flooded_reachable _) Hb) as (addr & Hn & Hstop).
  assert (Ha : addr = [10; 0; 0; 1]) by (destruct (names_addr _ _ Hn) as (_ & <- & _); vm_compute; reflexivity).
  subst addr.
  apply stopped_sim; [exact Hstop|vm_compute; reflexivity].
Defined.

Lemma flood_stopped_witness :
  exists f fc' k' r,
    @handle sim_ebpf (d_fc sim_daemon) (d_kernel sim_daemon) (alert_of f (@Classify sample_math f)) 2000 = Some (fc', k', r) /\
    @alert_outcome sim_helpers sim_ebpf sim_laws (d_fc sim_daemon) (d_kernel sim_daemon) [10; 0; 0; 1] 2000 fc' k' r.
Proof.
  destruct (@flood_stopped sim_helpers sim_helper_laws sim_ebpf sim_laws list_order sample_math sample_laws
    (sim_train 100 5 1000) 0 100 100 5 2000 sim_key sim_manager sim_host (sim_start []) 0 sim_daemon)
    as (_ & f & addr & _ & _ & Hsrc & _ & fc' & k' & r & E & Ho).
  - apply sim_train_flood; lia.
  - apply sim_wired.
  - apply reach_start.
  - assert (Ha : addr = [10; 0; 0; 1]) by (symmetry; apply (Hsrc (mkSeen (sim_packet 0) 5 APass RNone)); [left|reflexivity]).
    subst addr. exists f, fc', k', r. split; [exact E|exact Ho].
Defined.

(** A whole session: the flood, then a signal. *)
Definition sim_stopped (k : sim_kernel) : @daemon sim_ebpf :=
  @drain sim_ebpf list_order sample_math 100 2000 (@signal sim_ebpf (sim_flooded k)).

Lemma sim_stopped_reachable k :
  d_sig (sim_flooded k) = SWait ->
  @reachable sim_ebpf list_order sample_math (@daemon_start sim_ebpf sim_manager sim_host k 0) (sim_stopped k).
Proof.
  intros Hs. unfold sim_stopped. apply drain_reachable, signal_reachable; [apply sim_flooded_reachable|exact Hs].
Qed.

Definition sim_session_loop (k : sim_kernel) : sim_kernel * Aggregator * list printed :=
  (d_kernel (sim_stopped k), d_agg (sim_stopped k), []).

(** The kernel when the level has been raised: INFO before, DEBUG now. *)
Definition sim_raised : sim_kernel :=
  match @SetLogLevel sim_ebpf sim_manager LogLevelDebug sim_info with Some (k, _) => k | None => sim_info end.

(** The session restores INFO and leaves its block in force. *)
Lemma RunDaemon_session_witness :
  exists k3 out, @RunDaemon sim_ebpf sim_manager None sim_session_loop sim_info = Some (k3, out, None) /\
    sim_maps k3 (pinned "config_map") !! le_split 4 0 = Some (le_split 4 LogLevelInfo) /\
    @stopped_from sim_helpers sim_ebpf sim_laws k3 [10; 0; 0; 1].
Proof.
  assert (Hr : @reachable sim_ebpf list_order sample_math (@daemon_start sim_ebpf sim_manager sim_host sim_raised 0) (sim_stopped sim_raised))
    by (apply sim_stopped_reachable; vm_compute; reflexivity).
  assert (Hm : d_main (sim_stopped sim_raised) = MReturned) by (vm_compute; reflexivity).
  assert (Hb : blocked (d_fc (sim_stopped sim_raised)) !! dotted [10; 0; 0; 1] = Some (1000 + BlockTTL)) by (vm_compute; reflexivity).
  assert (Hf : sim_faults (d_kernel (sim_stopped sim_raised)) = []) by (vm_compute; reflexivity).
  assert (Hset : @SetLogLevel sim_ebpf sim_manager LogLevelDebug sim_info = Some (sim_raised, None)) by reflexivity.
  assert (Hl : sim_session_loop sim_raised = (d_kernel (sim_stopped sim_raised), d_agg (sim_stopped sim_raised), [])) by (unfold sim_session_loop; reflexivity).
  revert Hr Hm Hb Hf Hset Hl. generalize (sim_stopped sim_raised) as d. generalize sim_raised as k1. generalize sim_session_loop as loop.
  intros loop k1 d Hr Hm Hb Hf Hset Hl.
  destruct (@RunDaemon_session sim_helpers sim_helper_laws sim_ebpf sim_laws list_order sample_math sim_manager sim_host
    sim_info k1 0 d [] loop LogLevelInfo None sim_wired ltac:(vm_compute; reflexivity) Hset Hr Hm Hl)
    as (k3 & e3 & Hrun & _ & E3 & Hreg & _ & _ & _ & Hstop).
  exists k3, (daemon_banner ++ [] ++ shutdown_stats (d_agg d)). split; [exact Hrun|]. split.
  - apply Hreg. assert (Hok : snd <$> @SetLogLevel sim_ebpf sim_manager LogLevelInfo (d_kernel d) = Some None).
    { unfold SetLogLevel, put. simpl. unfold sim_fault. rewrite Hf. reflexivity. }
    rewrite E3 in Hok. by injection Hok.
  - destruct (Hstop _ _ Hb) as (addr & Hn & Hst).
    assert (Ha : addr = [10; 0; 0; 1]) by (destruct (names_addr _ _ Hn) as (_ & <- & _); vm_compute; reflexivity).
    subst addr. exact Hst.
Defined.
