(* ===== verification/Liveness.v ===== *)
(** * From a tick to the answer to a flood

    The daemon's goroutines, left to themselves after a tick, in any order: the
    flow of a flood goes from its shard to the output channel, the inference
    stage, the alert channel and the controller, which answers it. *)

From S2P Require Import Prelude GoStrings GoNet Contracts Float64 Flow Trees EbpfMap MapManager Feedback Daemon Packet Firewall EndToEnd ClosedLoop.
From Stdlib Require Import Ascii.

(** ** Own runs, with the alerts handled *)

Section own_runs.
Context `{Ebpf, MapRange, GoMath}.

(** A step of the program itself in which the controller handles no alert. *)
Definition quiet_step (d d' : daemon) : Prop :=
  main_step d Self (Some d') \/ agg_step d Self (Some d') \/ inf_step d Self (Some d') \/ sig_step d Self (Some d') \/
  (fc_step d Self (Some d') /\ d_fcpc d' = FDone).

(** [n] steps, and what the controller did with each alert it handled. *)
Inductive own_run : nat -> daemon -> list (ThreatAlert * report) -> daemon -> Prop :=
  | own_none d : own_run 0 d [] d
  | own_quiet n d d1 rs d' : quiet_step d d1 -> own_run n d1 rs d' -> own_run (S n) d rs d'
  | own_alert n d al rest now fc k r rs d' :
      d_fcpc d = FSelect -> d_alerts d = al :: rest -> handle (d_fc d) (d_kernel d) al now = Some (fc, k, r) ->
      own_run n (set_fc d k fc rest FSelect) rs d' -> own_run (S n) d ((al, r) :: rs) d'.

Lemma quiet_own d d' : quiet_step d d' -> daemon_step d Self (Some d').
Proof.
  intros [?|[?|[?|[?|[? _]]]]]; [by apply step_main|by apply step_agg|by apply step_inf|by apply step_sig|by apply step_fc].
Qed.

Lemma alert_own d al rest now fc k r :
  d_fcpc d = FSelect -> d_alerts d = al :: rest -> handle (d_fc d) (d_kernel d) al now = Some (fc, k, r) ->
  daemon_step d Self (Some (set_fc d k fc rest FSelect)).
Proof. intros Hpc Ha E. pose proof (fc_alert d al rest now Hpc Ha) as Hs. rewrite E in Hs. by apply step_fc. Qed.

(** Every step of the program itself is one or the other. *)
Lemma own_cases d d' :
  daemon_step d Self (Some d') ->
  quiet_step d d' \/
  exists al rest now fc k r, d_fcpc d = FSelect /\ d_alerts d = al :: rest /\
    handle (d_fc d) (d_kernel d) al now = Some (fc, k, r) /\ d' = set_fc d k fc rest FSelect.
Proof.
  unfold quiet_step. intros [Hs|Hs|Hs|Hs|Hs]; [by left; left|by left; right; left|by left; do 2 right; left| |by left; do 3 right; left].
  inversion Hs as [| |al rest now Hpc Ha Hw E|]; subst; [by left; do 4 right| |by left; do 4 right].
  destruct (handle _ _ _ _) as [[[fc k] r]|] eqn:Eh; [|done]. injection E as <-. right. by exists al, rest, now, fc, k, r.
Qed.

Lemma own_run_self n d rs d' : own_run n d rs d' -> self_steps d d'.
Proof.
  induction 1 as [| |n d al rest now fc k r rs d' Hpc Ha E]; [constructor|by eapply self_step; [apply quiet_own|]|].
  eapply self_step; [|done]. by eapply alert_own.
Qed.

Lemma self_own_run d d' : self_steps d d' -> exists n rs, own_run n d rs d'.
Proof.
  induction 1 as [d|d d1 d' Hs _ (n & rs & Hr)]; [exists 0%nat, []; constructor|].
  destruct (own_cases d d1 Hs) as [Hq|(al & rest & now & fc & k & r & Hpc & Ha & E & ->)].
  - exists (S n), rs. by eapply own_quiet.
  - exists (S n), ((al, r) :: rs). by eapply own_alert.
Qed.

End own_runs.

Section answered.
Context `{EbpfLaws, MapRange, GoMath}.

Lemma quiet_step_ok d d' :
  quiet_step d d' -> control_ok d -> data_ok d -> control_ok d' /\ data_ok d' /\ (measure d' < measure d)%nat.
Proof.
  intros Hs%quiet_own Hc Hd. split; [by eapply control_step|]. split; [by eapply data_step|by apply self_measure].
Qed.

Lemma own_run_ok n d rs d' :
  own_run n d rs d' -> control_ok d -> data_ok d -> control_ok d' /\ data_ok d' /\ (n + measure d' <= measure d)%nat.
Proof.
  induction 1 as [d|n d d1 rs d' Hq Hr IH|n d al rest now fc k r rs d' Hpc Ha E Hr IH]; intros Hc Hd; [split_and!; [done..|lia]| |].
  - destruct (quiet_step_ok d d1 Hq Hc Hd) as (Hc1 & Hd1 & Hm). destruct (IH Hc1 Hd1) as (? & ? & ?). split_and!; [done..|lia].
  - pose proof (alert_own d al rest now fc k r Hpc Ha E) as Hs. pose proof (self_measure _ _ Hd Hc Hs).
    destruct IH as (? & ? & ?); [by eapply control_step|by eapply data_step|]. split_and!; [done..|lia].
Qed.

(** ** The way of a flow *)

(** The daemon reads; nothing has asked it to stop. *)
Record running (d : daemon) : Prop := {
  r_main : d_main d = MRead;
  r_sig : d_sig d = SWait;
  r_cancelled : d_cancelled d = false
}.

(** The output channel has room for all flows held. *)
Definition roomy (d : daemon) : Prop :=
  Z.of_nat (tracked_flows (d_agg d) + match d_aggpc d with AEmit _ rest _ _ _ _ => length rest | _ => 0 end + length (out (d_agg d)))
    <= outputBufferSize.

Definition shard_holds (d : daemon) (key : FlowKey) (fa : flowAccumulator) : Prop :=
  flow_shard (d_agg d) (shardIndex key) !! key = Some fa.

(** The vector made of the flow, and its alert. *)
Definition vector_of (fa : flowAccumulator) (ff : FlowFeatures) : Prop := exists snap ws we, ff = make_features snap ws we fa.
Definition alert_for (fa : flowAccumulator) (al : ThreatAlert) : Prop := exists ff, vector_of fa ff /\ al = alert_of ff (Classify ff).

Inductive stage (key : FlowKey) (fa : flowAccumulator) (d : daemon) : Prop :=
  | st_ports i snap ws we :
      d_aggpc d = APorts i snap ws we false -> shard_holds d key fa -> roomy d -> stage key fa d
  | st_flows i snap ws we :
      d_aggpc d = AFlows i snap ws we false -> Z.of_nat i <= shardIndex key -> shard_holds d key fa -> roomy d -> stage key fa d
  | st_before i rest snap ws we :
      d_aggpc d = AEmit i rest snap ws we false -> Z.of_nat i < shardIndex key -> shard_holds d key fa -> roomy d -> stage key fa d
  | st_emit i rest snap ws we :
      d_aggpc d = AEmit i rest snap ws we false -> fa ∈ rest -> roomy d -> stage key fa d
  | st_out ff : vector_of fa ff -> ff ∈ out (d_agg d) -> stage key fa d
  | st_send al : alert_for fa al -> d_inf d = ISend al -> stage key fa d
  | st_alert al : alert_for fa al -> al ∈ d_alerts d -> stage key fa d.

(** What cannot happen while it runs. *)
Lemma running_open d : control_ok d -> running d -> d_reader_open d = true /\ d_alerts_closed d = false /\
  out_closed (d_agg d) = false /\ final_flush (d_aggpc d) = false /\ d_fcpc d = FSelect /\ d_inf d <> ICloseAlerts /\ d_inf d <> IDone.
Proof.
  intros [] []. split_and!.
  - destruct (d_reader_open d); [done|]. destruct (proj1 i_reader eq_refl). done.
  - destruct (d_alerts_closed d); [|done]. pose proof (proj1 i_alerts eq_refl). intuition congruence.
  - destruct (out_closed (d_agg d)); [|done]. pose proof (proj1 i_out eq_refl) as Hpc. rewrite Hpc in i_final. simpl in i_final. intuition congruence.
  - destruct (final_flush (d_aggpc d)); [|done]. intuition congruence.
  - destruct (d_fcpc d); [done|]. intuition congruence.
  - intuition congruence.
  - intuition congruence.
Qed.

Lemma running_quiet d d' :
  control_ok d -> running d -> quiet_step d d' -> agg_step d Self (Some d') \/ inf_step d Self (Some d').
Proof.
  intros Hc Hr. destruct (running_open d Hc Hr) as (Hro & Hal & Hcl & _ & Hfc & _). destruct Hr.
  intros [Hs|[Hs|[Hs|[Hs|[Hs Hd]]]]]; [|by left|by right| |]; exfalso; inversion Hs; subst; simpl in *; try congruence.
  destruct (handle _ _ _ _) as [[[fc k] r]|]; simplify_eq/=.
Qed.

Lemma running_set_fc d k fc al pc : running d -> running (set_fc d k fc al pc).
Proof. intros []. by split. Qed.

(** ** A step on the way *)

(** The aggregator only appends to the channel, and touches nothing else. *)
Lemma agg_appends d d' :
  control_ok d -> agg_step d Self (Some d') ->
  d_main d' = d_main d /\ d_sig d' = d_sig d /\ d_cancelled d' = d_cancelled d /\ d_inf d' = d_inf d /\ d_alerts d' = d_alerts d /\
  exists l, out (d_agg d') = out (d_agg d) ++ l.
Proof.
  intros [] Hs. inversion Hs as [| | | | |i fa rest snap ws we fin Hpc Hw E| |i snap ws we fin Hpc Hi|Hpc Hw E]; subst; clear Hs;
    try (split_and!; try done; exists []; simpl; by rewrite app_nil_r).
  - destruct (emit _ _) as [a|] eqn:Ea; [|done]. injection E as <-.
    assert (Ho : out_closed (d_agg d) = false) by (destruct (out_closed (d_agg d)); intuition congruence).
    rewrite emit_open in Ea by done. injection Ea as <-. split_and!; try done. by eexists.
  - destruct (out_closed (d_agg d)); [done|]. injection E as <-. split_and!; try done. exists []. simpl. by rewrite app_nil_r.
Qed.

Lemma agg_running d d' : control_ok d -> running d -> agg_step d Self (Some d') -> running d'.
Proof. intros Hc [] Hs. destruct (agg_appends d d' Hc Hs) as (Hm & Hg & Hca & _). split; congruence. Qed.

Lemma inf_running d d' : running d -> inf_step d Self (Some d') -> running d'.
Proof.
  intros [] Hs. inversion Hs; subst; clear Hs; try by split.
  all: match goal with E : (if ?x then None else Some _) = Some _ |- _ => destruct x; [discriminate E|injection E as <-] end; by split.
Qed.

(** The step's program counter is the one [Hpc] gives. *)
Ltac same_pc Hpc :=
  match goal with
  | E : d_aggpc _ = _ |- _ =>
      lazymatch E with Hpc => fail | _ => rewrite Hpc in E; symmetry in E; simplify_eq end
  end.

(** The channel keeps its room: a flow taken out of the shards is one to send. *)
Lemma agg_roomy d d' : control_ok d -> data_ok d -> running d -> agg_step d Self (Some d') -> roomy d -> roomy d'.
Proof.
  intros Hc [] Hr Hs. destruct (running_open d Hc Hr) as (_ & _ & Hcl & Hfin & _). destruct Hr. unfold roomy.
  inversion Hs as [|? Hpc ?|i snap ws we fin Hpc Hi|i snap ws we fin Hpc Hi|i snap ws we fin Hpc Hi
    |i fa rest snap ws we fin Hpc Hw E|i snap ws we fin Hpc|i snap ws we fin Hpc Hi|Hpc Hw E]; subst; clear Hs; rewrite Hpc; try done.
  - pose proof (tracked_flows_clear (d_agg d) i i_flow_len Hi) as Hf. simpl d_agg. simpl d_aggpc. simpl out. cbv iota beta.
    rewrite length_map, (Permutation_length (range_map_perm _)), length_map_to_list, Hf. lia.
  - rewrite emit_open in E by done. injection E as <-. simpl d_agg. simpl d_aggpc. cbv iota beta.
    pose proof (emitted_one_out (d_agg d) (make_features snap ws we fa)).
    change (tracked_flows (emitted _ _)) with (tracked_flows (d_agg d)). change (length (fa :: rest)) with (S (length rest)). lia.
  - simpl. by destruct fin.
  - rewrite Hpc in Hfin. done.
Qed.

(** The vector of a flow for which there is room is sent. *)
Lemma emitted_room a ff : Z.of_nat (length (out a)) < outputBufferSize -> ff ∈ out (emitted a [ff]).
Proof.
  intros Hl. simpl. apply elem_of_app. right. unfold room. destruct (_ - _)%nat eqn:Er; [unfold outputBufferSize in *; lia|apply list_elem_of_here].
Qed.

Lemma stage_agg key fa d d' :
  control_ok d -> data_ok d -> running d -> agg_step d Self (Some d') -> stage key fa d -> stage key fa d'.
Proof.
  intros Hc Hd Hr Hs Hst. destruct (agg_appends d d' Hc Hs) as (_ & _ & _ & Hinf & Hal & l & Hout).
  destruct (running_open d Hc Hr) as (_ & _ & Hcl & _). pose proof (shardIndex_range key) as Hk.
  pose proof (agg_roomy d d' Hc Hd Hr Hs) as Hroom. destruct Hd, Hr.
  destruct Hst as [i snap ws we Hpc Hsh Hro|i snap ws we Hpc Hi Hsh Hro|i rest snap ws we Hpc Hi Hsh Hro|i rest snap ws we Hpc Hin Hro
    |ff Hv Hin|al Hv Hin|al Hv Hin].
  - specialize (Hroom Hro). inversion Hs; subst; clear Hs; try congruence; same_pc Hpc.
    + eapply st_ports; [reflexivity|exact Hsh|done].
    + eapply st_flows; [reflexivity|simpl; lia|exact Hsh|done].
  - specialize (Hroom Hro). inversion Hs as [| | | |i' ? ? ? ? ? Hlt| | | |]; subst; clear Hs; try congruence; same_pc Hpc; [|lia].
    destruct (decide (Z.of_nat i = shardIndex key)) as [Ei|Hne].
    + eapply st_emit; [reflexivity| |done].
      apply list_elem_of_fmap. exists (key, fa). split; [done|]. apply elem_range_map. by rewrite Ei.
    + eapply st_before; [reflexivity|lia| |done]. unfold shard_holds. simpl d_agg.
      rewrite flow_shard_set by (done || lia). by rewrite decide_False.
  - specialize (Hroom Hro). inversion Hs as [| | | | |i' fa' rest' ? ? ? ? Hpc' Hw E| | |]; subst; clear Hs; try congruence; same_pc Hpc.
    + rewrite emit_open in E by done. injection E as <-. by eapply st_before; [reflexivity|done|exact Hsh|].
    + eapply st_flows; [reflexivity|lia|exact Hsh|done].
  - specialize (Hroom Hro). inversion Hs as [| | | | |i' fa' rest' ? ? ? ? Hpc' Hw E| | |]; subst; clear Hs; try congruence; same_pc Hpc;
      [|by apply not_elem_of_nil in Hin].
    rewrite emit_open in E by done. injection E as <-. unfold roomy in Hro. rewrite Hpc in Hro. simpl length in Hro.
    apply elem_of_cons in Hin as [->|Hin].
    + eapply (st_out _ _ _ (make_features snap ws we fa')); [by exists snap, ws, we|]. apply emitted_room. lia.
    + eapply st_emit; [reflexivity|exact Hin|done].
  - apply (st_out _ _ _ ff); [done|]. rewrite Hout. apply elem_of_app. by left.
  - apply (st_send _ _ _ al); [done|]. congruence.
  - apply (st_alert _ _ _ al); [done|]. by rewrite Hal.
Qed.

(** The first stages are the aggregator's: other goroutines only make room. *)
Lemma stage_frame key fa d d' :
  d_aggpc d' = d_aggpc d -> flowShards (d_agg d') = flowShards (d_agg d) -> (length (out (d_agg d')) <= length (out (d_agg d)))%nat ->
  stage key fa d -> stage key fa d' \/
    (exists ff, vector_of fa ff /\ ff ∈ out (d_agg d)) \/ (exists al, alert_for fa al /\ (d_inf d = ISend al \/ al ∈ d_alerts d)).
Proof.
  intros Hpc Hsh Hout.
  assert (Hroom : roomy d -> roomy d') by (unfold roomy, tracked_flows; rewrite Hpc, Hsh; lia).
  assert (Hhold : shard_holds d key fa -> shard_holds d' key fa) by (unfold shard_holds, flow_shard; by rewrite Hsh).
  intros [i snap ws we E ? ?|i snap ws we E ? ? ?|i rest snap ws we E ? ? ?|i rest snap ws we E ? ?|ff ? ?|al ? ?|al ? ?];
    rewrite <- ?Hpc in *; [left..|right; left; by exists ff|right; right; exists al; auto|right; right; exists al; auto].
  - eapply st_ports; eauto.
  - eapply st_flows; eauto.
  - eapply st_before; eauto.
  - eapply st_emit; eauto.
Qed.

Lemma stage_inf key fa d d' :
  (forall ff, vector_of fa ff -> Malicious (Classify ff) = true) ->
  control_ok d -> running d -> inf_step d Self (Some d') -> stage key fa d -> stage key fa d'.
Proof.
  intros Hmal Hc Hr Hs Hst. destruct (running_open d Hc Hr) as (_ & Halc & Hcl & _ & _ & Hn1 & Hn2). destruct Hr.
  inversion Hs as [ff rest Hpc Ho r|Hpc Ho Hx|al Hpc Hl Hw E|al Hpc Hx|Hpc Hw E]; subst; clear Hs; try congruence.
  - match goal with |- stage _ _ ?d1 => destruct (stage_frame key fa d d1) as [?|[(ff' & Hv & Hin)|(al & Hv & [?|Hin])]];
      [done|done|simpl; rewrite Ho; simpl; lia|done|done| |congruence|by apply (st_alert _ _ _ al)] end.
    rewrite Ho in Hin. apply elem_of_cons in Hin as [->|Hin].
    + subst r. rewrite (Hmal ff Hv). eapply st_send; [by exists ff|done].
    + apply (st_out _ _ _ ff'); [done|]. simpl. by rewrite Ho.
  - rewrite Halc in E. injection E as <-.
    match goal with |- stage _ _ ?d1 => destruct (stage_frame key fa d d1) as [?|[(ff' & Hv & Hin)|(al' & Hv & [?|Hin])]];
      [done|done|simpl; lia|done|done|by apply (st_out _ _ _ ff')| |] end.
    + apply (st_alert _ _ _ al'); [done|]. simpl. apply elem_of_app. right. replace al' with al by congruence. apply list_elem_of_here.
    + apply (st_alert _ _ _ al'); [done|]. simpl. apply elem_of_app. by left.
Qed.

(** The controller's step, unless it handles the alert itself. *)
Lemma stage_handled key fa d al rest k fc :
  d_alerts d = al :: rest -> stage key fa d -> alert_for fa al \/ stage key fa (set_fc d k fc rest FSelect).
Proof.
  intros Ha Hst. destruct (stage_frame key fa d (set_fc d k fc rest FSelect)) as [?|[(ff & Hv & Hin)|(al' & Hv & [?|Hin])]];
    [done..|by right|right; by apply (st_out _ _ _ ff)|right; by apply (st_send _ _ _ al')|].
  rewrite Ha in Hin. apply elem_of_cons in Hin as [->|Hin]; [by left|]. right. by apply (st_alert _ _ _ al').
Qed.

(** ** No step is missing *)

Lemma alerts_move d al rest : data_ok d -> d_fcpc d = FSelect -> d_alerts d = al :: rest -> exists d', daemon_step d Self (Some d').
Proof.
  intros [] Hpc Ha. rewrite Ha in i_dotted. apply Forall_cons in i_dotted as [Hal _].
  destruct (handle_handled (d_fc d) (d_kernel d) al 0 i_wired Hal) as (fc & k & r & E & _).
  eexists. by eapply (alert_own d al rest 0).
Qed.

Lemma send_moves d al : control_ok d -> data_ok d -> running d -> d_inf d = ISend al -> exists d', daemon_step d Self (Some d').
Proof.
  intros Hc Hd Hr Hpc. destruct (running_open d Hc Hr) as (_ & Hal & _ & _ & Hfc & _).
  destruct (d_alerts d) as [|al' rest] eqn:Ha; [|by eapply alerts_move].
  pose proof (inf_send d al Hpc) as Hs. rewrite Ha, Hal in Hs. eexists. apply step_inf, Hs. by unfold alertBufferSize.
Qed.

Lemma stage_moves key fa d :
  control_ok d -> data_ok d -> running d -> stage key fa d -> exists d', daemon_step d Self (Some d').
Proof.
  intros Hc Hd Hr Hst. destruct (running_open d Hc Hr) as (_ & _ & Hcl & _ & Hfc & Hn1 & Hn2).
  destruct Hst as [i snap ws we Hpc ? ?|i snap ws we Hpc ? ? ?|i [|fa' rest] snap ws we Hpc ? ? ?|i [|fa' rest] snap ws we Hpc Hin ?
    |ff Hv Hin|al Hv Hin|al Hv Hin].
  - destruct (Z.lt_ge_cases (Z.of_nat i) numShards); eexists; apply step_agg; [by eapply agg_port_shard|by eapply agg_ports_done].
  - destruct (Z.lt_ge_cases (Z.of_nat i) numShards); eexists; apply step_agg; [by eapply agg_flow_shard|by eapply agg_flush_done].
  - eexists. by eapply step_agg, agg_shard_done.
  - pose proof (agg_emit d _ _ _ _ _ _ _ Hpc) as Hs. rewrite emit_open in Hs by done. eexists. by apply step_agg, Hs.
  - by apply not_elem_of_nil in Hin.
  - pose proof (agg_emit d _ _ _ _ _ _ _ Hpc) as Hs. rewrite emit_open in Hs by done. eexists. by apply step_agg, Hs.
  - destruct (d_inf d) as [|al| |] eqn:Hpc; [|by eapply send_moves|done|done].
    destruct (out (d_agg d)) as [|ff0 rest] eqn:Ho; [by apply not_elem_of_nil in Hin|]. eexists. by eapply step_inf, inf_recv.
  - by eapply send_moves.
  - destruct (d_alerts d) as [|al0 rest] eqn:Ha; [by apply not_elem_of_nil in Hin|]. by eapply alerts_move.
Qed.
End answered.

(** ** The run to the answer *)

Section response.
Context `{BpfHelperLaws, EbpfLaws, MapRange, GoMathLaws}.

(** A run either is still on the way or has handled the alert. *)
Lemma stage_run key fa n d rs d' :
  (forall ff, vector_of fa ff -> Malicious (Classify ff) = true) ->
  own_run n d rs d' -> control_ok d -> data_ok d -> running d -> stage key fa d ->
  (running d' /\ stage key fa d') \/
  exists n1 n2 rs1 rs2 d1 al rest now fc k r, own_run n1 d rs1 d1 /\ alert_for fa al /\ d_fcpc d1 = FSelect /\ d_alerts d1 = al :: rest /\
    handle (d_fc d1) (d_kernel d1) al now = Some (fc, k, r) /\ own_run n2 (set_fc d1 k fc rest FSelect) rs2 d' /\ rs = rs1 ++ (al, r) :: rs2.
Proof.
  intros Hmal Hrun. induction Hrun as [d|n d d1 rs d' Hq Hrun IH|n d al rest now fc k r rs d' Hpc Ha E Hrun IH];
    intros Hc Hd Hr Hst; [by left| |].
  - destruct (quiet_step_ok d d1 Hq Hc Hd) as (Hc1 & Hd1 & _).
    assert (Hnext : running d1 /\ stage key fa d1).
    { destruct (running_quiet d d1 Hc Hr Hq) as [Hs|Hs].
      - split; [exact (agg_running d d1 Hc Hr Hs)|exact (stage_agg key fa d d1 Hc Hd Hr Hs Hst)].
      - split; [exact (inf_running d d1 Hr Hs)|exact (stage_inf key fa d d1 Hmal Hc Hr Hs Hst)]. }
    destruct Hnext as [Hr1 Hst1]. destruct (IH Hc1 Hd1 Hr1 Hst1) as [?|(n1 & n2 & rs1 & rs2 & d2 & al & rest & now & fc & k & r & H1' & Hrest)]; [by left|].
    right. exists (S n1), n2, rs1, rs2, d2, al, rest, now, fc, k, r. split; [by eapply own_quiet|exact Hrest].
  - destruct (stage_handled key fa d al rest k fc Ha Hst) as [Hal|Hst1].
    + right. exists 0%nat, n, [], rs, d, al, rest, now, fc, k, r. split_and!; [constructor|done..].
    + pose proof (alert_own d al rest now fc k r Hpc Ha E) as Hs.
      destruct IH as [?|(n1 & n2 & rs1 & rs2 & d2 & al2 & rest2 & now2 & fc2 & k2 & r2 & H1' & Hv & Hp & Ha2 & Eh & Hr2 & ->)];
        [by eapply control_step|by eapply data_step|by apply running_set_fc|done|by left|].
      right. exists (S n1), n2, ((al, r) :: rs1), rs2, d2, al2, rest2, now2, fc2, k2, r2. split_and!; [by eapply own_alert|done..].
Qed.

Lemma quiet_kernel d d' : quiet_step d d' -> d_kernel d' = d_kernel d.
Proof.
  intros [Hs|[Hs|[Hs|[Hs|[Hs Hpc]]]]]; inversion Hs; subst; clear Hs; try done;
    repeat match goal with
    | E : option_map _ ?o = Some _ |- _ => destruct o as [[[? ?] ?]|] || destruct o; simplify_eq/=
    | E : (if ?x then None else Some _) = Some _ |- _ => destruct x; simplify_eq/=
    end; done.
Qed.

(** The entry of an address stays through the own steps. *)
Lemma own_run_entry n d rs d' addr :
  own_run n d rs d' -> control_ok d -> data_ok d ->
  blocked_entry (d_kernel d) addr = Some [1; 0; 0; 0] -> blocked_entry (d_kernel d') addr = Some [1; 0; 0; 0].
Proof.
  induction 1 as [d|n d d1 rs d' Hq Hr IH|n d al rest now fc k r rs d' Hpc Ha E Hr IH]; intros Hc Hd Hb; [done| |].
  - destruct (quiet_step_ok d d1 Hq Hc Hd) as (Hc1 & Hd1 & _). apply IH; [done..|].
    by rewrite (quiet_kernel d d1 Hq).
  - pose proof (alert_own d al rest now fc k r Hpc Ha E) as Hs. apply IH; [by eapply control_step|by eapply data_step|].
    destruct Hd. rewrite Ha in i_dotted. apply Forall_cons in i_dotted as [Hal _].
    destruct (handle_handled (d_fc d) (d_kernel d) al now i_wired Hal) as (fc' & k' & r' & E' & Hh). rewrite E in E'. injection E' as <- <- <-.
    simpl. unfold handled in Hh. destruct r; try done; destruct_and?; subst; try done.
    + unfold blocked_entry. by match goal with E : entries k = _ |- _ => rewrite E end.
    + erewrite added_entry by done. by case_decide.
Qed.

Lemma self_reachable d0 d d' : reachable d0 d -> self_steps d d' -> reachable d0 d'.
Proof. intros Hr Hs. induction Hs as [|d d1 d' Hs _ IH]; [done|]. apply IH. by eapply reach_step. Qed.

Lemma reachable_config mgr h k now d :
  wired mgr -> reachable (daemon_start mgr h k now) d -> safeNetworks (d_fc d) = DiscoverSafeNetworks h /\ fc_mgr (d_fc d) = mgr.
Proof.
  intros Hw Hr. induction Hr as [|d d' w Hr IH Hst]; [done|]. destruct (reachable_ok mgr h k now d Hw Hr) as [_ Hd].
  by destruct (own_config d w d' Hd Hst) as [-> ->].
Qed.

(** A failed block is the kernel's refusal. *)
Lemma handle_refused fc k al now fc' k' al' e :
  handle fc k al now = Some (fc', k', BlockFailed al' e) -> BlockIP (fc_mgr fc) (al_SrcIP al +:+ "/32") k = Some (k', Some e).
Proof.
  unfold handle. case_bool_decide; [done|]. destruct (isSafeNetwork _ _); [done|].
  destruct (match blocked fc !! _ with Some _ => _ | None => _ end); [done|]. cbn [fc_mgr set_blocked].
  destruct (BlockIP _ _ k) as [[k1 [e1|]]|]; simpl; [by intros [= _ -> _ ->]|done..].
Qed.

(** How the alert for [addr] was answered, as it stands in [d']. *)
Definition answer (mgr : MapManager) (h : Host) (d' : daemon) (addr : list Z) (r : report) : Prop :=
  match r with
  | OnBlock _ | Skipped _ => stopped_from (d_kernel d') addr
  | OnExempt _ n => n ∈ DiscoverSafeNetworks h /\ Contains n addr = true
  | BlockFailed _ e => exists k k', BlockIP mgr (dotted addr +:+ "/32") k = Some (k', Some e)     (* refused by the kernel *)
  | _ => False
  end.

(** C1: a flood is answered. The daemon is in any state it reaches, waiting to
    read; the packets of a [syn_flood] have been accepted into the current window, and
    its flows fit in the output channel. The window's tick comes, and the
    goroutines run on their own, in any order. A run takes at
    most [measure] steps; as long as the alert for the source has not been
    handled some goroutine can move; and once it has, the firewall drops every
    well-formed, unfragmented packet from the source, or the source is in a safe
    network, or the kernel refused the controller's write, which is reported. *)
Theorem flood_answered (sent : list sighting) (refused d t t0 : Z) (key : FlowKey)
    (mgr : MapManager) (h : Host) (k : kernel) (now : Z) (dm : daemon) :
  syn_flood sent d t key -> wired mgr -> reachable (daemon_start mgr h k now) dm ->
  running dm -> d_aggpc dm = ASelect -> holds (mkWindow (map record_of sent) refused) (d_agg dm) -> roomy dm ->
  daemon_step dm Env (Some (tick t0 dm)) /\
  exists attacker, (forall x, x ∈ sent -> key_of (record_of x) = key -> seen_src x = attacker) /\
    forall n rs d', own_run n (tick t0 dm) rs d' ->
      (n <= measure (tick t0 dm))%nat /\
      ((exists d'', daemon_step d' Self (Some d'')) \/
       exists al r, (al, r) ∈ rs /\ al_SrcIP al = dotted attacker /\ al_Attack al = AttackSynFlood /\ answer mgr h d' attacker r).
Proof.
  intros Hf Hw Hr Hrun Hpc Hh Hroom. pose proof (agg_tick dm t0 Hpc) as Htick. split; [by apply step_agg|].
  destruct (syn_flood_flow sent d t key Hf) as (fa & attacker & Hfa & Hfour & Hsrc & Hfirst & Hv). exists attacker. split; [exact Hsrc|].
  intros n rs d' Hown. assert (Hr1 : reachable (daemon_start mgr h k now) (tick t0 dm)) by (eapply reach_step; [exact Hr|by apply step_agg]).
  destruct (reachable_ok mgr h k now _ Hw Hr1) as [Hc Hd]. destruct (own_run_ok _ _ _ _ Hown Hc Hd) as (Hc' & Hd' & Hn). split; [lia|].
  assert (Hst : stage key fa (tick t0 dm)).
  { eapply st_ports; [reflexivity|unfold shard_holds; rewrite <- Hfa; apply (h_flow _ _ Hh)|]. unfold roomy in *. by rewrite Hpc in Hroom. }
  assert (Hmal : forall ff, vector_of fa ff -> Malicious (Classify ff) = true) by (intros ff (snap & ws & we & ->); apply Hv).
  assert (Hrun1 : running (tick t0 dm)) by (destruct Hrun; by split).
  destruct (stage_run key fa n _ rs d' Hmal Hown Hc Hd Hrun1 Hst)
    as [[Hrun' Hst']|(n1 & n2 & rs1 & rs2 & d1 & al & rest & now1 & fc & k1 & r & Hown1 & (ff & (snap & ws & we & ->) & ->) & Hfc & Ha & E & Hown2 & ->)];
    [left; by eapply stage_moves|].
  right. eexists _, r. split; [apply elem_of_app; right; apply list_elem_of_here|].
  assert (Hsrcff : ff_SrcIP (make_features snap ws we fa) = u32ToIP (be_combine attacker)) by (simpl; by rewrite Hfirst).
  destruct (alert_of_addr _ (Classify (make_features snap ws we fa)) attacker Hfour Hsrcff) as (Hname & _).
  split; [done|]. split; [apply Hv|].
  assert (Hreach1 : reachable (daemon_start mgr h k now) d1) by (eapply self_reachable; [exact Hr1|by eapply own_run_self]).
  destruct (reachable_loop_ok mgr h k now d1 Hw Hreach1) as [Henf _ _]. destruct (reachable_ok mgr h k now d1 Hw Hreach1) as [Hc1 Hd1].
  pose proof (alert_own d1 _ rest now1 fc k1 r Hfc Ha E) as Hs.
  assert (Hreach2 : reachable (daemon_start mgr h k now) (set_fc d1 k1 fc rest FSelect)) by by eapply reach_step.
  destruct (reachable_loop_ok mgr h k now _ Hw Hreach2) as [Henf2 _ _]. destruct (reachable_ok mgr h k now _ Hw Hreach2) as [Hc2 Hd2].
  assert (Hstop : forall t1, blocked fc !! dotted attacker = Some t1 -> stopped_from (d_kernel d') attacker).
  { intros t1 Ht1. apply blocked_stopped. eapply own_run_entry; [exact Hown2|done..|].
    destruct (Henf2 _ _ Ht1) as (addr & Hna & Hent). destruct (names_addr _ _ Hna) as (_ & Haddr & _).
    assert (Hself : names (dotted attacker) attacker) by by split. destruct (names_addr _ _ Hself) as (_ & Haddr' & _). congruence. }
  destruct (alert_outcomes (d_fc d1) (d_kernel d1) _ (Classify (make_features snap ws we fa)) attacker now1 (i_wired _ Hd1) Henf Hfour Hsrcff)
    as (fc' & k' & r' & E' & Ho). rewrite E in E'. injection E' as <- <- <-.
  unfold answer. destruct r; try done.
  - rewrite <- (proj1 (reachable_config mgr h k now d1 Hw Hreach1)). exact Ho.
  - destruct Ho as (_ & t1 & Ht1 & _). by eapply Hstop.
  - apply handle_refused in E. rewrite (proj2 (reachable_config mgr h k now d1 Hw Hreach1)), Hname in E. by exists (d_kernel d1), k1.
  - destruct Ho as [_ Ht1]. by eapply Hstop.
Qed.
End response.

(** ** Example: a thousand connection requests, on the simulated kernel *)

Definition sim_reading : @daemon sim_ebpf :=
  fold_left (@read_meta_step sim_ebpf) (map record_of (sim_train 100 5 1000)) (@daemon_start sim_ebpf sim_manager sim_host (sim_start []) 0).

Lemma sim_reading_facts :
  @reachable sim_ebpf list_order sample_math (@daemon_start sim_ebpf sim_manager sim_host (sim_start []) 0) sim_reading /\
  holds (mkWindow (map record_of (sim_train 100 5 1000)) 0) (d_agg sim_reading).
Proof.
  unfold sim_reading. split.
  - apply (@reads_reachable sim_ebpf list_order sample_math); [apply reach_start|by split|].
    apply seen_meta_ok, sim_train_ok; lia.
  - apply reads_window; [rewrite length_map, sim_train_length; done|]. apply holds_New.
Qed.

(** Nothing left to do until the environment moves. *)
Lemma drained_idle (d d' : @daemon sim_ebpf) :
  @running sim_ebpf d -> d_reader_open d = true -> d_aggpc d = ASelect -> d_inf d = IRange -> d_fcpc d = FSelect ->
  out (d_agg d) = [] -> out_closed (d_agg d) = false -> d_alerts d = [] -> d_alerts_closed d = false ->
  ~ @daemon_step sim_ebpf list_order sample_math d Self (Some d').
Proof. intros [] ? ? ? ? ? ? ? ? [Hs|Hs|Hs|Hs|Hs]; inversion Hs; congruence. Qed.

Lemma drain_self n now d :
  @self_steps sim_ebpf list_order sample_math d (@drain sim_ebpf list_order sample_math n now d).
Proof.
  revert d. induction n as [|n IH]; intros d; simpl; [constructor|].
  destruct (@next sim_ebpf list_order sample_math now d) as [d'|] eqn:E; [|constructor].
  eapply self_step; [by eapply next_step|apply IH].
Qed.

(** The run ends with the source blocked. *)
Definition sim_answered : @daemon sim_ebpf := @drain sim_ebpf list_order sample_math 100 600 (@tick sim_ebpf 500 sim_reading).

Lemma sim_answered_run : @self_steps sim_ebpf list_order sample_math (@tick sim_ebpf 500 sim_reading) sim_answered.
Proof. unfold sim_answered. exact (drain_self 100 600 (@tick sim_ebpf 500 sim_reading)). Qed.

(** What the examples need of a state, evaluated at once. *)
Definition summary (d : @daemon sim_ebpf) :=
  (d_main d, d_sig d, d_cancelled d, d_reader_open d, d_aggpc d, d_inf d, d_fcpc d, out (d_agg d), out_closed (d_agg d),
   d_alerts d, d_alerts_closed d, (tracked_flows (d_agg d) + length (out (d_agg d)) <=? 4096)%nat).

Lemma sim_reading_summary :
  summary sim_reading = (MRead, SWait, false, true, ASelect, IRange, FSelect, [], false, [], false, true).
Proof. vm_compute. reflexivity. Qed.

Lemma sim_answered_summary :
  summary sim_answered = (MRead, SWait, false, true, ASelect, IRange, FSelect, [], false, [], false, true).
Proof. vm_compute. reflexivity. Qed.

Lemma sim_answered_idle d' : ~ @daemon_step sim_ebpf list_order sample_math sim_answered Self (Some d').
Proof.
  pose proof sim_answered_summary as Hs. revert Hs. generalize sim_answered as d. intros d Hs. unfold summary in Hs. injection Hs as ? ? ? ? ? ? ? ? ? ? ? _.
  by apply drained_idle.
Qed.

Lemma sim_reading_ready : @running sim_ebpf sim_reading /\ d_aggpc sim_reading = ASelect /\ @roomy sim_ebpf sim_reading.
Proof.
  pose proof sim_reading_summary as Hs. revert Hs. generalize sim_reading as d. intros d Hs. unfold summary in Hs.
  injection Hs as ? ? ? _ Hpc _ _ _ _ _ _ Hl. apply Nat.leb_le in Hl. split_and!; [by split|done|].
  unfold roomy, outputBufferSize. rewrite Hpc. lia.
Qed.

Lemma flood_answered_witness :
  exists n rs al r, @own_run sim_ebpf list_order sample_math n (@tick sim_ebpf 500 sim_reading) rs sim_answered /\
    (al, r) ∈ rs /\ al_SrcIP al = dotted [10; 0; 0; 1] /\
    @answer sim_helpers sim_ebpf sim_laws sim_manager sim_host sim_answered [10; 0; 0; 1] r.
Proof.
  destruct sim_reading_facts as [Hr Hh].
  destruct sim_reading_ready as (Hrun & Hpc & Hroom).
  pose proof sim_answered_idle as Hidle.
  pose proof sim_answered_run as Hss.
  revert Hr Hh Hrun Hpc Hroom Hidle Hss. generalize sim_answered as d'. generalize sim_reading as dm.
  intros dm d' Hr Hh Hrun Hpc Hroom Hidle Hss. destruct (self_own_run _ _ Hss) as (n & rs & Hown).
  destruct (@flood_answered sim_helpers sim_helper_laws sim_ebpf sim_laws list_order sample_math sample_laws
    (sim_train 100 5 1000) 0 100 5 500 sim_key sim_manager sim_host (sim_start []) 0 dm
    (sim_train_flood 100 5 1000 ltac:(lia) ltac:(lia) ltac:(lia) ltac:(lia)) sim_wired Hr Hrun Hpc Hh Hroom)
    as (_ & attacker & Hsrc & Hall).
  assert (Ha : attacker = [10; 0; 0; 1]) by (symmetry; apply (Hsrc (mkSeen (sim_packet 0) 5 APass RNone)); [left|reflexivity]).
  subst attacker. destruct (Hall n rs d' Hown) as [_ [[d'' Hs]|(al & r & Hin & Hname & _ & Hans)]]; [by destruct (Hidle d'')|].
  exists n, rs, al, r. split; [exact Hown|]. split; [exact Hin|]. split; [exact Hname|exact Hans].
Defined.
