(* ===== verification/Conformance.v ===== *)
(** * The repository's own tests, on the model

    [tests/traffic_matrix.py] and [pkg/types/contracts_test.go]: the packets
    the tests send and the answers they expect. The kernel layer of the traffic
    matrix is a theorem about the firewall, and so is the order of its filters; its daemon layer follows from a
    theorem about every run in which each 5-tuple has few packets, which
    also shows that the matrix expects one block that never comes. *)

From S2P Require Import Prelude GoStrings GoNet Contracts Float64 Flow Trees EbpfMap MapManager Feedback Daemon Packet Firewall EndToEnd ClosedLoop Liveness.
From Stdlib Require Import Ascii.

(** ** The kernel layer *)

(** A whole packet between two addresses: the tests leave the other fields to
    the generator. *)
Definition between (src dst : list Z) (p : packet) : Prop :=
  packet_ok p /\ fragmented p = false /\ ip_src (p_ip p) = src /\ ip_dst (p_ip p) = dst.



Section kernel_layer.
Context `{BpfHelperLaws}.









(** ** The order of the filters *)

Lemma emit_rate act r meta now s : dp_rate (snd (emit_and_return act r meta now s)) = dp_rate s.
Proof.
  unfold emit_and_return. destruct (if act =? XDP_DROP then _ else _) as [ea ta].
  destruct (_ =? 0); [done|]. destruct (_ <? _); [done|].
  assert (Hl : dp_rate (snd (check_log_rate_limit now s)) = dp_rate s)
    by (unfold check_log_rate_limit; destruct (dp_log s); [destruct (take_token _ _ _ _)|]; done).
  destruct (check_log_rate_limit now s) as [ok s1]. by destruct ok.
Qed.

(** What a frame's decision has to do with the limiter: it leaves the rate table
    as it was and is decided otherwise, or it meets the limiter once, for one source, and
    the answer is the decision. *)
Definition limited_once (now : Z) (s s' : dataplane) (r : drop_reason) : Prop :=
  (dp_rate s' = dp_rate s /\ r <> RRateLimited) \/
  exists src, dp_rate s' = dp_rate (snd (check_rate_limit src now s)) /\
    r = if fst (check_rate_limit src now s) then RNone else RRateLimited.

Definition decided_once (now : Z) (s : dataplane) (o : option Z * dataplane) : Prop :=
  exists r, fst o = Some (verdict s r) /\ limited_once now s (snd o) r.

Lemma emit_decided act r meta now s :
  (act = XDP_PASS /\ r = RNone) \/ (act = XDP_DROP /\ r <> RNone /\ r <> RRateLimited) ->
  decided_once now s (emit_and_return act r meta now s).
Proof.
  intros Ha. exists r. split; [apply emit_verdict; [apply same_policy_refl|]; tauto|].
  left. rewrite emit_rate. split; [done|]. destruct Ha as [[_ ->]|(_ & _ & ?)]; done.
Qed.

(** The two places where the code asks the limiter. *)
Lemma limiter_decided src meta now s :
  decided_once now s (let '(ok, s1) := check_rate_limit src now s in
    if negb ok then emit_and_return XDP_DROP RRateLimited meta now s1 else emit_and_return XDP_PASS RNone meta now s1).
Proof.
  pose proof (check_rate_frame src now s) as Hf. destruct (check_rate_limit src now s) as [ok s1] eqn:E. simpl in Hf.
  exists (if ok then RNone else RRateLimited). split; [destruct ok; simpl; apply emit_verdict; auto|].
  right. exists src. rewrite E. split; [destruct ok; simpl; apply emit_rate|done].
Qed.

Lemma rfc_not_limited src dst proto flags r : validate_rfc_invariants src dst proto flags = Some r -> r <> RRateLimited.
Proof. unfold validate_rfc_invariants. repeat case_match; congruence. Qed.
Lemma l4_not_limited proto c meta r : parse_l4 proto c meta = inr r -> r <> RRateLimited.
Proof. unfold parse_l4. repeat case_match; congruence. Qed.

Lemma policy_decided meta now s : decided_once now s (check_policy meta now s).
Proof.
  unfold check_policy. destruct (validate_rfc_invariants _ _ _ _) as [r|] eqn:Er.
  { apply emit_decided. right. split_and!; [done|by eapply rfc_reason|by eapply rfc_not_limited]. }
  cbv zeta. destruct (match lpm_get _ _ with Some _ => _ | None => _ end); [apply emit_decided; auto|].
  destruct (is_port_blocked _ _ _ _); [apply emit_decided; auto|]. apply limiter_decided.
Qed.

Lemma frame_decided data now s : decided_once now s (try_ai_ida_firewall data now s).
Proof.
  unfold try_ai_ida_firewall. cbv zeta. destruct (parse_ethernet _) as [[l2 c]|]; [|apply emit_decided; auto].
  destruct (eth_type l2 =? IPV4); [|destruct (eth_type l2 =? ARP); [destruct (parse_arp c)|]; apply emit_decided; auto].
  destruct (parse_ipv4 c) as [[l3 c3]|]; [|apply emit_decided; auto].
  destruct (is_fragment l3); [apply limiter_decided|]. destruct (parse_l4 _ _ _) as [meta|r] eqn:El; [apply policy_decided|].
  apply emit_decided. right. split_and!; [done|by eapply parse_l4_reason|by eapply l4_not_limited].
Qed.

(** C24: the filters come before the rate limiter. Any frame at all, well formed or
    not, is passed or dropped, never sent back or redirected, and meets the limiter at
    most once: it either leaves the rate table as it was, or is decided by the limiter's one
    answer, for one source. Of the well-formed, unfragmented IPv4 packets, one
    that breaks an RFC invariant, comes from a listed source or goes to a gated
    port leaves the rate table as it was, so that what is dropped for what it is
    spends no token and evicts no other source; every other one meets the
    limiter, for its source. The reason told is that of the first filter that
    objects, the reputation before the port gate. *)
Theorem filters_before_limiter (data : list Z) (p : packet) (now : Z) (s : dataplane) :
  (let v := fst (ai_ida_firewall data now s) in (v = XDP_PASS \/ v = XDP_DROP) /\
     exists r, v = verdict s r /\ limited_once now s (snd (ai_ida_firewall data now s)) r) /\
  (packet_ok p -> fragmented p = false ->
   let meta := packet_meta p now in
   let r := policy_reason meta now s in
   let s' := snd (ai_ida_firewall (packet_bytes p) now s) in
   (r <> RNone -> r <> RRateLimited -> dp_rate s' = dp_rate s) /\
   (r = RNone \/ r = RRateLimited -> dp_rate s' = dp_rate (snd (check_rate_limit (k_src_ip meta) now s))) /\
   (validate_rfc_invariants (k_src_ip meta) (k_dst_ip meta) (k_protocol meta) (k_tcp_flags meta) = None ->
      dp_entries s (pinned "reputation_map") !! the_key (ip_src (p_ip p)) = Some (le_split 4 1) -> r = RBlacklistHit)).
Proof.
  split.
  - cbv zeta. destruct (frame_decided data now s) as (r & Hv & Hl). unfold ai_ida_firewall.
    destruct (try_ai_ida_firewall data now s) as [o s1]. simpl in *. subst o. split; [|by exists r].
    unfold verdict. destruct (decide _), (dry_run_mode s); auto.
  - intros Hok Hf. cbv zeta.
    assert (Hrate : dp_rate (snd (ai_ida_firewall (packet_bytes p) now s)) = dp_rate (snd (check_policy (packet_meta p now) now s))).
    { unfold ai_ida_firewall. rewrite firewall_packet, Hf by done. by destruct (check_policy _ _ _). }
    rewrite Hrate. unfold policy_reason, check_policy.
    destruct (validate_rfc_invariants _ _ _ _) as [rr|] eqn:Er.
    { rewrite emit_rate. split_and!; [done| |done].
      intros [Hr|Hr]; exfalso; [by eapply rfc_reason|by eapply rfc_not_limited]. }
    assert (Hlisted : dp_entries s (pinned "reputation_map") !! the_key (ip_src (p_ip p)) = Some (le_split 4 1) ->
      lpm_get (dp_entries s (pinned "reputation_map")) (le_split 4 32 ++ le_split 4 (k_src_ip (packet_meta p now))) = Some (le_split 4 1)).
    { intros He. simpl k_src_ip. rewrite (address_bytes p Hok). pose proof Hok as (_ & (_ & _ & _ & Hl & _ & Hb & _) & _). by apply lpm_host. }
    cbv zeta. destruct (match lpm_get _ _ with Some _ => _ | None => _ end) eqn:El.
    { rewrite emit_rate. split_and!; [done|by intros [?|?]|done]. }
    assert (Hno : dp_entries s (pinned "reputation_map") !! the_key (ip_src (p_ip p)) <> Some (le_split 4 1)).
    { intros He. rewrite (Hlisted He) in El. by rewrite le_combine_split in El. }
    destruct (is_port_blocked _ _ _ _).
    { rewrite emit_rate. split_and!; [done|by intros [?|?]|by intros _ ?]. }
    destruct (check_rate_limit _ _ _) as [ok s1]. destruct ok; simpl; rewrite emit_rate; split_and!; try done; by intros _ ?.
Qed.
End kernel_layer.

(** ** The daemon layer

    [c k] counts the packets of the 5-tuple [k] accepted since its shard was last
    flushed. *)

Section daemon_layer.
Context `{EbpfLaws, MapRange, GoMathLaws}.

Definition next_counts (c : FlowKey -> Z) (d d' : daemon) (k : FlowKey) : Z :=
  match d_aggpc d, d_aggpc d' with
  | AFlows i _ _ _ _, AEmit _ _ _ _ _ _ => if shardIndex k =? Z.of_nat i then 0 else c k
  | _, _ =>
      match d_main d, d_main d' with
      | MRead, MPort m => if decide (key_of m = k) then c k + 1 else c k
      | _, _ => c k
      end
  end.

(** Runs in which no 5-tuple has [n] packets between two flushes of its
    shard. *)
Inductive paced (n : Z) (d0 : daemon) : (FlowKey -> Z) -> daemon -> Prop :=
  | paced_start : paced n d0 (fun _ => 0) d0
  | paced_step c d w d' :
      paced n d0 c d -> daemon_step d w (Some d') -> (forall k, next_counts c d d' k < n) ->
      paced n d0 (next_counts c d d') d'.

Lemma paced_reachable n d0 c d : paced n d0 c d -> reachable d0 d.
Proof. induction 1; [constructor|by econstructor]. Qed.

(** What such a run keeps: what is counted is below the bound, everywhere on its way
    to the controller, and nothing reaches the controller. *)
Record quiet (n : Z) (k0 : kernel) (c : FlowKey -> Z) (d : daemon) : Prop := {
  q_shards : forall j k fa, 0 <= j < numShards -> flow_shard (d_agg d) j !! k = Some fa ->
               shardIndex k = j /\ 0 <= packetCount fa <= c k;
  q_counts : forall k, 0 <= c k < n;
  q_rest : match d_aggpc d with AEmit _ rest _ _ _ _ => Forall (fun fa => packetCount fa < n) rest | _ => True end;
  q_out : Forall (fun ff => ff_PacketCount ff < n) (out (d_agg d));
  q_inf : forall al, d_inf d <> ISend al;
  q_alerts : d_alerts d = [];
  q_blocked : blocked (d_fc d) = ∅;
  q_kernel : d_kernel d = k0
}.

(** The counts after a step of the other goroutines. *)
Lemma next_counts_same c d d' :
  d_main d' = d_main d -> d_aggpc d' = d_aggpc d -> forall k, next_counts c d d' k = c k.
Proof. intros Hm Ha k. unfold next_counts. rewrite Hm, Ha. by destruct (d_aggpc d), (d_main d). Qed.

Lemma next_counts_agg c d d' :
  d_main d' = d_main d -> (forall i snap ws we fin, d_aggpc d <> AFlows i snap ws we fin) \/ (forall i rest snap ws we fin, d_aggpc d' <> AEmit i rest snap ws we fin) ->
  forall k, next_counts c d d' k = c k.
Proof.
  intros Hm Ha k. unfold next_counts. rewrite Hm.
  assert (E : match d_main d, d_main d with MRead, MPort m => if decide (key_of m = k) then c k + 1 else c k | _, _ => c k end = c k)
    by by destruct (d_main d).
  destruct (d_aggpc d) eqn:E1; try exact E. destruct (d_aggpc d') eqn:E2; try exact E.
  destruct Ha as [Ha|Ha]; [by destruct (Ha _ _ _ _ _ eq_refl)|by destruct (Ha _ _ _ _ _ _ eq_refl)].
Qed.

Lemma ingest_quiet n a m c k :
  n <= 2 ^ 63 -> length (flowShards a) = Z.to_nat numShards ->
  (forall j k fa, 0 <= j < numShards -> flow_shard a j !! k = Some fa -> shardIndex k = j /\ 0 <= packetCount fa <= c k) ->
  (forall k, 0 <= c k < n) ->
  let '(a', tracked) := ingest_flow a m in
  let c' := if tracked : bool then (fun k => if decide (key_of m = k) then c k + 1 else c k) else c in
  (forall j fa, 0 <= j < numShards -> flow_shard a' j !! k = Some fa -> shardIndex k = j /\ 0 <= packetCount fa <= c' k).
Proof.
  intros Hn Hl Hs Hc. unfold ingest_flow, key_of. destruct (canonicalize m) as [key lo]. simpl fst.
  pose proof (shardIndex_range key) as Hr. set (fs := flow_shard a (shardIndex key)).
  assert (Hset : forall fa0, 0 <= packetCount fa0 <= c key ->
    forall j fa, 0 <= j < numShards -> flow_shard (set_flow_shard a (shardIndex key) (<[key := observe fa0 m lo]> fs)) j !! k = Some fa ->
    shardIndex k = j /\ 0 <= packetCount fa <= (if decide (key = k) then c k + 1 else c k)).
  { intros fa0 Hfa0 j fa Hj. rewrite flow_shard_set by done. destruct (decide (shardIndex key = j)) as [<-|Hne].
    - intros [[<- <-]|[Hne Hfa]]%lookup_insert_Some.
      + rewrite decide_True by done. destruct (observe_fields fa0 m lo) as (Ep & _). pose proof (Hc key).
        rewrite Ep, wrap_small by (unfold in_u; lia). split; [done|lia].
      + rewrite decide_False by done. by apply Hs.
    - intros Hfa. destruct (Hs j k fa Hj Hfa) as [Ek ?]. split; [done|]. case_decide; [by subst|done]. }
  destruct (fs !! key) as [fa0|] eqn:E.
  - intros j fa. apply Hset. by apply (Hs (shardIndex key) key fa0).
  - destruct (maxFlowsPerShard <=? _); [intros j fa; by apply Hs|]. intros j fa. apply Hset. split; [done|]. pose proof (Hc key). simpl. lia.
Qed.

Lemma expired_none now : expired_at now ∅ = [].
Proof.
  unfold expired_at. replace (range_map (∅ : gmap string Z)) with (@nil (string * Z)); [done|].
  symmetry. apply Permutation_nil_r. by rewrite range_map_perm, map_to_list_empty.
Qed.

Lemma quiet_ext n k0 c c' d : (forall k, c' k = c k) -> quiet n k0 c d -> quiet n k0 c' d.
Proof. intros E []. split; try done; intros; rewrite E; auto. Qed.

(** Fields of [quiet] after a step that leaves the shards alone. *)
Lemma quiet_frame n k0 c d d' :
  quiet n k0 c d -> (forall k, next_counts c d d' k = c k) -> flowShards (d_agg d') = flowShards (d_agg d) ->
  match d_aggpc d' with AEmit _ rest _ _ _ _ => Forall (fun fa => packetCount fa < n) rest | _ => True end ->
  Forall (fun ff => ff_PacketCount ff < n) (out (d_agg d')) -> (forall al, d_inf d' <> ISend al) -> d_alerts d' = [] ->
  blocked (d_fc d') = ∅ -> d_kernel d' = d_kernel d -> quiet n k0 (next_counts c d d') d'.
Proof.
  intros [] E Hsh ? ? ? ? ? Hk. apply (quiet_ext _ _ c); [done|]. split; try done; [|congruence].
  unfold flow_shard in *. by rewrite Hsh.
Qed.

Lemma quiet_main n k0 c d w d' :
  n <= 2 ^ 63 -> data_ok d -> quiet n k0 c d -> main_step d w (Some d') -> (forall k, next_counts c d d' k < n) ->
  quiet n k0 (next_counts c d d') d'.
Proof.
  intros Hn [] Hq Hs Hlt. pose proof Hq as [].
  assert (Hsame : d_aggpc d' = d_aggpc d -> (forall m, d_main d' <> MPort m) -> forall k, next_counts c d d' k = c k).
  { intros Ha Hm k. unfold next_counts. rewrite Ha. destruct (d_aggpc d), (d_main d), (d_main d') eqn:E; try done; by destruct (Hm m). }
  inversion Hs as [| ? m a tracked Hpc Ho Hu E | | | | | |]; subst; clear Hs;
    try (apply quiet_frame; try done; apply Hsame; [done|]; simpl; try done; by case_match).
  - pose proof (fun k => ingest_quiet n (d_agg d) m c k Hn i_flow_len q_shards0 q_counts0) as Hi.
    pose proof (ingest_flow_frame (d_agg d) m) as (Hout & _ & _ & _). rewrite E in Hout. simpl in Hout.
    assert (Hc : forall k, next_counts c d (set_main d a m (if tracked then MPort m else MRead)) k =
      (if tracked then (fun k => if decide (key_of m = k) then c k + 1 else c k) else c) k).
    { intros k. unfold next_counts. simpl. rewrite Hpc. by destruct (d_aggpc d), tracked. }
    apply (quiet_ext _ _ _ _ _ Hc). split; simpl; rewrite ?Hout; try done.
    + intros j k fa Hj. specialize (Hi k). rewrite E in Hi. by apply Hi.
    + intros k. rewrite <- Hc. split; [|done]. rewrite Hc. destruct tracked; [|apply q_counts0].
      pose proof (q_counts0 k). case_decide; lia.
  - apply quiet_frame; try done. by apply next_counts_same.
Qed.

Lemma quiet_agg n k0 c d w d' :
  data_ok d -> control_ok d -> quiet n k0 c d -> agg_step d w (Some d') -> quiet n k0 (next_counts c d d') d'.
Proof.
  intros [] [] Hq Hs. pose proof Hq as [].
  inversion Hs as [now Hpc|now Hpc Hcan|i snap ws we fin Hpc Hi|i snap ws we fin Hpc Hi|i snap ws we fin Hpc Hi
    |i fa rest snap ws we fin Hpc Hw E|i snap ws we fin Hpc|i snap ws we fin Hpc Hi|Hpc Hw E]; subst; clear Hs.
  - apply quiet_frame; try done. apply next_counts_agg; [done|by right].
  - apply quiet_frame; try done. apply next_counts_agg; [done|by right].
  - apply quiet_frame; try done. apply next_counts_agg; [done|by right].
  - apply quiet_frame; try done. apply next_counts_agg; [done|by right].
  - assert (Hc : forall k, next_counts c d (set_agg d (set_flow_shard (d_agg d) (Z.of_nat i) ∅)
      (AEmit i (map snd (range_map (flow_shard (d_agg d) (Z.of_nat i)))) snap ws we fin)) k =
      (if shardIndex k =? Z.of_nat i then 0 else c k)) by (intros k; unfold next_counts; by rewrite Hpc).
    apply (quiet_ext _ _ _ _ _ Hc). split; simpl; try done.
    + intros j k fa Hj. rewrite flow_shard_set by (done || lia). destruct (decide (Z.of_nat i = j)) as [<-|Hne]; [by rewrite lookup_empty|].
      intros Hfa. destruct (q_shards0 j k fa Hj Hfa) as [Ek ?]. split; [done|]. by rewrite (proj2 (Z.eqb_neq _ _)) by lia.
    + intros k. pose proof (q_counts0 k). destruct (shardIndex k =? Z.of_nat i); lia.
    + apply Forall_map, Forall_forall. intros [k fa] Hin. apply elem_range_map in Hin. simpl.
      pose proof (q_counts0 k). destruct (q_shards0 (Z.of_nat i) k fa ltac:(lia) Hin). lia.
  - destruct (emit _ _) as [a|] eqn:Ea; [|done]. injection E as <-.
    assert (Ho : out_closed (d_agg d) = false) by (destruct (out_closed (d_agg d)); intuition congruence).
    rewrite emit_open in Ea by done. injection Ea as <-. rewrite Hpc in *. apply Forall_cons in q_rest0 as [Hfa Hrest].
    apply quiet_frame; try done; [apply next_counts_agg; [done|]; rewrite Hpc; by left|].
    simpl. apply Forall_app. split; [done|]. apply Forall_take. by repeat constructor.
  - apply quiet_frame; try done. apply next_counts_agg; [done|by right].
  - destruct fin; (apply quiet_frame; try done; apply next_counts_agg; [done|by right]).
  - destruct (out_closed (d_agg d)) eqn:Ho; rewrite ?Ho in E; [done|]. injection E as <-.
    apply quiet_frame; try done. apply next_counts_agg; [done|by right].
Qed.

Lemma quiet_inf n k0 c d w d' :
  n <= 20 -> data_ok d -> quiet n k0 c d -> inf_step d w (Some d') -> quiet n k0 (next_counts c d d') d'.
Proof.
  intros Hn [] Hq Hs. pose proof Hq as [].
  inversion Hs as [ff rest Hpc Ho r|Hpc Ho Hcl|al Hpc Hl Hw E|al Hpc Hcan|Hpc Hw E]; subst; clear Hs;
    try (by destruct (q_inf0 al)).
  - rewrite Ho in q_out0. apply Forall_cons in q_out0 as [Hff Hrest].
    assert (Hm : Malicious r = false).
    { destruct (Malicious r) eqn:E; [|done]. destruct (malicious_needs _ E) as [?|[? _]]; lia. }
    apply quiet_frame; try done; simpl; [by apply next_counts_same|by rewrite Ho|by rewrite Hm].
  - apply quiet_frame; try done. by apply next_counts_same.
  - destruct (d_alerts_closed d); [done|]. injection E as <-. apply quiet_frame; try done. by apply next_counts_same.
Qed.

Lemma quiet_fc n k0 c d w d' : quiet n k0 c d -> fc_step d w (Some d') -> quiet n k0 (next_counts c d d') d'.
Proof.
  intros Hq Hs. pose proof Hq as [].
  inversion Hs as [Hpc Hcan|now Hpc Hw E|al rest now Hpc Hal Hw E|Hpc Hal Hcl]; subst; clear Hs; [| |congruence|].
  - apply quiet_frame; try done. by apply next_counts_same.
  - unfold runJanitor in E. rewrite q_blocked0, expired_none in E. injection E as <-.
    apply quiet_frame; try done. by apply next_counts_same.
  - apply quiet_frame; try done. by apply next_counts_same.
Qed.

Lemma quiet_step n k0 c d w d' :
  n <= 20 -> control_ok d -> data_ok d -> quiet n k0 c d -> daemon_step d w (Some d') -> (forall k, next_counts c d d' k < n) ->
  quiet n k0 (next_counts c d d') d'.
Proof.
  intros Hn Hc Hd Hq [Hs|Hs|Hs|Hs|Hs] Hlt; [eapply quiet_main; [lia|done..]|by eapply quiet_agg|by eapply quiet_inf|by eapply quiet_fc|].
  pose proof Hq as []. inversion Hs; subst; clear Hs; (apply quiet_frame; try done; by apply next_counts_same).
Qed.

Lemma paced_quiet n mgr h k now c d :
  n <= 20 -> 0 < n -> wired mgr -> paced n (daemon_start mgr h k now) c d -> quiet n k c d.
Proof.
  intros Hn Hpos Hw. induction 1 as [|c d w d' Hp IH Hs Hlt].
  - split; try done. intros j key fa Hj. change (d_agg (daemon_start mgr h k now)) with (NewAggregator now).
    by rewrite flow_shard_New, lookup_empty.
  - destruct (reachable_ok mgr h k now d Hw (paced_reachable _ _ _ _ Hp)). by eapply quiet_step.
Qed.

(** C22: traffic with few packets per 5-tuple is never blocked. In every run in which no
    5-tuple has 20 packets between two flushes of its shard, however many 5-tuples
    and however many windows there are, whatever the flags and the timing, no
    alert is ever made, the controller tracks nothing and the kernel's maps are
    those of the start. *)
Theorem sparse_traffic_never_blocked (mgr : MapManager) (h : Host) (k : kernel) (now : Z) (c : FlowKey -> Z) (d : daemon) :
  wired mgr -> paced 20 (daemon_start mgr h k now) c d ->
  (forall al, d_inf d <> ISend al) /\ d_alerts d = [] /\ blocked (d_fc d) = ∅ /\ d_kernel d = k.
Proof. intros Hw Hp. by destruct (paced_quiet 20 mgr h k now c d ltac:(done) ltac:(done) Hw Hp). Qed.

(** ** Bursts *)

(** Steps of the program itself never count a packet. *)
Lemma self_counts c d d' k : (forall k, 0 <= c k) -> daemon_step d Self (Some d') -> next_counts c d d' k <= c k.
Proof.
  intros Hc Hs. specialize (Hc k). unfold next_counts.
  assert (Hm : match d_main d, d_main d' with MRead, MPort m => if decide (key_of m = k) then c k + 1 else c k | _, _ => c k end = c k).
  { destruct (d_main d) eqn:E; try done. destruct (d_main d') eqn:E'; try done. exfalso.
    destruct Hs as [Hs|Hs|Hs|Hs|Hs]; inversion Hs; subst; simpl in *; try congruence;
      repeat match goal with
      | H : option_map _ ?o = Some _ |- _ => destruct o as [[[? ?] ?]|] || destruct o; [injection H as <-|discriminate H]
      | H : (if ?b then None else Some _) = Some _ |- _ => destruct b; [discriminate H|injection H as <-]
      end; simpl in *; congruence. }
  destruct (d_aggpc d); rewrite ?Hm; try lia. destruct (d_aggpc d'); rewrite ?Hm; try lia. destruct (shardIndex k =? _); lia.
Qed.

Lemma paced_nonneg n d0 c d : paced n d0 c d -> forall k, 0 <= c k.
Proof.
  induction 1 as [|c d w d' _ IH _ _]; [done|]. intros k. specialize (IH k). unfold next_counts.
  repeat (lia || match goal with |- context [match ?x with _ => _ end] => destruct x end).
Qed.

Lemma paced_self n d0 c d d' :
  paced n d0 c d -> (forall k, c k < n) -> self_steps d d' -> exists c', paced n d0 c' d' /\ forall k, c' k < n.
Proof.
  intros Hp Hc Hs. revert c Hp Hc. induction Hs as [d|d d1 d2 Hs _ IH]; intros c Hp Hc; [by exists c|].
  assert (Hlt : forall k, next_counts c d d1 k < n).
  { intros k. pose proof (self_counts c d d1 k (paced_nonneg _ _ _ _ Hp) Hs). specialize (Hc k). lia. }
  eapply IH; [by eapply paced_step|done].
Qed.

(** Reading records one after the other. *)
Lemma paced_reads n d0 ms c d :
  paced n d0 c d -> reading d -> Forall meta_ok ms -> (forall k, c k + Z.of_nat (length (conversation k ms)) < n) ->
  exists c', paced n d0 c' (fold_left read_meta_step ms d) /\ forall k, c' k < n.
Proof.
  intros Hp Hd Hok. revert c d Hp Hd. induction Hok as [|m ms Hm _ IH]; intros c d Hp [Hpc Ho] Hc.
  { exists c. split; [done|]. intros k. specialize (Hc k). simpl in Hc. lia. }
  simpl. unfold read_meta_step at 2. destruct (ingest_flow (d_agg d) m) as [a tracked] eqn:Ei.
  set (d1 := set_main d a m (if tracked : bool then MPort m else MRead)).
  assert (Hlen : forall k, Z.of_nat (length (conversation k (m :: ms))) =
    (if decide (key_of m = k) then 1 else 0) + Z.of_nat (length (conversation k ms))).
  { intros k. unfold conversation. rewrite filter_cons. case_decide; simpl length; lia. }
  assert (Hb1 : forall k, next_counts c d d1 k <= c k + (if decide (key_of m = k) then 1 else 0)).
  { intros k. unfold next_counts, d1. simpl. rewrite Hpc. destruct (d_aggpc d), tracked; case_decide; lia. }
  assert (Hpace : paced n d0 (next_counts c d d1) d1).
  { eapply (paced_step _ _ _ _ Env); [exact Hp| |].
    - apply step_main. eapply (read_record d (wire_bytes m)); [done..|by apply UnmarshalBinary_wire|exact Ei].
    - intros k. specialize (Hb1 k). specialize (Hc k). rewrite Hlen in Hc. lia. }
  destruct tracked.
  - set (d2 := set_main d1 (ingest_port a m) m MRead).
    assert (Hb2 : forall k, next_counts (next_counts c d d1) d1 d2 k = next_counts c d d1 k).
    { intros k. unfold next_counts at 1. simpl. by destruct (d_aggpc d). }
    apply (IH (next_counts (next_counts c d d1) d1 d2) d2); [|done|].
    + eapply (paced_step _ _ _ _ Self); [exact Hpace| |].
      * apply step_main, (ingest_ports d1 m). reflexivity.
      * intros k. rewrite Hb2. specialize (Hb1 k). specialize (Hc k). rewrite Hlen in Hc. lia.
    + intros k. rewrite Hb2. specialize (Hb1 k). specialize (Hc k). rewrite Hlen in Hc. lia.
  - apply (IH (next_counts c d d1) d1 Hpace); [done|]. intros k. specialize (Hb1 k). specialize (Hc k). rewrite Hlen in Hc. lia.
Qed.

(** The records of a connection request, as the firewall reports it at DEBUG. *)
Definition syn_record (src dst sport dport t : Z) : FlowPacketMeta := mkMeta src dst sport dport 6 SYN 2 0 t.

(** Requests between two addresses, [ports] being the pairs of their ports and [ts]
    their times. *)
Definition syn_burst (src dst : Z) (ports : list (Z * Z)) (ts : nat -> Z) : list FlowPacketMeta :=
  imap (fun i p => syn_record src dst (fst p) (snd p) (ts i)) ports.

Lemma burst_keys src dst ports ts :
  src <> dst -> NoDup ports -> forall k, (length (conversation k (syn_burst src dst ports ts)) <= 1)%nat.
Proof.
  intros Hne Hnd k. unfold conversation, syn_burst. revert ts. induction Hnd as [|p ports Hp _ IH]; intros ts; [simpl; lia|].
  simpl. rewrite filter_cons. specialize (IH (fun i => ts (S i))).
  assert (Hkey : forall p t, key_of (syn_record src dst (fst p) (snd p) t) =
    if src <? dst then mkFlowKey src dst (fst p) (snd p) 6 else mkFlowKey dst src (snd p) (fst p) 6).
  { intros q t. unfold key_of, canonicalize. simpl. rewrite (proj2 (Z.eqb_neq src dst)) by done. by destruct (src <? dst). }
  case_decide as Hk; [|exact IH]. simpl. replace (filter _ _) with (@nil FlowPacketMeta); [simpl; lia|]. symmetry.
  rewrite Hkey in Hk. clear IH. apply elem_of_nil_inv. intros m [Hm Hin]%list_elem_of_filter.
  apply elem_of_lookup_imap in Hin as (i & q & -> & Hq). cbn [compose] in Hm. rewrite Hkey in Hm. subst k.
  apply Hp. apply list_elem_of_lookup_2 in Hq. replace p with q; [done|]. destruct p, q, (src <? dst); simpl in *; congruence.
Qed.

Definition address (l : list Z) : Z := be_combine l.

Definition build_tc03_health_probe (src dut : Z) : (nat -> Z) -> list FlowPacketMeta :=
  syn_burst src dut (map (fun i => (51000 + Z.of_nat i, 8080)) (seq 0 6)).
Definition build_tc05_prometheus_scrape (src dut : Z) : (nat -> Z) -> list FlowPacketMeta :=
  syn_burst src dut (map (fun port => (52000, port)) [9100; 9090; 9093; 9115; 9187; 9216; 9256; 9308]).
Definition build_tc07_spoofed_gateway_flood (gw dut : Z) : (nat -> Z) -> list FlowPacketMeta :=
  syn_burst gw dut (map (fun i => (53000 + Z.of_nat i, 80)) (seq 0 40)).
Definition build_tc08_transient_attacker (dut : Z) : (nat -> Z) -> list FlowPacketMeta :=
  syn_burst (address [198; 51; 100; 77]) dut (map (fun i => (54000 + Z.of_nat i, 80)) (seq 0 60)).

Lemma reads_frame ms d :
  d_aggpc (fold_left read_meta_step ms d) = d_aggpc d.
Proof.
  revert d. induction ms as [|m ms IH]; intros d; simpl; [done|]. rewrite IH. unfold read_meta_step.
  by destruct (ingest_flow (d_agg d) m).
Qed.

(** A burst of requests, no two of the same ports, is never answered. *)
Lemma burst_never_blocked mgr h k now src dst ports ts tick_at d' :
  wired mgr -> src <> dst -> NoDup ports -> Forall meta_ok (syn_burst src dst ports ts) ->
  self_steps (tick tick_at (fold_left read_meta_step (syn_burst src dst ports ts) (daemon_start mgr h k now))) d' ->
  (forall al, d_inf d' <> ISend al) /\ d_alerts d' = [] /\ blocked (d_fc d') = ∅ /\ d_kernel d' = k.
Proof.
  intros Hw Hne Hnd Hok Hs. set (d0 := daemon_start mgr h k now).
  destruct (paced_reads 20 d0 (syn_burst src dst ports ts) (fun _ => 0) d0) as (c & Hp & Hc);
    [constructor|by split|done|intros key; pose proof (burst_keys src dst ports ts Hne Hnd key); lia|].
  fold d0 in Hs. set (d1 := fold_left read_meta_step _ d0) in *.
  assert (Hpc : d_aggpc d1 = ASelect) by apply reads_frame.
  assert (Hcount : forall key, next_counts c d1 (tick tick_at d1) key = c key).
  { intros key. apply next_counts_agg; [done|]. right. by intros. }
  assert (Hp1 : paced 20 d0 (next_counts c d1 (tick tick_at d1)) (tick tick_at d1)).
  { eapply (paced_step _ _ _ _ Env); [exact Hp|by apply step_agg, agg_tick|]. intros key. by rewrite Hcount. }
  destruct (paced_self _ _ _ _ d' Hp1) as (c' & Hp' & _); [intros key; by rewrite Hcount|exact Hs|].
  by destruct (paced_quiet 20 mgr h k now c' d' ltac:(done) ltac:(done) Hw Hp') as [].
Qed.

Lemma burst_meta_ok src dst ports ts :
  in_u 32 src -> in_u 32 dst -> Forall (fun p => in_u 16 (fst p) /\ in_u 16 (snd p)) ports -> (forall i, in_u 64 (ts i)) ->
  Forall meta_ok (syn_burst src dst ports ts).
Proof.
  intros Hs Hd Hp Ht. apply Forall_forall. intros m Hin. apply elem_of_lookup_imap in Hin as (i & p & -> & Hin).
  apply (Forall_lookup_1 _ _ _ _ Hp) in Hin as [? ?]. unfold meta_ok. simpl. split_and!; try done; specialize (Ht i); done.
Qed.

(** The ports of the bursts: all different, all of 16 bits. *)
Lemma ports_ok (ports : list (Z * Z)) :
  bool_decide (NoDup ports) && forallb (fun p => (0 <=? fst p) && (fst p <? 65536) && (0 <=? snd p) && (snd p <? 65536)) ports = true ->
  NoDup ports /\ Forall (fun p => in_u 16 (fst p) /\ in_u 16 (snd p)) ports.
Proof.
  intros [Hnd Hf]%andb_prop. apply bool_decide_eq_true in Hnd. split; [done|]. rewrite forallb_forall in Hf.
  apply Forall_forall. intros p Hin%list_elem_of_In. specialize (Hf p Hin). bool_hyps. unfold in_u. lia.
Qed.

(** The daemon layer of the traffic matrix. A daemon that reads a burst of the matrix
    (the probes of TC-03, the scrape of TC-05, the spoofed flood of TC-07 or
    the attack of TC-08), whatever its times, and whose window then ends, never blocks
    anything because of it, in whatever order its goroutines then move. This is
    what the matrix expects of the first three; for TC-08 it expects the source to
    be blocked, but each of its 60 packets has a source port of its own, and so is a flow
    of one packet. *)
Theorem traffic_matrix_daemon_layer (mgr : MapManager) (h : Host) (k : kernel) (now tick_at src dut : Z) (ts : nat -> Z)
    (burst : list FlowPacketMeta) (d' : daemon) :
  wired mgr -> in_u 32 src -> in_u 32 dut -> src <> dut -> dut <> address [198; 51; 100; 77] -> (forall i, in_u 64 (ts i)) ->
  burst = build_tc03_health_probe src dut ts \/ burst = build_tc05_prometheus_scrape src dut ts \/
  burst = build_tc07_spoofed_gateway_flood src dut ts \/ burst = build_tc08_transient_attacker dut ts ->
  self_steps (tick tick_at (fold_left read_meta_step burst (daemon_start mgr h k now))) d' ->
  d_alerts d' = [] /\ blocked (d_fc d') = ∅ /\ d_kernel d' = k.
Proof.
  intros Hw Hsrc Hdut Hne Hne' Ht Hb Hs.
  assert (Hattacker : in_u 32 (address [198; 51; 100; 77])) by (split; [discriminate|reflexivity]).
  destruct Hb as [->|[->|[->| ->]]]; (eapply burst_never_blocked in Hs;
    [by destruct Hs as (_ & ? & ? & ?)|done|by (done || apply not_eq_sym)|by apply ports_ok; vm_compute|
     by apply burst_meta_ok; try done; apply ports_ok; vm_compute]).
Qed.
End daemon_layer.

(** ** The control plane's unit tests *)

(** The bytes the tests build: 192.168.1.100:443 to 10.0.0.1:80 over TCP. *)
Definition fixture (flags action reason t : Z) : list Z :=
  be_split 4 3232235876 ++ be_split 4 167772161 ++ le_split 2 443 ++ le_split 2 80 ++ [6; flags; action; reason] ++ le_split 8 t.

Example TestFlowPacketMetaBinaryUnmarshal :
  let (meta, err) := UnmarshalBinary zero_meta (fixture 18 1 14 1234567890) in
  err = None /\ IP_String (SrcIPNet meta) = "192.168.1.100"%string /\ IP_String (DstIPNet meta) = "10.0.0.1"%string /\
  SrcPort meta = 443 /\ DstPort meta = 80 /\ ProtocolName meta = "TCP"%string /\ TCPFlagsString meta = "SYN|ACK"%string /\
  meta_Action meta = ActionDrop /\ meta_DropReason meta = DropReasonBlacklistHit /\ Severity (meta_DropReason meta) = LogLevelWarn.
Proof. by vm_compute. Qed.

Example TestParseLogLevel :
  Forall (fun '(input, expected, wantErr) =>
      let (lvl, err) := ParseLogLevel input in lvl = expected /\ negb (bool_decide (err = None)) = wantErr)
    [("debug", LogLevelDebug, false); ("DEBUG", LogLevelDebug, false); ("info", LogLevelInfo, false);
     ("warn", LogLevelWarn, false); ("warning", LogLevelWarn, false); ("error", LogLevelError, false);
     ("off", LogLevelOff, false); ("disabled", LogLevelOff, false); ("invalid", LogLevelOff, true)]%string.
Proof. repeat constructor. Qed.

Example TestActionWouldDrop :
  ActionWouldDrop = 5 /\ Action_String ActionWouldDrop = "WOULD_DROP"%string /\
  ColoredBadge ActionWouldDrop <> ""%string /\ ColoredBadge ActionWouldDrop <> ("[" +:+ Action_String ActionWouldDrop +:+ "]")%string.
Proof. by vm_compute. Qed.

Example TestFlowPacketMetaBinaryUnmarshalWouldDrop :
  let (meta, err) := UnmarshalBinary zero_meta (fixture 2 5 20 42) in
  err = None /\ meta_Action meta = ActionWouldDrop /\ Action_String (meta_Action meta) = "WOULD_DROP"%string.
Proof. by vm_compute. Qed.

(** ** Examples *)

Definition tcp_packet (src dst : list Z) (sport dport flags : Z) : packet :=
  mkPacket (replicate 12 2) [] (mkIpv4 0 [0; 40] [238; 72] 0 64 6 [0; 0] src dst [])
    (Tcp sport dport (replicate 8 0) 0 flags (replicate 6 0) [] []).

Definition sim_dut : list Z := [10; 200; 0; 2].

Lemma tcp_packet_between src dst sport dport flags :
  four_bytes src -> four_bytes dst -> in_u 16 sport -> in_u 16 dport -> in_u 8 flags ->
  between src dst (tcp_packet src dst sport dport flags).
Proof.
  intros [Hs Hbs] [Hd Hbd] ? ? ?. split; [|done]. split_and!.
  - split_and!; [done|simpl; lia|by constructor].
  - by split_and!.
  - by split_and!.
  - done.
Qed.

(** The NULL scan spends no token; an empty frame meets the limiter at most once. *)
Lemma filters_before_limiter_witness :
  @dp_rate sim_helpers (snd (@ai_ida_firewall sim_helpers (packet_bytes (tcp_packet [203; 0; 113; 9] sim_dut 51000 22 128)) 1000
    (sim_dataplane (sim_start [])))) = @dp_rate sim_helpers (sim_dataplane (sim_start [])) /\
  exists r, @limited_once sim_helpers 1000 (sim_dataplane (sim_start []))
    (snd (@ai_ida_firewall sim_helpers [] 1000 (sim_dataplane (sim_start [])))) r.
Proof.
  destruct (@filters_before_limiter sim_helpers sim_helper_laws [] (tcp_packet [203; 0; 113; 9] sim_dut 51000 22 128) 1000
    (sim_dataplane (sim_start []))) as [(_ & r & _ & Hr) Hp].
  split; [|exists r; exact Hr]. destruct Hp as [Hsame _].
  - apply tcp_packet_between; repeat constructor; discriminate.
  - reflexivity.
  - apply Hsame; vm_compute; discriminate.
Defined.


(** The attack of TC-08, a request every millisecond. *)
Definition sim_times (i : nat) : Z := if (i <? 60)%nat then 1000000 * Z.of_nat i + 1 else 0.
Definition sim_tc08 : list FlowPacketMeta := build_tc08_transient_attacker (address sim_dut) sim_times.
Definition sim_attacked : @daemon sim_ebpf :=
  fold_left (@read_meta_step sim_ebpf) sim_tc08 (@daemon_start sim_ebpf sim_manager sim_host (sim_start []) 0).

Lemma sim_times_ok i : in_u 64 (sim_times i).
Proof. unfold sim_times. destruct (Nat.ltb_spec i 60); unfold in_u; lia. Qed.

Lemma sim_tc08_ports : 
  NoDup (map (fun i => (54000 + Z.of_nat i, 80)) (seq 0 60)) /\
  Forall (fun p => in_u 16 (fst p) /\ in_u 16 (snd p)) (map (fun i => (54000 + Z.of_nat i, 80)) (seq 0 60)).
Proof. apply ports_ok. vm_compute. reflexivity. Qed.

Lemma sparse_traffic_never_blocked_witness :
  tracked_flows (d_agg sim_attacked) = 60%nat /\ d_alerts sim_attacked = [] /\ d_kernel sim_attacked = sim_start [].
Proof.
  split; [vm_compute; reflexivity|].
  destruct (@paced_reads sim_ebpf list_order sample_math 20 (@daemon_start sim_ebpf sim_manager sim_host (sim_start []) 0) sim_tc08 (fun _ => 0)
    (@daemon_start sim_ebpf sim_manager sim_host (sim_start []) 0)) as (c & Hp & _).
  - constructor.
  - by split.
  - apply burst_meta_ok; [split; [discriminate|reflexivity]..|apply sim_tc08_ports|exact sim_times_ok].
  - intros key. pose proof (burst_keys (address [198; 51; 100; 77]) (address sim_dut) _ sim_times ltac:(discriminate) (proj1 sim_tc08_ports) key) as Hk.
    change (syn_burst _ _ _ _) with sim_tc08 in Hk. lia.
  - destruct (@sparse_traffic_never_blocked sim_ebpf sim_laws list_order sample_math sample_laws sim_manager sim_host (sim_start []) 0 c
      sim_attacked sim_wired Hp) as (_ & Ha & _ & Hk). split; [exact Ha|exact Hk].
Defined.

Lemma traffic_matrix_daemon_layer_witness :
  d_kernel (@drain sim_ebpf list_order sample_math 200 2000 (@tick sim_ebpf 100000000 sim_attacked)) = sim_start [].
Proof.
  pose proof (drain_self 200 2000 (@tick sim_ebpf 100000000 sim_attacked)) as Hs. revert Hs.
  generalize (@drain sim_ebpf list_order sample_math 200 2000 (@tick sim_ebpf 100000000 sim_attacked)) as d'. unfold sim_attacked. intros d' Hs.
  apply (@traffic_matrix_daemon_layer sim_ebpf sim_laws list_order sample_math sample_laws sim_manager sim_host (sim_start []) 0 100000000
    (address [10; 200; 0; 1]) (address sim_dut) sim_times sim_tc08).
  - exact sim_wired.
  - split; [discriminate|reflexivity].
  - split; [discriminate|reflexivity].
  - discriminate.
  - discriminate.
  - exact sim_times_ok.
  - right. right. right. reflexivity.
  - exact Hs.
Defined.
