(* ===== verification/Interference.v ===== *)
(** * The daemon among the other processes that use the maps

    The pinned maps are shared: while the daemon runs, an operator uses the other
    commands, and other programs may write the maps too. The daemon's steps
    are interleaved here with the map operations of the commands ([map_op]),
    in any order; [commands_operations] shows that a command is a sequence of
    them. *)

From S2P Require Import Prelude GoStrings GoNet Contracts Float64 Flow Trees EbpfMap MapManager Feedback Daemon Monitor XdpInspector Cli Packet Firewall EndToEnd ClosedLoop.
From Stdlib Require Import Ascii.

Section shared.
Context `{EbpfLaws, MapRange, GoMath}.

(** ** The operations of other processes *)

Inductive map_op :=
  | OpBlockIP (cidr : string)
  | OpPort (port : Z) (blocked : bool)
  | OpLevel (level : Z)
  | OpHandles          (* pinned maps opened or closed *)
  | OpForeign.         (* another program, in any way *)

(** [m] is the other process's manager; an operation may fail. *)
Definition op_step (o : map_op) (k k' : kernel) : Prop :=
  match o with
  | OpBlockIP cidr => exists m e, wired m /\ BlockIP m cidr k = Some (k', e)
  | OpPort port b => exists m e, wired m /\ (if b then BlockPort m port k else UnblockPort m port k) = Some (k', e)
  | OpLevel level => exists m e, wired m /\ SetLogLevel m level k = Some (k', e)
  | OpHandles => entries k' = entries k
  | OpForeign => True
  end.

Inductive ops_steps : list map_op -> kernel -> kernel -> Prop :=
  | ops_nil k : ops_steps [] k k
  | ops_cons o ops k k1 k2 : op_step o k k1 -> ops_steps ops k1 k2 -> ops_steps (o :: ops) k k2.

Lemma ops_app ops1 ops2 k k1 k2 : ops_steps ops1 k k1 -> ops_steps ops2 k1 k2 -> ops_steps (ops1 ++ ops2) k k2.
Proof. induction 1; intros; [done|]. simpl. econstructor; eauto. Qed.

Lemma ops_one o k k' : op_step o k k' -> ops_steps [o] k k'.
Proof. intros. econstructor; [done|constructor]. Qed.

(** ** The commands, as operations *)

Definition ops_of (c : command) (o : map_op) : Prop :=
  match o, c with
  | OpHandles, _ => True
  | OpBlockIP cidr, CmdBlock cidr' => cidr = cidr'
  | OpPort port b, CmdPort action arg => Sscanf_uint16 arg = Some port /\ action = (if b then "block" else "unblock")%string
  | OpLevel level, CmdMonitor flag => level = LogLevelOff \/ level = fst (ParseLogLevel (default default_log_level flag))
  | _, _ => False
  end.

(** A command that loads the maps: opening them, then its body. *)
Lemma after_loading c k k' out st (failed : error -> list printed * cmd_state) body :
  (forall m k1, wired m -> entries k1 = entries k -> opened k1 ≡ₚ handles m ++ opened k -> body m k1 = Some (k', out, st) ->
     exists ops, ops_steps ops k1 k' /\ Forall (ops_of c) ops) ->
  (let '(k, r) := LoadPinnedMaps k in
   match r with Err e => Some (k, fst (failed e), snd (failed e)) | Ok m => body m k end) = Some (k', out, st) ->
  exists ops, ops_steps ops k k' /\ Forall (ops_of c) ops.
Proof.
  intros Hbody E. pose proof (LoadPinnedMaps_open k) as Hload. destruct (LoadPinnedMaps k) as [k1 [m|e]].
  - destruct Hload as (He & Hw & _ & Hop). destruct (Hbody m k1 Hw He Hop E) as (ops & Hs & Hf).
    exists (OpHandles :: ops). split; [by econstructor|by constructor].
  - destruct Hload as [He _]. injection E as <- _ _. exists [OpHandles]. split; [by apply ops_one|by constructor].
Qed.

(** One operation, then the handles are closed. *)
Lemma then_closed c o m k k1 k2 :
  opened k1 ≡ₚ handles m ++ opened k -> opened k2 = opened k1 -> op_step o k1 k2 -> ops_of c o ->
  exists ops, ops_steps ops k1 (Close m k2) /\ Forall (ops_of c) ops.
Proof.
  intros Hop Ho Hs Hc. destruct (closed_after m k k1 k2 Hop Ho) as [Hec _].
  exists [o; OpHandles]. split; [econstructor; [exact Hs|by apply ops_one]|by repeat constructor].
Qed.

Lemma level_op m level k k' e : wired m -> SetLogLevel m level k = Some (k', e) -> op_step (OpLevel level) k k'.
Proof. intros Hw E. by exists m, e. Qed.

(** The monitor's writes, when nothing else happens meanwhile. *)
Lemma monitor_operations m level nr evs world k k' out ret :
  wired m -> (forall k, world k = k) -> MonitorEvents m level nr evs world k = Some (k', out, ret) ->
  exists ops, ops_steps ops k k' /\ Forall (fun o => o = OpLevel level \/ o = OpLevel LogLevelOff) ops /\ opened k' = opened k /\
    (ret = Some None -> exists k2 e, SetLogLevel m LogLevelOff k2 = Some (k', e)).
Proof.
  intros Hw Hworld. unfold MonitorEvents. destruct (GetLogLevel_total m k Hw) as [p ->]. simpl.
  destruct (SetLogLevel_total m level k Hw) as (k1 & e1 & E1 & O1). rewrite E1. simpl.
  pose proof (ops_one _ _ _ (level_op _ _ _ _ _ Hw E1)) as S1.
  destruct e1 as [e1|]; [intros [= <- _ <-]; exists [OpLevel level]; by repeat constructor|].
  destruct (SetLogLevel_total m LogLevelOff k1 Hw) as (k2 & e2 & E2 & O2).
  assert (Hoff : forall ret : option (option error), exists ops, ops_steps ops k k2 /\
    Forall (fun o => o = OpLevel level \/ o = OpLevel LogLevelOff) ops /\ opened k2 = opened k /\
    (ret = Some None -> exists k3 e, SetLogLevel m LogLevelOff k3 = Some (k2, e))).
  { intros r. exists [OpLevel level; OpLevel LogLevelOff]. split_and!; [|by repeat constructor; auto|congruence|by eauto].
    eapply (ops_app [_]); [exact S1|]. apply ops_one. by eapply level_op. }
  destruct (w_events m Hw) as (ev & Hev & _). unfold GetEventsMap. rewrite Hev.
  destruct nr as [err|]; [rewrite E2; simpl; by intros [= <- _ _]|].
  destruct (mon_run level mon_start evs) as [[s out']|]; [|done]. simpl. rewrite Hworld.
  destruct (mn_returned s); [rewrite E2; simpl; by intros [= <- _ _]|].
  intros [= <- _ <-]. exists [OpLevel level]. by repeat constructor.
Qed.

(** The map an operation writes. *)
Definition op_map (o : map_op) : option string :=
  match o with
  | OpBlockIP _ => Some "reputation_map"%string
  | OpPort _ _ => Some "port_gate_map"%string
  | OpLevel _ => Some "config_map"%string
  | OpHandles | OpForeign => None
  end.

Lemma op_frame o k k' obj :
  o <> OpForeign -> op_step o k k' -> (forall n, op_map o = Some n -> obj <> pinned n) -> entries k' obj = entries k obj.
Proof.
  intros Hne Hs Hobj. destruct o as [cidr|port b|level| |]; simpl in Hs, Hobj; [..|by rewrite Hs|done];
    destruct Hs as (m & e & Hw & E); specialize (Hobj _ eq_refl).
  - unfold BlockIP in E. destruct (NewLpmKey cidr) as [key|err]; [|by injection E as <- _].
    destruct (put_object (reputationMap m) _ k (lpm_bytes key) (le_split 4 1)
      (ErrorfW "failed to insert IP into BPF LPM_TRIE: %w" []) (w_reputation m Hw)) as (k1 & e1 & E1 & He).
    rewrite E in E1. injection E1 as <- <-. destruct e; [by rewrite He|]. destruct He as (_ & _ & He). by rewrite He, decide_False.
  - assert (Hport : forall v w, put (portGateMap m) k (le_split 4 port) (le_split 1 v) w = Some (k', e) -> entries k' obj = entries k obj).
    { intros v w Ep. destruct (put_port m k port v w Hw) as (k1 & e1 & E1 & _ & He). rewrite Ep in E1. injection E1 as <- <-.
      destruct e; by rewrite He, ?decide_False. }
    unfold BlockPort, UnblockPort in E. destruct b; by eapply Hport.
  - destruct (SetLogLevel_frame _ _ _ _ _ Hw E) as [Hf _]. by rewrite Hf.
Qed.

(** Of the reputation map, an operation keeps an entry, or adds it. *)
Lemma op_reputation o k k' ip :
  o <> OpForeign -> op_step o k k' ->
  blocked_entry k' ip = blocked_entry k ip \/
  (exists cidr key, o = OpBlockIP cidr /\ NewLpmKey cidr = Ok key /\
     canon (pinned "reputation_map") (lpm_bytes key) = the_key ip /\ blocked_entry k' ip = Some [1; 0; 0; 0]).
Proof.
  intros Hne Hs. destruct (decide (op_map o = Some "reputation_map"%string)) as [Em|Hm].
  2: { left. unfold blocked_entry. rewrite (op_frame o k k'); [done..|]. intros n En Hp. apply Hm.
       destruct o; try discriminate En; injection En as <-; [done|discriminate Hp..]. }
  destruct o as [cidr|port b|level| |]; try done. destruct Hs as (m & e & Hw & E). unfold BlockIP in E.
  destruct (NewLpmKey cidr) as [key|err] eqn:Ek; [|injection E as <- _; by left].
  destruct (put_object (reputationMap m) (pinned "reputation_map") k (lpm_bytes key) (le_split 4 1)
    (ErrorfW "failed to insert IP into BPF LPM_TRIE: %w" [])) as (k1 & e1 & E1 & He); [apply Hw|].
  rewrite E in E1. injection E1 as <- <-. unfold blocked_entry. destruct e as [e|]; [rewrite He; by left|].
  destruct He as (_ & _ & He). rewrite He, decide_True by done.
  destruct (decide (canon (pinned "reputation_map") (lpm_bytes key) = the_key ip)) as [Ec|Hc].
  - right. exists cidr, key. split_and!; [done..|]. rewrite Ec. apply lookup_insert_eq.
  - left. by apply lookup_insert_ne.
Qed.

(** C33: every other command is a sequence of map operations. What a command but
    [daemon] does to the kernel is a sequence of operations that its
    arguments name: [block] one insertion of its prefix, [port] one write
    of its port, [monitor] the writes of its level and of OFF, besides opening
    and closing the maps; [status] nothing. (For [monitor], when nothing else
    writes the maps meanwhile.) *)
Theorem commands_operations (env : Environment) (c : command) (k k' : kernel) (out : list printed) (st : cmd_state) :
  c <> CmdDaemon -> (forall k, e_world env k = k) -> run_command env c k = Some (k', out, st) ->
  exists ops, ops_steps ops k k' /\ Forall (ops_of c) ops.
Proof.
  intros Hc Hworld E. destruct c as [flag| |cidr|action arg|]; simpl in E; [| | | |done].
  - unfold monitorCmd in E. destruct (ParseLogLevel _) as [level [err|]] eqn:El; [injection E as <- _ _; exists []; split; constructor|].
    revert E. apply (after_loading _ _ _ _ _ (fun e => ([Printf _ [] (Some e)], Exited 1))). intros m k1 Hw He Hop E.
    destruct (MonitorEvents m level _ _ _ k1) as [[[k2 out2] ret]|] eqn:Em; [|done].
    destruct (monitor_operations _ _ _ _ _ _ _ _ _ Hw Hworld Em) as (ops & Hs & Hf & Ho & _).
    assert (Hf' : Forall (ops_of (CmdMonitor flag)) ops).
    { eapply Forall_impl; [exact Hf|]. intros o [-> | ->]; simpl; rewrite ?El; auto. }
    simpl in E. destruct ret as [[err|]|]; injection E as <- _ _; [by exists ops| |by exists ops].
    destruct (closed_after m k k1 k2 Hop Ho) as [Hec _]. exists (ops ++ [OpHandles]).
    split; [eapply ops_app; [exact Hs|by apply ops_one]|apply Forall_app; split; [done|by constructor]].
  - unfold statusCmd in E. exists []. destruct (InspectInterfaces _); injection E as <- _ _; by split; constructor.
  - unfold blockCmd in E. revert E. apply (after_loading _ _ _ _ _ (fun e => ([Printf _ [] (Some e)], Returned))).
    intros m k1 Hw He Hop E. destruct (BlockIP m cidr k1) as [[k2 e]|] eqn:Eb; [|done]. simpl in E. injection E as <- _ _.
    eapply (then_closed _ (OpBlockIP cidr)); [exact Hop|by eapply BlockIP_open|exists m, e; split; [exact Hw|exact Eb]|done].
  - unfold portCmd in E. destruct (Sscanf_uint16 arg) as [port|] eqn:Ep; [|injection E as <- _ _; exists []; split; constructor].
    revert E. apply (after_loading _ _ _ _ _ (fun e => ([Printf _ [] (Some e)], Returned))).
    intros m k1 Hw He Hop E. case_bool_decide as Hb; [|case_bool_decide as Hu].
    + destruct (BlockPort m port k1) as [[k2 e]|] eqn:Eb; [|done]. simpl in E. injection E as <- _ _.
      eapply (then_closed _ (OpPort port true)); [exact Hop|by eapply put_keeps_open|exists m, e; split; [exact Hw|exact Eb]|done].
    + destruct (UnblockPort m port k1) as [[k2 e]|] eqn:Eb; [|done]. simpl in E. injection E as <- _ _.
      eapply (then_closed _ (OpPort port false)); [exact Hop|by eapply put_keeps_open|exists m, e; split; [exact Hw|exact Eb]|done].
    + injection E as <- _ _. eapply (then_closed _ OpHandles); [exact Hop|done|done|done].
Qed.

(** ** The daemon and the others, interleaved *)

Definition set_kernel (d : daemon) (k : kernel) : daemon := set_fc d k (d_fc d) (d_alerts d) (d_fcpc d).

(** Runs, with the operations of the others so far, the last one first. *)
Inductive shared (d0 : daemon) : list map_op -> daemon -> Prop :=
  | shared_start : shared d0 [] d0
  | shared_own ops d w d' : shared d0 ops d -> daemon_step d w (Some d') -> shared d0 ops d'
  | shared_other ops d o k' : shared d0 ops d -> op_step o (d_kernel d) k' -> shared d0 (o :: ops) (set_kernel d k').

Lemma set_kernel_ok d k : control_ok d -> data_ok d -> control_ok (set_kernel d k) /\ data_ok (set_kernel d k).
Proof. intros [] []. by split; split. Qed.

Lemma shared_kept d0 ops d : control_ok d0 -> data_ok d0 -> shared d0 ops d -> control_ok d /\ data_ok d.
Proof.
  intros Hc0 Hd0. induction 1 as [|ops d w d' _ [Hc Hd] Hs|ops d o k' _ [Hc Hd] Hs]; [done| |by apply set_kernel_ok].
  split; [by eapply control_step|by eapply data_step].
Qed.

Lemma shared_ok mgr h k now ops d : wired mgr -> shared (daemon_start mgr h k now) ops d -> control_ok d /\ data_ok d.
Proof.
  intros Hw. destruct (start_ok mgr h k now Hw). by apply shared_kept.
Qed.

(** No other process can make the daemon panic, block or overflow. Whatever
    the other processes do to the maps, at any point of its run, no step of the
    daemon panics, its channels stay within their buffers, every step of its
    own decreases [measure], and once its context is cancelled its own steps
    lead to the return. *)
Theorem shared_daemon_sound (mgr : MapManager) (h : Host) (k : kernel) (now : Z) (ops : list map_op) (d : daemon) :
  wired mgr -> shared (daemon_start mgr h k now) ops d ->
  (forall w o, daemon_step d w o -> o <> None) /\
  Z.of_nat (length (out (d_agg d))) <= outputBufferSize /\
  Z.of_nat (length (d_alerts d)) <= alertBufferSize /\
  (forall d', daemon_step d Self (Some d') -> (measure d' < measure d)%nat) /\
  (d_cancelled d = true -> exists d', self_steps d d' /\ d_main d' = MReturned).
Proof.
  intros Hw Hr. destruct (shared_ok mgr h k now ops d Hw Hr) as [Hc Hd]. pose proof Hd as [].
  split_and!; [intros w o; by apply step_not_panic|done|done|intros d'; by apply self_measure|].
  intros Hcan. destruct (run_to_end (measure d) d) as (d' & Hs & Hm & _); [done..|]. by exists d'.
Qed.

(** What the operations have blocked. *)
Definition asked_for (ops : list map_op) (ip : list Z) : Prop :=
  exists cidr key, OpBlockIP cidr ∈ ops /\ NewLpmKey cidr = Ok key /\
    canon (pinned "reputation_map") (lpm_bytes key) = the_key ip.

Lemma asked_more o ops ip : asked_for ops ip -> asked_for (o :: ops) ip.
Proof. intros (cidr & key & Hin & Hk). exists cidr, key. split; [by apply list_elem_of_further|done]. Qed.

(** A safe address is blocked only on an operator's request. In any run
    among the commands of other processes, if an address of a network that was safe at
    start-up was not blocked then, and is blocked now, it is because some
    process was asked to block the prefix of that very address: the daemon
    never does, and never makes another command's doing its own. *)
Theorem safe_blocked_only_by_request (mgr : MapManager) (h : Host) (k : kernel) (now : Z) (ops : list map_op) (d : daemon)
    (n : IPNet) (a b c e : Z) :
  wired mgr -> shared (daemon_start mgr h k now) ops d -> Forall (fun o => o <> OpForeign) ops ->
  n ∈ DiscoverSafeNetworks h -> Contains n (IPv4 a b c e) = true -> blocked_entry k [a; b; c; e] = None ->
  blocked_entry (d_kernel d) [a; b; c; e] = None \/ asked_for ops [a; b; c; e].
Proof.
  intros Hw Hr Hops Hn Hc Hb.
  assert (Hs : n ∈ safeNetworks (d_fc d) /\ (blocked_entry (d_kernel d) [a; b; c; e] = None \/ asked_for ops [a; b; c; e])); [|apply Hs].
  induction Hr as [|ops d w d' Hr IH Hst|ops d o k' Hr IH Hst].
  - split; [done|by left].
  - destruct (IH Hops) as [Hin [Hnone|Hasked]]; destruct (shared_ok mgr h k now ops d Hw Hr) as [_ Hd].
    + destruct (safe_step n a b c e d w d' Hc Hd (conj Hin Hnone) Hst). split; [done|by left].
    + split; [|by right]. by rewrite (proj1 (own_config d w d' Hd Hst)).
  - apply Forall_cons in Hops as [Hne Hops]. destruct (IH Hops) as [Hin Hor]. split; [done|].
    destruct Hor as [Hnone|Hasked]; [|right; by apply asked_more].
    destruct (op_reputation o (d_kernel d) k' [a; b; c; e] Hne Hst) as [Ekeep|(cidr & key & -> & Hkey & Hcan & _)].
    + left. simpl. by rewrite Ekeep.
    + right. exists cidr, key. split; [apply list_elem_of_here|done].
Qed.
End shared.

Section dataplane.
Context `{BpfHelperLaws, EbpfLaws, MapRange, GoMathLaws}.

Lemma op_enforced o fc k k' : o <> OpForeign -> op_step o k k' -> enforced fc k -> enforced fc k'.
Proof.
  intros Hne Hs He src t Hb. destruct (He src t Hb) as (addr & Hn & Hent). exists addr. split; [done|].
  by destruct (op_reputation o k k' addr Hne Hs) as [->|(? & ? & _ & _ & _ & ->)].
Qed.

Lemma shared_loop_ok mgr h k now ops d :
  wired mgr -> Forall (fun o => o <> OpForeign) ops -> shared (daemon_start mgr h k now) ops d -> loop_ok d.
Proof.
  intros Hw Hops Hr. induction Hr as [|ops d w d' Hr IH Hst|ops d o k' Hr IH Hst].
  - by eapply reachable_loop_ok; [|apply reach_start].
  - destruct (shared_ok mgr h k now ops d Hw Hr) as [_ Hd]. eapply loop_step; [exact Hd|by apply IH|exact Hst].
  - apply Forall_cons in Hops as [Hne Hops]. destruct (IH Hops). split; [|done..]. by eapply op_enforced.
Qed.

(** What the controller believes blocked is stopped, whatever the operator
    does. In every state the daemon reaches, among the commands of other
    processes, whatever the traffic, the failures of the kernel and the
    scheduler, each source the controller tracks is the dotted quad of one
    address, and the firewall drops every well-formed, unfragmented IPv4 packet
    from it (in dry-run mode it passes it). So skipping the alerts for
    a tracked source is sound. *)
Theorem tracked_stopped_among_commands (mgr : MapManager) (h : Host) (k : kernel) (now : Z) (ops : list map_op) (d : daemon)
    (src : string) (t : Z) :
  wired mgr -> shared (daemon_start mgr h k now) ops d -> Forall (fun o => o <> OpForeign) ops ->
  blocked (d_fc d) !! src = Some t -> exists addr, names src addr /\ stopped_from (d_kernel d) addr.
Proof.
  intros Hw Hr Hops Hb. destruct (shared_loop_ok mgr h k now ops d Hw Hops Hr) as [He _ _].
  destruct (He src t Hb) as (addr & Hn & Hent). exists addr. split; [done|]. by apply blocked_stopped.
Qed.

(** ** The monitor and the daemon *)

(** The log-level register. *)
Definition level_register (k : kernel) : option (list Z) := entries k (pinned "config_map") !! le_split 4 0.

Lemma own_level d w d' : data_ok d -> daemon_step d w (Some d') -> level_register (d_kernel d') = level_register (d_kernel d).
Proof. intros Hd Hst. unfold level_register. by rewrite (own_only d w d' Hd Hst). Qed.

Lemma op_level o k k' :
  o <> OpForeign -> (forall l, o <> OpLevel l) -> op_step o k k' -> level_register k' = level_register k.
Proof.
  intros Hne Hlevel Hs. unfold level_register. rewrite (op_frame o k k'); [done..|].
  intros n En. destruct o as [cidr|port b|level| |]; try discriminate En; injection En as <-; try done. by destruct (Hlevel level).
Qed.

(** The firewall writes nothing when the register says OFF. *)
Lemma firewall_off data now s :
  dp_entries s (pinned "config_map") !! le_split 4 0 = Some (le_split 4 LogLevelOff) ->
  dp_events (snd (ai_ida_firewall data now s)) = dp_events s.
Proof.
  intros Hoff. destruct (firewall_exits data now s) as (r & m & v & s' & -> & (_ & _ & Hev) & _). simpl.
  destruct Hev as [Hev|(threshold & Ht & Hne & _)]; [done|exfalso]. unfold array_get in Ht. rewrite Hoff in Ht.
  simpl in Ht. by injection Ht as <-.
Qed.

Lemma level_kept d ops d' :
  control_ok d -> data_ok d -> shared d ops d' -> Forall (fun o => o <> OpForeign /\ forall l, o <> OpLevel l) ops ->
  level_register (d_kernel d') = level_register (d_kernel d).
Proof.
  intros Hc0 Hd0 Hr Hops. induction Hr as [|ops d1 w d2 Hr IH Hst|ops d1 o k' Hr IH Hst]; [done| |].
  - destruct (shared_kept _ _ _ Hc0 Hd0 Hr) as [_ Hd]. by rewrite (own_level d1 w d2 Hd Hst), IH.
  - apply Forall_cons in Hops as [[Hne Hlevel] Hops]. rewrite <- IH by done. by apply (op_level o).
Qed.

(** C40: a monitor that ends blinds a running daemon. Whatever the daemon is
    doing, when [MonitorEvents] runs beside it and returns, its last write is
    that of OFF, and unless it failed the register says OFF; then the firewall
    writes no record for any frame, in every state that follows until some process
    sets the level: the daemon itself never does, nor do [block] and [port]. *)
Theorem monitor_blinds_daemon (mgr m : MapManager) (h : Host) (k : kernel) (now : Z) (ops : list map_op) (d : daemon)
    (level : Z) (nr : option error) (evs : list mon_event) (k' : kernel) (out : list printed) :
  wired mgr -> wired m -> shared (daemon_start mgr h k now) ops d ->
  MonitorEvents m level nr evs (fun k => k) (d_kernel d) = Some (k', out, Some None) ->
  let off := Some (le_split 4 LogLevelOff) in
  (exists k2 e, SetLogLevel m LogLevelOff k2 = Some (k', e) /\ (e = None -> level_register k' = off)) /\
  (level_register k' = off -> forall ops' d',
     shared (set_kernel d k') ops' d' -> Forall (fun o => o <> OpForeign /\ forall l, o <> OpLevel l) ops' ->
     forall data time s, dp_entries s (pinned "config_map") = entries (d_kernel d') (pinned "config_map") ->
     dp_events (snd (ai_ida_firewall data time s)) = dp_events s).
Proof.
  intros Hw Hwm Hr Em off. destruct (monitor_operations _ _ _ _ _ _ _ _ _ Hwm (fun _ => eq_refl) Em) as (_ & _ & _ & _ & Hlast).
  split.
  - destruct (Hlast eq_refl) as (k2 & e & E). exists k2, e. split; [exact E|]. intros ->.
    destruct (SetLogLevel_register m LogLevelOff k2 Hwm) as (k3 & e3 & E3 & Hoff). rewrite E in E3. by injection E3 as <- <-.
  - intros Hoff ops' d' Hr' Hops data time s Hs. apply firewall_off. rewrite Hs.
    destruct (shared_ok mgr h k now ops d Hw Hr) as [Hc Hd]. destruct (set_kernel_ok d k' Hc Hd) as [Hc' Hd'].
    exact (eq_trans (level_kept _ _ _ Hc' Hd' Hr' Hops) Hoff).
Qed.

(** No record of [src], no entry for its address. *)
Definition lifted (fc : FeedbackController) (k : kernel) (src : string) (addr : list Z) : Prop :=
  blocked_entry k addr = None /\ blocked fc !! src = None.

Lemma enforced_tracked fc k : enforced fc k -> tracked_ok fc.
Proof. intros He src t Hb. destruct (He src t Hb) as (ad & Had & _). by destruct (names_addr _ _ Had) as (? & -> & ?). Qed.

(** A sweep and the entry of an address the controller does not track. *)
Lemma sweep_untracked fc k src addr now v :
  wired (fc_mgr fc) -> enforced fc k -> names src addr -> blocked fc !! src = None -> blocked_entry k addr = Some v ->
  exists fc' k' out, runJanitor fc k now = Some (fc', k', out) /\ blocked_entry k' addr = Some v.
Proof.
  intros Hw He Hn Hb Hent. destruct (runJanitor_spec fc k now Hw (enforced_tracked _ _ He)) as (fc' & k' & out & E & _ & _ & _ & _ & Hkeep).
  exists fc', k', out. split; [done|]. destruct (Hkeep addr) as [->|(_ & src' & t & Hb' & _ & _ & Ha)]; [done|].
  destruct (He src' t Hb') as (ad & Had & _). destruct (names_addr _ _ Had) as (_ & Ead & _). rewrite Ha in Ead. subst ad.
  rewrite (names_inj _ _ _ Had Hn) in Hb'. congruence.
Qed.

(** A sweep and a tracked address: before the time the entry and the record stay; after
    it they go, unless the kernel refuses, and then both stay. *)
Lemma sweep_tracked fc k src addr t now :
  wired (fc_mgr fc) -> enforced fc k -> names src addr -> blocked fc !! src = Some t ->
  exists fc' k' out, runJanitor fc k now = Some (fc', k', out) /\
    ((blocked fc' !! src = Some t /\ blocked_entry k' addr = Some [1; 0; 0; 0] /\ (now <= t \/ failed_in out src)) \/
     (t < now /\ lifted fc' k' src addr)).
Proof.
  intros Hw He Hn Hb. destruct (names_addr _ _ Hn) as (_ & Ha & _).
  destruct (runJanitor_spec fc k now Hw (enforced_tracked _ _ He)) as (fc' & k' & out & E & _ & _ & Hsweep & _).
  exists fc', k', out. split; [done|]. pose proof (janitor_enforced _ _ _ _ _ _ Hw He E) as He'. specialize (Hsweep _ _ Hb).
  assert (Hstay : blocked fc' !! src = Some t -> blocked_entry k' addr = Some [1; 0; 0; 0]).
  { intros Hr. destruct (He' _ _ Hr) as (ad & Had & Hent). destruct (names_addr _ _ Had) as (_ & Ead & _). congruence. }
  destruct (Z.ltb_spec t now) as [Hlt|Hge]; [|left; auto].
  destruct Hsweep as [(_ & Hgone & Hent)|[Hf Hr]]; [right|left; auto]. rewrite Ha in Hent. by split.
Qed.

(** C39: the daemon takes an operator's block over, and lifts it. In any state the daemon reaches
    among the commands of other processes, an operator blocks with [BlockIP] an address that
    the controller does not track. The address now has its entry, and as long as no
    alert names it, no sweep at any time removes it. But the first alert that
    names it, when it is in no safe network, is never skipped because of that entry: either
    the kernel refuses the second write, and the entry stays untracked, or the controller
    records the block as its own, for 300 s; then a sweep up to that time leaves
    it, and each later one removes the operator's entry and the record, unless the
    kernel refuses, and both stay for the next sweep. (The firewall reports the packets it drops and the aggregator counts
    them, so that a blocked source goes on causing alerts.) *)
Theorem operator_block_lifted (mgr m : MapManager) (h : Host) (k : kernel) (now : Z) (ops : list map_op) (d : daemon)
    (k0 : kernel) (addr : list Z) (alert : ThreatAlert) (t0 : Z) :
  wired mgr -> wired m -> shared (daemon_start mgr h k now) ops d -> Forall (fun o => o <> OpForeign) ops ->
  names (al_SrcIP alert) addr -> blocked (d_fc d) !! al_SrcIP alert = None ->
  BlockIP m (dotted addr +:+ "/32") (d_kernel d) = Some (k0, None) ->
  let fc := d_fc d in
  let src := al_SrcIP alert in
  let entry := Some [1; 0; 0; 0] in
  blocked_entry k0 addr = entry /\
  (forall now', exists fc' k' out, runJanitor fc k0 now' = Some (fc', k', out) /\ blocked_entry k' addr = entry) /\
  (isSafeNetwork fc (ParseIP src) = None ->
   exists fc1 k1 r, handle fc k0 alert t0 = Some (fc1, k1, r) /\ blocked_entry k1 addr = entry /\
     (((exists e, r = BlockFailed alert e) /\ blocked fc1 !! src = None) \/
      (r = OnBlock alert /\ blocked fc1 !! src = Some (t0 + BlockTTL) /\
       forall now', exists fc2 k2 out, runJanitor fc1 k1 now' = Some (fc2, k2, out) /\
         ((blocked fc2 !! src = Some (t0 + BlockTTL) /\ blocked_entry k2 addr = entry /\ (now' <= t0 + BlockTTL \/ failed_in out src)) \/
          (t0 + BlockTTL < now' /\ lifted fc2 k2 src addr))))).
Proof.
  intros Hw Hwm Hr Hops Hn Hnone Eb fc src entry. pose proof (names_addr _ _ Hn) as (Hs & Haddr & _).
  destruct (shared_loop_ok mgr h k now ops d Hw Hops Hr) as [He _ _].
  destruct (shared_ok mgr h k now ops d Hw Hr) as [_ []]. fold fc in He, i_wired, Hnone |- *.
  pose proof (op_enforced (OpBlockIP (dotted addr +:+ "/32")) fc (d_kernel d) k0 ltac:(discriminate)
    (ex_intro _ m (ex_intro _ None (conj Hwm Eb))) He) as He0.
  assert (Hent : blocked_entry k0 addr = entry).
  { destruct Hn as [Hf _]. destruct (four_bytes_quad addr Hf) as (a & b & c & e & ->). destruct Hf as [_ Hb].
    destruct (BlockIP_entry m (d_kernel d) _ _ Hwm (NewLpmKey_dotted32 a b c e Hb) eq_refl) as (k' & e' & E & Hk).
    rewrite Eb in E. injection E as <- <-. unfold blocked_entry. rewrite Hk, decide_True by done. apply lookup_insert_eq. }
  split; [exact Hent|]. split; [intros now'; by eapply sweep_untracked|]. intros Hsafe.
  destruct (handle_handled fc k0 alert t0 i_wired Hs) as (fc1 & k1 & r & E & Hh). exists fc1, k1, r. split; [exact E|].
  pose proof (handled_enforced _ _ _ _ _ _ _ _ Hn He0 Hh) as He1. destruct (handled_frame _ _ _ _ _ _ _ Hh) as [Em _].
  destruct r; simpl in Hh; try done; destruct Hh as (-> & Hh).
  - destruct Hh as (Hnil & _). unfold alert_addr in Haddr. rewrite Hnil in Haddr. destruct Hn as [[Hl _] _]. by rewrite <- Haddr in Hl.
  - destruct Hh as (Hs' & _). fold src in Hs'. by rewrite Hsafe in Hs'.
  - destruct Hh as (_ & (t & Ht & _) & _). by rewrite Hnone in Ht.
  - destruct Hh as (_ & _ & -> & Hk). split; [unfold blocked_entry; by rewrite Hk|]. left. split; [by eexists|]. apply lookup_delete_eq.
  - destruct Hh as (_ & _ & _ & Efc & Hadd). assert (Hrec : blocked fc1 !! src = Some (t0 + BlockTTL)) by (rewrite Efc; apply lookup_insert_eq).
    split; [erewrite added_entry by done; by rewrite decide_True|]. right. split; [done|]. split; [exact Hrec|].
    intros now'. apply sweep_tracked; [by rewrite Em|done..].
Qed.
End dataplane.

(** ** Examples *)

(** The operator blocks a prefix, then a port, on the simulated kernel. *)
Lemma commands_operations_witness :
  exists k' out ops, @run_command sim_ebpf sim_env (CmdBlock "10.0.0.1/32") (sim_start []) = Some (k', out, Returned) /\
    @ops_steps sim_ebpf sim_laws ops (sim_start []) k' /\ Forall (ops_of (CmdBlock "10.0.0.1/32")) ops.
Proof.
  destruct (@run_command sim_ebpf sim_env (CmdBlock "10.0.0.1/32") (sim_start [])) as [[[k' out] st]|] eqn:E;
    [|vm_compute in E; discriminate].
  assert (Hst : st = Returned) by (vm_compute in E; congruence). subst st.
  destruct (@commands_operations sim_ebpf sim_laws sim_env (CmdBlock "10.0.0.1/32") (sim_start []) k' out Returned
    ltac:(discriminate) (fun _ => eq_refl) E) as (ops & Hs & Hf).
  exists k', out, ops. split; [reflexivity|]. split; [exact Hs|exact Hf].
Defined.

Lemma reachable_shared `{EbpfLaws, MapRange, GoMath} d0 d : reachable d0 d -> shared d0 [] d.
Proof. induction 1; [constructor|by eapply shared_own]. Qed.

(** The operator's command, beside the daemon. *)
Definition block_with (m : @MapManager sim_ebpf) (cidr : string) (k : sim_kernel) : sim_kernel :=
  match @BlockIP sim_ebpf m cidr k with Some (k', _) => k' | None => k end.

Lemma block_with_step m cidr k : @wired sim_ebpf sim_laws m -> @op_step sim_ebpf sim_laws (OpBlockIP cidr) k (block_with m cidr k).
Proof.
  intros Hw. destruct (@BlockIP_total sim_ebpf sim_laws m cidr k Hw) as (k' & e & E & _).
  exists m, e. split; [exact Hw|]. unfold block_with. by rewrite E.
Qed.

(** Cancelled, after an operator has blocked the loopback network. *)
Definition sim_shared (k : sim_kernel) : @daemon sim_ebpf := @set_kernel sim_ebpf sim_cancelled k.
Definition sim_blocks : list map_op := [OpBlockIP "127.0.0.1/32"].

Lemma sim_shared_reached :
  @shared sim_ebpf sim_laws list_order sample_math sim_daemon sim_blocks
    (sim_shared (block_with sim_manager "127.0.0.1/32" (d_kernel sim_cancelled))).
Proof.
  unfold sim_shared, sim_blocks. eapply shared_other; [apply reachable_shared, sim_reaches|].
  apply block_with_step, sim_wired.
Qed.

Lemma shared_daemon_sound_witness :
  exists d', @self_steps sim_ebpf list_order sample_math
      (sim_shared (block_with sim_manager "127.0.0.1/32" (d_kernel sim_cancelled))) d' /\ d_main d' = MReturned.
Proof.
  destruct (@shared_daemon_sound sim_ebpf sim_laws list_order sample_math sim_manager sim_host (sim_start []) 0 sim_blocks _
    sim_wired sim_shared_reached) as (_ & _ & _ & _ & H).
  destruct (H eq_refl) as (d' & Hs & Hm). exists d'. split; [exact Hs|exact Hm].
Defined.

Lemma safe_blocked_only_by_request_witness :
  @asked_for sim_ebpf sim_laws sim_blocks [127; 0; 0; 1].
Proof.
  destruct (@safe_blocked_only_by_request sim_ebpf sim_laws list_order sample_math sim_manager sim_host (sim_start []) 0 sim_blocks _
    (mkIPNet [127; 0; 0; 0] [255; 0; 0; 0]) 127 0 0 1 sim_wired sim_shared_reached) as [Hn|Ha].
  - repeat constructor. discriminate.
  - vm_compute. apply list_elem_of_here.
  - vm_compute. reflexivity.
  - vm_compute. reflexivity.
  - vm_compute in Hn. discriminate.
  - exact Ha.
Defined.

(** The daemon has blocked the flood's source; then an operator blocks another. *)
Lemma tracked_stopped_among_commands_witness :
  exists d, @shared sim_ebpf sim_laws list_order sample_math
      (@daemon_start sim_ebpf sim_manager sim_host (sim_start []) 0) [OpBlockIP "192.0.2.7/32"] d /\
    fst (run_packet 0 (d_kernel d)) = XDP_DROP.
Proof.
  assert (Hb : blocked (d_fc (sim_flooded (sim_start []))) !! dotted [10; 0; 0; 1] = Some (1000 + BlockTTL)) by (vm_compute; reflexivity).
  assert (Hd : @dry_run_mode sim_helpers (sim_dataplane (block_with sim_manager "192.0.2.7/32" (d_kernel (sim_flooded (sim_start []))))) = false)
    by (vm_compute; reflexivity).
  pose proof (sim_flooded_reachable (sim_start [])) as Hr. revert Hb Hd Hr. generalize (sim_flooded (sim_start [])) as d.
  intros d Hb Hd Hr. set (k' := block_with sim_manager "192.0.2.7/32" (d_kernel d)) in *.
  assert (Hs : @shared sim_ebpf sim_laws list_order sample_math (@daemon_start sim_ebpf sim_manager sim_host (sim_start []) 0)
    [OpBlockIP "192.0.2.7/32"] (@set_kernel sim_ebpf d k')).
  { eapply shared_other; [by apply reachable_shared|]. apply block_with_step, sim_wired. }
  exists (@set_kernel sim_ebpf d k'). split; [exact Hs|].
  destruct (@tracked_stopped_among_commands sim_helpers sim_helper_laws sim_ebpf sim_laws list_order sample_math sim_manager sim_host
    (sim_start []) 0 _ _ _ _ sim_wired Hs ltac:(repeat constructor; discriminate) Hb) as (addr & Hn & Hstop).
  assert (Ha : addr = [10; 0; 0; 1]) by (destruct (names_addr _ _ Hn) as (_ & <- & _); vm_compute; reflexivity).
  subst addr. apply stopped_sim; [exact Hstop|exact Hd].
Defined.

(** The monitor runs beside the daemon until its ring buffer is closed. *)
Lemma monitor_blinds_daemon_witness :
  exists k' out, @MonitorEvents sim_ebpf sim_manager LogLevelInfo None sample_events (fun k => k) (d_kernel sim_cancelled) =
      Some (k', out, Some None) /\
    forall data time s, @dp_entries sim_helpers s (pinned "config_map") = sim_maps k' (pinned "config_map") ->
      @dp_events sim_helpers (snd (@ai_ida_firewall sim_helpers data time s)) = @dp_events sim_helpers s.
Proof.
  assert (Hm : option_map (fun '(k, _, ret) => (ret, sim_maps k (pinned "config_map") !! le_split 4 0))
    (@MonitorEvents sim_ebpf sim_manager LogLevelInfo None sample_events (fun k => k) (d_kernel sim_cancelled)) =
    Some (Some None, Some (le_split 4 LogLevelOff))) by (vm_compute; reflexivity).
  pose proof (@reachable_shared sim_ebpf sim_laws list_order sample_math _ _ sim_reaches) as Hr. revert Hm Hr. unfold sim_daemon.
  generalize sim_cancelled as d. generalize (sim_start []) as k. generalize sample_events as evs. intros evs k d Hm Hr.
  destruct (@MonitorEvents sim_ebpf sim_manager LogLevelInfo None evs (fun k => k) (d_kernel d))
    as [[[k' out] ret]|] eqn:Em; [|discriminate]. simpl in Hm. injection Hm as -> Hreg.
  exists k', out. split; [reflexivity|].
  destruct (@monitor_blinds_daemon sim_helpers sim_helper_laws sim_ebpf sim_laws list_order sample_math sim_manager sim_manager sim_host
    k 0 [] d LogLevelInfo None evs k' out sim_wired sim_wired Hr Em) as [_ Hoff].
  intros data time s Hs. apply (Hoff Hreg [] (@set_kernel sim_ebpf d k')); [constructor|constructor|exact Hs].
Defined.

(** The operator blocks 10.0.0.1 beside a daemon that has been told nothing yet; after
    an alert, the daemon lifts the block. *)
Definition sim_manual : sim_kernel := block_with sim_manager "10.0.0.1/32" (d_kernel sim_daemon).

Lemma operator_block_lifted_witness :
  let fc := d_fc sim_daemon in
  exists fc1 k1 fc2 k2 out,
    @handle sim_ebpf fc sim_manual (sim_alert "10.0.0.1") 0 = Some (fc1, k1, OnBlock (sim_alert "10.0.0.1")) /\
    @runJanitor sim_ebpf list_order fc1 k1 (301 * 1000000000) = Some (fc2, k2, out) /\
    @blocked_entry sim_ebpf sim_laws sim_manual [10; 0; 0; 1] = Some [1; 0; 0; 0] /\
    blocked fc2 !! "10.0.0.1"%string = None /\ @blocked_entry sim_ebpf sim_laws k2 [10; 0; 0; 1] = None.
Proof.
  cbv zeta.
  assert (Hr : option_map (fun '(fc1, k1, r) => (r, option_map (fun '(fc2, _, _) => blocked fc2 !! "10.0.0.1"%string)
      (@runJanitor sim_ebpf list_order fc1 k1 (301 * 1000000000)))) (@handle sim_ebpf (d_fc sim_daemon) sim_manual (sim_alert "10.0.0.1") 0) =
    Some (OnBlock (sim_alert "10.0.0.1"), Some None)) by (vm_compute; reflexivity).
  destruct (@operator_block_lifted sim_ebpf sim_laws list_order sample_math sim_manager sim_manager sim_host (sim_start []) 0 []
    sim_daemon sim_manual [10; 0; 0; 1] (sim_alert "10.0.0.1") 0 sim_wired sim_wired (shared_start _) (Forall_nil_2 _))
    as (Hent & _ & Hal);
    [split; [split; [reflexivity|repeat constructor; lia]|reflexivity]|reflexivity|vm_compute; reflexivity|].
  specialize (Hal ltac:(vm_compute; reflexivity)). revert Hr Hent Hal. generalize sim_manual as k0. generalize (d_fc sim_daemon) as fc.
  change (al_SrcIP (sim_alert "10.0.0.1")) with "10.0.0.1"%string. generalize (sim_alert "10.0.0.1") as al.
  intros al fc k0 Hr Hent (fc1 & k1 & r & Eh & _ & Hcase). rewrite Eh in Hr. cbn [option_map] in Hr.
  destruct Hcase as [[[e Er] _]|(Er & _ & Hsweep)]; rewrite Er in Hr, Eh; [discriminate Hr|].
  destruct (Hsweep (301 * 1000000000)) as (fc2 & k2 & out & Ej & Hc). rewrite Ej in Hr. injection Hr as Hgone.
  exists fc1, k1, fc2, k2, out. split; [exact Eh|]. split; [exact Ej|]. split; [exact Hent|].
  destruct Hc as [(Hkept & _)|(_ & Hnone & _)]; [rewrite Hkept in Hgone; discriminate Hgone|split; [exact Hgone|exact Hnone]].
Defined.
