(* ===== verification/FineGrained.v ===== *)
(** * The controller, one critical section at a time

    In [Daemon] a call of [handle] or [runJanitor] is one step. Here the
    goroutine of [FeedbackController.Run] stops between the sections of [fc.mu]
    and the kernel calls, and the other goroutines and the other processes move
    at each stop. Left alone, the daemon reaches nothing new ([sections_atomic]);
    among the other processes, which do see the stops, the safety of the daemon is
    proved at this granularity. *)

From S2P Require Import Prelude GoStrings GoNet Contracts Float64 Flow Trees EbpfMap MapManager Feedback Daemon Monitor XdpInspector Cli Packet Firewall EndToEnd ClosedLoop Interference.
From Stdlib Require Import Ascii.

Section fine.
Context `{Ebpf, MapRange, GoMath}.

(** Where the goroutine is. *)
Inductive section_pc :=
  | GSelect                                        (* the select of Run *)
  | GAlert (alert : ThreatAlert)                   (* handle has been called *)
  | GBlock (alert : ThreatAlert)                   (* the record is made; before BlockIP *)
  | GForget (alert : ThreatAlert) (err : error)    (* BlockIP failed; before the record is deleted *)
  | GSweep (expired : list string)                 (* the loop of runJanitor *)
  | GRelease (ip : string) (expired : list string). (* UnblockIP succeeded; before the record is deleted *)

(** [handle] up to the release of [fc.mu]: [None] when it has returned. *)
Definition enter_record (fc : FeedbackController) (alert : ThreatAlert) (now : Z) : option FeedbackController :=
  let src := al_SrcIP alert in
  let ip := ParseIP src in
  if bool_decide (ip = []) then None
  else match isSafeNetwork fc ip with
  | Some _ => None
  | None =>
      match blocked fc !! src with
      | Some expiresAt => if now <? expiresAt then None else Some (set_blocked fc (<[src := now + BlockTTL]> (blocked fc)))
      | None => Some (set_blocked fc (<[src := now + BlockTTL]> (blocked fc)))
      end
  end.

Definition drop_record (fc : FeedbackController) (src : string) : FeedbackController :=
  set_blocked fc (delete src (blocked fc)).

(** The next section or kernel call, and where it leads. *)
Definition next_section (fc : FeedbackController) (k : kernel) (pc : section_pc) (now : Z)
    : option (FeedbackController * kernel * section_pc) :=
  match pc with
  | GSelect => Some (fc, k, GSelect)
  | GAlert alert =>
      match enter_record fc alert now with
      | Some fc' => Some (fc', k, GBlock alert)
      | None => Some (fc, k, GSelect)
      end
  | GBlock alert =>
      '(k', err) ← BlockIP (fc_mgr fc) (al_SrcIP alert +:+ "/32") k;
      Some (fc, k', match err with Some err => GForget alert err | None => GSelect end)
  | GForget alert _ => Some (drop_record fc (al_SrcIP alert), k, GSelect)
  | GSweep [] => Some (fc, k, GSelect)
  | GSweep (ip :: expired) =>
      '(k', err) ← UnblockIP (fc_mgr fc) (ip +:+ "/32") k;
      Some (fc, k', match err with Some _ => GSweep expired | None => GRelease ip expired end)
  | GRelease ip expired => Some (drop_record fc ip, k, GSweep expired)
  end.

(** The rest of the call, in one go. *)
Definition rest_of_call (fc : FeedbackController) (k : kernel) (pc : section_pc) (now : Z)
    : option (FeedbackController * kernel) :=
  match pc with
  | GSelect => Some (fc, k)
  | GAlert alert => option_map fst (handle fc k alert now)
  | GBlock alert =>
      '(k', err) ← BlockIP (fc_mgr fc) (al_SrcIP alert +:+ "/32") k;
      Some (match err with Some _ => drop_record fc (al_SrcIP alert) | None => fc end, k')
  | GForget alert _ => Some (drop_record fc (al_SrcIP alert), k)
  | GSweep expired => option_map fst (janitor_loop fc k expired)
  | GRelease ip expired => option_map fst (janitor_loop (drop_record fc ip) k expired)
  end.

(** A section does the first part of what is left of the call. *)
Lemma next_section_rest fc k pc now fc' k' pc' later :
  next_section fc k pc now = Some (fc', k', pc') -> rest_of_call fc' k' pc' later = rest_of_call fc k pc now.
Proof.
  destruct pc as [|al|al|al err|[|ip ips]|ip ips]; simpl; intros E; try by injection E as <- <- <-.
  - unfold enter_record in E. unfold handle. case_bool_decide; [by injection E as <- <- <-|].
    destruct (isSafeNetwork fc _); [by injection E as <- <- <-|].
    assert (Hb : forall fc1, rest_of_call fc1 k (GBlock al) later =
      option_map fst ('(k, err) ← BlockIP (fc_mgr fc1) (al_SrcIP al +:+ "/32") k;
        match err with Some err => Some (drop_record fc1 (al_SrcIP al), k, BlockFailed al err) | None => Some (fc1, k, OnBlock al) end))
      by (intros fc1; simpl; by destruct (BlockIP _ _ _) as [[? []]|]).
    destruct (blocked fc !! al_SrcIP al) as [t|]; [destruct (now <? t); [by injection E as <- <- <-|]|]; injection E as <- <- <-; apply Hb.
  - destruct (BlockIP _ _ _) as [[k1 [err|]]|]; [by injection E as <- <- <-..|done].
  - destruct (UnblockIP _ _ _) as [[k1 [err|]]|]; simpl in *; [..|done]; injection E as <- <- <-; simpl.
    + by destruct (janitor_loop fc k1 ips) as [[[? ?] ?]|].
    + unfold drop_record. by destruct (janitor_loop _ k1 ips) as [[[? ?] ?]|].
Qed.

(** The daemon with the controller inside a call. While it is, [d_fcpc] is
    [FSelect], and the alert handled has left the channel. *)
Record fine := mkFine { f_daemon : daemon; f_pc : section_pc }.

(** A step of the controller's goroutine. *)
Inductive controller_step (g : fine) : who -> option fine -> Prop :=
  | g_cancelled :
      f_pc g = GSelect -> d_fcpc (f_daemon g) = FSelect -> d_cancelled (f_daemon g) = true ->
      controller_step g Self (Some (mkFine (set_fc (f_daemon g) (d_kernel (f_daemon g)) (d_fc (f_daemon g)) (d_alerts (f_daemon g)) FDone) GSelect))
  | g_closed :
      f_pc g = GSelect -> d_fcpc (f_daemon g) = FSelect -> d_alerts (f_daemon g) = [] -> d_alerts_closed (f_daemon g) = true ->
      controller_step g Self (Some (mkFine (set_fc (f_daemon g) (d_kernel (f_daemon g)) (d_fc (f_daemon g)) [] FDone) GSelect))
  | g_receive al rest :
      f_pc g = GSelect -> d_fcpc (f_daemon g) = FSelect -> d_alerts (f_daemon g) = al :: rest ->
      controller_step g Self (Some (mkFine (set_fc (f_daemon g) (d_kernel (f_daemon g)) (d_fc (f_daemon g)) rest FSelect) (GAlert al)))
  | g_tick now :
      f_pc g = GSelect -> d_fcpc (f_daemon g) = FSelect ->
      controller_step g Env (Some (mkFine (f_daemon g) (GSweep (expired_at now (blocked (d_fc (f_daemon g)))))))
  | g_section now :
      f_pc g <> GSelect ->
      controller_step g Self
        (option_map (fun '(fc, k, pc) => mkFine (set_fc (f_daemon g) k fc (d_alerts (f_daemon g)) (d_fcpc (f_daemon g))) pc)
           (next_section (d_fc (f_daemon g)) (d_kernel (f_daemon g)) (f_pc g) now)).

(** A step of another goroutine. *)
Inductive other_step (d : daemon) (w : who) (o : option daemon) : Prop :=
  | other_main : main_step d w o -> other_step d w o
  | other_agg : agg_step d w o -> other_step d w o
  | other_inf : inf_step d w o -> other_step d w o
  | other_sig : sig_step d w o -> other_step d w o.

Inductive fine_step (g : fine) : who -> option fine -> Prop :=
  | fine_other w o : other_step (f_daemon g) w o -> fine_step g w (option_map (fun d => mkFine d (f_pc g)) o)
  | fine_controller w o : controller_step g w o -> fine_step g w o.

Definition fine_start (d : daemon) : fine := mkFine d GSelect.

End fine.

Section atomic.
Context `{EbpfLaws, MapRange, GoMath}.

(** Runs, among the operations of the other processes, the last one first;
    [fine_shared g0 []] is a run of the daemon alone. *)
Inductive fine_shared (g0 : fine) : list map_op -> fine -> Prop :=
  | fine_begin : fine_shared g0 [] g0
  | fine_own ops g w g' : fine_shared g0 ops g -> fine_step g w (Some g') -> fine_shared g0 ops g'
  | fine_op ops g o k' :
      fine_shared g0 ops g -> op_step o (d_kernel (f_daemon g)) k' ->
      fine_shared g0 (o :: ops) (mkFine (set_kernel (f_daemon g) k') (f_pc g)).

(** ** The sections of a call, as one step *)

(** The daemon with another controller and kernel. *)
Definition set_controller (d : daemon) (fc : FeedbackController) (k : kernel) : daemon :=
  set_fc d k fc (d_alerts d) (d_fcpc d).

Lemma set_controller_id d : set_controller d (d_fc d) (d_kernel d) = d.
Proof. by destruct d. Qed.

(** The other goroutines neither see nor change the controller and the kernel. *)
Lemma other_frame d w d' :
  other_step d w (Some d') -> d_fc d' = d_fc d /\ d_kernel d' = d_kernel d /\ d_fcpc d' = d_fcpc d.
Proof.
  intros [Hs|Hs|Hs|Hs]; inversion Hs; subst; clear Hs; try done;
    match goal with
    | E : option_map _ ?o = Some _ |- _ => destruct o; [injection E as <-; done|discriminate E]
    | E : (if ?x then None else Some _) = Some _ |- _ => destruct x; [discriminate E|injection E as <-; done]
    end.
Qed.

Lemma other_commutes d w d' fc k :
  other_step d w (Some d') -> daemon_step (set_controller d fc k) w (Some (set_controller d' fc k)).
Proof.
  intros [Hs|Hs|Hs|Hs]; [apply step_main|apply step_agg|apply step_inf|apply step_sig]; inversion Hs; subst; clear Hs.
  - by eapply (read_bad (set_controller d fc k)).
  - by eapply (read_record (set_controller d fc k)).
  - by apply (ingest_ports (set_controller d fc k)).
  - by apply (read_error (set_controller d fc k)).
  - by apply (read_closed (set_controller d fc k)).
  - by apply (main_cancel (set_controller d fc k)).
  - by apply (main_wait (set_controller d fc k)).
  - by apply (caller_cancel (set_controller d fc k)).
  - by apply (agg_tick (set_controller d fc k)).
  - by apply (agg_cancelled (set_controller d fc k)).
  - by apply (agg_port_shard (set_controller d fc k)).
  - by eapply (agg_ports_done (set_controller d fc k)).
  - by apply (agg_flow_shard (set_controller d fc k)).
  - destruct (emit _ _) as [a|] eqn:Ea; [|done].
    match goal with E : _ = Some d' |- _ => injection E as <- end.
    pose proof (agg_emit (set_controller d fc k)) as Hs. simpl in Hs.
    match goal with E : d_aggpc d = _ |- _ => specialize (Hs _ _ _ _ _ _ _ E) end. by rewrite Ea in Hs.
  - by apply (agg_shard_done (set_controller d fc k)).
  - by eapply (agg_flush_done (set_controller d fc k)).
  - destruct (out_closed (d_agg d)) eqn:Ho; [done|].
    match goal with E : _ = Some d' |- _ => injection E as <- end.
    pose proof (agg_close (set_controller d fc k)) as Hs. simpl in Hs. rewrite Ho in Hs. by apply Hs.
  - by eapply (inf_recv (set_controller d fc k)).
  - by apply (inf_closed (set_controller d fc k)).
  - destruct (d_alerts_closed d) eqn:Ho; [done|].
    match goal with E : _ = Some d' |- _ => injection E as <- end.
    pose proof (inf_send (set_controller d fc k)) as Hs. simpl in Hs. rewrite Ho in Hs. by apply Hs.
  - by eapply (inf_cancelled (set_controller d fc k)).
  - destruct (d_alerts_closed d) eqn:Ho; [done|].
    match goal with E : _ = Some d' |- _ => injection E as <- end.
    pose proof (inf_close (set_controller d fc k)) as Hs. simpl in Hs. rewrite Ho in Hs. by apply Hs.
  - by apply (sig_received (set_controller d fc k)).
  - by apply (sig_cancel (set_controller d fc k)).
  - by apply (sig_ctx_done (set_controller d fc k)).
Qed.

Lemma other_coarse d w o : other_step d w o -> daemon_step d w o.
Proof. intros [?|?|?|?]; [by apply step_main|by apply step_agg|by apply step_inf|by apply step_sig]. Qed.

(** How much of a call is left. *)
Definition section_weight (pc : section_pc) : nat :=
  match pc with
  | GSelect => 0
  | GAlert _ => 3
  | GBlock _ => 2
  | GForget _ _ => 1
  | GSweep expired => 1 + 2 * length expired
  | GRelease _ expired => 2 + 2 * length expired
  end.

Lemma next_section_weight fc k pc now fc' k' pc' :
  pc <> GSelect -> next_section fc k pc now = Some (fc', k', pc') -> (section_weight pc' < section_weight pc)%nat.
Proof.
  intros Hne. destruct pc as [|al|al|al err|[|ip ips]|ip ips]; simpl; intros E; simplify_eq/=; try lia.
  - destruct (enter_record _ _ _); injection E as <- <- <-; simpl; lia.
  - destruct (BlockIP _ _ _) as [[k1 [err|]]|]; [injection E as <- <- <-..|done]; simpl; lia.
  - destruct (UnblockIP _ _ _) as [[k1 [err|]]|]; [injection E as <- <- <-..|done]; simpl; lia.
Qed.

Lemma rest_next fc k pc now r : rest_of_call fc k pc now = Some r -> exists x, next_section fc k pc now = Some x.
Proof.
  destruct pc as [|al|al|al err|[|ip ips]|ip ips]; simpl; intros E; try by eexists.
  - by destruct (enter_record _ _ _); eexists.
  - destruct (BlockIP _ _ _) as [[]|]; [by eexists|done].
  - destruct (UnblockIP _ _ _) as [[]|]; [by eexists|done].
Qed.

(** A call that is left alone runs to its end. *)
Lemma call_runs g0 ops d fc k pc now fc' k' :
  fine_shared g0 ops (mkFine (set_controller d fc k) pc) -> rest_of_call fc k pc now = Some (fc', k') ->
  fine_shared g0 ops (mkFine (set_controller d fc' k') GSelect).
Proof.
  remember (section_weight pc) as n eqn:En. revert pc fc k En. induction (lt_wf n) as [n _ IH]. intros pc fc k -> Hr E.
  destruct (rest_next _ _ _ _ _ E) as [[[fc1 k1] pc1] E1].
  assert (Hpc : pc = GSelect \/ pc <> GSelect) by (destruct pc; auto; right; discriminate).
  destruct Hpc as [->|Hne]; [simpl in E; by injection E as -> ->|].
  eapply (IH _ (next_section_weight _ _ _ _ _ _ _ Hne E1) pc1 fc1 k1); [done| |].
  - eapply fine_own; [exact Hr|]. apply fine_controller.
    pose proof (g_section (mkFine (set_controller d fc k) pc) now Hne) as Hs. simpl in Hs. by rewrite E1 in Hs.
  - by rewrite (next_section_rest _ _ _ _ _ _ _ now E1).
Qed.

Lemma coarse_fine d0 d : reachable d0 d -> fine_shared (fine_start d0) [] (fine_start d).
Proof.
  induction 1 as [|d d' w _ IH Hs]; [constructor|].
  assert (Hother : other_step d w (Some d') -> fine_shared (fine_start d0) [] (fine_start d')).
  { intros Ho. eapply fine_own; [exact IH|]. apply (fine_other (fine_start d) w (Some d') Ho). }
  destruct Hs as [Hs|Hs|Hs|Hs|Hs];
    [by apply Hother, other_main|by apply Hother, other_agg|by apply Hother, other_inf| |by apply Hother, other_sig].
  inversion Hs as [Hpc Hc|now Hpc Hw E|al rest now Hpc Ha Hw E|Hpc Ha Hc]; subst; clear Hs.
  - eapply fine_own; [exact IH|]. by apply fine_controller, g_cancelled.
  - destruct (runJanitor _ _ _) as [[[fc k] out]|] eqn:Ej; [|done]. injection E as <-. rewrite <- Hpc.
    eapply (call_runs _ _ d (d_fc d) (d_kernel d) (GSweep (expired_at now (blocked (d_fc d)))) now).
    + rewrite set_controller_id. eapply fine_own; [exact IH|]. by apply fine_controller, g_tick.
    + unfold runJanitor in Ej. simpl. by rewrite Ej.
  - destruct (handle _ _ _ _) as [[[fc k] r]|] eqn:Eh; [|done]. injection E as <-.
    apply (call_runs _ _ (set_fc d (d_kernel d) (d_fc d) rest FSelect) (d_fc d) (d_kernel d) (GAlert al) now).
    + eapply fine_own; [exact IH|]. by apply fine_controller, (g_receive (fine_start d) al rest).
    + simpl. by rewrite Eh.
  - eapply fine_own; [exact IH|]. by apply fine_controller, g_closed.
Qed.

(** Completing the call in progress gives a state the daemon reaches with its
    calls in one step. *)
Lemma fine_coarse mgr h k0 t0 g :
  wired mgr -> fine_shared (fine_start (daemon_start mgr h k0 t0)) [] g ->
  forall now, exists fc k, rest_of_call (d_fc (f_daemon g)) (d_kernel (f_daemon g)) (f_pc g) now = Some (fc, k) /\
    reachable (daemon_start mgr h k0 t0) (set_controller (f_daemon g) fc k).
Proof.
  intros Hw Hr. remember [] as ops eqn:Eops. induction Hr as [|ops g w g' Hr IH Hs|ops g o k' Hr _ Hs]; [| |discriminate].
  { intros now. eexists _, _. split; [reflexivity|]. simpl. rewrite set_controller_id. constructor. }
  specialize (IH Eops). inversion Hs as [w' o Ho Hw' E|w' o Hc]; subst; clear Hs.
  - destruct o as [d'|]; [|done]. injection E as <-. intros now. destruct (IH now) as (fc & k & E & Hreach).
    destruct (other_frame _ _ _ Ho) as (Hfc & Hk & _). exists fc, k. split; [by simpl; rewrite Hfc, Hk|].
    eapply reach_step; [exact Hreach|]. by eapply other_commutes.
  - assert (Hidle : f_pc g = GSelect -> reachable (daemon_start mgr h k0 t0) (f_daemon g)).
    { intros Hpc. destruct (IH 0) as (fc & k & E & Hreach). rewrite Hpc in E. injection E as <- <-. by rewrite set_controller_id in Hreach. }
    inversion Hc as [Hpc Hf Hcan|Hpc Hf Ha Hcl|al rest Hpc Hf Ha|now' Hpc Hf|now' Hne Hw' E]; subst; clear Hc; intros now; simpl.
    + eexists _, _. split; [reflexivity|]. eapply reach_step; [by apply Hidle|]. eapply step_fc. by apply (fc_cancelled (f_daemon g)).
    + eexists _, _. split; [reflexivity|]. eapply reach_step; [by apply Hidle|]. eapply step_fc. by apply (fc_closed (f_daemon g)).
    + destruct (reachable_ok mgr h k0 t0 _ Hw (Hidle Hpc)) as [_ []]. rewrite Ha in i_dotted.
      apply Forall_cons in i_dotted as [Hsl _].
      destruct (handle_handled (d_fc (f_daemon g)) (d_kernel (f_daemon g)) al now i_wired Hsl) as (fc & k & r & E & _).
      rewrite E. eexists _, _. split; [reflexivity|]. eapply reach_step; [by apply Hidle|]. apply step_fc.
      pose proof (fc_alert (f_daemon g) al rest now Hf Ha) as Hs. by rewrite E in Hs.
    + destruct (reachable_ok mgr h k0 t0 _ Hw (Hidle Hpc)) as [_ []].
      destruct (runJanitor_spec (d_fc (f_daemon g)) (d_kernel (f_daemon g)) now' i_wired i_tracked) as (fc & k & out & E & _).
      pose proof E as E'. unfold runJanitor in E'. rewrite E'. eexists _, _. split; [reflexivity|].
      eapply reach_step; [by apply Hidle|]. apply step_fc.
      pose proof (fc_janitor (f_daemon g) now' Hf) as Hs. rewrite E in Hs. simpl in Hs. unfold set_controller. by rewrite Hf.
    + destruct (next_section _ _ _ _) as [[[fc1 k1] pc1]|] eqn:E1; [|done]. injection E as <-.
      destruct (IH now') as (fc & k & E & Hreach). exists fc, k. split; [|exact Hreach].
      simpl. by rewrite (next_section_rest _ _ _ _ _ _ _ now E1).
Qed.

(** C6: a call of [handle] or [runJanitor] is atomic as far as the daemon itself
    is concerned. Stopping the controller between its critical sections and
    kernel calls, the other goroutines moving at each stop, reaches with the
    controller back at its select exactly the states in which each call is one
    step; and in the middle of a call, completing it never panics and
    leads to such a state. *)
Theorem sections_atomic (mgr : MapManager) (h : Host) (k0 : kernel) (t0 : Z) :
  wired mgr ->
  let d0 := daemon_start mgr h k0 t0 in
  (forall d, reachable d0 d <-> fine_shared (fine_start d0) [] (mkFine d GSelect)) /\
  (forall g now, fine_shared (fine_start d0) [] g -> exists fc k,
     rest_of_call (d_fc (f_daemon g)) (d_kernel (f_daemon g)) (f_pc g) now = Some (fc, k) /\
     reachable d0 (set_controller (f_daemon g) fc k)).
Proof.
  intros Hw d0. split; [intros d; split; [apply coarse_fine|]|intros g now Hr; by apply fine_coarse].
  intros Hr. destruct (fine_coarse mgr h k0 t0 _ Hw Hr 0) as (fc & k & E & Hreach). simpl in *.
  injection E as <- <-. by rewrite set_controller_id in Hreach.
Qed.
End atomic.

(** ** Among the other processes *)

Section among.
Context `{BpfHelperLaws, EbpfLaws, MapRange, GoMathLaws}.

Definition named_src (src : string) : Prop := exists addr, names src addr.

(** Whatever the controller holds names an address: its records, the alert it
    handles, the sources it sweeps. What it is about to block is not safe. *)
Record section_ok (fc : FeedbackController) (pc : section_pc) : Prop := {
  c_wired : wired (fc_mgr fc);
  c_records : forall src t, blocked fc !! src = Some t -> named_src src;
  c_pc : match pc with
         | GSelect => True
         | GAlert alert | GBlock alert | GForget alert _ => named_alert alert
         | GSweep expired => Forall named_src expired
         | GRelease ip expired => Forall named_src (ip :: expired)
         end;
  c_exempt : match pc with GBlock alert => isSafeNetwork fc (ParseIP (al_SrcIP alert)) = None | _ => True end
}.

(** What a section does. *)
Inductive section_effect (fc : FeedbackController) (k : kernel) :
    section_pc -> FeedbackController -> kernel -> section_pc -> Prop :=
  | e_return al : section_effect fc k (GAlert al) fc k GSelect
  | e_record al t :
      isSafeNetwork fc (ParseIP (al_SrcIP al)) = None ->
      section_effect fc k (GAlert al) (set_blocked fc (<[al_SrcIP al := t]> (blocked fc))) k (GBlock al)
  | e_blocked al addr k' :
      names (al_SrcIP al) addr -> added k k' addr -> section_effect fc k (GBlock al) fc k' GSelect
  | e_refused al err k' : entries k' = entries k -> section_effect fc k (GBlock al) fc k' (GForget al err)
  | e_forget al err : section_effect fc k (GForget al err) (drop_record fc (al_SrcIP al)) k GSelect
  | e_swept : section_effect fc k (GSweep []) fc k GSelect
  | e_unblocked ip ips addr k' :
      names ip addr -> removed k k' addr -> section_effect fc k (GSweep (ip :: ips)) fc k' (GRelease ip ips)
  | e_kept ip ips k' : entries k' = entries k -> section_effect fc k (GSweep (ip :: ips)) fc k' (GSweep ips)
  | e_release ip ips : section_effect fc k (GRelease ip ips) (drop_record fc ip) k (GSweep ips).

Lemma BlockIP_src m k src addr :
  wired m -> names src addr ->
  exists k' e, BlockIP m (src +:+ "/32") k = Some (k', e) /\
    match e with None => added k k' addr | Some _ => entries k' = entries k end.
Proof.
  intros Hw Hn. destruct (names_addr _ _ Hn) as (Hs & Ha & Hne). subst addr.
  pose proof (NewLpmKey_host src Hs (alert_addr_ParseIP _ Hne)) as Hkey. rewrite bool_decide_false in Hkey by done.
  apply (BlockIP_entry m k _ _ Hw Hkey), (alert_addr_length _ Hne).
Qed.

Lemma next_section_effect fc k pc now :
  section_ok fc pc -> pc <> GSelect ->
  exists fc' k' pc', next_section fc k pc now = Some (fc', k', pc') /\ section_effect fc k pc fc' k' pc'.
Proof.
  intros [Hw _ Hpc _] Hne. destruct pc as [|al|al|al err|[|ip ips]|ip ips]; simpl in *; [done| | | | | |].
  - destruct (enter_record fc al now) as [fc'|] eqn:E; eexists _, _, _; (split; [reflexivity|]); [|constructor].
    unfold enter_record in E. case_bool_decide; [done|]. destruct (isSafeNetwork _ _) eqn:Es; [done|].
    destruct (blocked fc !! _) as [t|]; [destruct (now <? t); [done|]|]; injection E as <-; by constructor.
  - destruct Hpc as [addr Hn]. destruct (BlockIP_src _ k _ _ Hw Hn) as (k' & e & -> & He).
    eexists _, _, _. split; [reflexivity|]. destruct e; [by constructor|by econstructor].
  - eexists _, _, _. split; [reflexivity|]. constructor.
  - eexists _, _, _. split; [reflexivity|]. constructor.
  - apply Forall_cons in Hpc as [[addr Hn] _]. destruct (names_addr _ _ Hn) as (Hs & Ha & Hna).
    destruct (UnblockIP_src (fc_mgr fc) k ip Hw Hs) as (k' & e & -> & He); [by rewrite Ha|]. rewrite Ha in He.
    eexists _, _, _. split; [reflexivity|]. destruct e; [by constructor|by econstructor].
  - eexists _, _, _. split; [reflexivity|]. constructor.
Qed.

Lemma section_effect_ok fc k pc fc' k' pc' :
  section_effect fc k pc fc' k' pc' -> section_ok fc pc ->
  section_ok fc' pc' /\ fc_mgr fc' = fc_mgr fc /\ safeNetworks fc' = safeNetworks fc.
Proof.
  intros He [Hw Hb Hpc Hex]. split; [|by destruct He].
  destruct He; simpl in *; split; simpl; try done; try (by apply Forall_cons in Hpc as [_ ?]).
  - intros src s [[<- _]|[_ Hs]]%lookup_insert_Some; [done|by eapply Hb].
  - intros src s [_ Hs]%lookup_delete_Some. by eapply Hb.
  - intros src s [_ Hs]%lookup_delete_Some. by eapply Hb.
Qed.

(** The source whose record and entry differ for the moment. *)
Definition in_progress (pc : section_pc) : option string :=
  match pc with
  | GBlock alert | GForget alert _ => Some (al_SrcIP alert)
  | GRelease ip _ => Some ip
  | _ => None
  end.

Definition enforced_but (pc : section_pc) (fc : FeedbackController) (k : kernel) : Prop :=
  forall src t, blocked fc !! src = Some t -> in_progress pc <> Some src ->
    exists addr, names src addr /\ blocked_entry k addr = Some [1; 0; 0; 0].

Lemma section_effect_enforced fc k pc fc' k' pc' :
  section_effect fc k pc fc' k' pc' -> section_ok fc pc -> enforced_but pc fc k -> enforced_but pc' fc' k'.
Proof.
  intros He [_ Hrec _ _] Hb src s Hs Hp.
  assert (Hsame : forall src s, blocked fc !! src = Some s -> in_progress pc <> Some src -> entries k' = entries k ->
    exists addr, names src addr /\ blocked_entry k' addr = Some [1; 0; 0; 0]).
  { intros src1 s1 Hs1 Hp1 Hk. unfold blocked_entry. rewrite Hk. by apply (Hb src1 s1). }
  destruct He as [al|al t Hsafe|al addr k' Hn Hadd|al err k' Hk|al err| |ip ips addr k' Hn Hrem|ip ips k' Hk|ip ips]; simpl in *;
    try (by eapply Hsame).
  - apply lookup_insert_Some in Hs as [[<- _]|[_ Hs]]; [done|by eapply Hsame].
  - destruct (decide (src = al_SrcIP al)) as [->|Hne].
    + exists addr. split; [done|]. rewrite (added_entry _ _ _ _ Hadd). by rewrite decide_True.
    + destruct (Hb src s Hs) as (a & Ha & Hent); [simpl; congruence|]. exists a. split; [done|].
      rewrite (added_entry _ _ _ _ Hadd). by case_decide.
  - apply lookup_delete_Some in Hs as [Hne Hs]. eapply Hsame; [exact Hs|simpl; congruence|done].
  - destruct (Hb src s Hs) as (a & Ha & Hent); [done|]. exists a. split; [done|].
    rewrite (removed_entry _ _ _ _ Hrem); [done|]. intros ->. apply Hp. f_equal. by eapply names_inj.
  - apply lookup_delete_Some in Hs as [Hne Hs]. eapply Hsame; [exact Hs|simpl; congruence|done].
Qed.

(** No section blocks a safe address. *)
Lemma section_effect_safe fc k pc fc' k' pc' n a b c e :
  section_effect fc k pc fc' k' pc' -> section_ok fc pc -> n ∈ safeNetworks fc -> Contains n (IPv4 a b c e) = true ->
  blocked_entry k [a; b; c; e] = None -> blocked_entry k' [a; b; c; e] = None.
Proof.
  intros He [_ _ _ Hex] Hn Hc Hb.
  destruct He as [al|al t Hsafe|al addr k' Hna Hadd|al err k' Hk|al err| |ip ips addr k' Hna Hrem|ip ips k' Hk|ip ips]; simpl in *;
    try done; try (unfold blocked_entry; by rewrite Hk).
  - rewrite (added_entry _ _ _ _ Hadd). case_decide as Ea; [exfalso|done].
    destruct (names_addr _ _ Hna) as (_ & Haddr & _). rewrite <- Ea in Haddr. unfold alert_addr in Haddr.
    apply (first_containing_None (safeNetworks fc) (ParseIP (al_SrcIP al)) n Hn); [|exact Hex].
    rewrite (Contains_To4 n _ (IPv4 a b c e)); [done|by rewrite To4_IPv4|by rewrite Haddr].
  - destruct (decide ([a; b; c; e] = addr)) as [<-|Hne].
    + unfold blocked_entry. rewrite Hrem, decide_True by done. apply lookup_delete_eq.
    + by rewrite (removed_entry _ _ _ _ Hrem).
Qed.

(** ** The daemon among the others *)

Record fine_ok (g : fine) : Prop := {
  g_control : control_ok (f_daemon g);
  g_data : data_ok (f_daemon g);
  g_alerts : Forall named_alert (d_alerts (f_daemon g));
  g_pending : forall al, d_inf (f_daemon g) = ISend al -> named_alert al;
  g_call : section_ok (d_fc (f_daemon g)) (f_pc g);
  g_select : f_pc g <> GSelect -> d_fcpc (f_daemon g) = FSelect
}.

Lemma set_controller_ok d fc k :
  control_ok d -> data_ok d -> wired (fc_mgr fc) -> (forall src t, blocked fc !! src = Some t -> named_src src) ->
  control_ok (set_controller d fc k) /\ data_ok (set_controller d fc k).
Proof.
  intros [] [] Hw Hn. split; split; try done.
  intros src t Hb. destruct (Hn src t Hb) as [addr Ha]. destruct (names_addr _ _ Ha) as (? & Ea & ?).
  split; [done|by rewrite Ea].
Qed.

(** What the other goroutines send names an address: they would with a
    controller that has no record. *)
Lemma other_alerts d w d' :
  control_ok d -> data_ok d -> other_step d w (Some d') ->
  Forall named_alert (d_alerts d) -> (forall al, d_inf d = ISend al -> named_alert al) ->
  Forall named_alert (d_alerts d') /\ (forall al, d_inf d' = ISend al -> named_alert al).
Proof.
  intros Hc Hd Hs Ha Hp. pose proof (i_wired d Hd) as Hw. set (fc := set_blocked (d_fc d) ∅).
  destruct (set_controller_ok d fc (d_kernel d) Hc Hd Hw) as [_ Hd1]; [intros src t; simpl; by intros ?%lookup_empty_Some|].
  assert (Hl : loop_ok (set_controller d fc (d_kernel d))) by (split; [intros src t; simpl; by intros ?%lookup_empty_Some|done..]).
  by destruct (loop_step _ _ _ Hd1 Hl (other_commutes _ _ _ _ _ Hs)) as [_ ? ?].
Qed.

(** No step panics, and each keeps the invariant. *)
Lemma fine_step_ok g w o : fine_ok g -> fine_step g w o -> exists g', o = Some g' /\ fine_ok g'.
Proof.
  intros [Hc Hd Ha Hp Hcall Hsel] Hs. inversion Hs as [w' [d'|] Ho|w' o' Hctl]; subst; clear Hs.
  - eexists. split; [reflexivity|]. destruct (other_alerts _ _ _ Hc Hd Ho Ha Hp). destruct (other_frame _ _ _ Ho) as (Ef & _ & Epc).
    pose proof (other_coarse _ _ _ Ho) as Hst.
    split; simpl; rewrite ?Ef, ?Epc; try done; [by eapply control_step|by eapply data_step].
  - destruct (step_not_panic _ _ _ Hc Hd (other_coarse _ _ _ Ho)). done.
  - destruct Hcall as [Hw Hrec Hpc Hex].
    inversion Hctl as [Hg Hf Hcan|Hg Hf Hal Hcl|al rest Hg Hf Hal|now Hg Hf|now Hne Hw' E]; subst; clear Hctl.
    + eexists. split; [reflexivity|]. assert (Hst := fc_cancelled _ Hf Hcan). apply step_fc in Hst.
      split; simpl; try done; [by eapply control_step|by eapply data_step].
    + eexists. split; [reflexivity|]. assert (Hst := fc_closed _ Hf Hal Hcl). apply step_fc in Hst.
      split; simpl; try done; [by eapply control_step|by eapply data_step].
    + eexists. split; [reflexivity|]. rewrite Hal in Ha. apply Forall_cons in Ha as [Hal1 Hrest].
      split; simpl; try done.
      * destruct Hc. split; simpl; intuition congruence.
      * destruct Hd; split; simpl in *; try done; rewrite Hal in *; [simpl in *; lia|by apply Forall_cons in i_dotted as [_ ?]].
    + eexists. split; [reflexivity|]. split; simpl; try done. split; simpl; try done.
      apply Forall_forall. intros src (t & Hb & _)%elem_expired_at. by eapply Hrec.
    + destruct (next_section_effect (d_fc (f_daemon g)) (d_kernel (f_daemon g)) (f_pc g) now) as (fc & k & pc & E & He); [by split|done|].
      rewrite E. eexists. split; [reflexivity|]. destruct (section_effect_ok _ _ _ _ _ _ He) as ([Hw1 Hrec1 Hpc1 Hex1] & _ & _); [by split|].
      destruct (set_controller_ok (f_daemon g) fc k Hc Hd Hw1 Hrec1) as [? ?].
      split; simpl; try done. intros _. by apply Hsel.
Qed.

Lemma fine_op_ok g k : fine_ok g -> fine_ok (mkFine (set_kernel (f_daemon g) k) (f_pc g)).
Proof. intros [Hc Hd Ha Hp Hcall Hsel]. destruct (set_kernel_ok _ k Hc Hd). by split. Qed.

Lemma fine_start_ok mgr h k now : wired mgr -> fine_ok (fine_start (daemon_start mgr h k now)).
Proof.
  intros Hw. destruct (start_ok mgr h k now Hw) as [Hc Hd]. by split.
Qed.

Lemma fine_shared_ok mgr h k now ops g :
  wired mgr -> fine_shared (fine_start (daemon_start mgr h k now)) ops g -> fine_ok g.
Proof.
  intros Hw. induction 1 as [|ops g w g' _ IH Hs|ops g o k' _ IH _]; [by apply fine_start_ok| |by apply fine_op_ok].
  destruct (fine_step_ok g w _ IH Hs) as (g1 & E & Hok). by injection E as ->.
Qed.

(** ** Bounded and live *)

Definition fine_measure (g : fine) : nat := 4 * measure (f_daemon g) + section_weight (f_pc g).

Lemma fine_step_measure g g' : fine_ok g -> fine_step g Self (Some g') -> (fine_measure g' < fine_measure g)%nat.
Proof.
  intros [Hc Hd _ _ _ _] Hs. unfold fine_measure. inversion Hs as [w' [d'|] Ho Hw E|w' o' Hctl]; subst; clear Hs.
  - pose proof (self_measure _ _ Hd Hc (other_coarse _ _ _ Ho)). simpl. lia.
  - inversion Hctl as [Hg Hf Hcan|Hg Hf Hal Hcl|al rest Hg Hf Hal| |now Hne Hw' E]; subst; clear Hctl; rewrite ?Hg; simpl.
    + pose proof (self_measure _ _ Hd Hc (step_fc _ _ _ (fc_cancelled _ Hf Hcan))). lia.
    + pose proof (self_measure _ _ Hd Hc (step_fc _ _ _ (fc_closed _ Hf Hal Hcl))). lia.
    + unfold measure. simpl. rewrite Hal, Hf. simpl. lia.
    + destruct (next_section _ _ _ _) as [[[fc k] pc]|] eqn:E1; [|done]. injection E as <-.
      pose proof (next_section_weight _ _ _ _ _ _ _ Hne E1). simpl.
      change (measure (set_fc (f_daemon g) k fc (d_alerts (f_daemon g)) (d_fcpc (f_daemon g)))) with (measure (f_daemon g)). lia.
Qed.

Inductive fine_self : fine -> fine -> Prop :=
  | fine_self_refl g : fine_self g g
  | fine_self_step g g' g'' : fine_step g Self (Some g') -> fine_self g' g'' -> fine_self g g''.

(** Once the context is cancelled, some goroutine can move. *)
Lemma fine_progress g :
  fine_ok g -> d_cancelled (f_daemon g) = true -> d_main (f_daemon g) <> MReturned ->
  exists g', fine_step g Self (Some g').
Proof.
  intros Hok Hcan Hm. assert (Hsome : forall o, fine_step g Self o -> exists g', fine_step g Self (Some g')).
  { intros o Hs. destruct (fine_step_ok g _ _ Hok Hs) as (g' & -> & _). by exists g'. }
  assert (Hpc : f_pc g = GSelect \/ f_pc g <> GSelect) by (destruct (f_pc g); auto; right; discriminate).
  destruct Hpc as [Hpc|Hne]; [|eapply Hsome, fine_controller; by apply (g_section g 0)].
  destruct Hok as [Hc Hd _ _ _ _]. destruct (progress _ Hc Hd Hcan Hm) as [d' Hs].
  assert (Hother : other_step (f_daemon g) Self (Some d') -> exists g', fine_step g Self (Some g')).
  { intros Ho. eexists. by apply (fine_other g _ _ Ho). }
  destruct Hs as [Hs|Hs|Hs|Hs|Hs]; [by apply Hother, other_main|by apply Hother, other_agg|by apply Hother, other_inf| |by apply Hother, other_sig].
  assert (Hf : d_fcpc (f_daemon g) = FSelect) by (by inversion Hs). eexists. by apply fine_controller, g_cancelled.
Qed.

Lemma fine_cancelled g w g' : d_cancelled (f_daemon g) = true -> fine_step g w (Some g') -> d_cancelled (f_daemon g') = true.
Proof.
  intros Hcan Hs. inversion Hs as [w' [d'|] Ho Hw E|w' o' Hctl]; subst; clear Hs.
  - by eapply cancelled_kept, other_coarse.
  - inversion Hctl as [| | | |now Hne Hw' E]; subst; clear Hctl; try done.
    destruct (next_section _ _ _ _) as [[[fc k] pc]|]; [|done]. by injection E as <-.
Qed.

Lemma fine_to_end n g :
  (fine_measure g <= n)%nat -> fine_ok g -> d_cancelled (f_daemon g) = true ->
  exists g', fine_self g g' /\ d_main (f_daemon g') = MReturned /\ fine_ok g'.
Proof.
  revert g. induction n as [|n IH]; intros g Hn Hok Hcan;
    (assert (Hm : d_main (f_daemon g) = MReturned \/ d_main (f_daemon g) <> MReturned) by (destruct (d_main (f_daemon g)); auto; right; discriminate));
    (destruct Hm as [Hm|Hm]; [exists g; split_and!; [constructor|done|done]|]);
    destruct (fine_progress g Hok Hcan Hm) as [g' Hs]; pose proof (fine_step_measure g g' Hok Hs); [lia|].
  destruct (fine_step_ok g _ _ Hok Hs) as (g1 & E & Hok1). injection E as <-.
  destruct (IH g') as (g2 & Hss & Hret); [lia|done|by eapply fine_cancelled|]. exists g2. split; [by eapply fine_self_step|done].
Qed.

(** C5: the daemon never panics, its buffers are bounded and it shuts down, whatever
    the other processes do. Whatever they do to the maps, between any two critical sections, channel
    operations or kernel calls of the daemon: no step of the daemon panics; its
    channels stay within their buffers; every step of its own decreases
    [fine_measure], so that it never spins; and once its context is cancelled, by a
    signal, the caller or the reader, some goroutine can always move and their own steps
    lead to the return of [RunDaemon], with both channels closed. *)
Theorem fine_daemon_sound (mgr : MapManager) (h : Host) (k : kernel) (now : Z) (ops : list map_op) (g : fine) :
  wired mgr -> fine_shared (fine_start (daemon_start mgr h k now)) ops g ->
  (forall w o, fine_step g w o -> o <> None) /\
  Z.of_nat (length (out (d_agg (f_daemon g)))) <= outputBufferSize /\
  Z.of_nat (length (d_alerts (f_daemon g))) <= alertBufferSize /\
  (forall g', fine_step g Self (Some g') -> (fine_measure g' < fine_measure g)%nat) /\
  (d_cancelled (f_daemon g) = true ->
   (d_main (f_daemon g) <> MReturned -> exists g', fine_step g Self (Some g')) /\
   exists g', fine_self g g' /\ d_main (f_daemon g') = MReturned /\
     out_closed (d_agg (f_daemon g')) = true /\ d_alerts_closed (f_daemon g') = true).
Proof.
  intros Hw Hr. pose proof (fine_shared_ok mgr h k now ops g Hw Hr) as Hok. pose proof (g_data g Hok) as [].
  split_and!; [|done|done|intros g'; by apply fine_step_measure|intros Hcan; split; [by apply fine_progress|]].
  - intros w o Hs. by destruct (fine_step_ok g w o Hok Hs) as (g' & -> & _).
  - destruct (fine_to_end (fine_measure g) g) as (g' & Hs & Hm & [[] _ _ _ _ _]); [done..|].
    exists g'. destruct (i_returned Hm) as (Ha & Hi & _). split_and!; [done|done|by apply i_out|by apply i_alerts].
Qed.

(** Among commands, every record but the one in progress has its entry. *)
Lemma fine_shared_enforced mgr h k now ops g :
  wired mgr -> Forall (fun o => o <> OpForeign) ops -> fine_shared (fine_start (daemon_start mgr h k now)) ops g ->
  enforced_but (f_pc g) (d_fc (f_daemon g)) (d_kernel (f_daemon g)).
Proof.
  intros Hw Hops Hr. induction Hr as [|ops g w g' Hr IH Hs|ops g o k' Hr IH Hst]; [intros src t; simpl; by intros ?%lookup_empty_Some| |].
  - specialize (IH Hops). destruct (fine_shared_ok mgr h k now ops g Hw Hr) as [_ _ _ _ Hcall _].
    inversion Hs as [w' [d'|] Ho Hw' E|w' o' Hctl]; subst; clear Hs.
    + destruct (other_frame _ _ _ Ho) as (Ef & Ek & _). simpl. by rewrite Ef, Ek.
    + inversion Hctl as [Hg|Hg|al rest Hg|now' Hg|now' Hne Hw' E]; subst; clear Hctl; rewrite ?Hg in IH; try exact IH.
      destruct (next_section_effect _ (d_kernel (f_daemon g)) _ now' Hcall Hne) as (fc & k1 & pc & E1 & He).
      rewrite E1 in E. injection E as <-. by eapply section_effect_enforced.
  - apply Forall_cons in Hops as [Hne Hops]. intros src t Hb Hp. destruct (IH Hops src t Hb Hp) as (addr & Hn & Hent).
    exists addr. split; [done|]. simpl. by destruct (op_reputation o _ k' addr Hne Hst) as [->|(? & ? & _ & _ & _ & ->)].
Qed.

(** C2: what the controller believes blocked is stopped, whatever the operator
    does. In every state the daemon reaches, stopped between any two critical
    sections or kernel calls, among the commands of other processes, whatever the
    traffic, the failures of the kernel and the scheduler, each source the
    controller tracks is the dotted quad of one address, and the firewall
    drops every well-formed, unfragmented IPv4 packet from it (in dry-run mode it
    passes it), except the one source the controller is about to block or has just
    unblocked, whose record it will correct before it handles another alert. So
    skipping the alerts for a tracked source is sound. *)
Theorem tracked_stopped_at_every_section (mgr : MapManager) (h : Host) (k : kernel) (now : Z) (ops : list map_op) (g : fine)
    (src : string) (t : Z) :
  wired mgr -> fine_shared (fine_start (daemon_start mgr h k now)) ops g -> Forall (fun o => o <> OpForeign) ops ->
  blocked (d_fc (f_daemon g)) !! src = Some t -> in_progress (f_pc g) <> Some src ->
  exists addr, names src addr /\ stopped_from (d_kernel (f_daemon g)) addr.
Proof.
  intros Hw Hr Hops Hb Hp. destruct (fine_shared_enforced mgr h k now ops g Hw Hops Hr src t Hb Hp) as (addr & Hn & Hent).
  exists addr. split; [done|]. by apply blocked_stopped.
Qed.

(** C3: a safe address is blocked only on an operator's request, at every
    section. In any run among the commands of other processes, which may fall between any
    two critical sections or kernel calls of the daemon, if an address of a
    network that was safe at start-up was not blocked then, and is blocked now, it
    is because some process was asked to block the prefix of that very address:
    the daemon never does, and never makes another command's doing its own. (Blocked
    by its own /32 entry: a shorter prefix that covers it is a command of the operator too, and
    is not what this is about.) *)
Theorem safe_blocked_only_by_command (mgr : MapManager) (h : Host) (k : kernel) (now : Z) (ops : list map_op) (g : fine)
    (n : IPNet) (a b c e : Z) :
  wired mgr -> fine_shared (fine_start (daemon_start mgr h k now)) ops g -> Forall (fun o => o <> OpForeign) ops ->
  n ∈ DiscoverSafeNetworks h -> Contains n (IPv4 a b c e) = true -> blocked_entry k [a; b; c; e] = None ->
  blocked_entry (d_kernel (f_daemon g)) [a; b; c; e] = None \/ asked_for ops [a; b; c; e].
Proof.
  intros Hw Hr Hops Hn Hc Hb.
  assert (Hs : n ∈ safeNetworks (d_fc (f_daemon g)) /\
    (blocked_entry (d_kernel (f_daemon g)) [a; b; c; e] = None \/ asked_for ops [a; b; c; e])); [|apply Hs].
  induction Hr as [|ops g w g' Hr IH Hst|ops g o k' Hr IH Hst].
  - split; [done|by left].
  - specialize (IH Hops). destruct (fine_shared_ok mgr h k now ops g Hw Hr) as [_ _ _ _ Hcall _].
    inversion Hst as [w' [d'|] Ho Hw' E|w' o' Hctl]; subst; clear Hst.
    + destruct (other_frame _ _ _ Ho) as (Ef & Ek & _). simpl. by rewrite Ef, Ek.
    + inversion Hctl as [| | | |now' Hne Hw' E]; subst; clear Hctl; try exact IH.
      destruct (next_section_effect _ (d_kernel (f_daemon g)) _ now' Hcall Hne) as (fc & k1 & pc & E1 & He).
      rewrite E1 in E. injection E as <-. destruct (section_effect_ok _ _ _ _ _ _ He Hcall) as (_ & _ & Es). simpl. rewrite Es.
      destruct IH as [Hin [Hnone|Hasked]]; (split; [done|]); [left|by right]. by eapply (section_effect_safe _ _ _ _ _ _ n).
  - apply Forall_cons in Hops as [Hne Hops]. destruct (IH Hops) as [Hin Hor]. split; [done|].
    destruct Hor as [Hnone|Hasked]; [|right; by apply asked_more].
    destruct (op_reputation o _ k' [a; b; c; e] Hne Hst) as [Ekeep|(cidr & key & -> & Hkey & Hcan & _)].
    + left. simpl. by rewrite Ekeep.
    + right. exists cidr, key. split; [apply list_elem_of_here|done].
Qed.
End among.

(** ** Examples *)

(** The state in which the operator's prefix has been blocked. *)
Definition with_block (cidr : string) (g : @fine sim_ebpf) : @fine sim_ebpf :=
  mkFine (@set_kernel sim_ebpf (f_daemon g) (block_with sim_manager cidr (d_kernel (f_daemon g)))) (f_pc g).

Lemma with_block_shared g0 ops g cidr :
  @fine_shared sim_ebpf sim_laws list_order sample_math g0 ops g ->
  @fine_shared sim_ebpf sim_laws list_order sample_math g0 (OpBlockIP cidr :: ops) (with_block cidr g).
Proof. intros Hr. eapply fine_op; [exact Hr|]. apply block_with_step, sim_wired. Qed.

(** The sweep begins. *)
Definition sweeping (now : Z) (d : @daemon sim_ebpf) : @fine sim_ebpf :=
  mkFine d (GSweep (@expired_at list_order now (blocked (d_fc d)))).

Lemma sweeping_shared d0 ops d now :
  @fine_shared sim_ebpf sim_laws list_order sample_math d0 ops (mkFine d GSelect) -> d_fcpc d = FSelect ->
  @fine_shared sim_ebpf sim_laws list_order sample_math d0 ops (sweeping now d).
Proof. intros Hr Hf. eapply fine_own; [exact Hr|]. by apply fine_controller, (@g_tick sim_ebpf list_order (mkFine d GSelect) now). Qed.

Lemma sections_atomic_witness :
  @fine_shared sim_ebpf sim_laws list_order sample_math (fine_start (@daemon_start sim_ebpf sim_manager sim_host (sim_start []) 0)) []
    (mkFine (sim_flooded (sim_start [])) GSelect).
Proof.
  pose proof (sim_flooded_reachable (sim_start [])) as Hr. revert Hr. generalize (sim_flooded (sim_start [])) as d. intros d Hr.
  apply (@sections_atomic sim_ebpf sim_laws list_order sample_math sim_manager sim_host (sim_start []) 0 sim_wired), Hr.
Defined.

Lemma fine_daemon_sound_witness :
  exists g', @fine_self sim_ebpf list_order sample_math (with_block "127.0.0.1/32" (fine_start sim_cancelled)) g' /\
    d_main (f_daemon g') = MReturned.
Proof.
  destruct (@fine_daemon_sound sim_ebpf sim_laws list_order sample_math sim_manager sim_host
    (sim_start []) 0 sim_blocks (with_block "127.0.0.1/32" (fine_start sim_cancelled)) sim_wired) as (_ & _ & _ & _ & Hend).
  - apply with_block_shared, coarse_fine, sim_reaches.
  - destruct (Hend eq_refl) as (_ & g' & Hs & Hm & _). exists g'. split; [exact Hs|exact Hm].
Defined.

Lemma safe_blocked_only_by_command_witness : @asked_for sim_ebpf sim_laws sim_blocks [127; 0; 0; 1].
Proof.
  destruct (@safe_blocked_only_by_command sim_ebpf sim_laws list_order sample_math sim_manager sim_host
    (sim_start []) 0 sim_blocks (with_block "127.0.0.1/32" (fine_start sim_cancelled)) (mkIPNet [127; 0; 0; 0] [255; 0; 0; 0]) 127 0 0 1 sim_wired)
    as [Hn|Ha].
  - apply with_block_shared, coarse_fine, sim_reaches.
  - repeat constructor. discriminate.
  - vm_compute. apply list_elem_of_here.
  - vm_compute. reflexivity.
  - vm_compute. reflexivity.
  - vm_compute in Hn. discriminate.
  - exact Ha.
Defined.

(** The flood's source is about to be swept when the operator blocks another. *)
Lemma tracked_stopped_at_every_section_witness :
  exists g, @fine_shared sim_ebpf sim_laws list_order sample_math
      (fine_start (@daemon_start sim_ebpf sim_manager sim_host (sim_start []) 0)) [OpBlockIP "192.0.2.7/32"] g /\
    f_pc g = GSweep ["10.0.0.1"] /\ fst (run_packet 0 (d_kernel (f_daemon g))) = XDP_DROP.
Proof.
  assert (Hsum : let d := sim_flooded (sim_start []) in
    (blocked (d_fc d) !! dotted [10; 0; 0; 1], f_pc (sweeping (302 * 1000000000) d), d_fcpc d,
     @dry_run_mode sim_helpers (sim_dataplane (block_with sim_manager "192.0.2.7/32" (d_kernel d)))) =
    (Some (1000 + BlockTTL), GSweep ["10.0.0.1"], FSelect, false)) by (vm_compute; reflexivity).
  pose proof (sim_flooded_reachable (sim_start [])) as Hr. revert Hsum Hr. cbv zeta. generalize (sim_flooded (sim_start [])) as d.
  intros d Hsum Hr. injection Hsum as Hb Hpc Hf Hd.
  set (g := with_block "192.0.2.7/32" (sweeping (302 * 1000000000) d)).
  assert (Hs : @fine_shared sim_ebpf sim_laws list_order sample_math
    (fine_start (@daemon_start sim_ebpf sim_manager sim_host (sim_start []) 0)) [OpBlockIP "192.0.2.7/32"] g)
    by (apply with_block_shared, sweeping_shared; [apply coarse_fine, Hr|exact Hf]).
  exists g. split; [exact Hs|]. split; [simpl; f_equal; exact Hpc|].
  destruct (@tracked_stopped_at_every_section sim_helpers sim_helper_laws sim_ebpf sim_laws list_order sample_math
    sim_manager sim_host (sim_start []) 0 _ g _ _ sim_wired Hs ltac:(repeat constructor; discriminate) Hb ltac:(discriminate)) as (addr & Hn & Hstop).
  assert (Ha : addr = [10; 0; 0; 1]) by (destruct (names_addr _ _ Hn) as (_ & <- & _); vm_compute; reflexivity).
  subst addr. apply stopped_sim; [exact Hstop|exact Hd].
Defined.
