(* ===== verification/Loader.v ===== *)
(** * The loader ([ebpf-loader/src/main.rs])

    The Rust program that loads the kernel program, pins its maps where the
    control plane opens them, attaches it to one interface, waits for Ctrl-C and
    cleans up. The Aya library, the file system and the kernel are the class
    [Aya]; their documented behaviour is [AyaLaws]. *)

From S2P Require Import Prelude MapManager.
From Stdlib Require Import Ascii.

Inductive XdpFlags := SKB_MODE | default_flags.

Record Opt := mkOpt { iface : string; skb : bool }.

Class Aya := {
  world : Type;                  (* the kernel and the BPF file system *)
  object : Type;                 (* [aya::Ebpf], a loaded object file *)
  bpf_map : Type;
  program : Type;
  setrlimit : world -> world * bool;
  Ebpf_load : world -> world * result object;
  EbpfLogger_init : world -> object -> world * option error;
  map_mut : object -> string -> option bpf_map;
  program_mut : object -> string -> option program;
  try_into_xdp : program -> option error;
  program_load : world -> program -> world * option error;
  program_attach : world -> program -> string -> XdpFlags -> world * option error;
  drop_object : world -> object -> world;
  pin : world -> bpf_map -> string -> world * option error;
  create_dir_all : world -> string -> world * option error;
  remove_file : world -> string -> world * option error;
  remove_dir_all : world -> string -> world * option error;
  debug_flags : XdpFlags -> string    (* [{:?}] *)
}.

(** The documented behaviour, on the pinned maps and the program attached to an
    interface. Pinning refuses a path that exists; a pinned map outlives its
    object; dropping an object detaches its programs. *)
Class AyaLaws `{Aya} := {
  pins : world -> gmap string bpf_map;
  attached : world -> string -> option program;

  setrlimit_law w : pins (fst (setrlimit w)) = pins w /\ attached (fst (setrlimit w)) = attached w;
  load_object_law w : pins (fst (Ebpf_load w)) = pins w /\ attached (fst (Ebpf_load w)) = attached w;
  logger_law w o : pins (fst (EbpfLogger_init w o)) = pins w /\ attached (fst (EbpfLogger_init w o)) = attached w;
  program_load_law w p : pins (fst (program_load w p)) = pins w /\ attached (fst (program_load w p)) = attached w;
  create_dir_law w d : pins (fst (create_dir_all w d)) = pins w /\ attached (fst (create_dir_all w d)) = attached w;
  pin_law w m path :
    let '(w', e) := pin w m path in
    attached w' = attached w /\
    match e with None => pins w !! path = None /\ pins w' = <[path := m]> (pins w) | Some _ => pins w' = pins w end;
  remove_file_law w path :
    let '(w', e) := remove_file w path in
    attached w' = attached w /\ match e with None => pins w' = delete path (pins w) | Some _ => pins w' = pins w end;
  remove_dir_law w d :
    let '(w', e) := remove_dir_all w d in
    attached w' = attached w /\
    forall file, match e with None => pins w' !! filepath_Join d file = None
                         | Some _ => pins w' !! filepath_Join d file = pins w !! filepath_Join d file \/ pins w' !! filepath_Join d file = None end;
  attach_law w p i f :
    let '(w', e) := program_attach w p i f in
    pins w' = pins w /\
    match e with None => forall i', attached w' i' = (if decide (i' = i) then Some p else attached w i') | Some _ => attached w' = attached w end;
  drop_law w o :
    pins (drop_object w o) = pins w /\
    forall i, attached (drop_object w o) i = attached w i \/
      (attached (drop_object w o) i = None /\ exists name p, program_mut o name = Some p /\ attached w i = Some p);
  drop_detaches_law w o name p i : program_mut o name = Some p -> attached w i = Some p -> attached (drop_object w o) i = None
}.

(** ** The program *)

Section loader.
Context `{Aya}.

(** One [if let Some(map) = ebpf.map_mut(name)] block. Its two results are
    discarded by [let _ =]; the second one, that of [pin], is returned here for the theorems to
    speak of. *)
Definition pin_map (o : object) (name file : string) (w : world) : world * option (option error) :=
  match map_mut o name with
  | Some map =>
      let path := filepath_Join BpfFsPath file in
      let '(w, _) := remove_file w path in
      let '(w, e) := pin w map path in
      (w, Some e)
  | None => (w, None)
  end.

Definition loader_maps : list (string * string) :=
  [("REPUTATION_MAP", "reputation_map"); ("PORT_GATE_MAP", "port_gate_map"); ("RATE_LIMIT_MAP", "rate_limit_map");
   ("CONFIG_MAP", "config_map"); ("EVENTS", "events")]%string.

Fixpoint pin_maps (o : object) (maps : list (string * string)) (w : world) : world * list (option (option error)) :=
  match maps with
  | [] => (w, [])
  | (name, file) :: maps =>
      let '(w, e) := pin_map o name file w in
      let '(w, es) := pin_maps o maps w in
      (w, e :: es)
  end.

Definition loader_flags (opt : Opt) : XdpFlags :=
  if skb opt || bool_decide (iface opt = "lo"%string) then SKB_MODE else default_flags.

Definition context (msg : string) (e : error) : error := ErrorfW (msg +:+ ": %w") [] e.

(** Loading the program and attaching it, once the maps are pinned. *)
Definition attach_program (opt : Opt) (o : object) (w : world) : world * option error :=
  match program_mut o "ai_ida_firewall" with
  | None => (w, Some (Errorf "failed to find eBPF program 'ai_ida_firewall'" []))
  | Some p =>
      match try_into_xdp p with
      | Some e => (w, Some e)
      | None =>
          let '(w, e) := program_load w p in
          match e with
          | Some e => (w, Some e)
          | None =>
              let '(w, e) := program_attach w p (iface opt) (loader_flags opt) in
              (w, option_map (context "failed to attach the XDP program to network interface") e)
          end
      end
  end.

Definition loader_banner (opt : Opt) : list printed :=
  [Println "===========================================================";
   Println "🛡️  AI-IDA Kernel Firewall Subsystem (Phase 2 Active)";
   Printf "📡 Attached to interface: '{}' with flags: {:?}" [ArgS (iface opt); ArgS (debug_flags (loader_flags opt))] None;
   Println "📌 Pinned BPF Maps to /sys/fs/bpf/ai_ida/";
   Println "⚡ Line-rate Data Plane is enforcing RFC & Static rules";
   Println "🛑 Press Ctrl-C to detach and exit";
   Println "==========================================================="].

(** Up to the wait. An error drops the object. *)
Definition setup (opt : Opt) (w : world) : world * result object * list (option (option error)) :=
  let '(w, _) := setrlimit w in
  let '(w, r) := Ebpf_load w in
  match r with
  | Err e => (w, Err e, [])
  | Ok o =>
      let '(w, _) := EbpfLogger_init w o in
      let '(w, _) := create_dir_all w BpfFsPath in
      let '(w, es) := pin_maps o loader_maps w in
      let '(w, e) := attach_program opt o w in
      match e with
      | Some e => (drop_object w o, Err e, es)
      | None => (w, Ok o, es)
      end
  end.

(** After Ctrl-C. The object is dropped when [main] returns. *)
Definition teardown (o : object) (w : world) : world :=
  let '(w, _) := remove_dir_all w BpfFsPath in drop_object w o.

Definition loader_farewell : list printed :=
  [Println (newline +:+ "[AI-IDA] Safely detached from network stack. Exiting...")].

(** [wait] is [ctrl_c().await], with what the rest of the system does
    meanwhile. *)
Definition loader_main (opt : Opt) (wait : world -> world * option error) (w : world) : world * list printed * option error :=
  let '(w, r, _) := setup opt w in
  match r with
  | Err e => (w, [], Some e)
  | Ok o =>
      let '(w, e) := wait w in
      match e with
      | Some e => (drop_object w o, loader_banner opt, Some e)
      | None => (teardown o w, loader_banner opt ++ loader_farewell, None)
      end
  end.
End loader.

(** ** What it leaves behind *)

Section laws.
Context `{AyaLaws}.

(** From [w] to [w'] the programs of the object are detached, and nothing else. *)
Definition detached (o : object) (w w' : world) : Prop :=
  (forall i name p, program_mut o name = Some p -> attached w' i <> Some p) /\
  (forall i, attached w' i = attached w i \/
     (attached w' i = None /\ exists name p, program_mut o name = Some p /\ attached w i = Some p)).

Lemma drop_detached o w : pins (drop_object w o) = pins w /\ detached o w (drop_object w o).
Proof.
  destruct (drop_law w o) as [Hp Ha]. split; [done|]. split; [|exact Ha].
  intros i name p Hn E. destruct (Ha i) as [E'|[E' _]]; [|congruence].
  rewrite (drop_detaches_law w o name p i Hn) in E; congruence.
Qed.

(** After Ctrl-C: the cleanup of the pins, then the object is dropped. *)
Lemma teardown_spec o w :
  detached o w (teardown o w) /\
  forall file, (snd (remove_dir_all w BpfFsPath) = None -> pins (teardown o w) !! pinned file = None) /\
    (pins (teardown o w) !! pinned file = pins w !! pinned file \/ pins (teardown o w) !! pinned file = None).
Proof.
  unfold teardown. pose proof (remove_dir_law w BpfFsPath) as Hr. destruct (remove_dir_all w BpfFsPath) as [w1 e]. destruct Hr as [Ha Hp].
  destruct (drop_detached o w1) as [-> Hd]. unfold detached in *. rewrite Ha in Hd. split; [exact Hd|].
  intros file. specialize (Hp file). unfold pinned. simpl. destruct e; [by split|]. split; [done|by right].
Qed.

(** The pin of a map, before ([w]) and after ([w']), by the result that the
    program discards. *)
Definition pinned_as (o : object) (w w' : world) (entry : string * string) (e : option (option error)) : Prop :=
  let path := pinned (snd entry) in
  match map_mut o (fst entry), e with
  | Some m, Some None => pins w' !! path = Some m
  | Some _, Some (Some _) => pins w' !! path = pins w !! path \/ pins w' !! path = None
  | None, None => pins w' !! path = pins w !! path
  | _, _ => False
  end.

Lemma pin_map_spec o name file w :
  let '(w', e) := pin_map o name file w in
  attached w' = attached w /\ (forall path, path <> pinned file -> pins w' !! path = pins w !! path) /\ pinned_as o w w' (name, file) e.
Proof.
  unfold pin_map, pinned_as. simpl. destruct (map_mut o name) as [m|]; [|done].
  pose proof (remove_file_law w (pinned file)) as Hr. unfold pinned in *. destruct (remove_file w _) as [w1 e1]. destruct Hr as [Ha1 Hp1].
  pose proof (pin_law w1 m (filepath_Join BpfFsPath file)) as Hp. destruct (pin w1 m _) as [w2 e2]. destruct Hp as [Ha2 Hp2].
  split; [congruence|].
  assert (H1 : forall path, path <> filepath_Join BpfFsPath file -> pins w1 !! path = pins w !! path)
    by (intros path Hne; destruct e1; rewrite Hp1; [done|by rewrite lookup_delete_ne]).
  destruct e2 as [e2|].
  - rewrite Hp2. split; [exact H1|]. destruct e1; rewrite Hp1; [by left|right; apply lookup_delete_eq].
  - destruct Hp2 as [_ ->]. split; [|apply lookup_insert_eq]. intros path Hne. rewrite lookup_insert_ne by done. by apply H1.
Qed.

Lemma pinned_inj f f' : pinned f = pinned f' -> f = f'.
Proof. unfold pinned, filepath_Join. by intros ?%(inj _)%(inj _). Qed.

Lemma pin_maps_spec o maps w :
  NoDup (map snd maps) ->
  let '(w', es) := pin_maps o maps w in
  attached w' = attached w /\ (forall path, path ∉ map (fun e => pinned (snd e)) maps -> pins w' !! path = pins w !! path) /\
  Forall2 (pinned_as o w w') maps es.
Proof.
  revert w. induction maps as [|[name file] maps IH]; intros w Hnd; simpl; [by repeat constructor|].
  apply NoDup_cons in Hnd as [Hnotin Hnd]. simpl in Hnotin. pose proof (pin_map_spec o name file w) as H1'.
  destruct (pin_map o name file w) as [w1 e]. destruct H1' as (Ha1 & Hp1 & Hm1).
  specialize (IH w1 Hnd). destruct (pin_maps o maps w1) as [w2 es]. destruct IH as (Ha2 & Hp2 & Hm2).
  assert (Hother : pinned file ∉ map (fun e => pinned (snd e)) maps).
  { intros (x & Hx & Hin)%list_elem_of_fmap. apply Hnotin. apply list_elem_of_fmap. exists x. split; [by apply pinned_inj|done]. }
  split_and!; [congruence| |constructor].
  - intros path [Hne Hrest]%not_elem_of_cons. by rewrite Hp2, Hp1.
  - unfold pinned_as in *. simpl in *. by rewrite (Hp2 _ Hother).
  - apply Forall2_same_length_lookup. split; [by eapply Forall2_length|]. intros i x y Hx Hy.
    pose proof (Forall2_lookup_lr _ _ _ _ _ _ Hm2 Hx Hy) as Hxy. unfold pinned_as in *.
    rewrite <- (Hp1 (pinned (snd x))); [exact Hxy|]. intros E%pinned_inj. apply Hnotin. apply list_elem_of_fmap.
    exists x. split; [done|]. by eapply list_elem_of_lookup_2.
Qed.

Lemma attach_program_spec opt o w :
  let '(w', e) := attach_program opt o w in
  pins w' = pins w /\
  match e with
  | None => exists p, program_mut o "ai_ida_firewall" = Some p /\
      forall i, attached w' i = if decide (i = iface opt) then Some p else attached w i
  | Some _ => attached w' = attached w
  end.
Proof.
  unfold attach_program. destruct (program_mut o _) as [p|] eqn:Ep; [|done]. destruct (try_into_xdp p); [done|].
  pose proof (program_load_law w p) as Hl. destruct (program_load w p) as [w1 [e1|]]; simpl in Hl; [done|]. destruct Hl as [Hp Ha].
  pose proof (attach_law w1 p (iface opt) (loader_flags opt)) as Ht. destruct (program_attach w1 p _ _) as [w2 [e2|]]; simpl; destruct Ht as [Hp2 Ha2].
  - split; congruence.
  - split; [congruence|]. exists p. split; [done|]. intros i. by rewrite Ha2, Ha.
Qed.

Lemma loader_maps_files : NoDup (map snd loader_maps).
Proof. apply (bool_decide_unpack _). by vm_compute. Qed.

(** The calls before the pins. *)
Lemma setup_phases opt w :
  match setup opt w with
  | (w', Err e, []) => pins w' = pins w /\ attached w' = attached w
  | (w', r, es) => exists o w1 w2, pins w1 = pins w /\ attached w1 = attached w /\ pin_maps o loader_maps w1 = (w2, es) /\
      match r with
      | Ok o' => o' = o /\ attach_program opt o w2 = (w', None)
      | Err e => exists w3, attach_program opt o w2 = (w3, Some e) /\ w' = drop_object w3 o
      end
  end.
Proof.
  unfold setup. pose proof (setrlimit_law w) as [P1 A1]. destruct (setrlimit w) as [w1 b]. simpl in P1, A1.
  pose proof (load_object_law w1) as [P2 A2]. destruct (Ebpf_load w1) as [w2 [o|e]]; simpl in P2, A2; [|split; congruence].
  pose proof (logger_law w2 o) as [P3 A3]. destruct (EbpfLogger_init w2 o) as [w3 e3]. simpl in P3, A3.
  pose proof (create_dir_law w3 BpfFsPath) as [P4 A4]. destruct (create_dir_all w3 BpfFsPath) as [w4 e4]. simpl in P4, A4.
  destruct (pin_maps o loader_maps w4) as [w5 es] eqn:Ep. assert (Hes : es <> []).
  { pose proof (pin_maps_spec o loader_maps w4) as Hs. rewrite Ep in Hs. destruct Hs as (_ & _ & Hf); [exact loader_maps_files|].
    intros ->. by apply Forall2_nil_inv_r in Hf. }
  destruct (attach_program opt o w5) as [w6 [e6|]] eqn:Ea; (destruct es as [|e0 es]; [done|]).
  - exists o, w4, w5. split_and!; [congruence..|done|]. by exists w6.
  - exists o, w4, w5. split_and!; [congruence..|done|done].
Qed.

Lemma pinned_as_ext o w1 w1' w2 w2' es :
  pins w1 = pins w1' -> pins w2 = pins w2' ->
  Forall2 (pinned_as o w1 w2) loader_maps es -> Forall2 (pinned_as o w1' w2') loader_maps es.
Proof. intros E1 E2 Hf. eapply Forall2_impl; [exact Hf|]. unfold pinned_as. intros x y. by rewrite E1, E2. Qed.

(** The two outcomes of [setup], once the object is loaded. *)
Lemma setup_attached opt w w' o es :
  setup opt w = (w', Ok o, es) ->
  Forall2 (pinned_as o w w') loader_maps es /\
  exists p, program_mut o "ai_ida_firewall" = Some p /\
    forall i, attached w' i = if decide (i = iface opt) then Some p else attached w i.
Proof.
  intros E. pose proof (setup_phases opt w) as Hs. rewrite E in Hs.
  assert (Hs' : exists o' w1 w2, pins w1 = pins w /\ attached w1 = attached w /\ pin_maps o' loader_maps w1 = (w2, es) /\
    o = o' /\ attach_program opt o' w2 = (w', None)) by (destruct es; exact Hs).
  destruct Hs' as (o' & w1 & w2 & Hp1 & Ha1 & Epin & <- & Ea).
  pose proof (pin_maps_spec o loader_maps w1 loader_maps_files) as Hpin. rewrite Epin in Hpin. destruct Hpin as (Ha2 & _ & Hf).
  pose proof (attach_program_spec opt o w2) as Hat. rewrite Ea in Hat. destruct Hat as [Hp3 (p & Hprog & Ha3)].
  split; [by eapply pinned_as_ext, Hf|]. exists p. split; [done|]. intros i. by rewrite Ha3, Ha2, Ha1.
Qed.

Lemma setup_failed opt w w' e es :
  setup opt w = (w', Err e, es) -> es <> [] ->
  exists o, Forall2 (pinned_as o w w') loader_maps es /\ detached o w w'.
Proof.
  intros E Hne. pose proof (setup_phases opt w) as Hs. rewrite E in Hs. destruct es as [|e0 es]; [done|].
  destruct Hs as (o & w1 & w2 & Hp1 & Ha1 & Epin & w3 & Ea & ->).
  pose proof (pin_maps_spec o loader_maps w1 loader_maps_files) as Hpin. rewrite Epin in Hpin. destruct Hpin as (Ha2 & _ & Hf).
  pose proof (attach_program_spec opt o w2) as Hat. rewrite Ea in Hat. destruct Hat as [Hp3 Ha3]. destruct (drop_detached o w3) as [Hp4 Ha4].
  exists o. split; [eapply pinned_as_ext, Hf; congruence|]. unfold detached in *. by rewrite Ha3, Ha2, Ha1 in Ha4.
Qed.

(** C35: what the loader leaves behind, on every path. While it waits, the program
    filters the interface, and each map whose [pin] succeeded is the one the control
    plane's [LoadPinnedMaps] will open, whatever was pinned there before; a
    failure to pin is ignored, and leaves the path as it was or, since the old file is
    removed first, empty. After Ctrl-C none of its programs is attached, nothing
    else has been detached, and no pin of its directory is left, unless removing the directory failed, which the
    farewell line does not say. If waiting for Ctrl-C fails, its programs are detached in the same way but all
    pins stay, and the error is returned after the banner. When loading fails nothing has changed. When attaching
    fails, no program of it is attached, the program prints nothing and returns the error, and the pins of maps
    that no program uses stay: the control plane opens them as if the firewall ran. *)
Theorem loader_outcome (opt : Opt) (wait : world -> world * option error) (w w' : world) (r : result object)
    (es : list (option (option error))) :
  setup opt w = (w', r, es) ->
  match r with
  | Ok o => Forall2 (pinned_as o w w') loader_maps es /\
      (exists p, program_mut o "ai_ida_firewall" = Some p /\
        forall i, attached w' i = if decide (i = iface opt) then Some p else attached w i) /\
      let w2 := fst (wait w') in
      exists w3 lines, loader_main opt wait w = (w3, loader_banner opt ++ lines, snd (wait w')) /\ detached o w2 w3 /\
        match snd (wait w') with
        | Some _ => lines = [] /\ pins w3 = pins w2
        | None => lines = loader_farewell /\
            forall file, (snd (remove_dir_all w2 BpfFsPath) = None -> pins w3 !! pinned file = None) /\
              (pins w3 !! pinned file = pins w2 !! pinned file \/ pins w3 !! pinned file = None)
        end
  | Err e => loader_main opt wait w = (w', [], Some e) /\
      ((es = [] /\ pins w' = pins w /\ attached w' = attached w) \/
       exists o, Forall2 (pinned_as o w w') loader_maps es /\ detached o w w')
  end.
Proof.
  intros E. destruct r as [o|e].
  - destruct (setup_attached _ _ _ _ _ E) as [Hpin Hatt]. split; [exact Hpin|]. split; [exact Hatt|]. cbv zeta.
    unfold loader_main. rewrite E. destruct (wait w') as [w2 [e2|]]; simpl fst; simpl snd.
    + exists (drop_object w2 o), []. rewrite app_nil_r. destruct (drop_detached o w2) as [Hp Hd]. by split_and!.
    + destruct (teardown_spec o w2) as [Hd Hp]. exists (teardown o w2), loader_farewell. by split_and!.
  - split; [unfold loader_main; by rewrite E|].
    destruct es as [|e0 es]; [left|right; by eapply setup_failed].
    pose proof (setup_phases opt w) as Hs. by rewrite E in Hs.
Qed.

(** The maps of an object all of whose pins succeeded. *)
Lemma all_pinned o w w' es name file :
  Forall2 (pinned_as o w w') loader_maps es -> Forall (fun e => e = Some None) es -> (name, file) ∈ loader_maps ->
  exists m, map_mut o name = Some m /\ pins w' !! pinned file = Some m.
Proof.
  intros Hf He [i Hi]%list_elem_of_lookup. destruct (Forall2_lookup_l _ _ _ _ _ Hf Hi) as (e & Hei & Hp).
  rewrite Forall_lookup in He. specialize (He i e Hei). subst e. unfold pinned_as in Hp. simpl in Hp.
  destruct (map_mut o name) as [m|]; [by exists m|done].
Qed.

(** C36: two loaders, one set of pins. A second loader on another
    interface takes the pins over: the control plane now opens its maps, while the first
    program goes on filtering with maps that no path names. When the
    first loader is then interrupted, its cleanup removes the pins of the second,
    whose program goes on filtering, out of the control plane's reach. *)
Theorem second_loader_takes_over (optA optB : Opt) (w wA wB : world) (oA oB : object) (esA esB : list (option (option error))) :
  setup optA w = (wA, Ok oA, esA) -> setup optB wA = (wB, Ok oB, esB) -> Forall (fun e => e = Some None) esB ->
  iface optA <> iface optB ->
  (forall name p, program_mut oA name = Some p -> program_mut oB "ai_ida_firewall" <> Some p) ->
  snd (remove_dir_all wB BpfFsPath) = None ->
  is_Some (attached wB (iface optA)) /\ attached wB (iface optA) = program_mut oA "ai_ida_firewall" /\
  is_Some (attached (teardown oA wB) (iface optB)) /\
  attached (teardown oA wB) (iface optB) = program_mut oB "ai_ida_firewall" /\
  forall name file, (name, file) ∈ loader_maps ->
    is_Some (pins wB !! pinned file) /\ pins wB !! pinned file = map_mut oB name /\
    pins (teardown oA wB) !! pinned file = None.
Proof.
  intros EA EB He Hne Hprog Hrm. destruct (setup_attached _ _ _ _ _ EA) as (_ & pA & HpA & HattA).
  destruct (setup_attached _ _ _ _ _ EB) as (HpinB & pB & HpB & HattB).
  unfold teardown. pose proof (remove_dir_law wB BpfFsPath) as Hdir. destruct (remove_dir_all wB BpfFsPath) as [w2 e2]. simpl in Hrm. subst e2.
  destruct Hdir as [Ha2 Hp2]. destruct (drop_law w2 oA) as [Hp3 Ha3].
  assert (HA : attached wB (iface optA) = Some pA) by (rewrite HattB, decide_False by done; rewrite HattA; by rewrite decide_True).
  assert (HB : attached wB (iface optB) = Some pB) by (rewrite HattB; by rewrite decide_True).
  assert (HB3 : attached (drop_object w2 oA) (iface optB) = Some pB).
  { destruct (Ha3 (iface optB)) as [E|(_ & name & p & Hn & Hat)]; [congruence|]. destruct (Hprog name p Hn). congruence. }
  rewrite HA, HB3, HpA, HpB. split_and!; try done.
  intros name file Hin. destruct (all_pinned _ _ _ _ _ _ HpinB He Hin) as (m & Hm & Hpm). rewrite Hpm, Hm, Hp3. by split_and!.
Qed.
End laws.

(** ** A simulated system: each object has its own maps and program *)

Record sim_world := mkWorld {
  sw_next : nat;
  sw_pins : gmap string (nat * string);
  sw_attached : gmap string nat;
  sw_attach_fails : bool
}.

Definition sim_aya : Aya := {|
  world := sim_world; object := nat; bpf_map := nat * string; program := nat;
  setrlimit w := (w, true);
  Ebpf_load w := (mkWorld (S (sw_next w)) (sw_pins w) (sw_attached w) (sw_attach_fails w), Ok (sw_next w));
  EbpfLogger_init w _ := (w, Some (Sentinel "no log map"));
  map_mut o name := Some (o, name);
  program_mut o name := if decide (name = "ai_ida_firewall"%string) then Some o else None;
  try_into_xdp _ := None;
  program_load w _ := (w, None);
  program_attach w p i _ :=
    if sw_attach_fails w then (w, Some (Sentinel "attach"))
    else (mkWorld (sw_next w) (sw_pins w) (<[i := p]> (sw_attached w)) (sw_attach_fails w), None);
  drop_object w o := mkWorld (sw_next w) (sw_pins w) (filter (fun ip => snd ip <> o) (sw_attached w)) (sw_attach_fails w);
  pin w m path :=
    match sw_pins w !! path with
    | Some _ => (w, Some (Sentinel "exists"))
    | None => (mkWorld (sw_next w) (<[path := m]> (sw_pins w)) (sw_attached w) (sw_attach_fails w), None)
    end;
  create_dir_all w _ := (w, None);
  remove_file w path := (mkWorld (sw_next w) (delete path (sw_pins w)) (sw_attached w) (sw_attach_fails w), None);
  remove_dir_all w d := (mkWorld (sw_next w) ∅ (sw_attached w) (sw_attach_fails w), None);
  debug_flags f := match f with SKB_MODE => "SKB_MODE" | default_flags => "0x0" end
|}.

#[program] Definition sim_aya_laws : @AyaLaws sim_aya := {| pins := sw_pins; attached w i := sw_attached w !! i |}.
Next Obligation. done. Qed.
Next Obligation. done. Qed.
Next Obligation. done. Qed.
Next Obligation. done. Qed.
Next Obligation. done. Qed.
Next Obligation. intros w m path. simpl. by destruct (sw_pins w !! path) eqn:E. Qed.
Next Obligation. done. Qed.
Next Obligation. intros w d. simpl. split; [done|]. intros file. apply lookup_empty. Qed.
Next Obligation.
  intros w p i f. simpl. destruct (sw_attach_fails w); [done|]. split; [done|]. intros i'. simpl. case_decide as Hi.
  - subst i'. apply lookup_insert_eq.
  - by apply lookup_insert_ne.
Qed.
Next Obligation.
  intros w o. split; [done|]. intros i. simpl. destruct (sw_attached w !! i) as [p|] eqn:E.
  - destruct (decide (p = o)) as [->|Hne].
    + right. split; [|exists "ai_ida_firewall"%string, o; by rewrite decide_True].
      apply map_lookup_filter_None. right. intros x Ex Hx. rewrite E in Ex. by injection Ex as <-.
    + left. rewrite <- E. rewrite E. by apply map_lookup_filter_Some.
  - left. apply map_lookup_filter_None. by left.
Qed.
Next Obligation.
  intros w o name p i. simpl. case_decide; [|done]. intros [= <-] Hi. apply map_lookup_filter_None. right. intros x Ex Hx.
  rewrite Hi in Ex. by injection Ex as <-.
Qed.

Definition sim_world0 (attach_fails : bool) : sim_world := mkWorld 0 ∅ ∅ attach_fails.

(** Attaching fails: the five pins stay, and no program filters. Attaching
    succeeds, and Ctrl-C follows: nothing is attached, and the pin is gone. *)
Lemma loader_outcome_witness :
  (exists w' e es, @setup sim_aya (mkOpt "eth0" false) (sim_world0 true) = (w', Err e, es) /\
    (forall i, sw_attached w' !! i = None) /\ sw_pins w' !! pinned "config_map" = Some (0%nat, "CONFIG_MAP"%string)) /\
  (exists w3 out, @loader_main sim_aya (mkOpt "eth0" false) (fun w => (w, None)) (sim_world0 false) = (w3, out, None) /\
    sw_attached w3 !! "eth0"%string <> Some 0%nat /\ sw_pins w3 !! pinned "config_map" = None).
Proof.
  split.
  - destruct (@setup sim_aya (mkOpt "eth0" false) (sim_world0 true)) as [[w' [o|e]] es] eqn:E; [vm_compute in E; discriminate|].
    exists w', e, es. split; [reflexivity|].
    assert (Hes : es = replicate 5 (Some None)) by (vm_compute in E; injection E as _ _ <-; reflexivity).
    assert (Hcfg : sw_pins w' !! pinned "config_map" = Some (0%nat, "CONFIG_MAP"%string))
      by (vm_compute in E; injection E as <- _ _; vm_compute; reflexivity).
    destruct (@loader_outcome sim_aya sim_aya_laws (mkOpt "eth0" false) (fun w => (w, None)) (sim_world0 true) w' (Err e) es E)
      as [_ [(Hnil & _)|(o & _ & _ & Ha)]];
      [by rewrite Hes in Hnil|].
    split; [|exact Hcfg]. intros i. destruct (Ha i) as [Hi|[Hi _]]; [|exact Hi]. exact (eq_trans Hi (lookup_empty i)).
  - destruct (@setup sim_aya (mkOpt "eth0" false) (sim_world0 false)) as [[w' [o|e]] es] eqn:E; [|vm_compute in E; discriminate].
    assert (Ho : o = 0%nat) by (vm_compute in E; injection E as _ <- _; reflexivity). subst o.
    destruct (@loader_outcome sim_aya sim_aya_laws (mkOpt "eth0" false) (fun w => (w, None)) (sim_world0 false) w' (Ok 0%nat) es E)
      as (_ & _ & w3 & lines & Hmain & [Hno _] & _ & Hpins).
    exists w3, (@loader_banner sim_aya (mkOpt "eth0" false) ++ lines). split; [exact Hmain|]. split.
    + apply (Hno "eth0"%string "ai_ida_firewall"%string 0%nat). reflexivity.
    + apply Hpins. reflexivity.
Defined.

(** A loader on [eth0], then one on [lo]. *)
Lemma second_loader_takes_over_witness :
  exists wA wB, @setup sim_aya (mkOpt "eth0" false) (sim_world0 false) = (wA, Ok 0%nat, replicate 5 (Some None)) /\
    @setup sim_aya (mkOpt "lo" false) wA = (wB, Ok 1%nat, replicate 5 (Some None)) /\
    sw_attached wB !! "eth0"%string = Some 0%nat /\ sw_pins wB !! pinned "config_map" = Some (1%nat, "CONFIG_MAP"%string) /\
    sw_attached (@teardown sim_aya 0%nat wB) !! "lo"%string = Some 1%nat /\
    sw_pins (@teardown sim_aya 0%nat wB) !! pinned "config_map" = None.
Proof.
  destruct (@setup sim_aya (mkOpt "eth0" false) (sim_world0 false)) as [[wA rA] esA] eqn:EA.
  destruct (@setup sim_aya (mkOpt "lo" false) wA) as [[wB rB] esB] eqn:EB.
  assert (rA = Ok 0%nat /\ esA = replicate 5 (Some None)) as [-> ->] by (vm_compute in EA; injection EA as _ <- <-; by split).
  assert (rB = Ok 1%nat /\ esB = replicate 5 (Some None)) as [-> ->].
  { vm_compute in EA. injection EA as <-. vm_compute in EB. injection EB as _ <- <-. by split. }
  destruct (@second_loader_takes_over sim_aya sim_aya_laws (mkOpt "eth0" false) (mkOpt "lo" false) (sim_world0 false) wA wB 0%nat 1%nat _ _ EA EB)
    as (_ & HA & _ & HB & Hp).
  - by repeat constructor.
  - discriminate.
  - intros name p. simpl. destruct (decide (name = _)); [|discriminate]. by intros [= <-].
  - reflexivity.
  - exists wA, wB. split; [reflexivity|]. split; [exact EB|]. split; [exact HA|].
    destruct (Hp "CONFIG_MAP"%string "config_map"%string) as (_ & H1 & H2); [vm_compute; do 3 right; left|].
    split; [exact H1|]. split; [exact HB|exact H2].
Defined.
